(** * EnvGuard: the environment-file validator, embedded in Rocq

    A shallow embedding of the TypeScript sources of EnvGuard:

    - [EnvParser]          core/parser.ts
    - [SchemaValidator]    core/schema-validator.ts
    - [ExampleValidator]   core/example-validator.ts
    - [SecurityAnalyzer]   security/analyzer.ts
    - [EnvGuardValidator]  core/validator.ts

    Strings are sequences of character codes below 256 ([list ascii]); string
    literals are written as usual and coerced.  JavaScript's white space
    (what [trim] and [\s] remove) is, in that range, the codes 9-13, 32 and
    160; its line terminators (what [.] refuses) are 10 and 13.

    Regular expressions are kept as syntax trees and run by a backtracking
    matcher that follows the matcher of the ECMAScript specification:
    greedy and lazy quantifiers, alternatives tried left to right, capture
    groups, back references, [^], [$] and [\b], and the [i] flag.

    What the program asks of its platform (the file system, the clock,
    [new URL], [Number], [JSON.parse], [new RegExp] on a pattern given as
    text) is a parameter: the class [Host]. *)

From Stdlib Require Import String Ascii List Bool Arith ZArith Lia.
Import ListNotations.
Open Scope string_scope.
Open Scope list_scope.
Open Scope nat_scope.

Set Implicit Arguments.

(* ================================================================== *)
(** ** JavaScript strings *)
(* ================================================================== *)

Definition str := list ascii.

Coercion list_ascii_of_string : string >-> list.

Definition strs (l : list string) : list str := map list_ascii_of_string l.

Module JS.

Definition code (c : ascii) : nat := nat_of_ascii c.

Definition chr_eqb (a b : ascii) : bool := Ascii.eqb a b.

Fixpoint str_eqb (a b : str) : bool :=
  match a, b with
  | [], [] => true
  | x :: a', y :: b' => chr_eqb x y && str_eqb a' b'
  | _, _ => false
  end.

Definition between (lo hi : nat) (c : ascii) : bool :=
  (lo <=? code c) && (code c <=? hi).

(** LineTerminator: LF and CR (U+2028 and U+2029 lie outside the range). *)
Definition isLineTerminator (c : ascii) : bool :=
  (code c =? 10) || (code c =? 13).

(** WhiteSpace and LineTerminator: TAB, LF, VT, FF, CR, SP, NBSP. *)
Definition isWhiteSpace (c : ascii) : bool :=
  between 9 13 c || (code c =? 32) || (code c =? 160).

Definition isDigit (c : ascii) : bool := between 48 57 c.

Definition isWordChar (c : ascii) : bool :=
  between 97 122 c || between 65 90 c || between 48 57 c || (code c =? 95).

(** [String.prototype.toLowerCase], one character. *)
Definition lowerChar (c : ascii) : ascii :=
  if between 65 90 c || (between 192 222 c && negb (code c =? 215))
  then ascii_of_nat (code c + 32) else c.

(** [toUpperCase] on one character, when the result is one character of the
    range (it is what the [i] flag compares). *)
Definition upperChar (c : ascii) : ascii :=
  if between 97 122 c || (between 224 254 c && negb (code c =? 247))
  then ascii_of_nat (code c - 32) else c.

Definition toLowerCase (s : str) : str := map lowerChar s.

Fixpoint trimStart (s : str) : str :=
  match s with
  | c :: t => if isWhiteSpace c then trimStart t else s
  | [] => []
  end.

Definition trimEnd (s : str) : str := rev (trimStart (rev s)).

Definition trim (s : str) : str := trimEnd (trimStart s).

Fixpoint startsWith (s p : str) : bool :=
  match p, s with
  | [], _ => true
  | x :: p', y :: s' => chr_eqb x y && startsWith s' p'
  | _ :: _, [] => false
  end.

Definition endsWith (s p : str) : bool := startsWith (rev s) (rev p).

Fixpoint includes (s p : str) : bool :=
  startsWith s p || match s with [] => false | _ :: t => includes t p end.

(** [s.indexOf(c)] for a one-character needle; [None] is -1. *)
Fixpoint indexOf (s : str) (c : ascii) : option nat :=
  match s with
  | [] => None
  | x :: t => if chr_eqb x c then Some 0
              else match indexOf t c with Some i => Some (S i) | None => None end
  end.

(** [s.substring(i)] and [s.substring(0, i)] for [0 <= i]. *)
Definition substringFrom (s : str) (i : nat) : str := skipn i s.
Definition substringTo (s : str) (i : nat) : str := firstn i s.

(** [s.slice(1, -1)]. *)
Definition slice_1_m1 (s : str) : str := firstn (length s - 2) (skipn 1 s).

(** [s.replace(/ab/g, rep)] for a pattern of two literal characters. *)
Fixpoint replaceAll2 (a b : ascii) (rep : str) (s : str) : str :=
  match s with
  | [] => []
  | c :: t =>
      match t with
      | d :: t' =>
          if chr_eqb c a && chr_eqb d b then rep ++ replaceAll2 a b rep t'
          else c :: replaceAll2 a b rep t
      | [] => [c]
      end
  end.

(** [lines.join(sep)]. *)
Fixpoint join (sep : str) (l : list str) : str :=
  match l with
  | [] => []
  | [x] => x
  | x :: t => x ++ sep ++ join sep t
  end.

Definition LF : ascii := ascii_of_nat 10.
Definition CR : ascii := ascii_of_nat 13.
Definition TAB : ascii := ascii_of_nat 9.
Definition DQ : ascii := ascii_of_nat 34.
Definition SQ : ascii := ascii_of_nat 39.
Definition BACKSLASH : ascii := ascii_of_nat 92.
Definition HASH : ascii := ascii_of_nat 35.

(** [content.split(/\r?\n/)]: a separator is LF, with the CR right before it
    when there is one. *)
Fixpoint split_lines (s : str) : list str :=
  match s with
  | [] => [[]]
  | c :: t =>
      if chr_eqb c LF then [] :: split_lines t
      else if chr_eqb c CR && match t with d :: _ => chr_eqb d LF | [] => false end
      then split_lines t
      else match split_lines t with
           | l :: ls => (c :: l) :: ls
           | [] => [[c]]
           end
  end.

(** A string as a condition: the empty string is falsy. *)
Definition truthy (s : str) : bool := match s with [] => false | _ => true end.

Definition truthyOpt (o : option str) : bool :=
  match o with Some s => truthy s | None => false end.

(** [o || d] on an optional string. *)
Definition orDefault (o : option str) (d : str) : str :=
  match o with Some (c :: t) => c :: t | _ => d end.

(** *** [Map<string, V>]: keys in order of first insertion, the last value
    set for a key. *)
Section Map.
Variable V : Type.

Definition Map := list (str * V).

Fixpoint map_set (k : str) (v : V) (m : Map) : Map :=
  match m with
  | [] => [(k, v)]
  | (k', v') :: m' =>
      if str_eqb k' k then (k', v) :: m' else (k', v') :: map_set k v m'
  end.

(** [new Map(entries)]. *)
Definition map_of (entries : list (str * V)) : Map :=
  fold_left (fun m kv => map_set (fst kv) (snd kv) m) entries [].

Fixpoint map_get (m : Map) (k : str) : option V :=
  match m with
  | [] => None
  | (k', v) :: m' => if str_eqb k' k then Some v else map_get m' k
  end.

Definition map_has (m : Map) (k : str) : bool :=
  match map_get m k with Some _ => true | None => false end.

Definition map_keys (m : Map) : list str := map fst m.
End Map.

(** [new Set(keys).has(k)]. *)
Definition set_has (keys : list str) (k : str) : bool :=
  existsb (fun k' => str_eqb k' k) keys.

End JS.

(* ================================================================== *)
(** ** Regular expressions *)
(* ================================================================== *)

Module RegExp.
Import JS.

Inductive citem : Type :=
| CChar (c : ascii)
| CRange (lo hi : ascii)
| CSpace         (* \s *)
| CDigit         (* \d *)
| CWord.         (* \w *)

Inductive regex : Type :=
| Empty
| Char (c : ascii)
| Any                                       (* .  *)
| Class (neg : bool) (items : list citem)   (* [...] and [^...] *)
| Bol                                       (* ^  *)
| Eol                                       (* $  *)
| WordBoundary                              (* \b *)
| Seq (r1 r2 : regex)
| Alt (r1 r2 : regex)
| Repeat (r : regex) (min : nat) (max : option nat) (greedy : bool)
| Group (n : nat) (r : regex)               (* the n-th capture group *)
| BackRef (n : nat).                        (* \n *)

Record RegExp : Type := mkRegExp { source : regex; ignoreCase : bool }.

(** A matcher state: the input read so far (nearest character first), the
    input ahead, and the captures. *)
Record mstate : Type := mkState {
  behind : str;
  ahead : str;
  caps : list (nat * str)
}.

(** Canonicalize of the specification, without the [u] flag. *)
Definition canon (ic : bool) (c : ascii) : ascii :=
  if ic then upperChar c else c.

Definition char_matches (ic : bool) (c x : ascii) : bool :=
  chr_eqb (canon ic c) (canon ic x).

Definition in_range (lo hi x : ascii) : bool :=
  (code lo <=? code x) && (code x <=? code hi).

Definition item_matches (ic : bool) (x : ascii) (i : citem) : bool :=
  match i with
  | CChar c => char_matches ic c x
  | CRange lo hi =>
      if ic then in_range lo hi (upperChar x) || in_range lo hi (lowerChar (upperChar x))
      else in_range lo hi x
  | CSpace => isWhiteSpace x
  | CDigit => isDigit x
  | CWord => isWordChar x
  end.

Definition class_matches (ic : bool) (neg : bool) (items : list citem) (x : ascii) : bool :=
  xorb neg (existsb (item_matches ic x) items).

Definition step (s : mstate) (x : ascii) (t : str) : mstate :=
  mkState (x :: behind s) t (caps s).

Fixpoint get_cap (n : nat) (cs : list (nat * str)) : option str :=
  match cs with
  | [] => None
  | (m, v) :: cs' => if n =? m then Some v else get_cap n cs'
  end.

Definition set_cap (n : nat) (v : str) (cs : list (nat * str)) : list (nat * str) :=
  (n, v) :: cs.

(** The text between two states of one run. *)
Definition consumed (s s' : mstate) : str :=
  firstn (length (ahead s) - length (ahead s')) (ahead s).

(** [p] read off the front of the input, character by character. *)
Fixpoint eat (ic : bool) (p : str) (s : mstate) : option mstate :=
  match p with
  | [] => Some s
  | c :: p' =>
      match ahead s with
      | x :: t => if char_matches ic c x then eat ic p' (step s x t) else None
      | [] => None
      end
  end.

Definition at_word_boundary (s : mstate) : bool :=
  xorb (match behind s with c :: _ => isWordChar c | [] => false end)
       (match ahead s with c :: _ => isWordChar c | [] => false end).

Definition below (i : nat) (max : option nat) : bool :=
  match max with Some m => i <? m | None => true end.

Definition Cont := mstate -> option mstate.

(** A quantifier [{min,max}] around a matcher [body], in continuation-passing
    style: at the [i]-th iteration, a greedy quantifier first tries one more
    iteration and then to stop, a lazy one the other way round.  An
    iteration that read nothing once the minimum is reached is refused, so
    the iterations number at most [min] plus the length of the input, and
    [fuel] starts above that: more fuel changes nothing
    ([quantifier_fuel_is_enough]). *)
Fixpoint repeat_loop (body : Cont -> mstate -> option mstate)
    (mn : nat) (mx : option nat) (greedy : bool) (k : Cont)
    (fuel i : nat) (s : mstate) {struct fuel} : option mstate :=
  match fuel with
  | 0 => None
  | S fuel' =>
      let again (_ : unit) :=
        if below i mx then
          body (fun s' =>
                  if (mn <=? i) && (length (ahead s') =? length (ahead s)) then None
                  else repeat_loop body mn mx greedy k fuel' (S i) s') s
        else None in
      let stop (_ : unit) := if mn <=? i then k s else None in
      if greedy then
        match again tt with Some m => Some m | None => stop tt end
      else
        match stop tt with Some m => Some m | None => again tt end
  end.

(** The matcher, in continuation-passing style: [rmatch ic r k s] matches
    [r] at [s] and hands each way of doing so to [k], in the order the
    specification tries them, until [k] accepts one. *)
Fixpoint rmatch (ic : bool) (r : regex) (k : Cont) (s : mstate) {struct r} : option mstate :=
  match r with
  | Empty => k s
  | Char c =>
      match ahead s with
      | x :: t => if char_matches ic c x then k (step s x t) else None
      | [] => None
      end
  | Any =>
      match ahead s with
      | x :: t => if isLineTerminator x then None else k (step s x t)
      | [] => None
      end
  | Class neg items =>
      match ahead s with
      | x :: t => if class_matches ic neg items x then k (step s x t) else None
      | [] => None
      end
  | Bol => match behind s with [] => k s | _ :: _ => None end
  | Eol => match ahead s with [] => k s | _ :: _ => None end
  | WordBoundary => if at_word_boundary s then k s else None
  | Seq r1 r2 => rmatch ic r1 (rmatch ic r2 k) s
  | Alt r1 r2 =>
      match rmatch ic r1 k s with
      | Some m => Some m
      | None => rmatch ic r2 k s
      end
  | Group n r1 =>
      rmatch ic r1
        (fun s' => k (mkState (behind s') (ahead s') (set_cap n (consumed s s') (caps s')))) s
  | BackRef n =>
      match get_cap n (caps s) with
      | None => k s
      | Some v => match eat ic v s with Some s' => k s' | None => None end
      end
  | Repeat r1 mn mx greedy =>
      repeat_loop (rmatch ic r1) mn mx greedy k (mn + length (ahead s) + 1) 0 s
  end.

(** The first match, trying each start position from the left. *)
Fixpoint search (ic : bool) (r : regex) (b a : str) : option mstate :=
  match rmatch ic r (fun s => Some s) (mkState b a []) with
  | Some m => Some m
  | None => match a with
            | [] => None
            | c :: t => search ic r (c :: b) t
            end
  end.

(** [re.test(s)], for a pattern without the [g] or [y] flag. *)
Definition test (re : RegExp) (s : str) : bool :=
  match search (ignoreCase re) (source re) [] s with
  | Some _ => true
  | None => false
  end.

(** [s.match(re)]: the captures of the first match. *)
Definition exec (re : RegExp) (s : str) : option (list (nat * str)) :=
  match search (ignoreCase re) (source re) [] s with
  | Some m => Some (caps m)
  | None => None
  end.

(** *** Writing patterns *)

Fixpoint lit (s : str) : regex :=
  match s with
  | [] => Empty
  | [c] => Char c
  | c :: t => Seq (Char c) (lit t)
  end.

Fixpoint seq (l : list regex) : regex :=
  match l with
  | [] => Empty
  | [r] => r
  | r :: t => Seq r (seq t)
  end.

Fixpoint alt (l : list regex) : regex :=
  match l with
  | [] => Empty
  | [r] => r
  | r :: t => Alt r (alt t)
  end.

Definition words (l : list string) : regex := alt (map (fun w : string => lit w) l).

Definition star (r : regex) : regex := Repeat r 0 None true.
Definition plus (r : regex) : regex := Repeat r 1 None true.
Definition opt (r : regex) : regex := Repeat r 0 (Some 1) true.
Definition lazy_star (r : regex) : regex := Repeat r 0 None false.
Definition atLeast (n : nat) (r : regex) : regex := Repeat r n None true.
Definition range (lo hi : string) : citem :=
  match list_ascii_of_string lo, list_ascii_of_string hi with
  | a :: _, b :: _ => CRange a b
  | _, _ => CSpace
  end.
Definition ch (c : string) : citem :=
  match list_ascii_of_string c with a :: _ => CChar a | [] => CSpace end.

Definition re (r : regex) : RegExp := mkRegExp r false.
Definition re_i (r : regex) : RegExp := mkRegExp r true.

End RegExp.

(* ================================================================== *)
(** ** The types of the program (types/index.ts) *)
(* ================================================================== *)

Record EnvVariable : Type := mkEnvVariable {
  key : str;
  value : str;
  lineNumber : nat;
  isQuoted : bool;
  hasComment : option str
}.

Record ParseError : Type := mkParseError {
  pe_lineNumber : nat;
  pe_message : str;
  pe_line : str
}.

Record ParsedEnvFile : Type := mkParsedEnvFile {
  variables : list EnvVariable;
  comments : list str;
  emptyLines : list nat;
  parseErrors : list ParseError
}.

(** A value inside a template literal: [undefined] prints as its name. *)
Definition tpl (o : option str) : str :=
  match o with Some v => v | None => "undefined" end.

(* ================================================================== *)
(** ** Findings, schemas and configuration (types/index.ts) *)
(* ================================================================== *)

Inductive ErrorType : Type :=
| E_missing_required | E_invalid_format | E_security_risk | E_custom.

Inductive WarningType : Type :=
| W_unused_variable | W_weak_pattern | W_deprecated | W_custom | W_security_risk.

Inductive InfoType : Type := I_info | I_suggestion.

Inductive Severity : Type := SevError | SevWarning | SevInfo.

Definition ErrorType_text (t : ErrorType) : str :=
  match t with
  | E_missing_required => "missing_required"
  | E_invalid_format => "invalid_format"
  | E_security_risk => "security_risk"
  | E_custom => "custom"
  end.

Definition WarningType_text (t : WarningType) : str :=
  match t with
  | W_unused_variable => "unused_variable"
  | W_weak_pattern => "weak_pattern"
  | W_deprecated => "deprecated"
  | W_custom => "custom"
  | W_security_risk => "security_risk"
  end.

Definition ErrorType_eqb (a b : ErrorType) : bool :=
  match a, b with
  | E_missing_required, E_missing_required | E_invalid_format, E_invalid_format
  | E_security_risk, E_security_risk | E_custom, E_custom => true
  | _, _ => false
  end.

Definition WarningType_eqb (a b : WarningType) : bool :=
  match a, b with
  | W_unused_variable, W_unused_variable | W_weak_pattern, W_weak_pattern
  | W_deprecated, W_deprecated | W_custom, W_custom
  | W_security_risk, W_security_risk => true
  | _, _ => false
  end.

(** The [severity] field of a finding is fixed by its interface
    (['error'], ['warning'], ['info']) and is not repeated here. *)
Record ValidationError : Type := mkError {
  e_type : ErrorType;
  e_variable : str;
  e_message : str;
  e_lineNumber : option nat;
  e_suggestion : option str
}.

Record ValidationWarning : Type := mkWarning {
  w_type : WarningType;
  w_variable : str;
  w_message : str;
  w_lineNumber : option nat;
  w_suggestion : option str
}.

Record ValidationInfo : Type := mkInfo {
  i_type : InfoType;
  i_variable : option str;
  i_message : str;
  i_lineNumber : option nat
}.

Record ValidationSummary : Type := mkSummary {
  totalVariables : nat;
  requiredVariables : nat;
  missingVariables : nat;
  unusedVariables : nat;
  securityIssues : nat;
  validationTime : Z
}.

Record ValidationResult : Type := mkResult {
  isValid : bool;
  errors : list ValidationError;
  warnings : list ValidationWarning;
  info : list ValidationInfo;
  summary : ValidationSummary
}.

Inductive VarType : Type :=
| T_string | T_number | T_boolean | T_url | T_email | T_json.

Record VariableSchema : Type := mkVariableSchema {
  vs_required : bool;
  vs_type : option VarType;
  vs_pattern : option str;
  vs_description : option str;
  vs_example : option str;
  vs_allowEmpty : option bool;
  vs_deprecated : option bool;
  vs_alternatives : option (list str)
}.

Record ValidationRule : Type := mkValidationRule {
  vr_name : str;
  vr_description : str;
  vr_severity : Severity;
  vr_pattern : option RegExp.RegExp;
  vr_required : option bool;
  vr_allowEmpty : option bool;
  vr_customValidator : option (str -> bool)
}.

Record SecurityRule : Type := mkSecurityRule {
  sr_name : str;
  sr_description : str;
  sr_pattern : RegExp.RegExp;
  sr_severity : Severity;
  sr_suggestion : option str
}.

(** [variables: Record<string, VariableSchema>] is kept as the list of its
    own entries, in the order [Object.keys] gives them. *)
Record EnvSchema : Type := mkEnvSchema {
  es_variables : list (str * VariableSchema);
  es_rules : option (list ValidationRule);
  es_securityRules : option (list SecurityRule);
  es_ignorePatterns : option (list str)
}.

Inductive OutputFormat : Type := F_text | F_json | F_junit.

Record EnvGuardConfig : Type := mkConfig {
  cfg_schemaFile : option str;
  cfg_exampleFile : option str;
  cfg_envFile : option str;
  cfg_outputFormat : option OutputFormat;
  cfg_strict : option bool;
  cfg_ignorePatterns : option (list str);
  cfg_customRules : option (list ValidationRule);
  cfg_securityRules : option (list SecurityRule);
  cfg_exitOnError : option bool;
  cfg_verbose : option bool
}.

Inductive ValidationMode : Type := ModeSchema | ModeExample | ModeBoth.

(* ================================================================== *)
(** ** The platform *)
(* ================================================================== *)

(** A call that returns or throws an [Error] with a message. *)
Inductive Result (A : Type) : Type :=
| Ok (a : A)
| Throw (message : str).
Arguments Ok {A} a.
Arguments Throw {A} message.

(** What the program reads of a parsed [URL]. *)
Record URL : Type := mkURL { username : str; password : str }.

Class Host : Type := {
  (** [fs.readFileSync(path, 'utf-8')] *)
  readFileSync : str -> Result str;
  (** [path.extname(file)] *)
  extname : str -> str;
  (** [JSON.parse(content) as EnvSchema] and [yaml.parse(content) as EnvSchema] *)
  JSON_parse_schema : str -> Result EnvSchema;
  yaml_parse_schema : str -> Result EnvSchema;
  (** [JSON.parse(value)] returns *)
  JSON_parses : str -> bool;
  (** [new URL(value)]; [None] when it throws *)
  URL_new : str -> option URL;
  (** [!isNaN(Number(value)) && isFinite(Number(value))] *)
  Number_isFinite : str -> bool;
  (** [new RegExp(pattern)] *)
  RegExp_new : str -> Result RegExp.RegExp;
  (** [Date.now()], by the number of readings made before *)
  Date_now : nat -> Z
}.

(** Computations that read the clock and may throw. *)
Definition M (A : Type) : Type := nat -> Result A * nat.

Definition ret {A} (a : A) : M A := fun t => (Ok a, t).

Definition throw {A} (message : str) : M A := fun t => (Throw message, t).

Definition bind {A B} (m : M A) (k : A -> M B) : M B :=
  fun t => match m t with
           | (Ok a, t') => k a t'
           | (Throw e, t') => (Throw e, t')
           end.

Definition lift {A} (r : Result A) : M A := fun t => (r, t).

(** [try { m } catch (error) { h error.message }] *)
Definition try_catch {A} (m : M A) (h : str -> M A) : M A :=
  fun t => match m t with
           | (Ok a, t') => (Ok a, t')
           | (Throw e, t') => h e t'
           end.

Definition now `{Host} : M Z := fun t => (Ok (Date_now t), S t).

Notation "x <- m ;; k" := (bind m (fun x => k))
  (at level 61, m at next level, right associativity).
Notation "' p <- m ;; k" := (bind m (fun x => let 'p := x in k))
  (at level 61, p pattern, m at next level, right associativity).

Definition rbind {A B} (r : Result A) (k : A -> Result B) : Result B :=
  match r with Ok a => k a | Throw e => Throw e end.

(** [array.some(p)] for a predicate that may throw. *)
Fixpoint some_r {A} (p : A -> Result bool) (l : list A) : Result bool :=
  match l with
  | [] => Ok false
  | x :: t => rbind (p x) (fun b => if b then Ok true else some_r p t)
  end.

(** An optional boolean as a condition. *)
Definition isTrue (o : option bool) : bool :=
  match o with Some b => b | None => false end.

(** A boolean test on an optional string. *)
Definition orElseList {A} (o : option (list A)) : list A :=
  match o with Some l => l | None => [] end.

(** [for (const x of l) { s = body s x }] for a body that may throw. *)
Fixpoint for_each {A S} (body : S -> A -> Result S) (l : list A) (s : S) : Result S :=
  match l with
  | [] => Ok s
  | x :: t => rbind (body s x) (for_each body t)
  end.

(** A property read off [undefined]. *)
Definition undefinedRead {A} (property : str) : Result A :=
  Throw ("Cannot read properties of undefined (reading '" ++ property ++ "')").

(** The pattern "/^[^\s@]+@[^\s@]+\.[^\s@]+$/". *)
Definition emailRe : RegExp.RegExp :=
  let part := RegExp.plus (RegExp.Class true [RegExp.CSpace; RegExp.ch "@"]) in
  RegExp.re (RegExp.seq [RegExp.Bol; part; RegExp.Char "@"; part; RegExp.Char "."; part; RegExp.Eol]).

(** [['true', 'false', '1', '0', 'yes', 'no'].includes(value.toLowerCase())] *)
Definition inBooleanWords (value : str) : bool :=
  existsb (fun w => JS.str_eqb w (JS.toLowerCase value))
          (strs ["true"; "false"; "1"; "0"; "yes"; "no"]).

(* ================================================================== *)
(** ** core/parser.ts *)
(* ================================================================== *)

Module EnvParser.
Import JS RegExp.

(** The classes "[A-Za-z_]" and "[A-Za-z0-9_]". *)
Definition identStart : list citem := [range "A" "Z"; range "a" "z"; ch "_"].
Definition identChar : list citem := [range "A" "Z"; range "a" "z"; range "0" "9"; ch "_"].

(** The pattern "/^([A-Za-z_][A-Za-z0-9_]*)\s*=\s*(.*)$/". *)
Definition assignmentRe : RegExp :=
  re (seq [Bol;
           Group 1 (Seq (Class false identStart) (star (Class false identChar)));
           star (Class false [CSpace]);
           Char "=";
           star (Class false [CSpace]);
           Group 2 (star Any);
           Eol]).

(** The pattern "/^([QUOTES])(.*?)\1(\s*#.*)?$/", where QUOTES stands for
    the two characters single quote and double quote. *)
Definition quotedRe : RegExp :=
  re (seq [Bol;
           Group 1 (Class false [CChar SQ; CChar DQ]);
           Group 2 (lazy_star Any);
           BackRef 1;
           opt (Group 3 (seq [star (Class false [CSpace]); Char "#"; star Any]));
           Eol]).

(** Extract value and inline comment from the right side of assignment. *)
Definition extractValueAndComment (valueWithComment : str) : str * option str :=
  match exec quotedRe valueWithComment with
  | Some quotedMatch =>
      let quote := tpl (get_cap 1 quotedMatch) in
      let quotedValue := tpl (get_cap 2 quotedMatch) in
      (quote ++ quotedValue ++ quote,
       match get_cap 3 quotedMatch with
       | Some commentPart => Some (trim (substringFrom (trim commentPart) 1))
       | None => None
       end)
  | None =>
      match indexOf valueWithComment HASH with
      | None => (trim valueWithComment, None)
      | Some commentIndex =>
          (trim (substringTo valueWithComment commentIndex),
           Some (trim (substringFrom valueWithComment (commentIndex + 1))))
      end
  end.

(** Process quotes and extract clean value: [(cleanValue, isQuoted)]. *)
Definition processQuotes (value : str) : str * bool :=
  let trimmedValue := trim value in
  if startsWith trimmedValue [SQ] && endsWith trimmedValue [SQ] && (2 <=? length trimmedValue)
  then (slice_1_m1 trimmedValue, true)
  else if startsWith trimmedValue [DQ] && endsWith trimmedValue [DQ] && (2 <=? length trimmedValue)
  then
    let unescaped :=
      replaceAll2 BACKSLASH DQ [DQ]
        (replaceAll2 BACKSLASH BACKSLASH [BACKSLASH]
           (replaceAll2 BACKSLASH "t" [TAB]
              (replaceAll2 BACKSLASH "r" [CR]
                 (replaceAll2 BACKSLASH "n" [LF] (slice_1_m1 trimmedValue))))) in
    (unescaped, true)
  else (trimmedValue, false).

(** What [parseVariableLine] returns: [{ variable?, error? }]. *)
Record LineResult : Type := mkLineResult {
  variable : option EnvVariable;
  error : option ParseError
}.

Definition invalidAssignment (lineNumber : nat) (trimmedLine : str) : LineResult :=
  mkLineResult None
    (Some (mkParseError lineNumber "Invalid variable assignment format" trimmedLine)).

(** Parse a single variable line. *)
Definition parseVariableLine (line : str) (lineNumber : nat) : LineResult :=
  let trimmedLine := trim line in
  match exec assignmentRe trimmedLine with
  | None => invalidAssignment lineNumber trimmedLine
  | Some assignmentMatch =>
      match get_cap 1 assignmentMatch, get_cap 2 assignmentMatch with
      | Some (c :: k), Some valueWithComment =>
          let '(value, comment) := extractValueAndComment valueWithComment in
          let '(cleanValue, isQuoted) := processQuotes value in
          mkLineResult (Some (mkEnvVariable (c :: k) cleanValue lineNumber isQuoted comment)) None
      | _, _ => invalidAssignment lineNumber trimmedLine
      end
  end.

(** One turn of the loop of [parseContent]. *)
Definition parseLine (acc : ParsedEnvFile) (lineNumber : nat) (line : str) : ParsedEnvFile :=
  let trimmedLine := trim line in
  if str_eqb trimmedLine "" then
    mkParsedEnvFile (variables acc) (comments acc) (emptyLines acc ++ [lineNumber]) (parseErrors acc)
  else if startsWith trimmedLine [HASH] then
    mkParsedEnvFile (variables acc) (comments acc ++ [trim (substringFrom trimmedLine 1)])
                    (emptyLines acc) (parseErrors acc)
  else
    let result := parseVariableLine line lineNumber in
    match error result with
    | Some e =>
        mkParsedEnvFile (variables acc) (comments acc) (emptyLines acc) (parseErrors acc ++ [e])
    | None =>
        match variable result with
        | Some v =>
            mkParsedEnvFile (variables acc ++ [v]) (comments acc) (emptyLines acc) (parseErrors acc)
        | None => acc
        end
    end.

(** [for (let i = 0; i < lines.length; i++)], with [lineNumber = i + 1]. *)
Fixpoint parseLines (lines : list str) (i : nat) (acc : ParsedEnvFile) : ParsedEnvFile :=
  match lines with
  | [] => acc
  | line :: rest => parseLines rest (S i) (parseLine acc (i + 1) line)
  end.

(** Parse .env content from string. *)
Definition parseContent (content : str) : ParsedEnvFile :=
  parseLines (split_lines content) 0 (mkParsedEnvFile [] [] [] []).

Definition stringifyVariable (variable : EnvVariable) : str :=
  let value := if isQuoted variable then [DQ] ++ value variable ++ [DQ] else value variable in
  let comment := if truthyOpt (hasComment variable) then " # " ++ tpl (hasComment variable) else "" in
  key variable ++ "=" ++ value ++ comment.

(** Convert parsed variables back to .env format. *)
Definition stringify (variables : list EnvVariable) : str :=
  join [LF] (map stringifyVariable variables).

(** Parse a .env file from file path. *)
Definition parseFile `{Host} (filePath : str) : Result ParsedEnvFile :=
  match readFileSync filePath with
  | Ok content => Ok (parseContent content)
  | Throw message => Throw ("Failed to read file " ++ filePath ++ ": " ++ message)
  end.

End EnvParser.

(* ================================================================== *)
(** ** core/schema-validator.ts *)
(* ================================================================== *)

Module SchemaValidator.
Import JS.

Section WithSchema.
Context `{Host}.
Variable schema : EnvSchema.

(** [this.schema.variables[key]] *)
Definition schemaOf (key : str) : option VariableSchema :=
  map_get (es_variables schema) key.

(** Check if variable should be ignored based on patterns. *)
Definition shouldIgnoreVariable (key : str) (ignorePatterns : list str) : Result bool :=
  some_r (fun pattern => rbind (RegExp_new pattern) (fun regex => Ok (RegExp.test regex key)))
         ignorePatterns.

Definition exampleSuggestion (sch : VariableSchema) : option str :=
  if truthyOpt (vs_example sch) then Some ("Example: " ++ tpl (vs_example sch)) else None.

Definition missingRequired (key : str) (sch : VariableSchema) : ValidationError :=
  mkError E_missing_required key
    ("Required environment variable '" ++ key ++ "' is missing")
    None
    (Some (if truthyOpt (vs_description sch)
           then "Add " ++ key ++ "=" ++ orDefault (vs_example sch) "<value>"
                ++ " # " ++ tpl (vs_description sch)
           else "Add " ++ key ++ "=" ++ orDefault (vs_example sch) "<value>")).

(** Validate that all required variables are present. *)
Definition validateRequiredVariables (schemaKeys : list str)
    (variableMap : Map EnvVariable) (errors : list ValidationError) : list ValidationError :=
  fold_left
    (fun errors key =>
       match schemaOf key with
       | Some sch =>
           if vs_required sch && negb (map_has variableMap key)
           then errors ++ [missingRequired key sch]
           else errors
       | None => errors
       end)
    schemaKeys errors.

Definition notInSchema (key : str) (variable : EnvVariable) : ValidationWarning :=
  mkWarning W_unused_variable key
    ("Variable '" ++ key ++ "' is not defined in schema")
    (Some (lineNumber variable))
    (Some ("Remove this variable or add it to your schema" : str)).

(** Validate for unused variables. *)
Definition validateUnusedVariables (envKeys schemaKeys : list str)
    (variableMap : Map EnvVariable) (warnings : list ValidationWarning)
  : Result (list ValidationWarning) :=
  let ignorePatterns := orElseList (es_ignorePatterns schema) in
  for_each
    (fun warnings key =>
       if set_has schemaKeys key then Ok warnings
       else rbind (shouldIgnoreVariable key ignorePatterns) (fun ignored =>
         if ignored then Ok warnings
         else match map_get variableMap key with
              | Some variable => Ok (warnings ++ [notInSchema key variable])
              | None => undefinedRead "lineNumber"
              end))
    envKeys warnings.

Definition deprecatedWarning (variable : EnvVariable) (sch : VariableSchema) : ValidationWarning :=
  mkWarning W_deprecated (key variable)
    ("Variable '" ++ key variable ++ "' is deprecated")
    (Some (lineNumber variable))
    (Some (match vs_alternatives sch return str with
           | Some (a :: l) => "Consider using: " ++ join ", " (a :: l)
           | _ => "Consider removing this variable"
           end)).

Definition cannotBeEmpty (variable : EnvVariable) (sch : VariableSchema) : ValidationError :=
  mkError E_invalid_format (key variable)
    ("Variable '" ++ key variable ++ "' cannot be empty")
    (Some (lineNumber variable))
    (exampleSuggestion sch).

(** The [switch (schema.type)] of [validateVariableType]:
    [(isValid, expectedFormat)]. *)
Definition checkType (t : VarType) (value : str) : bool * str :=
  match t with
  | T_string => (true, [])
  | T_number => (Number_isFinite value, "a valid number" : str)
  | T_boolean => (inBooleanWords value, "true, false, 1, 0, yes, or no" : str)
  | T_url => (match URL_new value with Some _ => true | None => false end, "a valid URL" : str)
  | T_email => (RegExp.test emailRe value, "a valid email address" : str)
  | T_json => (JSON_parses value, "valid JSON" : str)
  end.

Definition typeError (variable : EnvVariable) (sch : VariableSchema) (expectedFormat : str)
  : ValidationError :=
  mkError E_invalid_format (key variable)
    ("Variable '" ++ key variable ++ "' must be " ++ expectedFormat)
    (Some (lineNumber variable))
    (exampleSuggestion sch).

(** Validate variable type. *)
Definition validateVariableType (variable : EnvVariable) (sch : VariableSchema)
    (errors : list ValidationError) : list ValidationError :=
  match vs_type sch with
  | None => errors
  | Some t =>
      if str_eqb (trim (value variable)) "" then errors
      else let '(isValid, expectedFormat) := checkType t (value variable) in
           if isValid then errors else errors ++ [typeError variable sch expectedFormat]
  end.

Definition patternError (variable : EnvVariable) (sch : VariableSchema) : ValidationError :=
  mkError E_invalid_format (key variable)
    ("Variable '" ++ key variable ++ "' does not match required pattern")
    (Some (lineNumber variable))
    (exampleSuggestion sch).

(** Validate variable pattern. *)
Definition validateVariablePattern (variable : EnvVariable) (sch : VariableSchema)
    (errors : list ValidationError) : Result (list ValidationError) :=
  if negb (truthyOpt (vs_pattern sch)) || str_eqb (trim (value variable)) "" then Ok errors
  else rbind (RegExp_new (tpl (vs_pattern sch))) (fun pattern =>
         if RegExp.test pattern (value variable) then Ok errors
         else Ok (errors ++ [patternError variable sch])).

(** One turn of the loop of [validateVariableValues]. *)
Definition validateVariableValue
    (acc : list ValidationError * list ValidationWarning) (variable : EnvVariable)
  : Result (list ValidationError * list ValidationWarning) :=
  let '(errors, warnings) := acc in
  match schemaOf (key variable) with
  | None => Ok (errors, warnings)
  | Some sch =>
      let warnings :=
        if isTrue (vs_deprecated sch) then warnings ++ [deprecatedWarning variable sch]
        else warnings in
      if negb (isTrue (vs_allowEmpty sch)) && str_eqb (trim (value variable)) ""
      then Ok (errors ++ [cannotBeEmpty variable sch], warnings)
      else
        let errors := validateVariableType variable sch errors in
        rbind (validateVariablePattern variable sch errors) (fun errors =>
        Ok (errors, warnings))
  end.

(** Validate individual variable values against their schemas. *)
Definition validateVariableValues (variables : list EnvVariable)
    (errors : list ValidationError) (warnings : list ValidationWarning)
  : Result (list ValidationError * list ValidationWarning) :=
  for_each validateVariableValue variables (errors, warnings).

Definition Findings : Type :=
  (list ValidationError * list ValidationWarning * list ValidationInfo)%type.

(** The [switch (rule.severity)] of [applyCustomRules]. *)
Definition pushCustom (rule : ValidationRule) (variable : EnvVariable) (acc : Findings)
  : Findings :=
  let '(errors, warnings, info) := acc in
  match vr_severity rule with
  | SevError =>
      (errors ++ [mkError E_custom (key variable) (vr_description rule)
                    (Some (lineNumber variable)) None], warnings, info)
  | SevWarning =>
      (errors, warnings ++ [mkWarning W_custom (key variable) (vr_description rule)
                              (Some (lineNumber variable)) None], info)
  | SevInfo =>
      (errors, warnings, info ++ [mkInfo I_info (Some (key variable)) (vr_description rule)
                                    (Some (lineNumber variable))])
  end.

Definition applyCustomRule (rule : ValidationRule) (acc : Findings) (variable : EnvVariable)
  : Findings :=
  let acc :=
    match vr_pattern rule with
    | Some pattern =>
        if negb (RegExp.test pattern (value variable)) then pushCustom rule variable acc else acc
    | None => acc
    end in
  match vr_customValidator rule with
  | Some customValidator =>
      if negb (customValidator (value variable)) then pushCustom rule variable acc else acc
  | None => acc
  end.

(** Apply custom validation rules. *)
Definition applyCustomRules (variables : list EnvVariable) (acc : Findings) : Findings :=
  match es_rules schema with
  | None => acc
  | Some rules =>
      fold_left (fun acc rule => fold_left (applyCustomRule rule) variables acc) rules acc
  end.

Definition isMissingRequired (e : ValidationError) : bool :=
  ErrorType_eqb (e_type e) E_missing_required.
Definition isUnusedVariable (w : ValidationWarning) : bool :=
  WarningType_eqb (w_type w) W_unused_variable.
Definition isSecurityRisk (e : ValidationError) : bool :=
  ErrorType_eqb (e_type e) E_security_risk.

(** Create validation summary. *)
Definition createSummary (variables : list EnvVariable) (errors : list ValidationError)
    (warnings : list ValidationWarning) (validationTime : Z) : ValidationSummary :=
  let requiredVariables := length (filter vs_required (map snd (es_variables schema))) in
  let missingVariables := length (filter isMissingRequired errors) in
  let unusedVariables := length (filter isUnusedVariable warnings) in
  let securityIssues := length (filter isSecurityRisk errors) in
  mkSummary (length variables) requiredVariables missingVariables unusedVariables
            securityIssues validationTime.

(** Validate environment variables against the schema. *)
Definition validate (variables : list EnvVariable) : M ValidationResult :=
  startTime <- now ;;
  let errors : list ValidationError := [] in
  let warnings : list ValidationWarning := [] in
  let info : list ValidationInfo := [] in
  let variableMap := map_of (map (fun v => (key v, v)) variables) in
  let schemaKeys := map fst (es_variables schema) in
  let envKeys := map_keys variableMap in
  let errors := validateRequiredVariables schemaKeys variableMap errors in
  warnings <- lift (validateUnusedVariables envKeys schemaKeys variableMap warnings) ;;
  '(errors, warnings) <- lift (validateVariableValues variables errors warnings) ;;
  let '(errors, warnings, info) := applyCustomRules variables (errors, warnings, info) in
  endTime <- now ;;
  let validationTime := (endTime - startTime)%Z in
  let summary := createSummary variables errors warnings validationTime in
  ret (mkResult (length errors =? 0) errors warnings info summary).

End WithSchema.
End SchemaValidator.

(* ================================================================== *)
(** ** core/example-validator.ts *)
(* ================================================================== *)

Module ExampleValidator.
Import JS.
Import RegExp(re, re_i, seq, lit, star, plus, regex(..)).

Section WithExample.
Context `{Host}.
Variable exampleVariables : list EnvVariable.
Variable ignorePatterns : list str.

(** The patterns "/^<.*>$/", "/^\[.*\]$/", "/^{.*}$/", "/^your_.*$/i",
    "/^example_.*$/i", "/^placeholder$/i", "/^change_me$/i",
    "/^replace_me$/i", "/^xxx+$/i". *)
Definition placeholderPatterns : list RegExp.RegExp :=
  [ re (seq [Bol; Char "<"; star Any; Char ">"; Eol]);
    re (seq [Bol; Char "["; star Any; Char "]"; Eol]);
    re (seq [Bol; Char "{"; star Any; Char "}"; Eol]);
    re_i (seq [Bol; lit "your_"; star Any; Eol]);
    re_i (seq [Bol; lit "example_"; star Any; Eol]);
    re_i (seq [Bol; lit "placeholder"; Eol]);
    re_i (seq [Bol; lit "change_me"; Eol]);
    re_i (seq [Bol; lit "replace_me"; Eol]);
    re_i (seq [Bol; lit "xx"; plus (Char "x"); Eol]) ].

(** Check if a value is a placeholder. *)
Definition isPlaceholderValue (value : str) : bool :=
  existsb (fun pattern => RegExp.test pattern (trim value)) placeholderPatterns.

Definition looksLikeUrl (value : str) : bool :=
  match URL_new value with Some _ => true | None => false end.

Definition looksLikeNumber (value : str) : bool := Number_isFinite value.

Definition looksLikeBoolean (value : str) : bool := inBooleanWords value.

Definition looksLikeEmail (value : str) : bool := RegExp.test emailRe value.

(** Check if variable should be ignored. *)
Definition shouldIgnoreVariable (key : str) : Result bool :=
  some_r (fun pattern => rbind (RegExp_new pattern) (fun regex => Ok (RegExp.test regex key)))
         ignorePatterns.

(** Generate suggestion from example variable. *)
Definition generateSuggestionFromExample (exampleVar : EnvVariable) : str :=
  let comment := if truthyOpt (hasComment exampleVar)
                 then " # " ++ tpl (hasComment exampleVar) else "" in
  key exampleVar ++ "=" ++ value exampleVar ++ comment.

Definition missingFromEnv (key : str) (exampleVar : EnvVariable) : ValidationError :=
  mkError E_missing_required key
    ("Variable '" ++ key ++ "' is present in example but missing from .env file")
    None
    (Some (generateSuggestionFromExample exampleVar)).

(** Validate missing variables. *)
Definition validateMissingVariables (exampleKeys : list str)
    (variableMap exampleMap : Map EnvVariable) (errors : list ValidationError)
  : Result (list ValidationError) :=
  for_each
    (fun errors key =>
       if map_has variableMap key then Ok errors
       else rbind (shouldIgnoreVariable key) (fun ignored =>
         if ignored then Ok errors
         else match map_get exampleMap key with
              | Some exampleVar => Ok (errors ++ [missingFromEnv key exampleVar])
              | None => undefinedRead "hasComment"
              end))
    exampleKeys errors.

Definition notInExample (key : str) (variable : EnvVariable) : ValidationWarning :=
  mkWarning W_unused_variable key
    ("Variable '" ++ key ++ "' is not present in .env.example")
    (Some (lineNumber variable))
    (Some ("Add this variable to .env.example or remove it if not needed" : str)).

(** Validate unused variables. *)
Definition validateUnusedVariables (envKeys exampleKeys : list str)
    (variableMap : Map EnvVariable) (warnings : list ValidationWarning)
  : Result (list ValidationWarning) :=
  for_each
    (fun warnings key =>
       if set_has exampleKeys key then Ok warnings
       else rbind (shouldIgnoreVariable key) (fun ignored =>
         if ignored then Ok warnings
         else match map_get variableMap key with
              | Some variable => Ok (warnings ++ [notInExample key variable])
              | None => undefinedRead "lineNumber"
              end))
    envKeys warnings.

Definition emptyButInExample (variable exampleVar : EnvVariable) : ValidationWarning :=
  mkWarning W_unused_variable (key variable)
    ("Variable '" ++ key variable ++ "' is empty but has a value in example")
    (Some (lineNumber variable))
    (Some ("Consider setting a value. Example: " ++ value exampleVar)).

(** Validate empty values. *)
Definition validateEmptyValues (variables : list EnvVariable)
    (exampleMap : Map EnvVariable) (warnings : list ValidationWarning)
  : list ValidationWarning :=
  fold_left
    (fun warnings variable =>
       match map_get exampleMap (key variable) with
       | Some exampleVar =>
           if str_eqb (trim (value variable)) ""
              && negb (str_eqb (trim (value exampleVar)) "")
              && negb (isPlaceholderValue (value exampleVar))
           then warnings ++ [emptyButInExample variable exampleVar]
           else warnings
       | None => warnings
       end)
    variables warnings.

(** Detect format mismatches between actual and example values:
    [(message, suggestion)] or [null]. *)
Definition detectFormatMismatch (variable exampleVar : EnvVariable) : option (str * str) :=
  let example := value exampleVar in
  let value := value variable in
  if isPlaceholderValue example then None
  else if looksLikeUrl example && negb (looksLikeUrl value) then
    Some ("Variable '" ++ key variable ++ "' should be a URL based on example",
          "Expected URL format like: " ++ example)
  else if looksLikeNumber example && negb (looksLikeNumber value) then
    Some ("Variable '" ++ key variable ++ "' should be a number based on example",
          "Expected number format like: " ++ example)
  else if looksLikeBoolean example && negb (looksLikeBoolean value) then
    Some ("Variable '" ++ key variable ++ "' should be a boolean based on example",
          "Expected boolean format like: " ++ example)
  else if looksLikeEmail example && negb (looksLikeEmail value) then
    Some ("Variable '" ++ key variable ++ "' should be an email based on example",
          "Expected email format like: " ++ example)
  else None.

(** Get format information for a variable. *)
Definition getFormatInfo (variable exampleVar : EnvVariable) : option str :=
  let example := value exampleVar in
  if isPlaceholderValue example
  then Some ("Variable '" ++ key variable ++ "' uses placeholder in example: " ++ example)
  else None.

(** One turn of the loop of [validateValueFormats]. *)
Definition validateValueFormat (exampleMap : Map EnvVariable)
    (acc : list ValidationWarning * list ValidationInfo) (variable : EnvVariable)
  : list ValidationWarning * list ValidationInfo :=
  let '(warnings, info) := acc in
  match map_get exampleMap (key variable) with
  | None => (warnings, info)
  | Some exampleVar =>
      if str_eqb (trim (value variable)) "" then (warnings, info)
      else
        let warnings :=
          match detectFormatMismatch variable exampleVar with
          | Some (message, suggestion) =>
              warnings ++ [mkWarning W_weak_pattern (key variable) message
                             (Some (lineNumber variable)) (Some suggestion)]
          | None => warnings
          end in
        let info :=
          match getFormatInfo variable exampleVar with
          | Some formatInfo =>
              info ++ [mkInfo I_info (Some (key variable)) formatInfo
                         (Some (lineNumber variable))]
          | None => info
          end in
        (warnings, info)
  end.

(** Validate value formats against examples. *)
Definition validateValueFormats (variables : list EnvVariable)
    (exampleMap : Map EnvVariable) (warnings : list ValidationWarning)
    (info : list ValidationInfo) : list ValidationWarning * list ValidationInfo :=
  fold_left (validateValueFormat exampleMap) variables (warnings, info).

Definition isMissingRequired (e : ValidationError) : bool :=
  ErrorType_eqb (e_type e) E_missing_required.
Definition isUnusedVariable (w : ValidationWarning) : bool :=
  WarningType_eqb (w_type w) W_unused_variable.

(** Create validation summary. *)
Definition createSummary (variables : list EnvVariable) (errors : list ValidationError)
    (warnings : list ValidationWarning) (validationTime : Z) : ValidationSummary :=
  let missingVariables := length (filter isMissingRequired errors) in
  let unusedVariables := length (filter isUnusedVariable warnings) in
  mkSummary (length variables) (length exampleVariables) missingVariables unusedVariables
            0 validationTime.

(** Validate environment variables against example file. *)
Definition validate (variables : list EnvVariable) : M ValidationResult :=
  startTime <- now ;;
  let errors : list ValidationError := [] in
  let warnings : list ValidationWarning := [] in
  let info : list ValidationInfo := [] in
  let variableMap := map_of (map (fun v => (key v, v)) variables) in
  let exampleMap := map_of (map (fun v => (key v, v)) exampleVariables) in
  let envKeys := map_keys variableMap in
  let exampleKeys := map_keys exampleMap in
  errors <- lift (validateMissingVariables exampleKeys variableMap exampleMap errors) ;;
  warnings <- lift (validateUnusedVariables envKeys exampleKeys variableMap warnings) ;;
  let warnings := validateEmptyValues variables exampleMap warnings in
  let '(warnings, info) := validateValueFormats variables exampleMap warnings info in
  endTime <- now ;;
  let validationTime := (endTime - startTime)%Z in
  let summary := createSummary variables errors warnings validationTime in
  ret (mkResult (length errors =? 0) errors warnings info summary).

End WithExample.
End ExampleValidator.

(* ================================================================== *)
(** ** security/analyzer.ts *)
(* ================================================================== *)

Module SecurityAnalyzer.
Import JS.
Import RegExp(re, re_i, seq, lit, words, star, plus, opt, atLeast, range, ch,
              regex(..), citem(..)).

Definition alnum : regex := Class false [range "a" "z"; range "A" "Z"; range "0" "9"].
Definition dash_or_underscore : regex := Class false [ch "_"; ch "-"].
Definition digits (n : nat) : regex := Repeat (Class false [CDigit]) n (Some n) true.
Definition digits_upto (n m : nat) : regex := Repeat (Class false [CDigit]) n (Some m) true.

(** Get default security rules.  The patterns are
    "/password.*=.*(admin|password|123456|qwerty|letmein)/i",
    "/api[_-]?key.*=.*[a-zA-Z0-9]{20,}/i",
    "/secret.*=.*[a-zA-Z0-9]{16,}/i",
    "/jwt[_-]?secret.*=.*(secret|jwt|token|key)$/i" and
    "/(db|database)[_-]?(user|username|password).*=.*(root|admin|user|password)$/i". *)
Definition getDefaultSecurityRules : list SecurityRule :=
  [ mkSecurityRule "hardcoded-password" "Hardcoded password detected"
      (re_i (seq [lit "password"; star Any; Char "="; star Any;
                  Group 1 (words ["admin"; "password"; "123456"; "qwerty"; "letmein"])]))
      SevError (Some ("Use a strong, unique password and store it securely" : str));
    mkSecurityRule "hardcoded-api-key" "Potential hardcoded API key detected"
      (re_i (seq [lit "api"; opt dash_or_underscore; lit "key"; star Any; Char "="; star Any;
                  atLeast 20 alnum]))
      SevWarning (Some ("Ensure API keys are not committed to version control" : str));
    mkSecurityRule "hardcoded-secret" "Potential hardcoded secret detected"
      (re_i (seq [lit "secret"; star Any; Char "="; star Any; atLeast 16 alnum]))
      SevWarning (Some ("Ensure secrets are not committed to version control" : str));
    mkSecurityRule "weak-jwt-secret" "Weak JWT secret detected"
      (re_i (seq [lit "jwt"; opt dash_or_underscore; lit "secret"; star Any; Char "=";
                  star Any; Group 1 (words ["secret"; "jwt"; "token"; "key"]); Eol]))
      SevError (Some ("Use a strong, randomly generated JWT secret" : str));
    mkSecurityRule "default-database-credentials" "Default database credentials detected"
      (re_i (seq [Group 1 (words ["db"; "database"]); opt dash_or_underscore;
                  Group 2 (words ["user"; "username"; "password"]); star Any; Char "=";
                  star Any; Group 3 (words ["root"; "admin"; "user"; "password"]); Eol]))
      SevError (Some ("Use strong, unique database credentials" : str)) ].

(** The patterns "/^[A-Za-z0-9+/]{40,}={0,2}$/", "/^[a-f0-9]{32,}$/i" and
    "/^[A-Za-z0-9_-]{32,}$/", each with its name. *)
Definition secretPatterns : list (RegExp.RegExp * str) :=
  [ (re (seq [Bol;
              atLeast 40 (Class false [range "A" "Z"; range "a" "z"; range "0" "9";
                                       ch "+"; ch "/"]);
              Repeat (Char "=") 0 (Some 2) true; Eol]),
     "Base64 encoded secret" : str);
    (re_i (seq [Bol; atLeast 32 (Class false [range "a" "f"; range "0" "9"]); Eol]),
     "Hexadecimal secret" : str);
    (re (seq [Bol;
              atLeast 32 (Class false [range "A" "Z"; range "a" "z"; range "0" "9";
                                       ch "_"; ch "-"]);
              Eol]),
     "Random string secret" : str) ].

Definition sensitiveKeys : list str :=
  strs ["secret"; "key"; "token"; "password"; "pass"; "pwd"; "auth"; "credential"; "private"].

Definition weakSecrets : list str :=
  strs ["secret"; "password"; "admin"; "root"; "user"; "test"; "dev"; "development";
        "123456"; "qwerty"; "letmein"; "changeme"; "default"].

(** Check if a value is a weak secret. *)
Definition isWeakSecret (value : str) : bool :=
  let lowerValue := toLowerCase value in
  existsb (fun w => str_eqb w lowerValue) weakSecrets || (length value <? 8).

(** The patterns "/^<.*>$/", "/^\[.*\]$/", "/^{.*}$/", "/^your_.*$/i",
    "/^example_.*$/i", "/^placeholder$/i", "/^change_me$/i",
    "/^replace_me$/i", "/^xxx+$/i", "/^todo$/i", "/^fixme$/i". *)
Definition placeholderPatterns : list RegExp.RegExp :=
  [ re (seq [Bol; Char "<"; star Any; Char ">"; Eol]);
    re (seq [Bol; Char "["; star Any; Char "]"; Eol]);
    re (seq [Bol; Char "{"; star Any; Char "}"; Eol]);
    re_i (seq [Bol; lit "your_"; star Any; Eol]);
    re_i (seq [Bol; lit "example_"; star Any; Eol]);
    re_i (seq [Bol; lit "placeholder"; Eol]);
    re_i (seq [Bol; lit "change_me"; Eol]);
    re_i (seq [Bol; lit "replace_me"; Eol]);
    re_i (seq [Bol; lit "xx"; plus (Char "x"); Eol]);
    re_i (seq [Bol; lit "todo"; Eol]);
    re_i (seq [Bol; lit "fixme"; Eol]) ].

(** Check if a value is a placeholder. *)
Definition isPlaceholderValue (value : str) : bool :=
  existsb (fun pattern => RegExp.test pattern (trim value)) placeholderPatterns.

Definition Findings : Type :=
  (list ValidationError * list ValidationWarning * list ValidationInfo)%type.

Section WithRules.
Context `{Host}.
Variable customRules : list SecurityRule.

(** [this.securityRules], as the constructor sets it. *)
Definition securityRules : list SecurityRule := getDefaultSecurityRules ++ customRules.

(** Check variable against security rules. *)
Definition checkSecurityRules (variable : EnvVariable) (acc : Findings) : Findings :=
  let variableLine := key variable ++ "=" ++ value variable in
  fold_left
    (fun (acc : Findings) rule =>
       let '(errors, warnings, info) := acc in
       if RegExp.test (sr_pattern rule) variableLine then
         match sr_severity rule with
         | SevError =>
             (errors ++ [mkError E_security_risk (key variable) (sr_description rule)
                           (Some (lineNumber variable)) (sr_suggestion rule)], warnings, info)
         | SevWarning =>
             (errors, warnings ++ [mkWarning W_security_risk (key variable)
                                     (sr_description rule) (Some (lineNumber variable))
                                     (sr_suggestion rule)], info)
         | SevInfo =>
             (errors, warnings, info ++ [mkInfo I_info (Some (key variable))
                                           (sr_description rule) (Some (lineNumber variable))])
         end
       else acc)
    securityRules acc.

Definition shapeWarning (variable : EnvVariable) (name : str) : ValidationWarning :=
  mkWarning W_security_risk (key variable)
    ("Potential " ++ name ++ " detected in sensitive variable")
    (Some (lineNumber variable))
    (Some ("Ensure this secret is not committed to version control" : str)).

Definition weakSecretError (variable : EnvVariable) : ValidationError :=
  mkError E_security_risk (key variable) "Weak or default secret detected"
    (Some (lineNumber variable))
    (Some ("Use a strong, randomly generated secret" : str)).

(** Check for hardcoded secrets. *)
Definition checkHardcodedSecrets (variable : EnvVariable)
    (errors : list ValidationError) (warnings : list ValidationWarning)
  : list ValidationError * list ValidationWarning :=
  let value := value variable in
  let key := toLowerCase (key variable) in
  let isSensitiveKey := existsb (fun sensitiveKey => includes key sensitiveKey) sensitiveKeys in
  if isSensitiveKey then
    let warnings :=
      match find (fun p => RegExp.test (fst p) value) secretPatterns with
      | Some matchedPattern => warnings ++ [shapeWarning variable (snd matchedPattern)]
      | None => warnings
      end in
    let errors :=
      if isWeakSecret value then errors ++ [weakSecretError variable] else errors in
    (errors, warnings)
  else (errors, warnings).

(** The patterns "/localhost/i", "/127\.0\.0\.1/", "/(dev|test|staging|debug)/i"
    and "/^(true|false)$/i", each with its message and severity. *)
Definition devPatterns : list (RegExp.RegExp * str * Severity) :=
  [ (re_i (lit "localhost"), "Localhost URL detected" : str, SevWarning);
    (re (lit "127.0.0.1"), "Localhost IP detected" : str, SevWarning);
    (re_i (Group 1 (words ["dev"; "test"; "staging"; "debug"])),
     "Development/test environment indicator" : str, SevWarning);
    (re_i (seq [Bol; Group 1 (words ["true"; "false"]); Eol]),
     "Boolean flag detected" : str, SevInfo) ].

Definition weakSensitiveKeys : list str :=
  strs ["secret"; "key"; "token"; "password"; "auth"].

(** Check for weak patterns. *)
Definition checkWeakPatterns (variable : EnvVariable)
    (warnings : list ValidationWarning) (info : list ValidationInfo)
  : list ValidationWarning * list ValidationInfo :=
  let value := value variable in
  let key' := toLowerCase (key variable) in
  let '(warnings, info) :=
    fold_left
      (fun (acc : list ValidationWarning * list ValidationInfo) devPattern =>
         let '(warnings, info) := acc in
         let '(pattern, message, severity) := devPattern in
         if RegExp.test pattern value then
           match severity with
           | SevWarning =>
               (warnings ++ [mkWarning W_weak_pattern (key variable) message
                               (Some (lineNumber variable))
                               (Some ("Ensure this is appropriate for production" : str))],
                info)
           | _ =>
               (warnings,
                info ++ [mkInfo I_info (Some (key variable)) message
                           (Some (lineNumber variable))])
           end
         else acc)
      devPatterns (warnings, info) in
  let isSensitive := existsb (fun sensitiveKey => includes key' sensitiveKey) weakSensitiveKeys in
  if isSensitive && isPlaceholderValue value then
    (warnings ++ [mkWarning W_weak_pattern (key variable)
                    "Placeholder value detected in sensitive variable"
                    (Some (lineNumber variable))
                    (Some ("Replace with actual secure value" : str))],
     info)
  else (warnings, info).

Definition dash_or_space : regex := Class false [ch "-"; CSpace].

(** The patterns "/\b\d{4}[-\s]?\d{4}[-\s]?\d{4}[-\s]?\d{4}\b/",
    "/\b\d{3}-\d{2}-\d{4}\b/",
    "/[a-zA-Z0-9._%+-]+@[a-zA-Z0-9.-]+\.[a-zA-Z]{2,}/" and
    "/\b\d{1,3}\.\d{1,3}\.\d{1,3}\.\d{1,3}\b/", each with its message. *)
Definition sensitivePatterns : list (RegExp.RegExp * str) :=
  [ (re (seq [WordBoundary; digits 4; opt dash_or_space; digits 4; opt dash_or_space;
              digits 4; opt dash_or_space; digits 4; WordBoundary]),
     "Credit card number pattern" : str);
    (re (seq [WordBoundary; digits 3; Char "-"; digits 2; Char "-"; digits 4; WordBoundary]),
     "SSN pattern" : str);
    (re (seq [plus (Class false [range "a" "z"; range "A" "Z"; range "0" "9"; ch "."; ch "_";
                                 ch "%"; ch "+"; ch "-"]);
              Char "@";
              plus (Class false [range "a" "z"; range "A" "Z"; range "0" "9"; ch "."; ch "-"]);
              Char ".";
              atLeast 2 (Class false [range "a" "z"; range "A" "Z"])]),
     "Email address" : str);
    (re (seq [WordBoundary; digits_upto 1 3; Char "."; digits_upto 1 3; Char ".";
              digits_upto 1 3; Char "."; digits_upto 1 3; WordBoundary]),
     "IP address" : str) ].

(** Check for sensitive data exposure. *)
Definition checkSensitiveDataExposure (variable : EnvVariable)
    (warnings : list ValidationWarning) : list ValidationWarning :=
  let value := value variable in
  let warnings :=
    fold_left
      (fun warnings (pattern : RegExp.RegExp * str) =>
         if RegExp.test (fst pattern) value then
           warnings ++ [mkWarning W_security_risk (key variable)
                          ("Potential " ++ snd pattern ++ " detected")
                          (Some (lineNumber variable))
                          (Some ("Verify this sensitive data should be in environment variables"
                                 : str))]
         else warnings)
      sensitivePatterns warnings in
  match URL_new value with
  | Some url =>
      if truthy (username url) || truthy (password url) then
        warnings ++ [mkWarning W_security_risk (key variable)
                       "URL contains embedded credentials"
                       (Some (lineNumber variable))
                       (Some ("Store credentials separately from URLs" : str))]
      else warnings
  | None => warnings
  end.

(** One turn of the loop of [analyze]. *)
Definition analyzeVariable (acc : Findings) (variable : EnvVariable) : Findings :=
  let '(errors, warnings, info) := checkSecurityRules variable acc in
  let '(errors, warnings) := checkHardcodedSecrets variable errors warnings in
  let '(warnings, info) := checkWeakPatterns variable warnings info in
  let warnings := checkSensitiveDataExposure variable warnings in
  (errors, warnings, info).

(** Analyze environment variables for security issues. *)
Definition analyze (variables : list EnvVariable) : Findings :=
  fold_left analyzeVariable variables ([], [], []).

End WithRules.
End SecurityAnalyzer.

(* ================================================================== *)
(** ** core/validator.ts *)
(* ================================================================== *)

Module EnvGuardValidator.
Import JS.

Section WithHost.
Context `{Host}.

(** Create error result from parse errors. *)
Definition createErrorResult (parseErrors : list ParseError) (startTime : Z)
  : M ValidationResult :=
  let errors :=
    map (fun error => mkError E_invalid_format [] (pe_message error)
                        (Some (pe_lineNumber error)) None) parseErrors in
  endTime <- now ;;
  ret (mkResult false errors [] [] (mkSummary 0 0 0 0 0 (endTime - startTime)%Z)).

(** Determine validation mode based on config; the default case sets
    [this.config.exampleFile]. *)
Definition determineValidationMode (config : EnvGuardConfig) : ValidationMode * EnvGuardConfig :=
  if truthyOpt (cfg_schemaFile config) && truthyOpt (cfg_exampleFile config) then
    (ModeBoth, config)
  else if truthyOpt (cfg_schemaFile config) then (ModeSchema, config)
  else if truthyOpt (cfg_exampleFile config) then (ModeExample, config)
  else
    (ModeExample,
     mkConfig (cfg_schemaFile config) (Some (".env.example" : str)) (cfg_envFile config)
              (cfg_outputFormat config) (cfg_strict config) (cfg_ignorePatterns config)
              (cfg_customRules config) (cfg_securityRules config) (cfg_exitOnError config)
              (cfg_verbose config)).

(** Load schema from file. *)
Definition loadSchema (schemaFile : str) : Result EnvSchema :=
  let attempt :=
    rbind (readFileSync schemaFile) (fun content =>
      let ext := toLowerCase (extname schemaFile) in
      if str_eqb ext ".json" then JSON_parse_schema content
      else if str_eqb ext ".yaml" || str_eqb ext ".yml" then yaml_parse_schema content
      else Throw ("Unsupported schema file format: " ++ ext)) in
  match attempt with
  | Ok schema => Ok schema
  | Throw message => Throw ("Failed to load schema file: " ++ message)
  end.

(** Validate using schema file. *)
Definition validateWithSchema (config : EnvGuardConfig) (variables : list EnvVariable)
  : M ValidationResult :=
  if negb (truthyOpt (cfg_schemaFile config)) then
    throw "Schema file is required for schema validation mode"
  else
    schema <- lift (loadSchema (tpl (cfg_schemaFile config))) ;;
    SchemaValidator.validate schema variables.

(** [exampleParsed.variables] *)
Definition variablesOf (parsed : ParsedEnvFile) : list EnvVariable := variables parsed.

(** Validate using example file. *)
Definition validateWithExample (config : EnvGuardConfig) (variables : list EnvVariable)
  : M ValidationResult :=
  if negb (truthyOpt (cfg_exampleFile config)) then
    throw "Example file is required for example validation mode"
  else
    exampleParsed <- lift (EnvParser.parseFile (tpl (cfg_exampleFile config))) ;;
    match parseErrors exampleParsed with
    | first :: _ => throw ("Failed to parse example file: " ++ pe_message first)
    | [] =>
        ExampleValidator.validate (variablesOf exampleParsed)
          (orElseList (cfg_ignorePatterns config)) variables
    end.

(** Merge validation summaries. *)
Definition mergeSummaries (summary1 summary2 : ValidationSummary) : ValidationSummary :=
  mkSummary (Nat.max (totalVariables summary1) (totalVariables summary2))
            (Nat.max (requiredVariables summary1) (requiredVariables summary2))
            (Nat.max (missingVariables summary1) (missingVariables summary2))
            (Nat.max (unusedVariables summary1) (unusedVariables summary2))
            (securityIssues summary1 + securityIssues summary2)
            (Z.max (validationTime summary1) (validationTime summary2)).

(** [items.filter(x => { if (seen.has(key x)) return false; seen.add(key x); return true })] *)
Fixpoint dedup {A} (keyOf : A -> str) (seen : list str) (items : list A) : list A :=
  match items with
  | [] => []
  | x :: rest =>
      if set_has seen (keyOf x) then dedup keyOf seen rest
      else x :: dedup keyOf (keyOf x :: seen) rest
  end.

(** Remove duplicate errors. *)
Definition deduplicateErrors (errors : list ValidationError) : list ValidationError :=
  dedup (fun error => ErrorType_text (e_type error) ++ "-" ++ e_variable error ++ "-"
                        ++ e_message error) [] errors.

(** Remove duplicate warnings. *)
Definition deduplicateWarnings (warnings : list ValidationWarning) : list ValidationWarning :=
  dedup (fun warning => WarningType_text (w_type warning) ++ "-" ++ w_variable warning ++ "-"
                          ++ w_message warning) [] warnings.

(** Validate using both schema and example. *)
Definition validateWithBoth (config : EnvGuardConfig) (variables : list EnvVariable)
  : M ValidationResult :=
  schemaResult <- validateWithSchema config variables ;;
  exampleResult <- validateWithExample config variables ;;
  let mergedResult :=
    mkResult (isValid schemaResult && isValid exampleResult)
             (errors schemaResult ++ errors exampleResult)
             (warnings schemaResult ++ warnings exampleResult)
             (info schemaResult ++ info exampleResult)
             (mergeSummaries (summary schemaResult) (summary exampleResult)) in
  ret (mkResult (isValid mergedResult)
                (deduplicateErrors (errors mergedResult))
                (deduplicateWarnings (warnings mergedResult))
                (info mergedResult)
                (summary mergedResult)).

(** Perform security analysis. *)
Definition performSecurityAnalysis (config : EnvGuardConfig) (variables : list EnvVariable)
  : SecurityAnalyzer.Findings :=
  SecurityAnalyzer.analyze (orElseList (cfg_securityRules config)) variables.

(** The body of the [try] block of [validate]. *)
Definition validateBody (config : EnvGuardConfig) (startTime : Z) : M ValidationResult :=
  let envFile := orDefault (cfg_envFile config) ".env" in
  parsedEnv <- lift (EnvParser.parseFile envFile) ;;
  if 0 <? length (parseErrors parsedEnv) then
    createErrorResult (parseErrors parsedEnv) startTime
  else
    let '(mode, config) := determineValidationMode config in
    result <- match mode with
              | ModeSchema => validateWithSchema config (variables parsedEnv)
              | ModeExample => validateWithExample config (variables parsedEnv)
              | ModeBoth => validateWithBoth config (variables parsedEnv)
              end ;;
    let '(securityErrors, securityWarnings, securityInfo) :=
      performSecurityAnalysis config (variables parsedEnv) in
    let errors := errors result ++ securityErrors in
    let warnings := warnings result ++ securityWarnings in
    let info := info result ++ securityInfo in
    endTime <- now ;;
    let summary :=
      mkSummary (totalVariables (summary result)) (requiredVariables (summary result))
                (missingVariables (summary result)) (unusedVariables (summary result))
                (length securityErrors) (endTime - startTime)%Z in
    ret (mkResult (length errors =? 0) errors warnings info summary).

(** Validate environment file. *)
Definition validate (config : EnvGuardConfig) : M ValidationResult :=
  startTime <- now ;;
  try_catch (validateBody config startTime)
    (fun message =>
       createErrorResult [mkParseError 0 ("Validation failed: " ++ message) []] startTime).

End WithHost.
End EnvGuardValidator.

(* ================================================================== *)
(** ** A sample platform *)
(* ================================================================== *)

(** A small platform for running the program on concrete inputs: three
    files, a clock that advances by one at each reading, and a [Number]
    that knows unsigned decimal integers only. *)
Module Sample.
Import JS.

Definition noSuchFile {A} : Result A := Throw ("ENOENT: no such file or directory" : str).

Definition envText : str :=
  "NODE_ENV=development" ++ [LF] ++ "bad line" ++ [LF] ++ "PORT=3000".

Definition exampleText : str :=
  "NODE_ENV=development" ++ [LF] ++ "API_KEY=<your-api-key>".

Definition goodText : str :=
  "NODE_ENV=" ++ [LF] ++ "API_KEY=admin" ++ [LF] ++ "PORT=3000".

#[export] Instance host : Host := {|
  readFileSync := fun path =>
    if str_eqb path ".env" then Ok envText
    else if str_eqb path ".env.example" then Ok exampleText
    else if str_eqb path "good.env" then Ok goodText
    else noSuchFile;
  extname := fun _ => ".json" : str;
  JSON_parse_schema := fun _ => Throw ("Unexpected end of JSON input" : str);
  yaml_parse_schema := fun _ => Throw ("Unexpected end of YAML input" : str);
  JSON_parses := fun _ => false;
  URL_new := fun _ => None;
  Number_isFinite := fun s => forallb isDigit s && negb (str_eqb s "");
  RegExp_new := fun _ => Throw ("Invalid regular expression" : str);
  Date_now := fun n => Z.of_nat n
|}.

Definition defaultConfig : EnvGuardConfig :=
  mkConfig None None None None None None None None None None.

Definition goodConfig : EnvGuardConfig :=
  mkConfig None None (Some ("good.env" : str)) None None None None None None None.

Definition var (k v : string) (line : nat) : EnvVariable := mkEnvVariable k v line false None.

Definition portSchema : EnvSchema :=
  mkEnvSchema [("PORT" : str,
                mkVariableSchema true (Some T_number) None None None None None None)]
              None None None.

End Sample.

(* ================================================================== *)
(** ** Vocabulary of the statements *)
(* ================================================================== *)

(** The collection a line of the file ends up in. *)
Inductive LineKind : Type :=
| KVariable (v : EnvVariable)
| KComment (c : str)
| KBlank (n : nat)
| KError (e : ParseError).

(** The file with one more entry. *)
Definition addLine (acc : ParsedEnvFile) (k : LineKind) : ParsedEnvFile :=
  match k with
  | KVariable v =>
      mkParsedEnvFile (variables acc ++ [v]) (comments acc) (emptyLines acc) (parseErrors acc)
  | KComment c =>
      mkParsedEnvFile (variables acc) (comments acc ++ [c]) (emptyLines acc) (parseErrors acc)
  | KBlank n =>
      mkParsedEnvFile (variables acc) (comments acc) (emptyLines acc ++ [n]) (parseErrors acc)
  | KError e =>
      mkParsedEnvFile (variables acc) (comments acc) (emptyLines acc) (parseErrors acc ++ [e])
  end.

Definition variablesIn (ks : list LineKind) : list EnvVariable :=
  flat_map (fun k => match k with KVariable v => [v] | _ => [] end) ks.
Definition commentsIn (ks : list LineKind) : list str :=
  flat_map (fun k => match k with KComment c => [c] | _ => [] end) ks.
Definition blanksIn (ks : list LineKind) : list nat :=
  flat_map (fun k => match k with KBlank n => [n] | _ => [] end) ks.
Definition errorsIn (ks : list LineKind) : list ParseError :=
  flat_map (fun k => match k with KError e => [e] | _ => [] end) ks.

(** A line at 0-based index [i] and the entry made for it. *)
Definition entryOf (i : nat) (line : str) (k : LineKind) : Prop :=
  match k with
  | KVariable v =>
      lineNumber v = i + 1
      /\ EnvParser.variable (EnvParser.parseVariableLine line (i + 1)) = Some v
  | KComment c => c = JS.trim (JS.substringFrom (JS.trim line) 1)
  | KBlank n => n = i + 1 /\ JS.trim line = []
  | KError e =>
      pe_lineNumber e = i + 1 /\ pe_line e = JS.trim line
      /\ EnvParser.error (EnvParser.parseVariableLine line (i + 1)) = Some e
  end.

(** [new Map(variables.map(v => [v.key, v]))] *)
Definition mapOfVariables (vars : list EnvVariable) : JS.Map EnvVariable :=
  JS.map_of (map (fun v => (key v, v)) vars).

(** What a pass of the example validator pushes for one variable: the pass
    run on that variable alone. *)
Section PerVariable.
Context `{Host}.

Definition emptyValueWarnings (exampleMap : JS.Map EnvVariable) (v : EnvVariable)
  : list ValidationWarning :=
  ExampleValidator.validateEmptyValues [v] exampleMap [].

Definition formatWarnings (exampleMap : JS.Map EnvVariable) (v : EnvVariable)
  : list ValidationWarning :=
  fst (ExampleValidator.validateValueFormats [v] exampleMap [] []).

Definition formatInfos (exampleMap : JS.Map EnvVariable) (v : EnvVariable)
  : list ValidationInfo :=
  snd (ExampleValidator.validateValueFormats [v] exampleMap [] []).


(** The warnings of a result that carry the tag unused_variable and name
    the variable [k]. *)
Definition unusedWarningsFor (k : str) (ws : list ValidationWarning) : list ValidationWarning :=
  filter (fun w => WarningType_eqb (w_type w) W_unused_variable && JS.str_eqb (w_variable w) k)
         ws.

End PerVariable.

(** What the unused check pushes for one key: nothing, or the warning that
    carries the line of the record the [Map] holds for the key. *)
Definition unusedPush (exampleKeys : list str) (variableMap : JS.Map EnvVariable)
    (k : str) (new : list ValidationWarning) : Prop :=
  new = []
  \/ exists v, JS.map_get variableMap k = Some v /\ JS.set_has exampleKeys k = false
               /\ new = [ExampleValidator.notInExample k v].

(** What the missing check pushes for one key of the example. *)
Definition missingPush (variableMap : JS.Map EnvVariable) (k : str)
    (new : list ValidationError) : Prop :=
  new = []
  \/ exists ev, JS.map_has variableMap k = false
                /\ new = [ExampleValidator.missingFromEnv k ev].


(** The least number of characters a match of a pattern reads. *)
Fixpoint minlen (r : RegExp.regex) : nat :=
  match r with
  | RegExp.Empty | RegExp.Bol | RegExp.Eol | RegExp.WordBoundary | RegExp.BackRef _ => 0
  | RegExp.Char _ | RegExp.Any | RegExp.Class _ _ => 1
  | RegExp.Seq r1 r2 => minlen r1 + minlen r2
  | RegExp.Alt r1 r2 => Nat.min (minlen r1) (minlen r2)
  | RegExp.Repeat r1 mn _ _ => mn * minlen r1
  | RegExp.Group _ r1 => minlen r1
  end.

(** The errors of type invalid_format that name the variable [v] and its
    line. *)
Definition formatErrorsAbout (v : EnvVariable) (es : list ValidationError)
  : list ValidationError :=
  filter (fun e => ErrorType_eqb (e_type e) E_invalid_format
                   && JS.str_eqb (e_variable e) (key v)
                   && match e_lineNumber e with
                      | Some n => n =? lineNumber v
                      | None => false
                      end) es.

(** An error that a turn of [validateVariableValues] on [v] pushes. *)
Definition pushedFor (v : EnvVariable) (e : ValidationError) : Prop :=
  e_type e = E_invalid_format /\ e_variable e = key v
  /\ e_lineNumber e = Some (lineNumber v).

(** A key of the identifier grammar: "[A-Za-z_][A-Za-z0-9_]*". *)
Definition isIdentifier (k : str) : bool :=
  match k with
  | x :: t =>
      RegExp.class_matches false false EnvParser.identStart x
      && forallb (RegExp.class_matches false false EnvParser.identChar) t
  | [] => false
  end.

(** A character that is no quote, no [#], no backslash and no newline. *)
Definition plainChar (c : ascii) : bool :=
  negb (JS.chr_eqb c JS.SQ || JS.chr_eqb c JS.DQ || JS.chr_eqb c JS.HASH
        || JS.chr_eqb c JS.BACKSLASH || JS.chr_eqb c JS.LF).

(** A variable record as the round-trip claim takes it: an identifier for
    key, no comment, a value of plain characters with no white space at
    either end. *)
Definition simpleAsStated (v : EnvVariable) : Prop :=
  isIdentifier (key v) = true
  /\ hasComment v = None
  /\ forallb plainChar (value v) = true
  /\ JS.trim (value v) = value v.

(** The same, with no line terminator in the value: none of the
    characters that [.] refuses in the assignment pattern, carriage
    return, U+2028 and U+2029 besides the newline. *)
Definition simple (v : EnvVariable) : Prop :=
  simpleAsStated v
  /\ forallb (fun c => negb (JS.isLineTerminator c)) (value v) = true.

(** Key, value and quoting flag of each record. *)
Definition pairsOf (vs : list EnvVariable) : list (str * str * bool) :=
  map (fun v => (key v, value v, isQuoted v)) vs.

(** A pattern that reads exactly one character, those that [P] accepts. *)
Definition single (ic : bool) (r : RegExp.regex) (P : ascii -> bool) : Prop :=
  forall k s,
    RegExp.rmatch ic r k s
    = match RegExp.ahead s with
      | x :: t => if P x then k (RegExp.step s x t) else None
      | [] => None
      end.

(** The records as a parse numbers them from line [i + 1] on, without
    comments. *)
Fixpoint renumber (i : nat) (vs : list EnvVariable) : list EnvVariable :=
  match vs with
  | [] => []
  | v :: t => mkEnvVariable (key v) (value v) (i + 1) (isQuoted v) None :: renumber (S i) t
  end.

(** The text of a value in a line that [stringify] writes. *)
Definition valueText (v : EnvVariable) : str :=
  if isQuoted v then [JS.DQ] ++ value v ++ [JS.DQ] else value v.

(** A matcher that, whenever it succeeds, has called its continuation on a
    state at least [n] characters further. *)
Definition reads_at_least (n : nat)
    (body : RegExp.Cont -> RegExp.mstate -> option RegExp.mstate) : Prop :=
  forall k s m, body k s = Some m ->
    exists s', k s' = Some m /\ length (RegExp.ahead s') + n <= length (RegExp.ahead s).

(** Where the input stops matching: at its end, or at a character that [P]
    refuses. *)
Definition stops (P : ascii -> bool) (rest : str) : Prop :=
  match rest with [] => True | y :: _ => P y = false end.

(** Two continuations that agree on every state with at most [n] characters
    ahead. *)
Definition agree (n : nat) (k1 k2 : RegExp.Cont) : Prop :=
  forall s, length (RegExp.ahead s) <= n -> k1 s = k2 s.

(** A matcher that calls its continuation only on states with no more
    characters ahead than the state it started from. *)
Definition local (body : RegExp.Cont -> RegExp.mstate -> option RegExp.mstate) : Prop :=
  forall k1 k2 s, agree (length (RegExp.ahead s)) k1 k2 -> body k1 s = body k2 s.

(** [new RegExp(pattern)] returns. *)
Definition compiles `{Host} (pattern : str) : Prop :=
  exists regex, RegExp_new pattern = Ok regex.

(** The patterns of a schema that [SchemaValidator.validate] may hand to
    [new RegExp]: the ignore patterns and the pattern of each entry. *)
Definition schemaCompiles `{Host} (schema : EnvSchema) : Prop :=
  Forall compiles (orElseList (es_ignorePatterns schema))
  /\ forall k sch pattern,
       In (k, sch) (es_variables schema) -> vs_pattern sch = Some pattern -> compiles pattern.

(** The computation [m], started at clock tick [t], returns a value. *)
Definition returns {A} (m : M A) (t : nat) : Prop :=
  exists r t', m t = (Ok r, t').

(** The three lists of a security analysis. *)
Definition errorsOf (f : SecurityAnalyzer.Findings) : list ValidationError := fst (fst f).
Definition warningsOf (f : SecurityAnalyzer.Findings) : list ValidationWarning := snd (fst f).
Definition infoOf (f : SecurityAnalyzer.Findings) : list ValidationInfo := snd f.

(** Findings after findings. *)
Definition app3 (a b : SecurityAnalyzer.Findings) : SecurityAnalyzer.Findings :=
  (errorsOf a ++ errorsOf b, warningsOf a ++ warningsOf b, infoOf a ++ infoOf b).

(** The test of [checkHardcodedSecrets] on the key: the lower-cased key
    includes one of the nine sensitive words. *)
Definition hasSensitiveKey (v : EnvVariable) : bool :=
  existsb (fun sensitiveKey => JS.includes (JS.toLowerCase (key v)) sensitiveKey)
          SecurityAnalyzer.sensitiveKeys.

(** A finding that names the variable [v] and its line. *)
Definition errorAbout (v : EnvVariable) (e : ValidationError) : Prop :=
  e_variable e = key v /\ e_lineNumber e = Some (lineNumber v).
Definition warningAbout (v : EnvVariable) (w : ValidationWarning) : Prop :=
  w_variable w = key v /\ w_lineNumber w = Some (lineNumber v).
Definition infoAbout (v : EnvVariable) (i : ValidationInfo) : Prop :=
  i_variable i = Some (key v) /\ i_lineNumber i = Some (lineNumber v).

(** Findings that are all about the variable [v] and carry the types the
    analyzer uses. *)
Definition aboutVariable (v : EnvVariable) (f : SecurityAnalyzer.Findings) : Prop :=
  Forall (fun e => e_type e = E_security_risk /\ errorAbout v e) (errorsOf f)
  /\ Forall (fun w => (w_type w = W_security_risk \/ w_type w = W_weak_pattern)
                      /\ warningAbout v w) (warningsOf f)
  /\ Forall (fun i => i_type i = I_info /\ infoAbout v i) (infoOf f).

(** The result of a run that failed with one message: no line, no
    variable. *)
Definition failureResult (message : str) (validationTime : Z) : ValidationResult :=
  mkResult false [mkError E_invalid_format [] message (Some 0) None] [] []
           (mkSummary 0 0 0 0 0 validationTime).

(** The configuration with its example file set. *)
Definition withExampleFile (config : EnvGuardConfig) (file : str) : EnvGuardConfig :=
  mkConfig (cfg_schemaFile config) (Some file) (cfg_envFile config)
           (cfg_outputFormat config) (cfg_strict config) (cfg_ignorePatterns config)
           (cfg_customRules config) (cfg_securityRules config) (cfg_exitOnError config)
           (cfg_verbose config).

(** The file the run reads the variables from. *)
Definition envFileOf (config : EnvGuardConfig) : str := JS.orDefault (cfg_envFile config) ".env".

(** The example file of a run in example mode. *)
Definition exampleFileOf (config : EnvGuardConfig) : str :=
  if JS.truthyOpt (cfg_exampleFile config) then tpl (cfg_exampleFile config)
  else ".env.example".

(** The keys the duplicate filters compare. *)
Definition errorKey (error : ValidationError) : str :=
  ErrorType_text (e_type error) ++ "-" ++ e_variable error ++ "-" ++ e_message error.
Definition warningKey (warning : ValidationWarning) : str :=
  WarningType_text (w_type warning) ++ "-" ++ w_variable warning ++ "-" ++ w_message warning.

(** No hyphen in a text. *)
Definition noHyphen (s : str) : Prop := ~ In "-"%char s.

(** [shouldIgnoreVariable(key)] as a condition, where it returns. *)
Definition isIgnored `{Host} (ignorePatterns : list str) (key : str) : bool :=
  match ExampleValidator.shouldIgnoreVariable ignorePatterns key with
  | Ok ignored => ignored
  | Throw _ => false
  end.

(** What the missing check does for one key of the example: nothing when
    the key is observed or ignored, one error otherwise. *)
Definition missingTurn `{Host} (ignorePatterns : list str)
    (variableMap exampleMap : JS.Map EnvVariable) (k : str) (new : list ValidationError) : Prop :=
  (new = [] /\ (JS.map_has variableMap k = true \/ isIgnored ignorePatterns k = true))
  \/ (exists ev, JS.map_get exampleMap k = Some ev
                 /\ new = [ExampleValidator.missingFromEnv k ev]
                 /\ JS.map_has variableMap k = false /\ isIgnored ignorePatterns k = false).

(** Findings that carry the types of the custom rules. *)
Definition customTyped (f : SchemaValidator.Findings) : Prop :=
  Forall (fun e => e_type e = E_custom) (errorsOf f)
  /\ Forall (fun w => w_type w = W_custom) (warningsOf f)
  /\ Forall (fun i => i_type i = I_info) (infoOf f).

(** The entries of the schema that are required and have no observed
    variable of their key. *)
Definition missingKeys (schema : EnvSchema) (vars : list EnvVariable)
  : list (str * VariableSchema) :=
  filter (fun kv => vs_required (snd kv)
                    && negb (existsb (fun v => JS.str_eqb (key v) (fst kv)) vars))
         (es_variables schema).

(** [shouldIgnoreVariable(key, ignorePatterns)] of the schema validator as a
    condition, where it returns. *)
Definition schemaIgnores `{Host} (schema : EnvSchema) (key : str) : bool :=
  match SchemaValidator.shouldIgnoreVariable key (orElseList (es_ignorePatterns schema)) with
  | Ok ignored => ignored
  | Throw _ => false
  end.

(** What the unused check of the schema validator does for one observed
    key. *)
Definition unusedTurn `{Host} (schema : EnvSchema) (variableMap : JS.Map EnvVariable)
    (k : str) (new : list ValidationWarning) : Prop :=
  (new = [] /\ (In k (map fst (es_variables schema)) \/ schemaIgnores schema k = true))
  \/ (exists v, JS.map_get variableMap k = Some v
                /\ new = [SchemaValidator.notInSchema k v]
                /\ ~ In k (map fst (es_variables schema)) /\ schemaIgnores schema k = false).

(** A matcher all of whose successes hand its continuation a state that
    [R] relates to the state it started from. *)
Definition passes (R : RegExp.mstate -> RegExp.mstate -> Prop)
    (body : RegExp.Cont -> RegExp.mstate -> option RegExp.mstate) : Prop :=
  forall k s m, body k s = Some m -> exists s', R s s' /\ k s' = Some m.

(** From [s] to [s'] the text [p] was read and no capture was set. *)
Definition took (p : str) (s s' : RegExp.mstate) : Prop :=
  RegExp.ahead s = p ++ RegExp.ahead s'
  /\ RegExp.behind s' = rev p ++ RegExp.behind s
  /\ RegExp.caps s' = RegExp.caps s.

(** The state [s0] with the text read since [s] as capture [n]. *)
Definition captured (n : nat) (s s0 : RegExp.mstate) : RegExp.mstate :=
  RegExp.mkState (RegExp.behind s0) (RegExp.ahead s0)
                 (RegExp.set_cap n (RegExp.consumed s s0) (RegExp.caps s0)).

(** No line terminator in a text. *)
Definition oneLine (s : str) : bool := forallb (fun c => negb (JS.isLineTerminator c)) s.

(** No [#] in a text. *)
Definition noHash (s : str) : bool := forallb (fun c => negb (JS.chr_eqb c JS.HASH)) s.

(** Whether a pattern holds the capture group [n]. *)
Fixpoint setsGroup (n : nat) (r : RegExp.regex) : bool :=
  match r with
  | RegExp.Group m r1 => (n =? m) || setsGroup n r1
  | RegExp.Seq r1 r2 | RegExp.Alt r1 r2 => setsGroup n r1 || setsGroup n r2
  | RegExp.Repeat r1 _ _ _ => setsGroup n r1
  | _ => false
  end.

(** The capture [n] is the same in both states. *)
Definition keeps (n : nat) (s s' : RegExp.mstate) : Prop :=
  RegExp.get_cap n (RegExp.caps s') = RegExp.get_cap n (RegExp.caps s).

(** What holds of every variable record the parser makes at line [n]. *)
Definition wellFormed (n : nat) (v : EnvVariable) : Prop :=
  isIdentifier (key v) = true
  /\ lineNumber v = n
  /\ (forall c, hasComment v = Some c -> JS.trim c = c)
  /\ (isQuoted v = false ->
      JS.trim (value v) = value v /\ noHash (value v) = true /\ oneLine (value v) = true).

(** A text whose first character after white space is no quote. *)
Definition startsPlain (s : str) : bool :=
  match JS.trimStart s with
  | x :: _ => negb (JS.chr_eqb x JS.SQ || JS.chr_eqb x JS.DQ)
  | [] => true
  end.

(** The escape sequences of a double-quoted value, as [processQuotes]
    replaces them, in its order. *)
Definition unescape (s : str) : str :=
  JS.replaceAll2 JS.BACKSLASH JS.DQ [JS.DQ]
    (JS.replaceAll2 JS.BACKSLASH JS.BACKSLASH [JS.BACKSLASH]
       (JS.replaceAll2 JS.BACKSLASH "t" [JS.TAB]
          (JS.replaceAll2 JS.BACKSLASH "r" [JS.CR]
             (JS.replaceAll2 JS.BACKSLASH "n" [JS.LF] s)))).

(** No character [c] in a text. *)
Definition without (c : ascii) (s : str) : bool := forallb (fun x => negb (JS.chr_eqb x c)) s.

(** The comment of a record that [stringify] writes: an empty one is not
    written. *)
Definition keptComment (v : EnvVariable) : option str :=
  if JS.truthyOpt (hasComment v) then hasComment v else None.

(** The records with the number of their line, from line [i + 1] on. *)
Fixpoint numbered (i : nat) (vs : list EnvVariable) : list EnvVariable :=
  match vs with
  | [] => []
  | v :: t =>
      mkEnvVariable (key v) (value v) (i + 1) (isQuoted v) (keptComment v) :: numbered (S i) t
  end.

(** A record that a line can hold: an identifier for key; a quoted value
    of one line without double quote and backslash, or a value that is
    not quoted, of one line, trimmed, without [#] and not starting with a
    quote; a comment, if any, of one line and trimmed. *)
Definition writable (v : EnvVariable) : Prop :=
  isIdentifier (key v) = true
  /\ oneLine (value v) = true
  /\ (if isQuoted v
      then without JS.DQ (value v) = true /\ without JS.BACKSLASH (value v) = true
      else JS.trim (value v) = value v /\ without JS.HASH (value v) = true
           /\ startsPlain (value v) = true)
  /\ match hasComment v with
     | Some c => JS.trim c = c /\ oneLine c = true
     | None => True
     end.

(** A text with Windows line ends: a carriage return before every line
    feed. *)
Fixpoint withCRLF (s : str) : str :=
  match s with
  | [] => []
  | c :: t => if JS.chr_eqb c JS.LF then JS.CR :: JS.LF :: withCRLF t else c :: withCRLF t
  end.

(** Two lines that differ by a carriage return at the end at most. *)
Definition sameLine (a b : str) : Prop := a = b \/ a = b ++ [JS.CR].

(* ================================================================== *)
(** ** cli/output-formatter.ts and config/loader.ts *)
(* ================================================================== *)

Module OutputFormatter.
Import JS.

(** [s.replace(/c/g, rep)] for a pattern of one literal character. *)
Fixpoint replaceAll1 (c : ascii) (rep : str) (s : str) : str :=
  match s with
  | [] => []
  | x :: t => if chr_eqb x c then rep ++ replaceAll1 c rep t else x :: replaceAll1 c rep t
  end.

(** Escape XML special characters. *)
Definition escapeXml (text : str) : str :=
  replaceAll1 SQ "&apos;"
    (replaceAll1 DQ "&quot;"
       (replaceAll1 ">" "&gt;"
          (replaceAll1 "<" "&lt;"
             (replaceAll1 "&" "&amp;" text)))).

End OutputFormatter.

Module ConfigLoader.
Import JS.

(** [s.lastIndexOf(c)] for a one-character needle; [None] is -1. *)
Fixpoint lastIndexOf (s : str) (c : ascii) : option nat :=
  match s with
  | [] => None
  | x :: t =>
      match lastIndexOf t c with
      | Some i => Some (S i)
      | None => if chr_eqb x c then Some 0 else None
      end
  end.

(** Get file extension. *)
Definition getFileExtension (filePath : str) : str :=
  match lastIndexOf filePath "." with
  | None => ""
  | Some lastDot => substringFrom filePath lastDot
  end.

End ConfigLoader.

(** The text that stands for one character in escaped XML. *)
Definition entity (x : ascii) : str :=
  if JS.chr_eqb x "&" then "&amp;"
  else if JS.chr_eqb x "<" then "&lt;"
  else if JS.chr_eqb x ">" then "&gt;"
  else if JS.chr_eqb x JS.DQ then "&quot;"
  else if JS.chr_eqb x JS.SQ then "&apos;"
  else [x].

(** The four characters that open or close markup and attribute values. *)
Definition markup (x : ascii) : bool :=
  JS.chr_eqb x "<" || JS.chr_eqb x ">" || JS.chr_eqb x JS.DQ || JS.chr_eqb x JS.SQ.

(** The names of the five entities, after the [&]. *)
Definition entityNames : list str :=
  ["amp;" : str; "lt;" : str; "gt;" : str; "quot;" : str; "apos;" : str].


(** A character of the three parts of an email address as the programs
    take it: no white space, no [@]. *)
Definition emailChar (x : ascii) : bool := negb (JS.isWhiteSpace x || JS.chr_eqb x "@").

(** A text of the shape [local@domain.rest], each part a non-empty run of
    such characters. *)
Definition emailShaped (value : str) : Prop :=
  exists a b c,
    value = a ++ "@" ++ b ++ "." ++ c
    /\ a <> [] /\ b <> [] /\ c <> []
    /\ forallb emailChar a = true /\ forallb emailChar b = true /\ forallb emailChar c = true.

(** Every key of the example is observed and every observed key is in the
    example. *)
Definition sameKeys (ex vars : list EnvVariable) : bool :=
  forallb (JS.map_has (mapOfVariables vars)) (JS.map_keys (mapOfVariables ex))
  && forallb (JS.set_has (JS.map_keys (mapOfVariables ex))) (JS.map_keys (mapOfVariables vars)).

(** Settles a statement about one character by running through the 256
    of them. *)
Ltac all_chars x :=
  destruct x as [[] [] [] [] [] [] [] []]; vm_compute; intuition congruence.

(** Unfolds the operations of the monad [M]. *)
Ltac run_m := unfold bind, ret, lift, now, throw, try_catch in *.

(* ================================================================== *)
(** ** Lists, folds and the monad *)
(* ================================================================== *)

Lemma length_eqb_0 {A} (l : list A) : (length l =? 0) = true <-> l = [].
Proof.
  destruct l; simpl; split; intro E; try reflexivity; discriminate.
Qed.

(** A loop that only pushes is the accumulator followed by what each turn
    pushes. *)
Lemma fold_left_push {A B} (g : A -> list B) (f : list B -> A -> list B) :
  (forall acc x, f acc x = acc ++ g x) ->
  forall l acc, fold_left f l acc = acc ++ flat_map g l.
Proof.
  intros Hf l. induction l as [|x l IH]; intro acc; simpl.
  - now rewrite app_nil_r.
  - rewrite IH, Hf, <- app_assoc. reflexivity.
Qed.

Section Validity.
Context `{Host}.

Lemma schema_validate_valid schema vars t r t' :
  SchemaValidator.validate schema vars t = (Ok r, t') ->
  isValid r = (length (errors r) =? 0).
Proof.
  unfold SchemaValidator.validate. run_m.
  destruct (SchemaValidator.validateUnusedVariables _ _ _ _ _) as [w|e]; [|discriminate].
  destruct (SchemaValidator.validateVariableValues _ _ _ _) as [[es ws]|e]; [|discriminate].
  destruct (SchemaValidator.applyCustomRules _ _ _) as [[es' ws'] is'].
  intros [= <- _]. reflexivity.
Qed.

Lemma example_validate_valid ex ign vars t r t' :
  ExampleValidator.validate ex ign vars t = (Ok r, t') ->
  isValid r = (length (errors r) =? 0).
Proof.
  unfold ExampleValidator.validate. run_m.
  destruct (ExampleValidator.validateMissingVariables _ _ _ _ _) as [es|e]; [|discriminate].
  destruct (ExampleValidator.validateUnusedVariables _ _ _ _ _) as [ws|e]; [|discriminate].
  destruct (ExampleValidator.validateValueFormats _ _ _ _) as [ws' is'].
  intros [= <- _]. reflexivity.
Qed.


Lemma withSchema_valid cfg vars t r t' :
  EnvGuardValidator.validateWithSchema cfg vars t = (Ok r, t') ->
  isValid r = (length (errors r) =? 0).
Proof.
  unfold EnvGuardValidator.validateWithSchema.
  destruct (negb _); run_m; [discriminate|].
  destruct (EnvGuardValidator.loadSchema _) as [schema|e]; [|discriminate].
  apply schema_validate_valid.
Qed.

Lemma withExample_valid cfg vars t r t' :
  EnvGuardValidator.validateWithExample cfg vars t = (Ok r, t') ->
  isValid r = (length (errors r) =? 0).
Proof.
  unfold EnvGuardValidator.validateWithExample.
  destruct (negb _); run_m; [discriminate|].
  destruct (EnvParser.parseFile _) as [parsed|e]; [|discriminate].
  destruct (parseErrors parsed); [|discriminate].
  apply example_validate_valid.
Qed.

Lemma withBoth_valid cfg vars t r t' :
  EnvGuardValidator.validateWithBoth cfg vars t = (Ok r, t') ->
  isValid r = (length (errors r) =? 0).
Proof.
  unfold EnvGuardValidator.validateWithBoth. run_m.
  destruct (EnvGuardValidator.validateWithSchema cfg vars t) as [[rs|e] t1] eqn:Es; [|discriminate].
  destruct (EnvGuardValidator.validateWithExample cfg vars t1) as [[re|e] t2] eqn:Ee; [|discriminate].
  intros [= <- _]. simpl.
  rewrite (withSchema_valid _ _ _ Es), (withExample_valid _ _ _ Ee).
  unfold EnvGuardValidator.deduplicateErrors.
  destruct (errors rs) as [|a l]; simpl; [|reflexivity].
  destruct (errors re); reflexivity.
Qed.

Lemma createErrorResult_spec pes start t :
  EnvGuardValidator.createErrorResult pes start t =
  (Ok (mkResult false
         (map (fun pe => mkError E_invalid_format [] (pe_message pe) (Some (pe_lineNumber pe)) None)
              pes)
         [] [] (mkSummary 0 0 0 0 0 (Date_now t - start)%Z)),
   S t).
Proof. reflexivity. Qed.

Lemma validateBody_valid cfg start t r t' :
  EnvGuardValidator.validateBody cfg start t = (Ok r, t') ->
  isValid r = (length (errors r) =? 0).
Proof.
  unfold EnvGuardValidator.validateBody. run_m.
  destruct (EnvParser.parseFile _) as [parsed|e]; [|discriminate].
  destruct (0 <? length (parseErrors parsed)) eqn:En.
  - intros [= <- _]. simpl. destruct (parseErrors parsed); [discriminate|reflexivity].
  - destruct (EnvGuardValidator.determineValidationMode cfg) as [mode cfg'].
    match goal with
    | |- context [match mode with ModeSchema => ?a | ModeExample => ?b | ModeBoth => ?c end t] =>
        destruct (match mode with ModeSchema => a | ModeExample => b | ModeBoth => c end t)
          as [[res|e] t1]; [|discriminate]
    end.
    destruct (EnvGuardValidator.performSecurityAnalysis _ _) as [[se sw] si].
    intros [= <- _]. reflexivity.
Qed.

(** The orchestrator never throws: every run ends in a result. *)
Lemma validate_returns cfg t :
  exists r t', EnvGuardValidator.validate cfg t = (Ok r, t')
               /\ isValid r = (length (errors r) =? 0).
Proof.
  unfold EnvGuardValidator.validate. run_m.
  destruct (EnvGuardValidator.validateBody cfg (Date_now t) (S t)) as [[r|e] t1] eqn:Eb.
  - exists r, t1. split; [reflexivity|]. eapply validateBody_valid; eauto.
  - eexists _, _. split; [reflexivity|]. reflexivity.
Qed.

End Validity.

(** C2.  When the target file is read and its parse yields at least one
    parse error, the orchestrator returns at once: the result is invalid,
    its errors are the parse errors, one each and in order (type
    invalid_format, no variable), its warnings and info are empty and its
    counts are zero.  The result does not depend on the schema, the example
    or the security rules, and the clock has been read twice only: none of
    those passes ran. *)
Theorem C2_parse_errors_end_the_run `{Host} cfg content t :
  readFileSync (JS.orDefault (cfg_envFile cfg) ".env") = Ok content ->
  parseErrors (EnvParser.parseContent content) <> [] ->
  exists r,
    EnvGuardValidator.validate cfg t = (Ok r, S (S t))
    /\ isValid r = false
    /\ errors r = map (fun pe => mkError E_invalid_format [] (pe_message pe)
                                   (Some (pe_lineNumber pe)) None)
                      (parseErrors (EnvParser.parseContent content))
    /\ length (errors r) = length (parseErrors (EnvParser.parseContent content))
    /\ warnings r = []
    /\ info r = []
    /\ summary r = mkSummary 0 0 0 0 0 (Date_now (S t) - Date_now t)%Z.
Proof.
  intros Hread Herr.
  unfold EnvGuardValidator.validate, EnvGuardValidator.validateBody, EnvParser.parseFile.
  run_m. rewrite Hread.
  destruct (parseErrors (EnvParser.parseContent content)) as [|pe pes] eqn:E; [congruence|].
  cbn [length Nat.ltb Nat.leb].
  eexists. split; [reflexivity|]. cbn.
  repeat split. now rewrite length_map.
Qed.

Lemma C2_witness :
  exists r,
    EnvGuardValidator.validate (H:=Sample.host) Sample.defaultConfig 0 = (Ok r, 2)
    /\ isValid r = false
    /\ errors r = [mkError E_invalid_format [] "Invalid variable assignment format" (Some 2) None]
    /\ length (errors r) = 1
    /\ warnings r = []
    /\ info r = []
    /\ summary r = mkSummary 0 0 0 0 0 1%Z.
Proof.
  exact (@C2_parse_errors_end_the_run Sample.host Sample.defaultConfig Sample.envText 0
           eq_refl ltac:(vm_compute; discriminate)).
Defined.

(* ================================================================== *)
(** ** The parser sorts every line *)
(* ================================================================== *)

Section ParserLines.
Import JS.

Lemma parseVariableLine_cases line n :
  (exists v, EnvParser.parseVariableLine line n = EnvParser.mkLineResult (Some v) None
             /\ lineNumber v = n)
  \/ EnvParser.parseVariableLine line n
     = EnvParser.mkLineResult None
         (Some (mkParseError n "Invalid variable assignment format" (trim line))).
Proof.
  unfold EnvParser.parseVariableLine, EnvParser.invalidAssignment.
  destruct (RegExp.exec _ _) as [m|]; [|now right].
  destruct (RegExp.get_cap 1 m) as [[|c k]|]; try now right.
  destruct (RegExp.get_cap 2 m) as [vc|]; [|now right].
  destruct (EnvParser.extractValueAndComment vc) as [v c'].
  destruct (EnvParser.processQuotes v) as [cv q].
  left. eexists. split; reflexivity.
Qed.

(** One turn of the loop makes exactly one entry, numbered by the line. *)
Lemma parseLine_entry acc i line :
  exists k, EnvParser.parseLine acc (i + 1) line = addLine acc k /\ entryOf i line k.
Proof.
  unfold EnvParser.parseLine.
  destruct (str_eqb (trim line) "") eqn:Eb.
  - exists (KBlank (i + 1)). split; [reflexivity|]. split; [reflexivity|].
    destruct (trim line); [reflexivity|discriminate].
  - destruct (startsWith (trim line) [HASH]).
    + exists (KComment (trim (substringFrom (trim line) 1))). split; reflexivity.
    + destruct (parseVariableLine_cases line (i + 1)) as [(v & E & Hn)|E]; rewrite E; simpl.
      * exists (KVariable v). split; [reflexivity|]. split; [exact Hn|].
        rewrite E. reflexivity.
      * eexists (KError _). split; [reflexivity|]. repeat split.
        rewrite E. reflexivity.
Qed.

Lemma addLine_fold ks : forall acc,
  fold_left addLine ks acc =
  mkParsedEnvFile (variables acc ++ variablesIn ks) (comments acc ++ commentsIn ks)
                  (emptyLines acc ++ blanksIn ks) (parseErrors acc ++ errorsIn ks).
Proof.
  induction ks as [|k ks IH]; intro acc.
  - simpl. rewrite !app_nil_r. now destruct acc.
  - simpl fold_left. rewrite IH.
    destruct k; simpl; rewrite <- ?app_assoc; reflexivity.
Qed.

Lemma kinds_count ks :
  length (variablesIn ks) + length (commentsIn ks) + length (blanksIn ks)
  + length (errorsIn ks) = length ks.
Proof.
  induction ks as [|k ks IH]; [reflexivity|].
  destruct k; simpl; lia.
Qed.

Lemma parseLines_kinds lines : forall i acc,
  exists ks,
    length ks = length lines
    /\ EnvParser.parseLines lines i acc = fold_left addLine ks acc
    /\ (forall j line, nth_error lines j = Some line ->
          exists k, nth_error ks j = Some k /\ entryOf (i + j) line k).
Proof.
  induction lines as [|line lines IH]; intros i acc.
  - exists []. repeat split. intros [|j] l; discriminate.
  - destruct (parseLine_entry acc i line) as (k & Ek & Hk).
    destruct (IH (S i) (addLine acc k)) as (ks & Hlen & Hfold & Hnth).
    exists (k :: ks). split; [simpl; congruence|]. split.
    + simpl. rewrite Ek. exact Hfold.
    + intros [|j] l Hl; simpl in *.
      * injection Hl as <-. exists k. rewrite Nat.add_0_r. now split.
      * destruct (Hnth j l Hl) as (k' & E' & H'). exists k'. split; [exact E'|].
        replace (i + S j) with (S i + j) by lia. exact H'.
Qed.

End ParserLines.

(** C3.  For every input, each of the [n] lines that the split gives gets
    exactly one entry, in one of the four collections: the parse is the
    lines' entries sorted by kind, in order; the four collections together
    hold [n] entries; a variable, a blank-line number and a parse error
    carry the 1-based index of their line.  [parseContent] is total: it
    returns on every input. *)
Theorem C3_every_line_in_one_collection (content : str) :
  let lines := JS.split_lines content in
  let parsed := EnvParser.parseContent content in
  exists ks : list LineKind,
    length ks = length lines
    /\ (forall i line, nth_error lines i = Some line ->
          exists k, nth_error ks i = Some k /\ entryOf i line k)
    /\ variables parsed = variablesIn ks
    /\ comments parsed = commentsIn ks
    /\ emptyLines parsed = blanksIn ks
    /\ parseErrors parsed = errorsIn ks
    /\ length (variables parsed) + length (comments parsed)
       + length (emptyLines parsed) + length (parseErrors parsed) = length lines.
Proof.
  intros lines parsed. subst parsed. unfold EnvParser.parseContent. fold lines.
  destruct (parseLines_kinds lines 0 (mkParsedEnvFile [] [] [] [])) as (ks & Hlen & Hfold & Hnth).
  exists ks. rewrite Hfold, addLine_fold. simpl.
  repeat split; try assumption.
  rewrite <- Hlen. apply kinds_count.
Qed.

(* ================================================================== *)
(** ** Strings and maps *)
(* ================================================================== *)

Section MapFacts.
Import JS.

Lemma chr_eqb_eq a b : chr_eqb a b = true <-> a = b.
Proof. apply Ascii.eqb_eq. Qed.

Lemma str_eqb_eq a : forall b, str_eqb a b = true <-> a = b.
Proof.
  induction a as [|x a IH]; intros [|y b]; simpl; split; intro E;
    try reflexivity; try discriminate.
  - apply andb_true_iff in E as [E1 E2].
    apply chr_eqb_eq in E1. apply IH in E2. congruence.
  - injection E as -> ->. apply andb_true_iff. split; [now apply chr_eqb_eq|now apply IH].
Qed.

Lemma str_eqb_refl a : str_eqb a a = true.
Proof. now apply str_eqb_eq. Qed.

Lemma str_eqb_neq a b : str_eqb a b = false <-> a <> b.
Proof.
  split.
  - intros E ->. now rewrite str_eqb_refl in E.
  - intro N. destruct (str_eqb a b) eqn:E; [|reflexivity]. now apply str_eqb_eq in E.
Qed.

Lemma str_eqb_sym a b : str_eqb a b = str_eqb b a.
Proof.
  destruct (str_eqb a b) eqn:E.
  - apply str_eqb_eq in E as ->. now rewrite str_eqb_refl.
  - symmetry. apply str_eqb_neq. apply str_eqb_neq in E. congruence.
Qed.

Lemma set_has_In keys k : set_has keys k = true <-> In k keys.
Proof.
  unfold set_has. rewrite existsb_exists. split.
  - intros (x & Hx & E). apply str_eqb_eq in E. now subst.
  - intro Hk. exists k. split; [exact Hk|apply str_eqb_refl].
Qed.

Variable V : Type.

Lemma map_get_set (m : Map V) k v k' :
  map_get (map_set k v m) k' = if str_eqb k k' then Some v else map_get m k'.
Proof.
  induction m as [|[k0 v0] m IH]; simpl.
  - reflexivity.
  - destruct (str_eqb k0 k) eqn:E0; simpl.
    + apply str_eqb_eq in E0 as ->. destruct (str_eqb k k'); reflexivity.
    + destruct (str_eqb k0 k') eqn:E1; [|exact IH].
      apply str_eqb_eq in E1 as ->. now rewrite str_eqb_sym, E0.
Qed.

Lemma map_keys_set (m : Map V) k v :
  map_keys (map_set k v m) = if map_has m k then map_keys m else map_keys m ++ [k].
Proof.
  unfold map_has, map_keys. induction m as [|[k0 v0] m IH]; simpl; [reflexivity|].
  destruct (str_eqb k0 k) eqn:E0; simpl; [reflexivity|].
  rewrite IH. destruct (map_get m k); reflexivity.
Qed.

Lemma map_has_keys (m : Map V) k : map_has m k = true <-> In k (map_keys m).
Proof.
  unfold map_has, map_keys. induction m as [|[k0 v0] m IH]; simpl.
  - split; [discriminate|tauto].
  - destruct (str_eqb k0 k) eqn:E0.
    + apply str_eqb_eq in E0. split; auto.
    + apply str_eqb_neq in E0. rewrite IH. tauto.
Qed.

Lemma map_keys_NoDup_set (m : Map V) k v :
  NoDup (map_keys m) -> NoDup (map_keys (map_set k v m)).
Proof.
  intro N. rewrite map_keys_set. destruct (map_has m k) eqn:E; [exact N|].
  apply NoDup_app; [exact N|constructor; [tauto|constructor]|].
  intros x Hx [<-|[]]. apply map_has_keys in Hx. congruence.
Qed.

Lemma fold_set_NoDup (l : list (str * V)) : forall m,
  NoDup (map_keys m) ->
  NoDup (map_keys (fold_left (fun m kv => map_set (fst kv) (snd kv) m) l m)).
Proof.
  induction l as [|[k v] l IH]; intros m N; simpl; [exact N|].
  apply IH. now apply map_keys_NoDup_set.
Qed.

(** The keys of a [Map] are distinct. *)
Lemma map_of_NoDup (l : list (str * V)) : NoDup (map_keys (map_of l)).
Proof. apply fold_set_NoDup. constructor. Qed.

Lemma fold_set_get (l : list (str * V)) k : forall m,
  ~ In k (map fst l) ->
  map_get (fold_left (fun m kv => map_set (fst kv) (snd kv) m) l m) k = map_get m k.
Proof.
  induction l as [|[k0 v0] l IH]; intros m N; simpl; [reflexivity|].
  simpl in N. rewrite IH by tauto. rewrite map_get_set.
  destruct (str_eqb k0 k) eqn:E; [|reflexivity].
  apply str_eqb_eq in E. tauto.
Qed.

(** The last entry for a key is the one the [Map] holds. *)
Lemma map_of_last (l1 l2 : list (str * V)) k v :
  ~ In k (map fst l2) -> map_get (map_of (l1 ++ (k, v) :: l2)) k = Some v.
Proof.
  intro N. unfold map_of. rewrite fold_left_app. simpl.
  rewrite fold_set_get by exact N. rewrite map_get_set. now rewrite str_eqb_refl.
Qed.

Lemma fold_set_has (l : list (str * V)) k : forall m,
  map_has (fold_left (fun m kv => map_set (fst kv) (snd kv) m) l m) k = true
  <-> map_has m k = true \/ In k (map fst l).
Proof.
  induction l as [|[k0 v0] l IH]; intro m; simpl; [tauto|].
  rewrite IH. unfold map_has at 1. rewrite map_get_set.
  destruct (str_eqb k0 k) eqn:E.
  - apply str_eqb_eq in E. subst. tauto.
  - apply str_eqb_neq in E. fold (map_has m k). tauto.
Qed.

Lemma map_of_has (l : list (str * V)) k : map_has (map_of l) k = true <-> In k (map fst l).
Proof.
  unfold map_of. rewrite fold_set_has. unfold map_has. simpl.
  split; [intros [E|I]; [discriminate|exact I]|tauto].
Qed.

End MapFacts.

(* ================================================================== *)
(** ** The two validators return *)
(* ================================================================== *)

Section Returns.
Context `{Host}.
Import JS.

Lemma for_each_returns {A S} (f : S -> A -> Result S) l :
  (forall s x, In x l -> exists s', f s x = Ok s') ->
  forall s, exists s', for_each f l s = Ok s'.
Proof.
  induction l as [|x l IH]; intros Hf s; simpl; [eauto|].
  destruct (Hf s x (or_introl eq_refl)) as (s1 & E1). rewrite E1. simpl.
  apply IH. intros s0 y Hy. apply Hf. now right.
Qed.

Lemma some_r_returns key pats :
  Forall compiles pats ->
  exists b, some_r (fun pattern => rbind (RegExp_new pattern)
                                     (fun regex => Ok (RegExp.test regex key))) pats = Ok b.
Proof.
  induction 1 as [|p pats (regex & Ep) _ IH]; simpl; [eauto|].
  rewrite Ep. simpl. destruct (RegExp.test regex key); [eauto|exact IH].
Qed.

Lemma map_get_of_key {V} (m : Map V) k :
  In k (map_keys m) -> exists v, map_get m k = Some v.
Proof.
  intro Hk. apply map_has_keys in Hk. unfold map_has in Hk.
  destruct (map_get m k) as [v|]; [eauto|discriminate].
Qed.

Lemma map_get_In {V} (m : Map V) k v : map_get m k = Some v -> exists k', In (k', v) m.
Proof.
  induction m as [|[k0 v0] m IH]; simpl; [discriminate|].
  destruct (str_eqb k0 k).
  - intros [= <-]. exists k0. now left.
  - intro E. destruct (IH E) as (k' & Hin). exists k'. now right.
Qed.

Lemma example_missing_returns ex ign vmap errors :
  Forall compiles ign ->
  exists es, ExampleValidator.validateMissingVariables ign
               (map_keys (mapOfVariables ex)) vmap (mapOfVariables ex) errors = Ok es.
Proof.
  intro Hc. unfold ExampleValidator.validateMissingVariables.
  apply for_each_returns. intros s k Hk. destruct (map_has _ k); [eauto|].
  destruct (some_r_returns k Hc) as (b & Eb).
  unfold ExampleValidator.shouldIgnoreVariable. rewrite Eb. simpl.
  destruct b; [eauto|]. destruct (map_get_of_key _ _ Hk) as (v & ->). eauto.
Qed.

Lemma example_unused_returns ign vars exampleKeys warnings :
  Forall compiles ign ->
  exists ws, ExampleValidator.validateUnusedVariables ign
               (map_keys (mapOfVariables vars)) exampleKeys (mapOfVariables vars) warnings
             = Ok ws.
Proof.
  intro Hc. unfold ExampleValidator.validateUnusedVariables.
  apply for_each_returns. intros s k Hk. destruct (set_has _ k); [eauto|].
  destruct (some_r_returns k Hc) as (b & Eb).
  unfold ExampleValidator.shouldIgnoreVariable. rewrite Eb. simpl.
  destruct b; [eauto|]. destruct (map_get_of_key _ _ Hk) as (v & ->). eauto.
Qed.

Lemma example_validate_returns ex ign vars t :
  Forall compiles ign ->
  exists r, ExampleValidator.validate ex ign vars t = (Ok r, S (S t)).
Proof.
  intro Hc. unfold ExampleValidator.validate. run_m.
  fold (mapOfVariables vars). fold (mapOfVariables ex).
  destruct (example_missing_returns ex (mapOfVariables vars) [] Hc) as (es & ->).
  destruct (example_unused_returns vars (map_keys (mapOfVariables ex)) [] Hc) as (ws & ->).
  destruct (ExampleValidator.validateValueFormats _ _ _ _). eauto.
Qed.

Lemma schema_unused_returns schema vars schemaKeys warnings :
  Forall compiles (orElseList (es_ignorePatterns schema)) ->
  exists ws, SchemaValidator.validateUnusedVariables schema
               (map_keys (mapOfVariables vars)) schemaKeys (mapOfVariables vars) warnings
             = Ok ws.
Proof.
  intro Hc. unfold SchemaValidator.validateUnusedVariables.
  apply for_each_returns. intros s k Hk. destruct (set_has _ k); [eauto|].
  destruct (some_r_returns k Hc) as (b & Eb).
  unfold SchemaValidator.shouldIgnoreVariable. rewrite Eb. simpl.
  destruct b; [eauto|]. destruct (map_get_of_key _ _ Hk) as (v & ->). eauto.
Qed.

Lemma schema_values_return schema vars errors warnings :
  schemaCompiles schema ->
  exists acc, SchemaValidator.validateVariableValues schema vars errors warnings = Ok acc.
Proof.
  intros [_ Hpat]. unfold SchemaValidator.validateVariableValues.
  apply for_each_returns. intros [es0 ws0] v _. unfold SchemaValidator.validateVariableValue.
  destruct (SchemaValidator.schemaOf schema (key v)) as [sch|] eqn:Es; [|eauto].
  destruct (negb _ && _); [eauto|].
  unfold SchemaValidator.validateVariablePattern.
  destruct (negb _ || _) eqn:En; [simpl; eauto|].
  apply orb_false_iff in En. destruct En as [En _].
  destruct (vs_pattern sch) as [pattern|] eqn:Ep; [|discriminate].
  clear En. destruct (map_get_In _ _ Es) as (k' & Hin).
  destruct (Hpat k' sch pattern Hin Ep) as (regex & Er).
  cbn [tpl]. rewrite Er. simpl. destruct (RegExp.test regex (value v)); simpl; eauto.
Qed.

Lemma schema_validate_returns schema vars t :
  schemaCompiles schema ->
  exists r, SchemaValidator.validate schema vars t = (Ok r, S (S t)).
Proof.
  intros Hc. unfold SchemaValidator.validate. run_m.
  fold (mapOfVariables vars).
  destruct (schema_unused_returns schema vars (map fst (es_variables schema)) []
              (proj1 Hc)) as (ws & ->).
  destruct (schema_values_return vars
              (SchemaValidator.validateRequiredVariables schema (map fst (es_variables schema))
                 (mapOfVariables vars) []) ws Hc) as ([es ws'] & ->).
  destruct (SchemaValidator.applyCustomRules schema vars (es, ws', [])) as [[a b] c]. eauto.
Qed.

End Returns.

(* ================================================================== *)
(** ** Validity and the error list *)
(* ================================================================== *)

(** C1.  Every result of [SchemaValidator.validate], of
    [ExampleValidator.validate], of the merge of both
    ([validateWithBoth]) and of the orchestrator's [validate] (which merges
    the security findings in and which always returns) has [isValid] true
    exactly when its list of errors is empty.  The two validators return
    a result whenever the patterns they are given compile; they throw only
    out of [new RegExp]. *)
Theorem C1_isValid_iff_no_errors `{Host} :
  (forall schema vars t,
      (schemaCompiles schema -> returns (SchemaValidator.validate schema vars) t)
      /\ forall r t',
           SchemaValidator.validate schema vars t = (Ok r, t') ->
           (isValid r = true <-> errors r = []))
  /\ (forall ex ign vars t,
         (Forall compiles ign -> returns (ExampleValidator.validate ex ign vars) t)
         /\ forall r t',
              ExampleValidator.validate ex ign vars t = (Ok r, t') ->
              (isValid r = true <-> errors r = []))
  /\ (forall cfg vars t r t',
         EnvGuardValidator.validateWithBoth cfg vars t = (Ok r, t') ->
         (isValid r = true <-> errors r = []))
  /\ (forall cfg t,
         exists r t', EnvGuardValidator.validate cfg t = (Ok r, t')
                      /\ (isValid r = true <-> errors r = [])).
Proof.
  split; [|split; [|split]].
  - intros schema vars t. split.
    + intro Hc. destruct (schema_validate_returns vars t Hc) as (r & E). now exists r, (S (S t)).
    + intros r t' E. rewrite (schema_validate_valid _ _ _ E). apply length_eqb_0.
  - intros ex ign vars t. split.
    + intro Hc. destruct (example_validate_returns ex vars t Hc) as (r & E).
      now exists r, (S (S t)).
    + intros r t' E. rewrite (example_validate_valid _ _ _ _ E). apply length_eqb_0.
  - intros cfg vars t r t' E. rewrite (withBoth_valid _ _ _ E). apply length_eqb_0.
  - intros cfg t. destruct (validate_returns cfg t) as (r & t' & E & V).
    exists r, t'. split; [exact E|]. rewrite V. apply length_eqb_0.
Qed.

(** A run of each of the four on the sample platform. *)
Lemma C1_witness :
  (exists r t',
      SchemaValidator.validate (H:=Sample.host) Sample.portSchema [Sample.var "PORT" "" 1] 0
      = (Ok r, t')
      /\ (isValid r = true <-> errors r = []))
  /\ (exists r t',
         ExampleValidator.validate (H:=Sample.host)
           [Sample.var "PORT" "3000" 1] [] [Sample.var "PORT" "80" 1] 0
         = (Ok r, t')
         /\ (isValid r = true <-> errors r = []))
  /\ (exists r t',
         EnvGuardValidator.validate (H:=Sample.host) Sample.goodConfig 0 = (Ok r, t')
         /\ (isValid r = true <-> errors r = [])).
Proof.
  split; [|split].
  - eexists _, _. split; [vm_compute; reflexivity|].
    apply (proj2 (proj1 (@C1_isValid_iff_no_errors Sample.host)
                    Sample.portSchema [Sample.var "PORT" "" 1] 0) _ 2).
    vm_compute; reflexivity.
  - eexists _, _. split; [vm_compute; reflexivity|].
    apply (proj2 (proj1 (proj2 (@C1_isValid_iff_no_errors Sample.host))
                    [Sample.var "PORT" "3000" 1] [] [Sample.var "PORT" "80" 1] 0) _ 2).
    vm_compute; reflexivity.
  - exact (proj2 (proj2 (proj2 (@C1_isValid_iff_no_errors Sample.host))) Sample.goodConfig 0).
Defined.

(* ================================================================== *)
(** ** The example validator, pass by pass *)
(* ================================================================== *)

Lemma for_each_push {A B} (f : list B -> A -> Result (list B)) (P : A -> list B -> Prop) :
  (forall acc x acc', f acc x = Ok acc' -> exists new, acc' = acc ++ new /\ P x new) ->
  forall l acc acc',
    for_each f l acc = Ok acc' ->
    exists news, acc' = acc ++ concat news /\ Forall2 P l news.
Proof.
  intros Hf l. induction l as [|x l IH]; intros acc acc' E; simpl in E.
  - injection E as <-. exists []. split; [now rewrite app_nil_r|constructor].
  - unfold rbind in E. destruct (f acc x) as [acc1|e] eqn:E1; [|discriminate].
    destruct (Hf _ _ _ E1) as (new & -> & Hnew).
    destruct (IH _ _ E) as (news & -> & Hnews).
    exists (new :: news). split; [simpl; now rewrite app_assoc|now constructor].
Qed.

Section ExampleFacts.
Context `{Host}.
Import JS.
Variable ex : list EnvVariable.
Variable ign : list str.

Lemma validateEmptyValues_push exampleMap vars ws :
  ExampleValidator.validateEmptyValues vars exampleMap ws
  = ws ++ flat_map (emptyValueWarnings exampleMap) vars.
Proof.
  unfold ExampleValidator.validateEmptyValues.
  apply fold_left_push. intros acc v.
  unfold emptyValueWarnings, ExampleValidator.validateEmptyValues. simpl.
  destruct (map_get exampleMap (key v)) as [ev|]; [|now rewrite app_nil_r].
  destruct (_ && _); [reflexivity|now rewrite app_nil_r].
Qed.

Lemma validateValueFormat_push exampleMap ws infos v :
  ExampleValidator.validateValueFormat exampleMap (ws, infos) v
  = (ws ++ formatWarnings exampleMap v, infos ++ formatInfos exampleMap v).
Proof.
  unfold formatWarnings, formatInfos, ExampleValidator.validateValueFormats,
    ExampleValidator.validateValueFormat. simpl.
  destruct (map_get exampleMap (key v)) as [ev|]; [|now rewrite !app_nil_r].
  destruct (str_eqb (trim (value v)) []); simpl; [now rewrite !app_nil_r|].
  destruct (ExampleValidator.detectFormatMismatch v ev) as [[m s]|];
    destruct (ExampleValidator.getFormatInfo v ev); simpl; now rewrite ?app_nil_r.
Qed.

Lemma validateValueFormats_push exampleMap vars : forall ws infos,
  ExampleValidator.validateValueFormats vars exampleMap ws infos
  = (ws ++ flat_map (formatWarnings exampleMap) vars,
     infos ++ flat_map (formatInfos exampleMap) vars).
Proof.
  unfold ExampleValidator.validateValueFormats.
  induction vars as [|v vars IH]; intros ws infos; cbn [fold_left flat_map].
  - now rewrite !app_nil_r.
  - rewrite validateValueFormat_push, IH, <- !app_assoc. reflexivity.
Qed.

Lemma validateUnusedVariables_push envKeys exampleKeys variableMap ws ws' :
  ExampleValidator.validateUnusedVariables ign envKeys exampleKeys variableMap ws = Ok ws' ->
  exists news, ws' = ws ++ concat news
               /\ Forall2 (unusedPush exampleKeys variableMap) envKeys news.
Proof.
  apply for_each_push. intros acc k acc' E.
  destruct (set_has exampleKeys k) eqn:Es.
  - injection E as <-. exists []. split; [now rewrite app_nil_r|now left].
  - unfold rbind in E.
    destruct (ExampleValidator.shouldIgnoreVariable ign k) as [[|]|e]; try discriminate.
    + injection E as <-. exists []. split; [now rewrite app_nil_r|now left].
    + destruct (map_get variableMap k) as [v|] eqn:Eg; [|discriminate].
      injection E as <-. eexists. split; [reflexivity|]. right. now exists v.
Qed.

Lemma validateMissingVariables_push exampleKeys variableMap exampleMap es es' :
  ExampleValidator.validateMissingVariables ign exampleKeys variableMap exampleMap es = Ok es' ->
  exists news, es' = es ++ concat news /\ Forall2 (missingPush variableMap) exampleKeys news.
Proof.
  apply for_each_push. intros acc k acc' E.
  destruct (map_has variableMap k) eqn:Eh.
  - injection E as <-. exists []. split; [now rewrite app_nil_r|now left].
  - unfold rbind in E.
    destruct (ExampleValidator.shouldIgnoreVariable ign k) as [[|]|e]; try discriminate.
    + injection E as <-. exists []. split; [now rewrite app_nil_r|now left].
    + destruct (map_get exampleMap k) as [ev|] eqn:Eg; [|discriminate].
      injection E as <-. eexists. split; [reflexivity|]. right. now exists ev.
Qed.

(** A run of [validate], pass by pass. *)
Lemma example_validate_parts vars t r t' :
  ExampleValidator.validate ex ign vars t = (Ok r, t') ->
  let variableMap := mapOfVariables vars in
  let exampleMap := mapOfVariables ex in
  exists es us,
    ExampleValidator.validateMissingVariables ign (map_keys exampleMap) variableMap exampleMap []
      = Ok es
    /\ ExampleValidator.validateUnusedVariables ign (map_keys variableMap) (map_keys exampleMap)
         variableMap [] = Ok us
    /\ errors r = es
    /\ warnings r = us ++ flat_map (emptyValueWarnings exampleMap) vars
                       ++ flat_map (formatWarnings exampleMap) vars
    /\ info r = flat_map (formatInfos exampleMap) vars
    /\ summary r = ExampleValidator.createSummary ex vars (errors r) (warnings r)
                     (Date_now (S t) - Date_now t)%Z
    /\ t' = S (S t).
Proof.
  unfold ExampleValidator.validate. run_m. fold (mapOfVariables vars) (mapOfVariables ex).
  intros E.
  destruct (ExampleValidator.validateMissingVariables _ _ _ _ _) as [es|e]; [|discriminate].
  destruct (ExampleValidator.validateUnusedVariables _ _ _ _ _) as [us|e]; [|discriminate].
  rewrite validateEmptyValues_push, validateValueFormats_push in E.
  injection E as <- <-. exists es, us. simpl. rewrite <- app_assoc. repeat split.
Qed.

End ExampleFacts.

Section ExampleClaims.
Context `{Host}.
Import JS.

Lemma unusedPush_variable exampleKeys variableMap keys news :
  Forall2 (unusedPush exampleKeys variableMap) keys news ->
  forall w, In w (concat news) ->
    In (w_variable w) keys
    /\ exists v, map_get variableMap (w_variable w) = Some v
                 /\ w = ExampleValidator.notInExample (w_variable w) v.
Proof.
  induction 1 as [|k new keys news Hk _ IH]; intros w Hw; simpl in Hw; [contradiction|].
  apply in_app_or in Hw as [Hw|Hw].
  - destruct Hk as [->|(v & Eg & _ & ->)]; [contradiction|].
    destruct Hw as [<-|[]]. simpl. split; [now left|]. now exists v.
  - destruct (IH w Hw) as (Hin & Hv). split; [now right|exact Hv].
Qed.

Lemma unusedPush_at_most_one exampleKeys variableMap k keys news :
  NoDup keys ->
  Forall2 (unusedPush exampleKeys variableMap) keys news ->
  length (unusedWarningsFor k (concat news)) <= 1.
Proof.
  intros N F. induction F as [|x new keys news Hx F IH]; simpl; [lia|].
  inversion N as [|? ? Hnotin N']; subst.
  unfold unusedWarningsFor in *. rewrite filter_app, length_app.
  destruct Hx as [->|(v & _ & _ & ->)]; simpl; [now apply IH|].
  destruct (str_eqb x k) eqn:E; simpl; [|now apply IH].
  apply str_eqb_eq in E. subst x.
  replace (filter _ (concat news)) with (@nil ValidationWarning); [simpl; lia|].
  symmetry. clear IH N N'. destruct (filter _ (concat news)) as [|w ws] eqn:Ef; [reflexivity|].
  exfalso. assert (Hw : In w (filter (fun w => WarningType_eqb (w_type w) W_unused_variable
                                              && str_eqb (w_variable w) k) (concat news)))
    by (rewrite Ef; now left).
  apply filter_In in Hw as [Hw Hb]. apply andb_true_iff in Hb as [_ Hb].
  apply str_eqb_eq in Hb. destruct (unusedPush_variable F w Hw) as [Hin _]. congruence.
Qed.

End ExampleClaims.

(* ================================================================== *)
(** ** The matcher *)
(* ================================================================== *)

Section MatcherFacts.
Import JS RegExp.

(** A pattern that starts with [^] matches at the start of the input only. *)
Lemma search_bol ic r a : forall b,
  b <> [] -> search ic (Seq Bol r) b a = None.
Proof.
  induction a as [|c a IH]; intros b Hb; simpl; destruct b; try congruence.
  apply IH. discriminate.
Qed.

Lemma search_bol_0 ic r a :
  search ic (Seq Bol r) [] a = rmatch ic r (fun s => Some s) (mkState [] a []).
Proof.
  destruct a as [|c a]; simpl.
  - now destruct (rmatch ic r _ _).
  - destruct (rmatch ic r _ _); [reflexivity|]. apply search_bol. discriminate.
Qed.

(** A line that matches the assignment pattern starts with a letter or an
    underscore. *)
Lemma assignment_starts_with_identStart line m :
  exec EnvParser.assignmentRe line = Some m ->
  exists x t, line = x :: t /\ class_matches false false EnvParser.identStart x = true.
Proof.
  unfold exec, EnvParser.assignmentRe. cbn [source ignoreCase re seq].
  rewrite search_bol_0.
  destruct line as [|x t]; cbn [rmatch ahead]; [discriminate|].
  destruct (class_matches false false EnvParser.identStart x) eqn:E; [|discriminate].
  intros _. now exists x, t.
Qed.

End MatcherFacts.

Section VariableLines.
Import JS.

(** A line that parses as an assignment is neither blank nor a comment: the
    loop records its variable. *)
Lemma parseLine_variable acc n line v :
  EnvParser.variable (EnvParser.parseVariableLine line n) = Some v ->
  EnvParser.parseLine acc n line = addLine acc (KVariable v).
Proof.
  intro Hv. unfold EnvParser.parseLine.
  assert (Hs : exists x t, trim line = x :: t
                           /\ RegExp.class_matches false false EnvParser.identStart x = true).
  { unfold EnvParser.parseVariableLine in Hv.
    destruct (RegExp.exec EnvParser.assignmentRe (trim line)) as [m|] eqn:Em;
      [|discriminate].
    eapply assignment_starts_with_identStart; eauto. }
  destruct Hs as (x & t & -> & Hx).
  cbn [str_eqb startsWith].
  replace (chr_eqb HASH x) with false.
  2:{ destruct (chr_eqb HASH x) eqn:E; [|reflexivity].
      apply Ascii.eqb_eq in E. subst x. discriminate. }
  cbn [andb].
  destruct (parseVariableLine_cases line n) as [(v' & E & _)|E]; rewrite E in *; simpl in *.
  - injection Hv as <-. reflexivity.
  - discriminate.
Qed.

Lemma parseLines_app l1 : forall l2 i acc,
  EnvParser.parseLines (l1 ++ l2) i acc
  = EnvParser.parseLines l2 (i + length l1) (EnvParser.parseLines l1 i acc).
Proof.
  induction l1 as [|x l1 IH]; intros l2 i acc; simpl.
  - now rewrite Nat.add_0_r.
  - rewrite IH. f_equal. lia.
Qed.

Lemma parseLines_variables lines i acc :
  exists more, variables (EnvParser.parseLines lines i acc) = variables acc ++ more.
Proof.
  destruct (parseLines_kinds lines i acc) as (ks & _ & E & _).
  rewrite E, addLine_fold. simpl. eauto.
Qed.

End VariableLines.

Section DuplicateKeys.
Context `{Host}.
Import JS.

Lemma missingPush_absent variableMap keys news :
  Forall2 (missingPush variableMap) keys news ->
  forall e, In e (concat news) -> map_has variableMap (e_variable e) = false.
Proof.
  induction 1 as [|k new keys news Hk _ IH]; intros e He; simpl in He; [contradiction|].
  apply in_app_or in He as [He|He]; [|now apply IH].
  destruct Hk as [->|(ev & Eh & ->)]; [contradiction|].
  destruct He as [<-|[]]. exact Eh.
Qed.

Lemma mapOfVariables_has vars v :
  In v vars -> map_has (mapOfVariables vars) (key v) = true.
Proof.
  intro Hv. apply map_of_has. rewrite map_map. simpl.
  change (In (key v) (map key vars)). now apply in_map.
Qed.

Lemma mapOfVariables_last pre v post :
  (forall v', In v' post -> key v' <> key v) ->
  map_get (mapOfVariables (pre ++ v :: post)) (key v) = Some v.
Proof.
  intro Hpost. unfold mapOfVariables. rewrite map_app. simpl.
  apply map_of_last. rewrite map_map. simpl. intro Hin.
  apply in_map_iff in Hin as (v' & E & Hv'). exact (Hpost v' Hv' E).
Qed.

Lemma two_variable_lines content pre l1 mid l2 post v1 v2 :
  split_lines content = pre ++ l1 :: mid ++ l2 :: post ->
  EnvParser.variable (EnvParser.parseVariableLine l1 (length pre + 1)) = Some v1 ->
  EnvParser.variable (EnvParser.parseVariableLine l2 (length pre + length mid + 2)) = Some v2 ->
  exists a b c,
    variables (EnvParser.parseContent content) = a ++ v1 :: b ++ v2 :: c
    /\ lineNumber v1 = length pre + 1
    /\ lineNumber v2 = length pre + length mid + 2.
Proof.
  intros Hs H1 H2. unfold EnvParser.parseContent. rewrite Hs.
  rewrite parseLines_app. cbn [EnvParser.parseLines Nat.add].
  rewrite (parseLine_variable _ _ _ H1).
  rewrite parseLines_app. cbn [EnvParser.parseLines].
  replace (S (length pre) + length mid + 1) with (length pre + length mid + 2) by lia.
  rewrite (parseLine_variable _ _ _ H2).
  set (P0 := EnvParser.parseLines pre 0 _).
  destruct (parseLines_variables mid (S (length pre)) (addLine P0 (KVariable v1))) as (b & Eb).
  set (P2 := EnvParser.parseLines mid _ _) in *.
  destruct (parseLines_variables post (S (S (length pre) + length mid))
              (addLine P2 (KVariable v2))) as (c & Ec).
  exists (variables P0), b, c. split.
  - rewrite Ec. simpl. rewrite Eb. simpl. rewrite <- !app_assoc. reflexivity.
  - destruct (parseVariableLine_cases l1 (length pre + 1)) as [(v & E & Hn)|E];
      rewrite E in H1; [|discriminate].
    destruct (parseVariableLine_cases l2 (length pre + length mid + 2)) as [(v' & E' & Hn')|E'];
      rewrite E' in H2; [|discriminate].
    simpl in *. injection H1 as <-. injection H2 as <-. now split.
Qed.

End DuplicateKeys.

(** C10, as the code has it.  When the file defines a key on two lines the
    parser keeps both records, in order.  [ExampleValidator.validate] then
    reports no missing variable for the key, and its unused check, which
    walks the distinct keys of the map, pushes at most one warning for the
    key, with the line of the later record.  (The empty-value check carries
    the same tag and still reports every record of the key.)  The run
    returns a result whenever the ignore patterns compile. *)
Theorem C10_duplicate_key_one_unused_check_warning `{Host} :
  (forall ex ign vars t,
      Forall compiles ign -> returns (ExampleValidator.validate ex ign vars) t)
  /\
  (forall content pre l1 mid l2 post v1 v2,
      JS.split_lines content = pre ++ l1 :: mid ++ l2 :: post ->
      EnvParser.variable (EnvParser.parseVariableLine l1 (length pre + 1)) = Some v1 ->
      EnvParser.variable (EnvParser.parseVariableLine l2 (length pre + length mid + 2)) = Some v2 ->
      exists a b c,
        variables (EnvParser.parseContent content) = a ++ v1 :: b ++ v2 :: c
        /\ lineNumber v1 = length pre + 1
        /\ lineNumber v2 = length pre + length mid + 2)
  /\ (forall ex ign pre v1 mid v2 post t r t',
         key v2 = key v1 ->
         (forall v, In v post -> key v <> key v1) ->
         ExampleValidator.validate ex ign (pre ++ v1 :: mid ++ v2 :: post) t = (Ok r, t') ->
         (forall e, In e (errors r) -> e_variable e <> key v1)
         /\ exists us,
              ExampleValidator.validateUnusedVariables ign
                (JS.map_keys (mapOfVariables (pre ++ v1 :: mid ++ v2 :: post)))
                (JS.map_keys (mapOfVariables ex))
                (mapOfVariables (pre ++ v1 :: mid ++ v2 :: post)) [] = Ok us
              /\ warnings r
                 = us ++ flat_map (emptyValueWarnings (mapOfVariables ex))
                                  (pre ++ v1 :: mid ++ v2 :: post)
                      ++ flat_map (formatWarnings (mapOfVariables ex))
                                  (pre ++ v1 :: mid ++ v2 :: post)
              /\ length (unusedWarningsFor (key v1) us) <= 1
              /\ forall w, In w us -> w_variable w = key v1 ->
                           w = ExampleValidator.notInExample (key v1) v2).
Proof.
  split.
  { intros ex ign vars t Hc. destruct (example_validate_returns ex vars t Hc) as (r & E).
    now exists r, (S (S t)). }
  split; [intros; eapply two_variable_lines; eauto|].
  intros ex ign pre v1 mid v2 post t r t' Hk Hpost Hrun.
  set (vars := pre ++ v1 :: mid ++ v2 :: post) in *.
  destruct (example_validate_parts _ _ _ _ Hrun) as (es & us & Em & Eu & He & Hw & _).
  split.
  - intros e Hin Hvar. rewrite He in Hin.
    destruct (validateMissingVariables_push _ _ _ _ _ Em) as (news & -> & F).
    simpl in Hin. pose proof (missingPush_absent F e Hin) as Habs.
    rewrite Hvar, (mapOfVariables_has vars v1) in Habs; [discriminate|].
    subst vars. apply in_or_app. right. now left.
  - exists us. split; [exact Eu|]. split; [exact Hw|].
    destruct (validateUnusedVariables_push _ _ _ _ _ Eu) as (news & -> & F). simpl.
    split.
    + eapply unusedPush_at_most_one; [|exact F]. apply map_of_NoDup.
    + intros w Hin Hvar. destruct (unusedPush_variable F w Hin) as (_ & v & Eg & ->).
      rewrite Hvar in *. f_equal.
      assert (Hlast : JS.map_get (mapOfVariables vars) (key v1) = Some v2).
      { subst vars. rewrite <- Hk.
        replace (pre ++ v1 :: mid ++ v2 :: post) with ((pre ++ v1 :: mid) ++ v2 :: post)
          by (rewrite <- app_assoc; reflexivity).
        apply mapOfVariables_last. intros v' Hv'. rewrite Hk. now apply Hpost. }
      congruence.
Qed.

(** On the sample platform: [A] on lines 1 and 3, [B] on line 2, and an
    example that knows neither. *)
Lemma C10_witness :
  (exists a b c,
      variables (EnvParser.parseContent ("A=1" ++ [JS.LF] ++ "B=2" ++ [JS.LF] ++ "A=3"))
      = a ++ Sample.var "A" "1" 1 :: b ++ Sample.var "A" "3" 3 :: c
      /\ lineNumber (Sample.var "A" "1" 1) = 1
      /\ lineNumber (Sample.var "A" "3" 3) = 3)
  /\ exists r t',
      ExampleValidator.validate (H:=Sample.host) [] []
        [Sample.var "A" "1" 1; Sample.var "B" "2" 2; Sample.var "A" "3" 3] 0 = (Ok r, t')
      /\ (forall e, In e (errors r) -> e_variable e <> "A")
      /\ exists us,
           warnings r = us
           /\ length (unusedWarningsFor "A" us) <= 1
           /\ forall w, In w us -> w_variable w = "A" ->
                        w = ExampleValidator.notInExample "A" (Sample.var "A" "3" 3).
Proof.
  split.
  - exact (proj1 (proj2 (@C10_duplicate_key_one_unused_check_warning Sample.host))
             ("A=1" ++ [JS.LF] ++ "B=2" ++ [JS.LF] ++ "A=3") [] "A=1" ["B=2" : str] "A=3" []
             (Sample.var "A" "1" 1) (Sample.var "A" "3" 3) eq_refl eq_refl eq_refl).
  - eexists _, _. split; [vm_compute; reflexivity|].
    destruct (proj2 (proj2 (@C10_duplicate_key_one_unused_check_warning Sample.host))
                [] [] [] (Sample.var "A" "1" 1) [Sample.var "B" "2" 2] (Sample.var "A" "3" 3) []
                0 _ 2 eq_refl (fun v (F : In v []) => False_ind _ F)
                ltac:(vm_compute; reflexivity))
      as (He & us & Eu & Ew & Hlen & Hlast).
    split; [exact He|]. exists us. split; [|split; [exact Hlen|exact Hlast]].
    rewrite Ew. vm_compute in Eu. injection Eu as <-. vm_compute. reflexivity.
Defined.

(** The claim as stated fails: two empty records of a key that the example
    gives a value make two warnings tagged unused_variable for the key. *)
Lemma C10_counterexample :
  exists r t',
    ExampleValidator.validate (H:=Sample.host) [Sample.var "A" "value" 1] []
      [Sample.var "A" "" 1; Sample.var "A" "" 2] 0 = (Ok r, t')
    /\ length (unusedWarningsFor "A" (warnings r)) = 2.
Proof.
  eexists _, _. split; vm_compute; reflexivity.
Qed.

Section EmptyValues.
Context `{Host}.
Import JS.



End EmptyValues.






(* ================================================================== *)
(** ** A match reads at least the pattern's least length *)
(* ================================================================== *)

Section MinLength.
Import JS RegExp.

Lemma repeat_loop_reads body n mn mx greedy k :
  reads_at_least n body ->
  forall fuel i s m,
    repeat_loop body mn mx greedy k fuel i s = Some m ->
    exists s', k s' = Some m /\ length (ahead s') + (mn - i) * n <= length (ahead s).
Proof.
  intros Hbody fuel. induction fuel as [|fuel IH]; intros i s m E; simpl in E; [discriminate|].
  assert (Hagain :
    (if below i mx
     then body (fun s' => if (mn <=? i) && (length (ahead s') =? length (ahead s)) then None
                          else repeat_loop body mn mx greedy k fuel (S i) s') s
     else None) = Some m ->
    exists s', k s' = Some m /\ length (ahead s') + (mn - i) * n <= length (ahead s)).
  { destruct (below i mx); [|discriminate]. intro Eb.
    apply Hbody in Eb as (s1 & E1 & L1).
    destruct ((mn <=? i) && _); [discriminate|].
    apply IH in E1 as (s' & Ek & L'). exists s'. split; [exact Ek|].
    assert ((mn - i) * n <= (mn - S i) * n + n) by nia. lia. }
  assert (Hstop :
    (if mn <=? i then k s else None) = Some m ->
    exists s', k s' = Some m /\ length (ahead s') + (mn - i) * n <= length (ahead s)).
  { destruct (mn <=? i) eqn:Ei; [|discriminate]. intro Ek.
    apply Nat.leb_le in Ei. exists s. split; [exact Ek|].
    replace (mn - i) with 0 by lia. simpl. lia. }
  destruct greedy.
  - destruct (if below i mx then _ else None) eqn:Ea.
    + injection E as <-. now apply Hagain.
    + now apply Hstop.
  - destruct (if mn <=? i then k s else None) eqn:Es.
    + injection E as <-. now apply Hstop.
    + now apply Hagain.
Qed.

Lemma eat_shorter ic p : forall s s', eat ic p s = Some s' -> length (ahead s') <= length (ahead s).
Proof.
  induction p as [|c p IH]; intros s s' E; simpl in E.
  - injection E as <-. lia.
  - destruct (ahead s) as [|x t] eqn:Ea; [discriminate|].
    destruct (char_matches ic c x); [|discriminate].
    apply IH in E. simpl in E |- *. lia.
Qed.

Lemma rmatch_reads ic r : reads_at_least (minlen r) (rmatch ic r).
Proof.
  induction r as [| c | | neg items | | | | r1 IH1 r2 IH2 | r1 IH1 r2 IH2
                  | r1 IH1 mn mx greedy | n r1 IH1 | n];
    intros k s m E; simpl in E; simpl minlen.
  - exists s. split; [exact E|lia].
  - destruct (ahead s) as [|x t] eqn:Ea; [discriminate|].
    destruct (char_matches ic c x); [|discriminate].
    eexists. split; [exact E|]. simpl. lia.
  - destruct (ahead s) as [|x t] eqn:Ea; [discriminate|].
    destruct (isLineTerminator x); [discriminate|].
    eexists. split; [exact E|]. simpl. lia.
  - destruct (ahead s) as [|x t] eqn:Ea; [discriminate|].
    destruct (class_matches ic neg items x); [|discriminate].
    eexists. split; [exact E|]. simpl. lia.
  - destruct (behind s); [|discriminate]. exists s. split; [exact E|lia].
  - destruct (ahead s) eqn:Ea; [|discriminate]. exists s. split; [exact E|]. rewrite Ea. simpl. lia.
  - destruct (at_word_boundary s); [|discriminate]. exists s. split; [exact E|lia].
  - apply IH1 in E as (s1 & E1 & L1). apply IH2 in E1 as (s2 & E2 & L2).
    exists s2. split; [exact E2|lia].
  - destruct (rmatch ic r1 k s) eqn:E1.
    + injection E as <-. apply IH1 in E1 as (s1 & Ek & L1). exists s1. split; [exact Ek|lia].
    + apply IH2 in E as (s2 & Ek & L2). exists s2. split; [exact Ek|lia].
  - apply (repeat_loop_reads _ _ _ _ IH1) in E as (s' & Ek & L).
    exists s'. split; [exact Ek|]. now rewrite Nat.sub_0_r in L.
  - apply IH1 in E as (s1 & E1 & L1). eexists. split; [exact E1|]. simpl. exact L1.
  - destruct (get_cap n (caps s)) as [v|]; [|exists s; split; [exact E|lia]].
    destruct (eat ic v s) as [s1|] eqn:Ee; [|discriminate].
    exists s1. split; [exact E|]. apply eat_shorter in Ee. lia.
Qed.

Lemma search_reads ic r a : forall b m,
  search ic r b a = Some m -> minlen r <= length a.
Proof.
  induction a as [|c a IH]; intros b m E; simpl in E.
  - destruct (rmatch ic r _ _) eqn:Er; [|discriminate].
    apply rmatch_reads in Er as (s' & _ & L). simpl in L. lia.
  - destruct (rmatch ic r _ _) eqn:Er.
    + apply rmatch_reads in Er as (s' & _ & L). simpl in L |- *. lia.
    + apply IH in E. simpl. lia.
Qed.

(** A string that a pattern accepts is at least as long as the pattern's
    least length. *)
Lemma test_min_length re s : test re s = true -> minlen (source re) <= length s.
Proof.
  unfold test. destruct (search _ _ _ _) eqn:E; [|discriminate].
  intros _. eapply search_reads; eauto.
Qed.

End MinLength.

(* ================================================================== *)
(** ** The fuel of a quantifier is enough *)
(* ================================================================== *)

Section Fuel.
Import JS RegExp.

Lemma repeat_loop_local body mn mx greedy : local body ->
  forall fuel i k1 k2 s,
    agree (length (ahead s)) k1 k2 ->
    repeat_loop body mn mx greedy k1 fuel i s = repeat_loop body mn mx greedy k2 fuel i s.
Proof.
  intros Hb fuel. induction fuel as [|fuel IH]; intros i k1 k2 s Hk; [reflexivity|].
  cbn [repeat_loop].
  rewrite (Hk s (le_n _)).
  assert (Ha : body (fun s' => if (mn <=? i) && (length (ahead s') =? length (ahead s))
                               then None
                               else repeat_loop body mn mx greedy k1 fuel (S i) s') s
               = body (fun s' => if (mn <=? i) && (length (ahead s') =? length (ahead s))
                                 then None
                                 else repeat_loop body mn mx greedy k2 fuel (S i) s') s).
  { apply Hb. intros s' Hs'. destruct (_ && _); [reflexivity|].
    apply IH. intros s'' Hs''. apply Hk. lia. }
  now rewrite Ha.
Qed.

Lemma rmatch_local ic r : local (rmatch ic r).
Proof.
  induction r as [| c | | neg items | | | | r1 IH1 r2 IH2 | r1 IH1 r2 IH2
                  | r1 IH1 mn mx greedy | n r1 IH1 | n];
    intros k1 k2 s Hk; cbn [rmatch].
  - apply Hk. lia.
  - destruct (ahead s) as [|x t] eqn:E; [reflexivity|].
    destruct (char_matches ic c x); [|reflexivity]. apply Hk. simpl. lia.
  - destruct (ahead s) as [|x t] eqn:E; [reflexivity|].
    destruct (isLineTerminator x); [reflexivity|]. apply Hk. simpl. lia.
  - destruct (ahead s) as [|x t] eqn:E; [reflexivity|].
    destruct (class_matches ic neg items x); [|reflexivity]. apply Hk. simpl. lia.
  - destruct (behind s); [apply Hk; lia|reflexivity].
  - destruct (ahead s) eqn:E; [|reflexivity]. apply Hk. rewrite E. simpl. lia.
  - destruct (at_word_boundary s); [apply Hk; lia|reflexivity].
  - apply IH1. intros s' Hs'. apply IH2. intros s'' Hs''. apply Hk. lia.
  - rewrite (IH1 k1 k2 s Hk), (IH2 k1 k2 s Hk). reflexivity.
  - now apply repeat_loop_local.
  - apply IH1. intros s' Hs'. apply Hk. exact Hs'.
  - destruct (get_cap n (caps s)) as [v|]; [|apply Hk; lia].
    destruct (eat ic v s) as [s1|] eqn:Ee; [|reflexivity].
    apply Hk. now apply eat_shorter in Ee.
Qed.

(** The fuel of a quantifier's loop is never what stops it: above
    [min - i] plus the length of the input, any two amounts give the same
    result. *)
Lemma repeat_loop_fuel body mn mx greedy k : local body ->
  forall n fuel1 fuel2 i s,
    (mn - i) + length (ahead s) <= n -> n < fuel1 -> n < fuel2 ->
    repeat_loop body mn mx greedy k fuel1 i s = repeat_loop body mn mx greedy k fuel2 i s.
Proof.
  intros Hb n. induction n as [n IH] using lt_wf_ind.
  intros fuel1 fuel2 i s Hn H1 H2.
  destruct fuel1 as [|f1]; [lia|]. destruct fuel2 as [|f2]; [lia|].
  cbn [repeat_loop].
  assert (Ha : body (fun s' => if (mn <=? i) && (length (ahead s') =? length (ahead s))
                               then None
                               else repeat_loop body mn mx greedy k f1 (S i) s') s
               = body (fun s' => if (mn <=? i) && (length (ahead s') =? length (ahead s))
                                 then None
                                 else repeat_loop body mn mx greedy k f2 (S i) s') s).
  { apply Hb. intros s' Hs'.
    destruct (mn <=? i) eqn:Ei; cbn [andb].
    - apply Nat.leb_le in Ei.
      destruct (length (ahead s') =? length (ahead s)) eqn:El; [reflexivity|].
      apply Nat.eqb_neq in El.
      apply (IH ((mn - S i) + length (ahead s'))); lia.
    - apply Nat.leb_gt in Ei.
      apply (IH ((mn - S i) + length (ahead s'))); lia. }
  now rewrite Ha.
Qed.

(** The amount [rmatch] gives a quantifier is enough. *)
Theorem quantifier_fuel_is_enough ic r mn mx greedy k s more :
  rmatch ic (Repeat r mn mx greedy) k s
  = repeat_loop (rmatch ic r) mn mx greedy k (mn + length (ahead s) + 1 + more) 0 s.
Proof.
  cbn [rmatch].
  apply repeat_loop_fuel with (n := mn + length (ahead s)); [apply rmatch_local|lia..].
Qed.

End Fuel.

(* ================================================================== *)
(** ** The two hardcoded-secret findings *)
(* ================================================================== *)

Section Secrets.
Import JS.

(** A value with one of the three shapes has at least 32 characters. *)
Lemma shape_is_long value p :
  find (fun p => RegExp.test (fst p) value) SecurityAnalyzer.secretPatterns = Some p ->
  32 <= length value.
Proof.
  unfold SecurityAnalyzer.secretPatterns. cbn [find fst].
  repeat match goal with
  | |- context [RegExp.test ?re value] =>
      let E := fresh "E" in
      destruct (RegExp.test re value) eqn:E;
      [apply test_min_length in E; cbn in E; intros _; lia|]
  end.
  discriminate.
Qed.

(** A weak secret has at most 11 characters. *)
Lemma weak_is_short value : SecurityAnalyzer.isWeakSecret value = true -> length value <= 11.
Proof.
  unfold SecurityAnalyzer.isWeakSecret. intro E. apply orb_true_iff in E as [E|E].
  - apply existsb_exists in E as (w & Hin & E).
    apply str_eqb_eq in E. apply (f_equal (@length ascii)) in E.
    unfold toLowerCase in E. rewrite length_map in E. rewrite <- E.
    unfold SecurityAnalyzer.weakSecrets, strs in Hin. cbn [map] in Hin.
    repeat (destruct Hin as [<-|Hin]; [cbn; lia|]). contradiction.
  - apply Nat.ltb_lt in E. lia.
Qed.

Lemma shape_is_not_weak value p :
  find (fun p => RegExp.test (fst p) value) SecurityAnalyzer.secretPatterns = Some p ->
  SecurityAnalyzer.isWeakSecret value = false.
Proof.
  intro Hs. apply shape_is_long in Hs.
  destruct (SecurityAnalyzer.isWeakSecret value) eqn:E; [|reflexivity].
  apply weak_is_short in E. lia.
Qed.

End Secrets.

(** C8, as the code has it.  The shape-match warning and the weak-secret
    error never fire together on one value: a value with one of the three
    shapes has 32 characters or more, a weak secret has fewer than 8 or is
    one of the listed words.  [checkHardcodedSecrets] pushes nothing, the
    warning alone, or the error alone; each of the two does fire on its
    own. *)
Theorem C8_shape_warning_excludes_weak_error :
  (forall value p,
      find (fun p => RegExp.test (fst p) value) SecurityAnalyzer.secretPatterns = Some p ->
      SecurityAnalyzer.isWeakSecret value = false)
  /\ (forall variable errors warnings,
         let '(errors', warnings') :=
           SecurityAnalyzer.checkHardcodedSecrets variable errors warnings in
         (errors' = errors /\ warnings' = warnings)
         \/ (errors' = errors
             /\ exists name, warnings' = warnings ++ [SecurityAnalyzer.shapeWarning variable name])
         \/ (errors' = errors ++ [SecurityAnalyzer.weakSecretError variable]
             /\ warnings' = warnings))
  /\ SecurityAnalyzer.checkHardcodedSecrets
       (Sample.var "API_KEY" "0123456789abcdef0123456789abcdef" 1) [] []
     = ([], [SecurityAnalyzer.shapeWarning
               (Sample.var "API_KEY" "0123456789abcdef0123456789abcdef" 1)
               "Hexadecimal secret"])
  /\ SecurityAnalyzer.checkHardcodedSecrets (Sample.var "PASSWORD" "admin" 1) [] []
     = ([SecurityAnalyzer.weakSecretError (Sample.var "PASSWORD" "admin" 1)], []).
Proof.
  split; [exact shape_is_not_weak|]. split; [|split; vm_compute; reflexivity].
  intros variable errors warnings.
  unfold SecurityAnalyzer.checkHardcodedSecrets. cbv zeta.
  destruct (existsb _ SecurityAnalyzer.sensitiveKeys); [|now left].
  destruct (find _ SecurityAnalyzer.secretPatterns) as [p|] eqn:Ef.
  - rewrite (shape_is_not_weak _ Ef). right. left. split; [reflexivity|]. now exists (snd p).
  - destruct (SecurityAnalyzer.isWeakSecret (value variable)).
    + right. right. now split.
    + now left.
Qed.

Lemma C8_witness :
  SecurityAnalyzer.isWeakSecret "0123456789abcdef0123456789abcdef" = false.
Proof.
  exact (proj1 C8_shape_warning_excludes_weak_error "0123456789abcdef0123456789abcdef"
           _ ltac:(vm_compute; reflexivity)).
Defined.

(** The claim as stated fails: no variable gets both findings. *)
Lemma C8_counterexample :
  ~ exists variable name,
      In (SecurityAnalyzer.weakSecretError variable)
         (fst (SecurityAnalyzer.checkHardcodedSecrets variable [] []))
      /\ In (SecurityAnalyzer.shapeWarning variable name)
            (snd (SecurityAnalyzer.checkHardcodedSecrets variable [] [])).
Proof.
  intros (variable & name & He & Hw).
  unfold SecurityAnalyzer.checkHardcodedSecrets in He, Hw. cbv zeta in He, Hw.
  destruct (existsb _ SecurityAnalyzer.sensitiveKeys); [|contradiction].
  destruct (find _ SecurityAnalyzer.secretPatterns) as [p|] eqn:Ef; [|contradiction].
  rewrite (shape_is_not_weak _ Ef) in He. contradiction.
Qed.

(* ================================================================== *)
(** ** The two placeholder predicates *)
(* ================================================================== *)

(** C7.  The two components do not classify alike: the example validator's
    list lacks the last two patterns of the security analyzer's, so "todo"
    and "fixme" are placeholders for the analyzer only.  Whatever the
    example validator takes for a placeholder, the analyzer does too. *)
Theorem C7_placeholder_predicates_differ :
  ExampleValidator.isPlaceholderValue "todo" = false
  /\ SecurityAnalyzer.isPlaceholderValue "todo" = true
  /\ ExampleValidator.isPlaceholderValue "FixMe" = false
  /\ SecurityAnalyzer.isPlaceholderValue "FixMe" = true
  /\ forall value,
       ExampleValidator.isPlaceholderValue value = true ->
       SecurityAnalyzer.isPlaceholderValue value = true.
Proof.
  repeat (split; [vm_compute; reflexivity|]).
  intro value.
  unfold ExampleValidator.isPlaceholderValue, SecurityAnalyzer.isPlaceholderValue,
    ExampleValidator.placeholderPatterns, SecurityAnalyzer.placeholderPatterns.
  cbn [existsb]. rewrite !orb_true_iff. tauto.
Qed.

Lemma C7_witness : SecurityAnalyzer.isPlaceholderValue "<your-key>" = true.
Proof.
  exact (proj2 (proj2 (proj2 (proj2 C7_placeholder_predicates_differ))) "<your-key>"
           ltac:(vm_compute; reflexivity)).
Defined.

(* ================================================================== *)
(** ** The schema validator's pass over the values *)
(* ================================================================== *)

Section SchemaValues.
Context `{Host}.
Import JS.
Variable schema : EnvSchema.

Lemma for_each_app {A S} (f : S -> A -> Result S) l1 : forall l2 s,
  for_each f (l1 ++ l2) s = rbind (for_each f l1 s) (for_each f l2).
Proof.
  induction l1 as [|x l1 IH]; intros l2 s; simpl; [reflexivity|].
  destruct (f s x); simpl; [apply IH|reflexivity].
Qed.

(** One turn of the loop pushes what it would push on empty lists. *)
Lemma validateVariableValue_push es ws v es' ws' :
  SchemaValidator.validateVariableValue schema (es, ws) v = Ok (es', ws') ->
  exists e w,
    SchemaValidator.validateVariableValue schema ([], []) v = Ok (e, w)
    /\ es' = es ++ e /\ ws' = ws ++ w.
Proof.
  unfold SchemaValidator.validateVariableValue, SchemaValidator.validateVariablePattern,
    SchemaValidator.validateVariableType, rbind.
  cbn [list_ascii_of_string].
  destruct (SchemaValidator.schemaOf schema (key v)) as [sch|].
  2:{ intros [= <- <-]. exists [], []. now rewrite !app_nil_r. }
  destruct (str_eqb (trim (value v)) []);
    destruct (isTrue (vs_deprecated sch));
    destruct (negb (isTrue (vs_allowEmpty sch)));
    destruct (negb (truthyOpt (vs_pattern sch)));
    cbn [andb orb];
    try (destruct (vs_type sch) as [t0|];
         [destruct (SchemaValidator.checkType t0 (value v)) as [[|] fmt]|]);
    try (destruct (RegExp_new _) as [pattern|e]; [destruct (RegExp.test pattern (value v))|]);
    try discriminate;
    intros [= <- <-]; eexists _, _; (split; [reflexivity|]);
    cbn [app]; rewrite ?app_nil_r, <- ?app_assoc; split; reflexivity.
Qed.

Lemma validateVariableValue_origin es ws v es' ws' :
  SchemaValidator.validateVariableValue schema (es, ws) v = Ok (es', ws') ->
  exists e, es' = es ++ e /\ Forall (pushedFor v) e.
Proof.
  unfold SchemaValidator.validateVariableValue, SchemaValidator.validateVariablePattern,
    SchemaValidator.validateVariableType, rbind.
  cbn [list_ascii_of_string].
  destruct (SchemaValidator.schemaOf schema (key v)) as [sch|].
  2:{ intros [= <- <-]. exists []. now rewrite !app_nil_r. }
  destruct (str_eqb (trim (value v)) []);
    destruct (isTrue (vs_deprecated sch));
    destruct (negb (isTrue (vs_allowEmpty sch)));
    destruct (negb (truthyOpt (vs_pattern sch)));
    cbn [andb orb];
    try (destruct (vs_type sch) as [t0|];
         [destruct (SchemaValidator.checkType t0 (value v)) as [[|] fmt]|]);
    try (destruct (RegExp_new _) as [pattern|e]; [destruct (RegExp.test pattern (value v))|]);
    try discriminate;
    intros [= <- <-];
    first [ exists []; split; [now rewrite app_nil_r|constructor]
          | eexists; split; [reflexivity|repeat constructor]
          | eexists; split; [rewrite <- app_assoc; reflexivity|repeat constructor] ].
Qed.

Lemma validateVariableValues_origin vars : forall es ws es' ws',
  for_each (SchemaValidator.validateVariableValue schema) vars (es, ws) = Ok (es', ws') ->
  exists e, es' = es ++ e
            /\ Forall (fun x => exists v, In v vars /\ pushedFor v x) e.
Proof.
  induction vars as [|v vars IH]; intros es ws es' ws' E; cbn [for_each] in E.
  - inversion E; subst. exists []. split; [now rewrite app_nil_r|constructor].
  - unfold rbind in E.
    destruct (SchemaValidator.validateVariableValue schema (es, ws) v) as [[es1 ws1]|e] eqn:E1;
      [|discriminate].
    apply validateVariableValue_origin in E1 as (e1 & -> & F1).
    apply IH in E as (e2 & -> & F2).
    exists (e1 ++ e2). split; [now rewrite app_assoc|].
    apply Forall_app. split.
    + eapply Forall_impl; [|exact F1]. intros x Hx. exists v. split; [now left|exact Hx].
    + eapply Forall_impl; [|exact F2]. intros x (v' & Hin & Hx). exists v'.
      split; [now right|exact Hx].
Qed.

(** The turn of a variable with a schema entry that does not allow empty and
    an empty value: one error, cannot be empty, and no look at the type or
    the pattern. *)
Lemma validateVariableValue_empty es ws v sch :
  SchemaValidator.schemaOf schema (key v) = Some sch ->
  isTrue (vs_allowEmpty sch) = false ->
  trim (value v) = [] ->
  SchemaValidator.validateVariableValue schema (es, ws) v
  = Ok (es ++ [SchemaValidator.cannotBeEmpty v sch],
        if isTrue (vs_deprecated sch)
        then ws ++ [SchemaValidator.deprecatedWarning v sch] else ws).
Proof.
  intros Es Ea Ev. unfold SchemaValidator.validateVariableValue.
  rewrite Es, Ea, Ev. reflexivity.
Qed.

Lemma validateRequiredVariables_type keys variableMap : forall es,
  Forall (fun e => e_type e = E_missing_required) es ->
  Forall (fun e => e_type e = E_missing_required)
         (SchemaValidator.validateRequiredVariables schema keys variableMap es).
Proof.
  unfold SchemaValidator.validateRequiredVariables.
  induction keys as [|k keys IH]; intros es F; simpl; [exact F|].
  apply IH. destruct (SchemaValidator.schemaOf schema k) as [sch|]; [|exact F].
  destruct (_ && _); [|exact F].
  apply Forall_app. split; [exact F|]. repeat constructor.
Qed.

Lemma pushCustom_type rule v es ws infos :
  exists ce, fst (fst (SchemaValidator.pushCustom rule v (es, ws, infos))) = es ++ ce
             /\ Forall (fun e => e_type e = E_custom) ce.
Proof.
  unfold SchemaValidator.pushCustom. destruct (vr_severity rule); simpl.
  - eexists. split; [reflexivity|]. repeat constructor.
  - exists []. split; [now rewrite app_nil_r|constructor].
  - exists []. split; [now rewrite app_nil_r|constructor].
Qed.

Lemma applyCustomRule_type rule (acc : SchemaValidator.Findings) v :
  exists ce, fst (fst (SchemaValidator.applyCustomRule rule acc v)) = fst (fst acc) ++ ce
             /\ Forall (fun e => e_type e = E_custom) ce.
Proof.
  destruct acc as [[es ws] infos]. unfold SchemaValidator.applyCustomRule.
  assert (Hstep : forall (b : bool) (a : SchemaValidator.Findings),
             exists ce, fst (fst (if b then SchemaValidator.pushCustom rule v a else a))
                        = fst (fst a) ++ ce
                        /\ Forall (fun e => e_type e = E_custom) ce).
  { intros [|] [[a1 a2] a3]; [apply pushCustom_type|].
    exists []. split; [now rewrite app_nil_r|constructor]. }
  set (a1 := match vr_pattern rule with Some _ => _ | None => _ end).
  assert (H1 : exists ce, fst (fst a1) = es ++ ce /\ Forall (fun e => e_type e = E_custom) ce).
  { subst a1. destruct (vr_pattern rule) as [pattern|].
    - apply (Hstep _ (es, ws, infos)).
    - exists []. split; [simpl; now rewrite app_nil_r|constructor]. }
  destruct H1 as (c1 & E1 & F1).
  assert (H2 : exists ce, fst (fst (match vr_customValidator rule with
                                    | Some customValidator =>
                                        if negb (customValidator (value v))
                                        then SchemaValidator.pushCustom rule v a1 else a1
                                    | None => a1
                                    end)) = fst (fst a1) ++ ce
                          /\ Forall (fun e => e_type e = E_custom) ce).
  { destruct (vr_customValidator rule) as [cv|]; [apply Hstep|].
    exists []. split; [now rewrite app_nil_r|constructor]. }
  destruct H2 as (c2 & E2 & F2).
  exists (c1 ++ c2). split.
  - etransitivity; [exact E2|]. rewrite E1, app_assoc. reflexivity.
  - apply Forall_app. now split.
Qed.

Lemma fold_custom_type {A} (f : SchemaValidator.Findings -> A -> SchemaValidator.Findings) :
  (forall acc x, exists ce, fst (fst (f acc x)) = fst (fst acc) ++ ce
                            /\ Forall (fun e => e_type e = E_custom) ce) ->
  forall l acc, exists ce, fst (fst (fold_left f l acc)) = fst (fst acc) ++ ce
                           /\ Forall (fun e => e_type e = E_custom) ce.
Proof.
  intros Hf l. induction l as [|x l IH]; intro acc; simpl.
  - exists []. split; [now rewrite app_nil_r|constructor].
  - destruct (IH (f acc x)) as (c2 & E2 & F2). destruct (Hf acc x) as (c1 & E1 & F1).
    exists (c1 ++ c2). split; [rewrite E2, E1, app_assoc; reflexivity|].
    apply Forall_app. now split.
Qed.

Lemma applyCustomRules_type vars (acc : SchemaValidator.Findings) :
  exists ce, fst (fst (SchemaValidator.applyCustomRules schema vars acc)) = fst (fst acc) ++ ce
             /\ Forall (fun e => e_type e = E_custom) ce.
Proof.
  unfold SchemaValidator.applyCustomRules. destruct (es_rules schema) as [rules|].
  - apply fold_custom_type. intros a rule. apply fold_custom_type. intros a' v.
    apply applyCustomRule_type.
  - exists []. split; [now rewrite app_nil_r|constructor].
Qed.

(** A run of [validate]: the errors are those of the required check, then
    those of the pass over the values, then those of the custom rules. *)
Lemma schema_validate_parts vars t r t' :
  SchemaValidator.validate schema vars t = (Ok r, t') ->
  let variableMap := mapOfVariables vars in
  let required :=
    SchemaValidator.validateRequiredVariables schema (map fst (es_variables schema))
      variableMap [] in
  exists us es ws custom,
    SchemaValidator.validateUnusedVariables schema (map_keys variableMap)
      (map fst (es_variables schema)) variableMap [] = Ok us
    /\ for_each (SchemaValidator.validateVariableValue schema) vars (required, us) = Ok (es, ws)
    /\ errors r = es ++ custom
    /\ Forall (fun e => e_type e = E_custom) custom.
Proof.
  unfold SchemaValidator.validate, SchemaValidator.validateVariableValues. run_m.
  fold (mapOfVariables vars). intro E.
  destruct (SchemaValidator.validateUnusedVariables _ _ _ _ _) as [us|e] eqn:Eu;
    [|discriminate].
  destruct (for_each _ vars _) as [[es ws]|e] eqn:Ev; [|discriminate].
  destruct (applyCustomRules_type vars (es, ws, [])) as (custom & Ec & Fc).
  destruct (SchemaValidator.applyCustomRules schema vars (es, ws, [])) as [[es' ws'] is'].
  simpl in Ec. subst es'. injection E as <- <-.
  exists us, es, ws, custom. repeat split; assumption.
Qed.

End SchemaValues.

Lemma filter_none {A} (f : A -> bool) (l : list A) :
  (forall x, In x l -> f x = false) -> filter f l = [].
Proof.
  induction l as [|x l IH]; intro Hf; simpl; [reflexivity|].
  rewrite (Hf x (or_introl eq_refl)). apply IH. intros y Hy. apply Hf. now right.
Qed.

(** C5.  Take a run of [SchemaValidator.validate] and an observed variable
    [v] with a schema entry that does not allow empty and a value that
    trims to the empty string.  The turn of [v] in the pass over the values
    pushes exactly one error, of type invalid_format and naming [v]: the
    errors grow from [before] to [before ++ [cannotBeEmpty v sch]], so
    neither the type check nor the pattern check reports on [v].  When no
    other record has both the key and the line of [v], that error is the
    only invalid_format error of the result about [v].  The run returns a
    result whenever the patterns of the schema compile. *)
Theorem C5_empty_value_one_error `{Host} schema pre v post sch t :
  SchemaValidator.schemaOf schema (key v) = Some sch ->
  isTrue (vs_allowEmpty sch) = false ->
  JS.trim (value v) = [] ->
  (schemaCompiles schema -> returns (SchemaValidator.validate schema (pre ++ v :: post)) t)
  /\ forall r t',
  SchemaValidator.validate schema (pre ++ v :: post) t = (Ok r, t') ->
  exists us before wbefore after,
    SchemaValidator.validateUnusedVariables schema
      (JS.map_keys (mapOfVariables (pre ++ v :: post))) (map fst (es_variables schema))
      (mapOfVariables (pre ++ v :: post)) [] = Ok us
    /\ for_each (SchemaValidator.validateVariableValue schema) pre
         (SchemaValidator.validateRequiredVariables schema (map fst (es_variables schema))
            (mapOfVariables (pre ++ v :: post)) [], us) = Ok (before, wbefore)
    /\ SchemaValidator.validateVariableValue schema (before, wbefore) v
       = Ok (before ++ [SchemaValidator.cannotBeEmpty v sch],
             if isTrue (vs_deprecated sch)
             then wbefore ++ [SchemaValidator.deprecatedWarning v sch] else wbefore)
    /\ errors r = before ++ [SchemaValidator.cannotBeEmpty v sch] ++ after
    /\ e_type (SchemaValidator.cannotBeEmpty v sch) = E_invalid_format
    /\ e_variable (SchemaValidator.cannotBeEmpty v sch) = key v
    /\ ((forall v', In v' (pre ++ post) -> key v' = key v -> lineNumber v' <> lineNumber v) ->
        formatErrorsAbout v (errors r) = [SchemaValidator.cannotBeEmpty v sch]).
Proof.
  intros Es Ea Ev. split.
  { intro Hc. destruct (schema_validate_returns (pre ++ v :: post) t Hc) as (r & E).
    now exists r, (S (S t)). }
  intros r t' Hrun.
  destruct (schema_validate_parts _ _ _ Hrun) as (us & es & ws & custom & Eu & Evals & Eerr & Fc).
  rewrite for_each_app in Evals. unfold rbind in Evals.
  destruct (for_each _ pre _) as [[before wbefore]|e] eqn:Epre; [|discriminate].
  cbn [for_each] in Evals. rewrite (validateVariableValue_empty _ _ _ _ Es Ea Ev) in Evals.
  cbn [rbind] in Evals.
  destruct (validateVariableValues_origin _ _ _ _ Evals) as (epost & -> & Fpost).
  destruct (validateVariableValues_origin _ _ _ _ Epre) as (epre & -> & Fpre).
  exists us, (SchemaValidator.validateRequiredVariables schema (map fst (es_variables schema))
                (mapOfVariables (pre ++ v :: post)) [] ++ epre), wbefore, (epost ++ custom).
  split; [exact Eu|]. split; [exact Epre|].
  split; [now apply validateVariableValue_empty|].
  split; [rewrite Eerr, <- !app_assoc; reflexivity|].
  split; [reflexivity|]. split; [reflexivity|].
  intro Huniq. rewrite Eerr. unfold formatErrorsAbout.
  rewrite !filter_app.
  rewrite (filter_none _ (SchemaValidator.validateRequiredVariables _ _ _ _)).
  2:{ intros x Hx.
      pose proof (validateRequiredVariables_type schema (map fst (es_variables schema))
                    (mapOfVariables (pre ++ v :: post)) (Forall_nil _)) as Freq.
      rewrite Forall_forall in Freq. now rewrite (Freq x Hx). }
  assert (Hother : forall l e,
             Forall (fun x => exists v', In v' l /\ pushedFor v' x) e ->
             (forall v', In v' l -> In v' (pre ++ post)) ->
             filter (fun e0 => ErrorType_eqb (e_type e0) E_invalid_format
                               && JS.str_eqb (e_variable e0) (key v)
                               && match e_lineNumber e0 with
                                  | Some n => n =? lineNumber v
                                  | None => false
                                  end) e = []).
  { intros l e F Hsub. apply filter_none. intros x Hx.
    rewrite Forall_forall in F. destruct (F x Hx) as (v' & Hin & _ & Hk & Hl).
    rewrite Hk, Hl.
    destruct (JS.str_eqb (key v') (key v)) eqn:Ek; [|now rewrite andb_false_r].
    apply str_eqb_eq in Ek.
    replace (lineNumber v' =? lineNumber v) with false; [now rewrite andb_false_r|].
    symmetry. apply Nat.eqb_neq. apply Huniq; [now apply Hsub|exact Ek]. }
  rewrite (Hother pre epre Fpre) by (intros; apply in_or_app; now left).
  rewrite (Hother post epost Fpost) by (intros; apply in_or_app; now right).
  rewrite (filter_none _ custom).
  2:{ intros x Hx. rewrite Forall_forall in Fc. now rewrite (Fc x Hx). }
  cbn [filter SchemaValidator.cannotBeEmpty e_type e_variable e_lineNumber ErrorType_eqb].
  rewrite str_eqb_refl, Nat.eqb_refl. reflexivity.
Qed.

Lemma C5_witness :
  exists r,
    SchemaValidator.validate (H:=Sample.host) Sample.portSchema
      [Sample.var "HOST" "x" 1; Sample.var "PORT" " " 2] 0 = (Ok r, 2)
    /\ formatErrorsAbout (Sample.var "PORT" " " 2) (errors r)
       = [mkError E_invalid_format "PORT" "Variable 'PORT' cannot be empty" (Some 2) None].
Proof.
  eexists. split; [vm_compute; reflexivity|].
  destruct (proj2 (@C5_empty_value_one_error Sample.host Sample.portSchema
                     [Sample.var "HOST" "x" 1] (Sample.var "PORT" " " 2) []
                     (mkVariableSchema true (Some T_number) None None None None None None)
                     0 eq_refl eq_refl eq_refl) _ 2 ltac:(vm_compute; reflexivity))
    as (us & before & wbefore & after & _ & _ & _ & _ & _ & _ & Hone).
  apply Hone. intros v' [<-|[]] Hk. vm_compute in Hk. discriminate.
Defined.

(* ================================================================== *)
(** ** Quantifiers over one character *)
(* ================================================================== *)

Section Quantifiers.
Import JS RegExp.

Lemma single_Char ic c : single ic (Char c) (char_matches ic c).
Proof. intros k s. reflexivity. Qed.

Lemma single_Any ic : single ic Any (fun x => negb (isLineTerminator x)).
Proof. intros k s. simpl. destruct (ahead s) as [|x t]; [reflexivity|]. now destruct (isLineTerminator x). Qed.

Lemma single_Class ic neg items : single ic (Class neg items) (class_matches ic neg items).
Proof. intros k s. reflexivity. Qed.

Lemma length_cons_neq {A} (t : list A) : (length t =? S (length t)) = false.
Proof. apply Nat.eqb_neq. lia. Qed.

(** A greedy star reads all it can; if what follows accepts there, that is
    the match. *)
Lemma greedy_loop ic r P k m : single ic r P ->
  forall p rest b cs fuel i,
    forallb P p = true -> stops P rest -> length p < fuel ->
    k (mkState (rev p ++ b) rest cs) = Some m ->
    repeat_loop (rmatch ic r) 0 None true k fuel i (mkState b (p ++ rest) cs) = Some m.
Proof.
  intros Hr p. induction p as [|x p IH]; intros rest b cs fuel i Hp Hstop Hfuel Hk;
    (destruct fuel as [|fuel]; [simpl in Hfuel; lia|]); simpl repeat_loop; rewrite Hr;
    cbn [ahead app].
  - simpl in Hk. destruct rest as [|y rest]; [now rewrite Hk|].
    simpl in Hstop. now rewrite Hstop, Hk.
  - simpl in Hp. apply andb_true_iff in Hp as [Hx Hp]. rewrite Hx.
    unfold step. cbn [ahead behind caps]. rewrite length_cons_neq.
    rewrite (IH rest (x :: b) cs fuel (S i)); [reflexivity|exact Hp|exact Hstop| |].
    + simpl in Hfuel. lia.
    + simpl in Hk. now rewrite <- app_assoc in Hk.
Qed.

Lemma greedy_star ic r P k m p rest b cs : single ic r P ->
  forallb P p = true -> stops P rest ->
  k (mkState (rev p ++ b) rest cs) = Some m ->
  rmatch ic (star r) k (mkState b (p ++ rest) cs) = Some m.
Proof.
  intros Hr Hp Hstop Hk. unfold star. cbn [rmatch ahead].
  eapply greedy_loop; eauto. rewrite length_app. lia.
Qed.

(** A lazy star reads as little as it can: up to the first place where what
    follows accepts. *)
Lemma lazy_loop ic r P k m cs : single ic r P ->
  forall p rest b fuel i,
    forallb P p = true ->
    (forall b' x t, In x p -> k (mkState b' (x :: t) cs) = None) ->
    length p < fuel ->
    k (mkState (rev p ++ b) rest cs) = Some m ->
    repeat_loop (rmatch ic r) 0 None false k fuel i (mkState b (p ++ rest) cs) = Some m.
Proof.
  intros Hr p. induction p as [|x p IH]; intros rest b fuel i Hp Hnot Hfuel Hk;
    (destruct fuel as [|fuel]; [simpl in Hfuel; lia|]); simpl repeat_loop.
  - simpl in Hk. now rewrite Hk.
  - cbn [app]. rewrite (Hnot b x (p ++ rest) (or_introl eq_refl)).
    rewrite Hr. cbn [ahead].
    simpl in Hp. apply andb_true_iff in Hp as [Hx Hp]. rewrite Hx.
    unfold step. cbn [ahead behind caps]. rewrite length_cons_neq.
    apply IH; [exact Hp| | |].
    + intros b' y t Hy. apply Hnot. now right.
    + simpl in Hfuel. lia.
    + simpl in Hk. now rewrite <- app_assoc in Hk.
Qed.

Lemma lazy_star_until ic r P k m p rest b cs : single ic r P ->
  forallb P p = true ->
  (forall b' x t, In x p -> k (mkState b' (x :: t) cs) = None) ->
  k (mkState (rev p ++ b) rest cs) = Some m ->
  rmatch ic (lazy_star r) k (mkState b (p ++ rest) cs) = Some m.
Proof.
  intros Hr Hp Hnot Hk. unfold lazy_star. cbn [rmatch ahead].
  eapply lazy_loop; eauto. rewrite length_app. lia.
Qed.

Lemma consumed_prefix p rest b b' cs cs' :
  consumed (mkState b (p ++ rest) cs) (mkState b' rest cs') = p.
Proof.
  unfold consumed. cbn [ahead]. rewrite length_app.
  replace (length p + length rest - length rest) with (length p) by lia.
  now rewrite firstn_app, Nat.sub_diag, firstn_all, app_nil_r.
Qed.

End Quantifiers.

(* ================================================================== *)
(** ** Facts about characters and strings *)
(* ================================================================== *)

Section StringFacts.
Import JS RegExp.


Lemma identStart_char x :
  class_matches false false EnvParser.identStart x = true ->
  isWhiteSpace x = false /\ chr_eqb HASH x = false /\ isLineTerminator x = false.
Proof. all_chars x. Qed.

Lemma identChar_char x :
  class_matches false false EnvParser.identChar x = true -> isLineTerminator x = false.
Proof. all_chars x. Qed.

Lemma plainChar_char x :
  plainChar x = true ->
  class_matches false false [CChar SQ; CChar DQ] x = false
  /\ char_matches false DQ x = false
  /\ chr_eqb x HASH = false /\ chr_eqb x BACKSLASH = false
  /\ chr_eqb x SQ = false /\ chr_eqb x DQ = false /\ chr_eqb x LF = false
  /\ chr_eqb SQ x = false /\ chr_eqb DQ x = false.
Proof. all_chars x. Qed.

Lemma lineTerminator_char x :
  isLineTerminator x = false <-> chr_eqb x LF = false /\ chr_eqb x CR = false.
Proof. all_chars x. Qed.

Lemma whiteSpace_class x : class_matches false false [CSpace] x = isWhiteSpace x.
Proof. unfold class_matches. simpl. now rewrite orb_false_r. Qed.

Lemma trimStart_shorter s : length (trimStart s) <= length s.
Proof.
  induction s as [|c s IH]; simpl; [lia|]. destruct (isWhiteSpace c); simpl; lia.
Qed.

Lemma trimEnd_shorter s : length (trimEnd s) <= length s.
Proof.
  unfold trimEnd. rewrite length_rev. etransitivity; [apply trimStart_shorter|].
  now rewrite length_rev.
Qed.

Lemma last_app_cons {A} (a : list A) x b d : last (a ++ x :: b) d = last (x :: b) d.
Proof.
  induction a as [|y a IH]; [reflexivity|].
  cbn [app]. rewrite <- IH. simpl. destruct (a ++ x :: b) eqn:E; [|reflexivity].
  now destruct a.
Qed.

(** A string with no white space at either end is what [trim] leaves. *)
Lemma trim_ends s d :
  s <> [] -> isWhiteSpace (hd d s) = false -> isWhiteSpace (last s d) = false -> trim s = s.
Proof.
  intros Hne Hh Hl. unfold trim.
  destruct s as [|x t]; [congruence|]. simpl in Hh. simpl trimStart. rewrite Hh.
  destruct (exists_last Hne) as (s' & c & E). rewrite E in *.
  rewrite last_last in Hl. unfold trimEnd. rewrite rev_app_distr. simpl.
  rewrite Hl. simpl. now rewrite rev_involutive.
Qed.

Lemma trim_fixed s d :
  s <> [] -> trim s = s ->
  isWhiteSpace (hd d s) = false /\ isWhiteSpace (last s d) = false.
Proof.
  intros Hne E.
  assert (Hh : isWhiteSpace (hd d s) = false).
  { destruct s as [|x t]; [congruence|]. simpl.
    destruct (isWhiteSpace x) eqn:Ex; [|reflexivity].
    apply (f_equal (@length ascii)) in E. unfold trim in E. simpl in E. rewrite Ex in E.
    pose proof (trimEnd_shorter (trimStart t)). pose proof (trimStart_shorter t). lia. }
  split; [exact Hh|].
  destruct (exists_last Hne) as (s' & c & Es). rewrite Es in *. rewrite last_last.
  destruct (isWhiteSpace c) eqn:Ec; [|reflexivity].
  apply (f_equal (@length ascii)) in E. unfold trim in E.
  assert (Hs : trimStart (s' ++ [c]) = s' ++ [c]).
  { destruct s' as [|x t]; simpl in *; now rewrite Hh. }
  rewrite Hs in E. unfold trimEnd in E. rewrite rev_app_distr in E. simpl in E.
  rewrite Ec, length_rev, length_app in E. simpl in E.
  pose proof (trimStart_shorter (rev s')). rewrite length_rev in *. lia.
Qed.

Lemma replaceAll2_none a b rep s :
  forallb (fun c => negb (chr_eqb c a)) s = true -> replaceAll2 a b rep s = s.
Proof.
  induction s as [|c s IH]; intro Hs; [reflexivity|].
  simpl in Hs. apply andb_true_iff in Hs as [Hc Hs]. apply negb_true_iff in Hc.
  cbn [replaceAll2]. destruct s as [|d s']; [reflexivity|].
  rewrite Hc. cbn [andb]. now rewrite IH.
Qed.

Lemma indexOf_none s c :
  forallb (fun x => negb (chr_eqb x c)) s = true -> indexOf s c = None.
Proof.
  induction s as [|x s IH]; intro Hs; [reflexivity|].
  simpl in Hs. apply andb_true_iff in Hs as [Hx Hs]. apply negb_true_iff in Hx.
  simpl. now rewrite Hx, IH.
Qed.

Lemma split_lines_line l rest :
  forallb (fun c => negb (isLineTerminator c)) l = true ->
  split_lines (l ++ LF :: rest) = l :: split_lines rest.
Proof.
  induction l as [|c l IH]; intro Hl.
  - reflexivity.
  - simpl in Hl. apply andb_true_iff in Hl as [Hc Hl]. apply negb_true_iff in Hc.
    apply lineTerminator_char in Hc as [Hlf Hcr].
    cbn [app split_lines]. rewrite Hlf, Hcr. cbn [andb]. now rewrite IH.
Qed.

Lemma split_lines_last l :
  forallb (fun c => negb (isLineTerminator c)) l = true -> split_lines l = [l].
Proof.
  induction l as [|c l IH]; intro Hl; [reflexivity|].
  simpl in Hl. apply andb_true_iff in Hl as [Hc Hl]. apply negb_true_iff in Hc.
  apply lineTerminator_char in Hc as [Hlf Hcr].
  cbn [split_lines]. rewrite Hlf, Hcr. cbn [andb]. now rewrite IH.
Qed.

(** Lines without line terminators come back from the join. *)
Lemma split_join lines :
  lines <> [] ->
  Forall (fun l => forallb (fun c => negb (isLineTerminator c)) l = true) lines ->
  split_lines (join [LF] lines) = lines.
Proof.
  induction lines as [|l lines IH]; intros Hne F; [congruence|].
  inversion F as [|? ? Hl F']; subst.
  destruct lines as [|l' lines'].
  - simpl. now apply split_lines_last.
  - change (join [LF] (l :: l' :: lines')) with (l ++ [LF] ++ join [LF] (l' :: lines')).
    cbn [app]. rewrite split_lines_line by exact Hl. f_equal. apply IH; [discriminate|exact F'].
Qed.

End StringFacts.

(* ================================================================== *)
(** ** The round trip through [stringify] and [parseContent] *)
(* ================================================================== *)

Section RoundTrip.
Import JS RegExp.

Lemma greedy_star_none ic r P k m rest b cs : single ic r P ->
  stops P rest ->
  k (mkState b rest cs) = Some m ->
  rmatch ic (star r) k (mkState b rest cs) = Some m.
Proof. intros Hr Hs Hk. now apply (@greedy_star ic r P k m [] rest b cs Hr). Qed.

Lemma greedy_star_all ic r P k m p b cs : single ic r P ->
  forallb P p = true ->
  k (mkState (rev p ++ b) [] cs) = Some m ->
  rmatch ic (star r) k (mkState b p cs) = Some m.
Proof.
  intros Hr Hp Hk. rewrite <- (app_nil_r p) at 1.
  now apply (@greedy_star ic r P k m p [] b cs Hr).
Qed.

Lemma consumed_all p b b' cs cs' :
  consumed (mkState b p cs) (mkState b' [] cs') = p.
Proof.
  unfold consumed. cbn [ahead length]. rewrite Nat.sub_0_r. apply firstn_all.
Qed.

Lemma stops_whiteSpace_class rest :
  stops isWhiteSpace rest -> stops (class_matches false false [CSpace]) rest.
Proof. destruct rest as [|y rest]; simpl; [trivial|]. now rewrite orb_false_r. Qed.

(** The captures of a match [X], the way [exec] reads them. *)
Lemma exec_caps (X : option mstate) m C :
  X = Some m -> caps m = C ->
  match X with Some m => Some (caps m) | None => None end = Some C.
Proof. intros -> <-. reflexivity. Qed.

Lemma exec_assignment x kt val :
  isIdentifier (x :: kt) = true ->
  forallb (fun c => negb (isLineTerminator c)) val = true ->
  stops isWhiteSpace val ->
  exec EnvParser.assignmentRe ((x :: kt) ++ "=" ++ val) = Some [(2, val); (1, x :: kt)].
Proof.
  intros Hk Hv Hs. unfold isIdentifier in Hk. apply andb_true_iff in Hk as [Hx Hkt].
  unfold exec, EnvParser.assignmentRe. cbn [source ignoreCase re seq].
  rewrite search_bol_0.
  cbn [rmatch ahead app list_ascii_of_string]. rewrite Hx.
  unfold step. cbn [behind ahead caps].
  eapply exec_caps.
  - eapply greedy_star; [apply single_Class|exact Hkt|vm_compute; reflexivity|].
    cbn [behind ahead caps].
    eapply greedy_star_none; [apply single_Class|vm_compute; reflexivity|].
    cbn [ahead].
    change (char_matches false "=" "=") with true. cbn iota.
    unfold step. cbn [behind ahead caps].
    eapply greedy_star_none; [apply single_Class|now apply stops_whiteSpace_class|].
    eapply greedy_star_all; [apply single_Any|exact Hv|].
    cbn [ahead]. reflexivity.
  - cbn [caps]. unfold set_cap. rewrite consumed_all.
    change (x :: kt ++ "="%char :: val) with ((x :: kt) ++ "="%char :: val).
    rewrite consumed_prefix. reflexivity.
Qed.

Lemma exec_quoted_none value :
  forallb plainChar value = true -> exec EnvParser.quotedRe value = None.
Proof.
  intro Hv. unfold exec, EnvParser.quotedRe. cbn [source ignoreCase re seq].
  rewrite search_bol_0. cbn [rmatch ahead].
  destruct value as [|x t]; [reflexivity|].
  simpl in Hv. apply andb_true_iff in Hv as [Hx _].
  apply plainChar_char in Hx as (Hq & _). now rewrite Hq.
Qed.

Lemma exec_quoted value :
  forallb plainChar value = true ->
  forallb (fun c => negb (isLineTerminator c)) value = true ->
  exec EnvParser.quotedRe (DQ :: value ++ [DQ]) = Some [(2, value); (1, [DQ])].
Proof.
  intros Hp Hv. unfold exec, EnvParser.quotedRe. cbn [source ignoreCase re seq].
  rewrite search_bol_0. cbn [rmatch ahead].
  change (class_matches false false [CChar SQ; CChar DQ] DQ) with true. cbn iota.
  unfold step. cbn [behind ahead caps].
  replace (consumed (mkState [] (DQ :: value ++ [DQ]) []) (mkState [DQ] (value ++ [DQ]) []))
    with [DQ] by (symmetry; apply (consumed_prefix [DQ])).
  assert (Hplain : forall x, In x value -> char_matches false DQ x = false).
  { intros x Hx. rewrite forallb_forall in Hp. now apply plainChar_char, Hp. }
  eapply exec_caps.
  - eapply lazy_star_until; [apply single_Any|exact Hv| |].
    + intros b' x t Hx. unfold set_cap. cbn [caps behind ahead get_cap Nat.eqb eat].
      now rewrite (Hplain x Hx).
    + unfold set_cap. cbn [caps behind ahead get_cap Nat.eqb eat].
      change (char_matches false DQ DQ) with true. cbn iota.
      unfold step, opt. cbn [behind ahead caps].
      cbn. reflexivity.
  - cbn [caps]. unfold set_cap.
    rewrite length_app. cbn [length]. rewrite Nat.add_sub, firstn_app, Nat.sub_diag, firstn_all.
    cbn [firstn]. rewrite app_nil_r. reflexivity.
Qed.

Lemma stringifyVariable_simple v :
  hasComment v = None -> EnvParser.stringifyVariable v = key v ++ "=" ++ valueText v.
Proof.
  intro Hc. unfold EnvParser.stringifyVariable, valueText. rewrite Hc. cbn [truthyOpt].
  cbn [list_ascii_of_string]. now rewrite !app_nil_r.
Qed.

Lemma simple_no_lineTerminator v :
  simple v -> forallb (fun c => negb (isLineTerminator c)) (value v) = true.
Proof.
  intros [_ Hlt]. exact Hlt.
Qed.

Lemma simple_value_start v : simple v -> stops isWhiteSpace (value v).
Proof.
  intros [(_ & _ & _ & Ht) _]. destruct (value v) as [|y t] eqn:E; [exact I|].
  simpl. now apply (trim_fixed " "%char (s:=y :: t)).
Qed.

Lemma valueText_facts v :
  simple v ->
  forallb (fun c => negb (isLineTerminator c)) (valueText v) = true
  /\ stops isWhiteSpace (valueText v)
  /\ isWhiteSpace (last ("="%char :: valueText v) " "%char) = false.
Proof.
  intro Hs. pose proof (simple_no_lineTerminator Hs) as Hlt.
  pose proof (simple_value_start Hs) as Hst.
  destruct Hs as [(_ & _ & _ & Ht) _]. unfold valueText.
  destruct (isQuoted v).
  - split; [|split].
    + cbn [app forallb]. rewrite forallb_app, Hlt. reflexivity.
    + reflexivity.
    + change ("="%char :: [DQ] ++ value v ++ [DQ])
        with (("="%char :: DQ :: value v) ++ [DQ]).
      now rewrite last_last.
  - split; [exact Hlt|]. split; [exact Hst|].
    destruct (value v) as [|y t] eqn:E; [reflexivity|].
    change (last ("="%char :: y :: t) " "%char) with (last (y :: t) " "%char).
    now apply (trim_fixed " "%char (s:=y :: t)).
Qed.

Lemma processQuotes_quoted value :
  forallb plainChar value = true ->
  EnvParser.processQuotes ([DQ] ++ value ++ [DQ]) = (value, true).
Proof.
  intro Hp. unfold EnvParser.processQuotes.
  assert (Ht : trim ([DQ] ++ value ++ [DQ]) = [DQ] ++ value ++ [DQ]).
  { apply (trim_ends " "%char); [discriminate|reflexivity|].
    change ([DQ] ++ value ++ [DQ]) with ((DQ :: value) ++ [DQ]). now rewrite last_last. }
  rewrite Ht. cbv zeta.
  assert (Hsq : startsWith ([DQ] ++ value ++ [DQ]) [SQ] = false) by reflexivity.
  assert (Hq : startsWith ([DQ] ++ value ++ [DQ]) [DQ] = true).
  { cbn [app startsWith]. now destruct (value ++ [DQ]). }
  assert (He : endsWith ([DQ] ++ value ++ [DQ]) [DQ] = true).
  { unfold endsWith. rewrite !rev_app_distr. cbn [rev app startsWith].
    now destruct (rev value ++ [DQ]). }
  assert (Hl : (2 <=? length ([DQ] ++ value ++ [DQ])) = true).
  { apply Nat.leb_le. rewrite !length_app. simpl. lia. }
  assert (Hs : slice_1_m1 ([DQ] ++ value ++ [DQ]) = value).
  { unfold slice_1_m1. cbn [app skipn length]. rewrite length_app. cbn [length].
    replace (S (length value + 1) - 2) with (length value) by lia.
    now rewrite firstn_app, Nat.sub_diag, firstn_all, app_nil_r. }
  assert (Hb : forallb (fun c => negb (chr_eqb c BACKSLASH)) value = true).
  { rewrite forallb_forall in *. intros x Hx. apply negb_true_iff.
    now apply plainChar_char, Hp. }
  rewrite Hsq, Hq, He, Hl, Hs. cbn [andb].
  rewrite (@replaceAll2_none BACKSLASH "n" [LF] value Hb).
  rewrite (@replaceAll2_none BACKSLASH "r" [CR] value Hb).
  rewrite (@replaceAll2_none BACKSLASH "t" [TAB] value Hb).
  rewrite (@replaceAll2_none BACKSLASH BACKSLASH [BACKSLASH] value Hb).
  rewrite (@replaceAll2_none BACKSLASH DQ [DQ] value Hb).
  reflexivity.
Qed.

Lemma processQuotes_plain value :
  forallb plainChar value = true -> trim value = value ->
  EnvParser.processQuotes value = (value, false).
Proof.
  intros Hp Ht. unfold EnvParser.processQuotes. rewrite Ht. cbn zeta.
  destruct value as [|y t]; [reflexivity|].
  simpl in Hp. apply andb_true_iff in Hp as [Hy _].
  apply plainChar_char in Hy as (_ & _ & _ & _ & _ & _ & _ & Hsq & Hdq).
  cbn [startsWith]. now rewrite Hsq, Hdq.
Qed.

Lemma extract_quoted value :
  forallb plainChar value = true ->
  forallb (fun c => negb (isLineTerminator c)) value = true ->
  EnvParser.extractValueAndComment ([DQ] ++ value ++ [DQ]) = ([DQ] ++ value ++ [DQ], None).
Proof.
  intros Hp Hv. unfold EnvParser.extractValueAndComment.
  change ([DQ] ++ value ++ [DQ]) with (DQ :: value ++ [DQ]).
  now rewrite exec_quoted.
Qed.

Lemma extract_plain value :
  forallb plainChar value = true -> trim value = value ->
  EnvParser.extractValueAndComment value = (value, None).
Proof.
  intros Hp Ht. unfold EnvParser.extractValueAndComment.
  rewrite exec_quoted_none by exact Hp.
  rewrite indexOf_none; [now rewrite Ht|].
  rewrite forallb_forall in *. intros x Hx. apply negb_true_iff.
  now apply plainChar_char, Hp.
Qed.

(** A line that [stringify] writes for a simple record parses back to the
    record, with the line's number. *)
Lemma parse_simple_line v n :
  simple v ->
  EnvParser.parseVariableLine (EnvParser.stringifyVariable v) n
  = EnvParser.mkLineResult (Some (mkEnvVariable (key v) (value v) n (isQuoted v) None)) None.
Proof.
  intro Hs. destruct (valueText_facts Hs) as (Hlt & Hst & Hlast).
  pose proof (simple_no_lineTerminator Hs) as Hvlt.
  destruct Hs as [(Hid & Hc & Hp & Ht) Hcr].
  rewrite (stringifyVariable_simple _ Hc).
  destruct (key v) as [|x kt] eqn:Ek; [discriminate|].
  unfold EnvParser.parseVariableLine.
  assert (Htrim : trim ((x :: kt) ++ "=" ++ valueText v) = (x :: kt) ++ "=" ++ valueText v).
  { apply (trim_ends " "%char); [discriminate| |].
    - simpl. unfold isIdentifier in Hid. apply andb_true_iff in Hid as [Hx _].
      now apply identStart_char in Hx.
    - cbn [list_ascii_of_string app]. change (x :: kt ++ "="%char :: valueText v)
        with ((x :: kt) ++ "="%char :: valueText v).
      rewrite last_app_cons. exact Hlast. }
  cbv zeta. rewrite Htrim, (@exec_assignment x kt (valueText v) Hid Hlt Hst).
  cbn [get_cap Nat.eqb]. unfold valueText. destruct (isQuoted v).
  - rewrite (@extract_quoted (value v) Hp Hvlt), (@processQuotes_quoted (value v) Hp).
    reflexivity.
  - rewrite (@extract_plain (value v) Hp Ht), (@processQuotes_plain (value v) Hp Ht).
    reflexivity.
Qed.

End RoundTrip.

Section RoundTripLists.
Import JS RegExp.

Lemma simple_line_no_lineTerminator v :
  simple v ->
  forallb (fun c => negb (isLineTerminator c)) (EnvParser.stringifyVariable v) = true.
Proof.
  intro Hs. destruct (valueText_facts Hs) as (Hlt & _ & _).
  destruct Hs as [(Hid & Hc & _ & _) _].
  rewrite (stringifyVariable_simple _ Hc), !forallb_app, Hlt.
  destruct (key v) as [|x kt]; [discriminate|].
  unfold isIdentifier in Hid. apply andb_true_iff in Hid as [Hx Hkt].
  apply identStart_char in Hx as (_ & _ & Hx). cbn [forallb]. rewrite Hx. cbn.
  rewrite andb_true_r. rewrite forallb_forall in *. intros y Hy.
  apply negb_true_iff. now apply identChar_char, Hkt.
Qed.

Lemma parseLines_simple vs : forall i acc,
  Forall simple vs ->
  EnvParser.parseLines (map EnvParser.stringifyVariable vs) i acc
  = mkParsedEnvFile (variables acc ++ renumber i vs) (comments acc) (emptyLines acc)
                    (parseErrors acc).
Proof.
  induction vs as [|v vs IH]; intros i acc F; cbn [map EnvParser.parseLines renumber].
  - rewrite app_nil_r. now destruct acc.
  - inversion F as [|? ? Hv F']; subst.
    rewrite (@parseLine_variable acc (i + 1) (EnvParser.stringifyVariable v)
               (mkEnvVariable (key v) (value v) (i + 1) (isQuoted v) None)).
    2:{ now rewrite (parse_simple_line (i + 1) Hv). }
    rewrite (IH (S i) _ F'). cbn [addLine variables comments emptyLines parseErrors].
    now rewrite <- app_assoc.
Qed.

Lemma stringify_renumber vs : forall i,
  Forall simple vs ->
  map EnvParser.stringifyVariable (renumber i vs) = map EnvParser.stringifyVariable vs.
Proof.
  induction vs as [|v vs IH]; intros i F; [reflexivity|].
  inversion F as [|? ? Hv F']; subst. cbn [renumber map]. rewrite (IH _ F'). f_equal.
  destruct Hv as [(_ & Hc & _) _].
  unfold EnvParser.stringifyVariable. cbn [key value isQuoted hasComment]. now rewrite Hc.
Qed.

Lemma pairsOf_renumber vs : forall i, pairsOf (renumber i vs) = pairsOf vs.
Proof.
  unfold pairsOf. induction vs as [|v vs IH]; intro i; [reflexivity|].
  cbn [renumber map key value isQuoted]. now rewrite IH.
Qed.

Lemma parse_stringify vs :
  Forall simple vs ->
  variables (EnvParser.parseContent (EnvParser.stringify vs)) = renumber 0 vs
  /\ parseErrors (EnvParser.parseContent (EnvParser.stringify vs)) = [].
Proof.
  intro F. unfold EnvParser.parseContent, EnvParser.stringify.
  destruct vs as [|v vs]; [split; reflexivity|].
  rewrite split_join.
  - rewrite (parseLines_simple 0 _ F). split; reflexivity.
  - discriminate.
  - rewrite Forall_forall in *. intros l Hl. apply in_map_iff in Hl as (v' & <- & Hv').
    apply simple_line_no_lineTerminator. now apply F.
Qed.

End RoundTripLists.

(** C4, as the code has it.  For every list of variable records whose keys
    are identifiers, whose [hasComment] is unset and whose values hold no
    quote, no [#], no backslash, no line terminator (newline, carriage
    return, U+2028, U+2029: what [.] refuses) and no white space at either
    end: parsing what [stringify] writes gives the same records (numbered
    by their line), so the same key/value pairs and quoting flags, with no
    parse error, and [stringify] of them is the same text. *)
Theorem C4_round_trip (vs : list EnvVariable) :
  Forall simple vs ->
  let parsed := EnvParser.parseContent (EnvParser.stringify vs) in
  EnvParser.stringify (variables parsed) = EnvParser.stringify vs
  /\ pairsOf (variables parsed) = pairsOf vs
  /\ variables parsed = renumber 0 vs
  /\ parseErrors parsed = [].
Proof.
  intros F parsed. subst parsed. destruct (parse_stringify F) as [Ev Ee].
  rewrite Ev, Ee. repeat split.
  - unfold EnvParser.stringify. now rewrite stringify_renumber.
  - apply pairsOf_renumber.
Qed.

Lemma C4_witness :
  EnvParser.stringify
    (variables (EnvParser.parseContent
                  (EnvParser.stringify [mkEnvVariable "NODE_ENV" "development" 7 false None;
                                        mkEnvVariable "GREETING" "hello world" 9 true None])))
  = EnvParser.stringify [mkEnvVariable "NODE_ENV" "development" 7 false None;
                         mkEnvVariable "GREETING" "hello world" 9 true None].
Proof.
  refine (proj1 (@C4_round_trip [mkEnvVariable "NODE_ENV" "development" 7 false None;
                                 mkEnvVariable "GREETING" "hello world" 9 true None] _)).
  repeat constructor.
Defined.

(** The claim as stated fails: a carriage return inside a value is none of
    the characters it bars, and the line that [stringify] writes for it is
    a parse error ([.] does not match a carriage return). *)
Lemma C4_counterexample :
  Forall simpleAsStated [mkEnvVariable "K" ("a" ++ [JS.CR] ++ "b") 1 false None]
  /\ EnvParser.stringify
       (variables (EnvParser.parseContent
                     (EnvParser.stringify
                        [mkEnvVariable "K" ("a" ++ [JS.CR] ++ "b") 1 false None])))
     <> EnvParser.stringify [mkEnvVariable "K" ("a" ++ [JS.CR] ++ "b") 1 false None]
  /\ pairsOf (variables (EnvParser.parseContent
                           (EnvParser.stringify
                              [mkEnvVariable "K" ("a" ++ [JS.CR] ++ "b") 1 false None])))
     = [].
Proof.
  split; [|split].
  - repeat constructor.
  - vm_compute. discriminate.
  - vm_compute. reflexivity.
Qed.
(* ================================================================== *)
(** ** The security analysis, variable by variable *)
(* ================================================================== *)

Section Analysis.
Context `{Host}.
Import JS.

Lemma app3_nil_l a : app3 ([], [], []) a = a.
Proof. now destruct a as [[e w] i]. Qed.

Lemma app3_nil_r a : app3 a ([], [], []) = a.
Proof.
  destruct a as [[e w] i]. unfold app3, errorsOf, warningsOf, infoOf; simpl.
  now rewrite !app_nil_r.
Qed.

Lemma app3_assoc a b c : app3 (app3 a b) c = app3 a (app3 b c).
Proof. unfold app3, errorsOf, warningsOf, infoOf; simpl. now rewrite !app_assoc. Qed.

(** A loop whose turns only push gives the accumulator followed by what it
    gives from nothing. *)
Lemma fold_left_app3 {X} (f : SecurityAnalyzer.Findings -> X -> SecurityAnalyzer.Findings) l :
  (forall acc x, In x l -> f acc x = app3 acc (f ([], [], []) x)) ->
  forall acc, fold_left f l acc = app3 acc (fold_left f l ([], [], [])).
Proof.
  induction l as [|x l IH]; intros Hf acc; simpl; [now rewrite app3_nil_r|].
  assert (Hl : forall acc x, In x l -> f acc x = app3 acc (f ([], [], []) x))
    by (intros; apply Hf; now right).
  rewrite (IH Hl (f acc x)), (IH Hl (f ([], [], []) x)), <- app3_assoc.
  now rewrite (Hf acc x (or_introl eq_refl)).
Qed.

Lemma fold_left_pair {X A B} (f : list A * list B -> X -> list A * list B) l :
  (forall a b x, f (a, b) x = (a ++ fst (f ([], []) x), b ++ snd (f ([], []) x))) ->
  forall a b, fold_left f l (a, b)
              = (a ++ fst (fold_left f l ([], [])), b ++ snd (fold_left f l ([], []))).
Proof.
  intro Hf. induction l as [|x l IH]; intros a b; simpl; [now rewrite !app_nil_r|].
  rewrite Hf. destruct (f ([], []) x) as [g1 g2]. simpl.
  rewrite (IH (a ++ g1)), (IH g1 g2). simpl. now rewrite !app_assoc.
Qed.

Lemma checkSecurityRules_push rules v acc :
  SecurityAnalyzer.checkSecurityRules rules v acc
  = app3 acc (SecurityAnalyzer.checkSecurityRules rules v ([], [], [])).
Proof.
  unfold SecurityAnalyzer.checkSecurityRules. apply fold_left_app3.
  intros [[e w] i] rule _. destruct (RegExp.test _ _); [|now rewrite app3_nil_r].
  destruct (sr_severity rule); unfold app3, errorsOf, warningsOf, infoOf; simpl;
    now rewrite ?app_nil_r.
Qed.

Lemma checkHardcodedSecrets_push v e w :
  SecurityAnalyzer.checkHardcodedSecrets v e w
  = (e ++ fst (SecurityAnalyzer.checkHardcodedSecrets v [] []),
     w ++ snd (SecurityAnalyzer.checkHardcodedSecrets v [] [])).
Proof.
  unfold SecurityAnalyzer.checkHardcodedSecrets.
  destruct (existsb _ SecurityAnalyzer.sensitiveKeys); [|simpl; now rewrite !app_nil_r].
  destruct (find _ _), (SecurityAnalyzer.isWeakSecret _); simpl; now rewrite ?app_nil_r.
Qed.

Lemma checkWeakPatterns_push v w i :
  SecurityAnalyzer.checkWeakPatterns v w i
  = (w ++ fst (SecurityAnalyzer.checkWeakPatterns v [] []),
     i ++ snd (SecurityAnalyzer.checkWeakPatterns v [] [])).
Proof.
  unfold SecurityAnalyzer.checkWeakPatterns.
  match goal with
  | |- context [fold_left ?f ?l (w, i)] =>
      rewrite (@fold_left_pair _ _ _ f l); [destruct (fold_left f l ([], [])) as [w0 i0]|]
  end.
  - simpl. destruct (_ && _); simpl; now rewrite ?app_assoc.
  - intros a b [[pattern message] severity]. destruct (RegExp.test _ _); simpl;
      [|now rewrite !app_nil_r].
    destruct severity; simpl; now rewrite ?app_nil_r.
Qed.

Lemma checkSensitiveDataExposure_push v w :
  SecurityAnalyzer.checkSensitiveDataExposure v w
  = w ++ SecurityAnalyzer.checkSensitiveDataExposure v [].
Proof.
  unfold SecurityAnalyzer.checkSensitiveDataExposure.
  match goal with
  | |- context [fold_left ?f ?l w] =>
      assert (Hp : forall acc (p : RegExp.RegExp * str), f acc p = acc ++ f [] p)
        by (intros acc p; simpl; destruct (RegExp.test _ _); simpl; now rewrite ?app_nil_r);
      rewrite (fold_left_push (fun p => f [] p) f Hp l w),
        (fold_left_push (fun p => f [] p) f Hp l [])
  end.
  simpl. destruct (URL_new _) as [url|]; [|reflexivity].
  destruct (_ || _); now rewrite ?app_assoc.
Qed.

Lemma analyzeVariable_push rules acc v :
  SecurityAnalyzer.analyzeVariable rules acc v
  = app3 acc (SecurityAnalyzer.analyzeVariable rules ([], [], []) v).
Proof.
  unfold SecurityAnalyzer.analyzeVariable.
  rewrite checkSecurityRules_push.
  destruct (SecurityAnalyzer.checkSecurityRules rules v ([], [], [])) as [[e1 w1] i1].
  destruct acc as [[e w] i]. unfold app3 at 1, errorsOf, warningsOf, infoOf. simpl.
  rewrite (checkHardcodedSecrets_push v (e ++ e1)), (checkHardcodedSecrets_push v e1).
  destruct (SecurityAnalyzer.checkHardcodedSecrets v [] []) as [e2 w2]. simpl.
  rewrite (checkWeakPatterns_push v ((w ++ w1) ++ w2)), (checkWeakPatterns_push v (w1 ++ w2)).
  destruct (SecurityAnalyzer.checkWeakPatterns v [] []) as [w3 i3]. simpl.
  rewrite (checkSensitiveDataExposure_push v (((w ++ w1) ++ w2) ++ w3)),
    (checkSensitiveDataExposure_push v ((w1 ++ w2) ++ w3)).
  unfold app3, errorsOf, warningsOf, infoOf. simpl. now rewrite !app_assoc.
Qed.

Lemma analyze_cons rules v vars :
  SecurityAnalyzer.analyze rules (v :: vars)
  = app3 (SecurityAnalyzer.analyze rules [v]) (SecurityAnalyzer.analyze rules vars).
Proof.
  unfold SecurityAnalyzer.analyze. simpl.
  apply fold_left_app3. intros acc x _. apply analyzeVariable_push.
Qed.

Lemma analyze_flat_map rules vars :
  errorsOf (SecurityAnalyzer.analyze rules vars)
  = flat_map (fun v => errorsOf (SecurityAnalyzer.analyze rules [v])) vars
  /\ warningsOf (SecurityAnalyzer.analyze rules vars)
     = flat_map (fun v => warningsOf (SecurityAnalyzer.analyze rules [v])) vars
  /\ infoOf (SecurityAnalyzer.analyze rules vars)
     = flat_map (fun v => infoOf (SecurityAnalyzer.analyze rules [v])) vars.
Proof.
  induction vars as [|v vars (IHe & IHw & IHi)]; [repeat split|].
  rewrite analyze_cons. unfold app3. cbn [errorsOf warningsOf infoOf fst snd flat_map].
  fold (errorsOf (SecurityAnalyzer.analyze rules vars)).
  fold (warningsOf (SecurityAnalyzer.analyze rules vars)).
  fold (infoOf (SecurityAnalyzer.analyze rules vars)).
  now rewrite IHe, IHw, IHi.
Qed.


Lemma fold_left_invariant {A B} (P : A -> Prop) (f : A -> B -> A) l :
  (forall a x, P a -> P (f a x)) -> forall a, P a -> P (fold_left f l a).
Proof.
  intro Hf. induction l as [|x l IH]; intros a Ha; simpl; [exact Ha|].
  apply IH, Hf, Ha.
Qed.

(** The findings of one variable, check by check. *)
Lemma analyzeVariable_parts rules v :
  let f := SecurityAnalyzer.analyze rules [v] in
  let byRule := SecurityAnalyzer.checkSecurityRules rules v ([], [], []) in
  let secrets := SecurityAnalyzer.checkHardcodedSecrets v [] [] in
  let weak := SecurityAnalyzer.checkWeakPatterns v [] [] in
  errorsOf f = errorsOf byRule ++ fst secrets
  /\ warningsOf f = warningsOf byRule ++ snd secrets ++ fst weak
                     ++ SecurityAnalyzer.checkSensitiveDataExposure v []
  /\ infoOf f = infoOf byRule ++ snd weak.
Proof.
  unfold SecurityAnalyzer.analyze. cbn [fold_left]. unfold SecurityAnalyzer.analyzeVariable.
  destruct (SecurityAnalyzer.checkSecurityRules rules v ([], [], [])) as [[e1 w1] i1].
  rewrite (checkHardcodedSecrets_push v e1).
  destruct (SecurityAnalyzer.checkHardcodedSecrets v [] []) as [e2 w2]. cbn [fst snd].
  rewrite (checkWeakPatterns_push v (w1 ++ w2)).
  destruct (SecurityAnalyzer.checkWeakPatterns v [] []) as [w3 i3]. cbn [fst snd].
  rewrite (checkSensitiveDataExposure_push v ((w1 ++ w2) ++ w3)).
  unfold errorsOf, warningsOf, infoOf. cbn [fst snd]. now rewrite !app_assoc.
Qed.

Lemma aboutVariable_nil v : aboutVariable v ([], [], []).
Proof. repeat split; constructor. Qed.

Lemma checkSecurityRules_about rules v :
  aboutVariable v (SecurityAnalyzer.checkSecurityRules rules v ([], [], [])).
Proof.
  unfold SecurityAnalyzer.checkSecurityRules.
  apply fold_left_invariant; [|apply aboutVariable_nil].
  intros [[e w] i] rule (He & Hw & Hi). unfold aboutVariable, errorsOf, warningsOf, infoOf in *.
  cbn [fst snd] in *.
  destruct (RegExp.test _ _); [|now repeat split].
  destruct (sr_severity rule); cbn [fst snd]; repeat split; try assumption;
    apply Forall_app; (split; [assumption|]); constructor; try constructor;
    repeat split; auto.
Qed.

Lemma checkHardcodedSecrets_about v :
  Forall (fun e => e_type e = E_security_risk /\ errorAbout v e)
         (fst (SecurityAnalyzer.checkHardcodedSecrets v [] []))
  /\ Forall (fun w => (w_type w = W_security_risk \/ w_type w = W_weak_pattern)
                      /\ warningAbout v w)
            (snd (SecurityAnalyzer.checkHardcodedSecrets v [] [])).
Proof.
  unfold SecurityAnalyzer.checkHardcodedSecrets.
  destruct (existsb _ SecurityAnalyzer.sensitiveKeys); [|split; constructor].
  destruct (find _ _), (SecurityAnalyzer.isWeakSecret _); cbn [fst snd app]; split;
    repeat first [apply Forall_nil | apply Forall_cons; [repeat split; auto|]].
Qed.

Lemma checkWeakPatterns_about v :
  Forall (fun w => (w_type w = W_security_risk \/ w_type w = W_weak_pattern)
                   /\ warningAbout v w)
         (fst (SecurityAnalyzer.checkWeakPatterns v [] []))
  /\ Forall (fun i => i_type i = I_info /\ infoAbout v i)
            (snd (SecurityAnalyzer.checkWeakPatterns v [] [])).
Proof.
  unfold SecurityAnalyzer.checkWeakPatterns.
  match goal with
  | |- context [fold_left ?f ?l ([], [])] =>
      assert (Hf : Forall (fun w => (w_type w = W_security_risk \/ w_type w = W_weak_pattern)
                                    /\ warningAbout v w) (fst (fold_left f l ([], [])))
                   /\ Forall (fun i => i_type i = I_info /\ infoAbout v i)
                             (snd (fold_left f l ([], []))));
      [|destruct (fold_left f l ([], [])) as [w0 i0]]
  end.
  - apply fold_left_invariant; [|split; constructor].
    intros [w i] [[pattern message] severity] [Hw Hi]. cbn [fst snd] in *.
    destruct (RegExp.test _ _); [|now split].
    destruct severity; cbn [fst snd]; split; try assumption;
      apply Forall_app; (split; [assumption|]); (constructor; [|constructor]); repeat split; auto.
  - cbn [fst snd] in Hf. destruct Hf as [Hw Hi].
    destruct (_ && _); cbn [fst snd]; split; try assumption.
    apply Forall_app; split; [assumption|]. (constructor; [|constructor]); repeat split; auto.
Qed.

Lemma checkSensitiveDataExposure_about v :
  Forall (fun w => (w_type w = W_security_risk \/ w_type w = W_weak_pattern)
                   /\ warningAbout v w)
         (SecurityAnalyzer.checkSensitiveDataExposure v []).
Proof.
  unfold SecurityAnalyzer.checkSensitiveDataExposure.
  match goal with
  | |- context [fold_left ?f ?l []] =>
      assert (Hf : Forall (fun w => (w_type w = W_security_risk \/ w_type w = W_weak_pattern)
                                    /\ warningAbout v w) (fold_left f l []))
  end.
  - apply fold_left_invariant; [|constructor].
    intros w p Hw. destruct (RegExp.test _ _); [|assumption].
    apply Forall_app; split; [assumption|]. (constructor; [|constructor]); repeat split; auto.
  - cbv zeta. destruct (URL_new _) as [url|]; [|assumption].
    destruct (_ || _); [|assumption].
    apply Forall_app; split; [assumption|]. (constructor; [|constructor]); repeat split; auto.
Qed.

Lemma analyze_one_about rules v : aboutVariable v (SecurityAnalyzer.analyze rules [v]).
Proof.
  destruct (analyzeVariable_parts rules v) as (Ee & Ew & Ei).
  destruct (checkSecurityRules_about rules v) as (He & Hw & Hi).
  destruct (checkHardcodedSecrets_about v) as (He2 & Hw2).
  destruct (checkWeakPatterns_about v) as (Hw3 & Hi3).
  pose proof (checkSensitiveDataExposure_about v) as Hw4.
  unfold aboutVariable. rewrite Ee, Ew, Ei.
  repeat split; repeat (apply Forall_app; split); assumption.
Qed.


Lemma fold_left_app3_flat {X} (f : SecurityAnalyzer.Findings -> X -> SecurityAnalyzer.Findings) l :
  (forall acc x, f acc x = app3 acc (f ([], [], []) x)) ->
  forall acc,
    errorsOf (fold_left f l acc)
    = errorsOf acc ++ flat_map (fun x => errorsOf (f ([], [], []) x)) l
    /\ warningsOf (fold_left f l acc)
       = warningsOf acc ++ flat_map (fun x => warningsOf (f ([], [], []) x)) l
    /\ infoOf (fold_left f l acc)
       = infoOf acc ++ flat_map (fun x => infoOf (f ([], [], []) x)) l.
Proof.
  intro Hf. induction l as [|x l IH]; intro acc; cbn [fold_left flat_map].
  - now rewrite !app_nil_r.
  - destruct (IH (f acc x)) as (Ee & Ew & Ei). rewrite Ee, Ew, Ei, (Hf acc x).
    unfold app3, errorsOf, warningsOf, infoOf. cbn [fst snd]. now rewrite !app_assoc.
Qed.

(** The turn of [checkSecurityRules] for one rule, from nothing. *)
Lemma checkSecurityRules_flat rules v :
  exists turn : SecurityRule -> SecurityAnalyzer.Findings,
    (forall rule,
        turn rule
        = if RegExp.test (sr_pattern rule) (key v ++ "=" ++ value v) then
            match sr_severity rule with
            | SevError =>
                ([mkError E_security_risk (key v) (sr_description rule)
                    (Some (lineNumber v)) (sr_suggestion rule)], [], [])
            | SevWarning =>
                ([], [mkWarning W_security_risk (key v) (sr_description rule)
                        (Some (lineNumber v)) (sr_suggestion rule)], [])
            | SevInfo =>
                ([], [], [mkInfo I_info (Some (key v)) (sr_description rule)
                            (Some (lineNumber v))])
            end
          else ([], [], []))
    /\ errorsOf (SecurityAnalyzer.checkSecurityRules rules v ([], [], []))
       = flat_map (fun rule => errorsOf (turn rule)) (SecurityAnalyzer.securityRules rules)
    /\ warningsOf (SecurityAnalyzer.checkSecurityRules rules v ([], [], []))
       = flat_map (fun rule => warningsOf (turn rule)) (SecurityAnalyzer.securityRules rules)
    /\ infoOf (SecurityAnalyzer.checkSecurityRules rules v ([], [], []))
       = flat_map (fun rule => infoOf (turn rule)) (SecurityAnalyzer.securityRules rules).
Proof.
  unfold SecurityAnalyzer.checkSecurityRules.
  match goal with
  | |- context [fold_left ?f ?l ([], [], [])] =>
      exists (fun rule => f ([], [], []) rule);
      destruct (@fold_left_app3_flat _ f l) with (acc := ([], [], []) : SecurityAnalyzer.Findings)
        as (Ee & Ew & Ei)
  end.
  - intros [[e w] i] rule. destruct (RegExp.test _ _); [|now rewrite app3_nil_r].
    destruct (sr_severity rule); unfold app3, errorsOf, warningsOf, infoOf; simpl;
      now rewrite ?app_nil_r.
  - split; [|now rewrite Ee, Ew, Ei].
    intro rule. cbv beta. destruct (RegExp.test _ _); [|reflexivity].
    now destruct (sr_severity rule).
Qed.

End Analysis.

(** X1.  With the built-in rules alone, the analysis keeps no state from
    one variable to the next: the errors, warnings and notes of [analyze]
    on a list are those of [analyze] on each variable alone, in the order
    of the list; so the findings on two lists put end to end are the
    findings on the first followed by those on the second.  (The patterns
    of the analyzer have no flag but [i].  A custom rule brings a pattern
    object of the caller, which with the flag [g] or [y] remembers where
    its last match ended; the statement is not about such rules.) *)
Theorem analysis_is_per_variable `{Host} vars :
  errorsOf (SecurityAnalyzer.analyze [] vars)
  = flat_map (fun v => errorsOf (SecurityAnalyzer.analyze [] [v])) vars
  /\ warningsOf (SecurityAnalyzer.analyze [] vars)
     = flat_map (fun v => warningsOf (SecurityAnalyzer.analyze [] [v])) vars
  /\ infoOf (SecurityAnalyzer.analyze [] vars)
     = flat_map (fun v => infoOf (SecurityAnalyzer.analyze [] [v])) vars
  /\ forall more,
       SecurityAnalyzer.analyze [] (vars ++ more)
       = app3 (SecurityAnalyzer.analyze [] vars) (SecurityAnalyzer.analyze [] more).
Proof.
  destruct (analyze_flat_map [] vars) as (Ee & Ew & Ei).
  split; [exact Ee|]. split; [exact Ew|]. split; [exact Ei|].
  clear. intro more. induction vars as [|v vars IH].
  - cbn [app]. symmetry. apply app3_nil_l.
  - cbn [app]. rewrite (analyze_cons [] v (vars ++ more)), (analyze_cons [] v vars), IH.
    symmetry. apply app3_assoc.
Qed.

(** X2.  Every finding of the analysis names a variable of the input and
    the line of that variable.  Its errors all have the type security_risk,
    its warnings the type security_risk or weak_pattern, its notes the type
    info. *)
Theorem analysis_findings_name_a_variable `{Host} rules vars :
  (forall e, In e (errorsOf (SecurityAnalyzer.analyze rules vars)) ->
     e_type e = E_security_risk /\ exists v, In v vars /\ errorAbout v e)
  /\ (forall w, In w (warningsOf (SecurityAnalyzer.analyze rules vars)) ->
        (w_type w = W_security_risk \/ w_type w = W_weak_pattern)
        /\ exists v, In v vars /\ warningAbout v w)
  /\ (forall i, In i (infoOf (SecurityAnalyzer.analyze rules vars)) ->
        i_type i = I_info /\ exists v, In v vars /\ infoAbout v i).
Proof.
  destruct (analyze_flat_map rules vars) as (Ee & Ew & Ei). rewrite Ee, Ew, Ei.
  split; [|split]; intros x Hx; apply in_flat_map in Hx; destruct Hx as (v & Hv & Hx);
    destruct (analyze_one_about rules v) as (He & Hw & Hi);
    rewrite Forall_forall in He, Hw, Hi.
  - split; [apply (He x Hx)|]. exists v. split; [exact Hv|apply (He x Hx)].
  - split; [apply (Hw x Hx)|]. exists v. split; [exact Hv|apply (Hw x Hx)].
  - split; [apply (Hi x Hx)|]. exists v. split; [exact Hv|apply (Hi x Hx)].
Qed.

Section CustomRules.
Context `{Host}.
Import JS.

Lemma incl_flat_map {A B} (f g : A -> list B) l :
  (forall x, In x l -> incl (f x) (g x)) -> incl (flat_map f l) (flat_map g l).
Proof.
  intros Hfg y Hy. apply in_flat_map in Hy. destruct Hy as (x & Hx & Hy).
  apply in_flat_map. exists x. split; [exact Hx|]. now apply (Hfg x Hx).
Qed.

Lemma checkSecurityRules_incl custom v :
  incl (errorsOf (SecurityAnalyzer.checkSecurityRules [] v ([], [], [])))
       (errorsOf (SecurityAnalyzer.checkSecurityRules custom v ([], [], [])))
  /\ incl (warningsOf (SecurityAnalyzer.checkSecurityRules [] v ([], [], [])))
          (warningsOf (SecurityAnalyzer.checkSecurityRules custom v ([], [], [])))
  /\ incl (infoOf (SecurityAnalyzer.checkSecurityRules [] v ([], [], [])))
          (infoOf (SecurityAnalyzer.checkSecurityRules custom v ([], [], []))).
Proof.
  destruct (checkSecurityRules_flat [] v) as (t0 & E0 & Ee0 & Ew0 & Ei0).
  destruct (checkSecurityRules_flat custom v) as (t1 & E1 & Ee1 & Ew1 & Ei1).
  rewrite Ee0, Ew0, Ei0, Ee1, Ew1, Ei1. unfold SecurityAnalyzer.securityRules.
  rewrite app_nil_r, !flat_map_app.
  assert (Et : forall rule, t0 rule = t1 rule) by (intro rule; now rewrite E0, E1).
  assert (Fe : forall X (g : SecurityAnalyzer.Findings -> list X) l,
             flat_map (fun rule => g (t0 rule)) l = flat_map (fun rule => g (t1 rule)) l)
    by (intros; apply flat_map_ext; intro; now rewrite Et).
  rewrite (Fe _ errorsOf), (Fe _ warningsOf), (Fe _ infoOf).
  repeat split; intros x Hx; apply in_or_app; now left.
Qed.

Lemma analyze_one_incl custom v :
  incl (errorsOf (SecurityAnalyzer.analyze [] [v])) (errorsOf (SecurityAnalyzer.analyze custom [v]))
  /\ incl (warningsOf (SecurityAnalyzer.analyze [] [v]))
          (warningsOf (SecurityAnalyzer.analyze custom [v]))
  /\ incl (infoOf (SecurityAnalyzer.analyze [] [v])) (infoOf (SecurityAnalyzer.analyze custom [v])).
Proof.
  destruct (analyzeVariable_parts [] v) as (Ee0 & Ew0 & Ei0).
  destruct (analyzeVariable_parts custom v) as (Ee1 & Ew1 & Ei1).
  destruct (checkSecurityRules_incl custom v) as (Ie & Iw & Ii).
  rewrite Ee0, Ew0, Ei0, Ee1, Ew1, Ei1.
  repeat split; apply incl_app_app; auto using incl_refl.
Qed.

(** What the custom rules add for one variable: reports of custom rules,
    each in the list of the rule's severity, with the rule's description
    and suggestion. *)
Lemma analyze_one_added custom v :
  (forall e, In e (errorsOf (SecurityAnalyzer.analyze custom [v])) ->
     In e (errorsOf (SecurityAnalyzer.analyze [] [v]))
     \/ exists rule,
          In rule custom /\ sr_severity rule = SevError
          /\ e = mkError E_security_risk (key v) (sr_description rule) (Some (lineNumber v))
                   (sr_suggestion rule))
  /\ (forall w, In w (warningsOf (SecurityAnalyzer.analyze custom [v])) ->
        In w (warningsOf (SecurityAnalyzer.analyze [] [v]))
        \/ exists rule,
             In rule custom /\ sr_severity rule = SevWarning
             /\ w = mkWarning W_security_risk (key v) (sr_description rule)
                      (Some (lineNumber v)) (sr_suggestion rule))
  /\ (forall i, In i (infoOf (SecurityAnalyzer.analyze custom [v])) ->
        In i (infoOf (SecurityAnalyzer.analyze [] [v]))
        \/ exists rule,
             In rule custom /\ sr_severity rule = SevInfo
             /\ i = mkInfo I_info (Some (key v)) (sr_description rule) (Some (lineNumber v))).
Proof.
  destruct (analyzeVariable_parts [] v) as (Ee0 & Ew0 & Ei0).
  destruct (analyzeVariable_parts custom v) as (Ee1 & Ew1 & Ei1).
  destruct (checkSecurityRules_flat [] v) as (t0 & E0 & Fe0 & Fw0 & Fi0).
  destruct (checkSecurityRules_flat custom v) as (t1 & E1 & Fe1 & Fw1 & Fi1).
  rewrite Ee0, Ew0, Ei0, Ee1, Ew1, Ei1, Fe0, Fw0, Fi0, Fe1, Fw1, Fi1.
  unfold SecurityAnalyzer.securityRules. rewrite app_nil_r, !flat_map_app.
  assert (Et : forall rule, t0 rule = t1 rule) by (intro rule; now rewrite E0, E1).
  assert (Fe : forall X (g : SecurityAnalyzer.Findings -> list X) l,
             flat_map (fun rule => g (t0 rule)) l = flat_map (fun rule => g (t1 rule)) l)
    by (intros; apply flat_map_ext; intro; now rewrite Et).
  rewrite (Fe _ errorsOf), (Fe _ warningsOf), (Fe _ infoOf).
  split; [|split].
  - intros e He. rewrite <- app_assoc in He. apply in_app_or in He as [He|He];
      [left; apply in_or_app; now left|].
    apply in_app_or in He as [He|He]; [right|left; apply in_or_app; now right].
    apply in_flat_map in He as (rule & Hr & He). exists rule. rewrite E1 in He.
    destruct (RegExp.test _ _); [|destruct He].
    destruct (sr_severity rule); cbn in He; now destruct He.
  - intros w Hw. rewrite <- app_assoc in Hw. apply in_app_or in Hw as [Hw|Hw];
      [left; apply in_or_app; now left|].
    apply in_app_or in Hw as [Hw|Hw]; [right|left; apply in_or_app; now right].
    apply in_flat_map in Hw as (rule & Hr & Hw). exists rule. rewrite E1 in Hw.
    destruct (RegExp.test _ _); [|destruct Hw].
    destruct (sr_severity rule); cbn in Hw; now destruct Hw.
  - intros i Hi. rewrite <- app_assoc in Hi. apply in_app_or in Hi as [Hi|Hi];
      [left; apply in_or_app; now left|].
    apply in_app_or in Hi as [Hi|Hi]; [right|left; apply in_or_app; now right].
    apply in_flat_map in Hi as (rule & Hr & Hi). exists rule. rewrite E1 in Hi.
    destruct (RegExp.test _ _); [|destruct Hi].
    destruct (sr_severity rule); cbn in Hi; now destruct Hi.
Qed.

End CustomRules.

(** X3.  Custom security rules only add findings, and only their own.
    What the analysis reports without custom rules (the five built-in
    rules and the other checks) it also reports with them: the built-in
    rules cannot be switched off.  Every finding beyond those is the
    report of a custom rule: it is in the list of the rule's severity,
    names a variable of the input and its line, and carries the rule's
    description as message and the rule's suggestion. *)
Theorem custom_rules_only_add `{Host} custom vars :
  incl (errorsOf (SecurityAnalyzer.analyze [] vars))
       (errorsOf (SecurityAnalyzer.analyze custom vars))
  /\ incl (warningsOf (SecurityAnalyzer.analyze [] vars))
          (warningsOf (SecurityAnalyzer.analyze custom vars))
  /\ incl (infoOf (SecurityAnalyzer.analyze [] vars))
          (infoOf (SecurityAnalyzer.analyze custom vars))
  /\ (forall e, In e (errorsOf (SecurityAnalyzer.analyze custom vars)) ->
        In e (errorsOf (SecurityAnalyzer.analyze [] vars))
        \/ exists rule v,
             In rule custom /\ In v vars /\ sr_severity rule = SevError
             /\ e = mkError E_security_risk (key v) (sr_description rule)
                      (Some (lineNumber v)) (sr_suggestion rule))
  /\ (forall w, In w (warningsOf (SecurityAnalyzer.analyze custom vars)) ->
        In w (warningsOf (SecurityAnalyzer.analyze [] vars))
        \/ exists rule v,
             In rule custom /\ In v vars /\ sr_severity rule = SevWarning
             /\ w = mkWarning W_security_risk (key v) (sr_description rule)
                      (Some (lineNumber v)) (sr_suggestion rule))
  /\ (forall i, In i (infoOf (SecurityAnalyzer.analyze custom vars)) ->
        In i (infoOf (SecurityAnalyzer.analyze [] vars))
        \/ exists rule v,
             In rule custom /\ In v vars /\ sr_severity rule = SevInfo
             /\ i = mkInfo I_info (Some (key v)) (sr_description rule)
                      (Some (lineNumber v))).
Proof.
  destruct (analyze_flat_map [] vars) as (Ee0 & Ew0 & Ei0).
  destruct (analyze_flat_map custom vars) as (Ee1 & Ew1 & Ei1).
  rewrite Ee0, Ew0, Ei0, Ee1, Ew1, Ei1.
  split; [|split; [|split; [|split; [|split]]]];
    try (apply incl_flat_map; intros v _; apply (analyze_one_incl custom v)).
  - intros e He. apply in_flat_map in He as (v & Hv & He).
    destruct (proj1 (analyze_one_added custom v) e He) as [H0|(rule & Hr & Hs & ->)].
    + left. apply in_flat_map. now exists v.
    + right. now exists rule, v.
  - intros w Hw. apply in_flat_map in Hw as (v & Hv & Hw).
    destruct (proj1 (proj2 (analyze_one_added custom v)) w Hw) as [H0|(rule & Hr & Hs & ->)].
    + left. apply in_flat_map. now exists v.
    + right. now exists rule, v.
  - intros i Hi. apply in_flat_map in Hi as (v & Hv & Hi).
    destruct (proj2 (proj2 (analyze_one_added custom v)) i Hi) as [H0|(rule & Hr & Hs & ->)].
    + left. apply in_flat_map. now exists v.
    + right. now exists rule, v.
Qed.

(** The built-in finding on [DB_PASSWORD=admin] stays with a custom rule
    beside. *)
Lemma custom_rules_only_add_witness :
  incl (errorsOf (SecurityAnalyzer.analyze (H:=Sample.host) []
                    [Sample.var "DB_PASSWORD" "admin" 1]))
       (errorsOf (SecurityAnalyzer.analyze (H:=Sample.host)
                    [mkSecurityRule "no-debug" "No debug flags"
                       (RegExp.re (RegExp.lit "DEBUG=")) SevError None]
                    [Sample.var "DB_PASSWORD" "admin" 1])).
Proof.
  exact (proj1 (@custom_rules_only_add Sample.host
           [mkSecurityRule "no-debug" "No debug flags"
              (RegExp.re (RegExp.lit "DEBUG=")) SevError None]
           [Sample.var "DB_PASSWORD" "admin" 1])).
Defined.

(* ================================================================== *)
(** ** The orchestrator: failures, the default mode, the security merge *)
(* ================================================================== *)

Section Orchestrator.
Context `{Host}.
Import JS.

Lemma short_secret_reported rules vars v :
  In v vars -> hasSensitiveKey v = true -> length (value v) < 8 ->
  In (SecurityAnalyzer.weakSecretError v) (errorsOf (SecurityAnalyzer.analyze rules vars)).
Proof.
  intros Hv Hk Hl. destruct (analyze_flat_map rules vars) as (Ee & _). rewrite Ee.
  apply in_flat_map. exists v. split; [exact Hv|].
  destruct (analyzeVariable_parts rules v) as (E1 & _). rewrite E1.
  apply in_or_app. right. unfold SecurityAnalyzer.checkHardcodedSecrets.
  unfold hasSensitiveKey in Hk. rewrite Hk.
  assert (Ew : SecurityAnalyzer.isWeakSecret (value v) = true).
  { unfold SecurityAnalyzer.isWeakSecret. apply orb_true_iff. right. now apply Nat.ltb_lt. }
  rewrite Ew. cbn [fst]. now left.
Qed.

Lemma length_eqb_0_In {A} (x : A) l : In x l -> (length l =? 0) = false.
Proof. destruct l; [intros []|reflexivity]. Qed.

(** A run whose file is read and in which the analysis finds an error,
    whatever the rules, ends in a result that is not valid. *)
Lemma security_error_invalid cfg content e t :
  readFileSync (envFileOf cfg) = Ok content ->
  (forall rules,
      In e (errorsOf (SecurityAnalyzer.analyze rules
                        (variables (EnvParser.parseContent content))))) ->
  exists r t', EnvGuardValidator.validate cfg t = (Ok r, t') /\ isValid r = false.
Proof.
  intros Hread Hsec.
  unfold EnvGuardValidator.validate, EnvGuardValidator.validateBody, EnvParser.parseFile.
  unfold envFileOf in Hread. run_m. rewrite Hread.
  destruct (0 <? length (parseErrors (EnvParser.parseContent content)));
    [eexists _, _; split; reflexivity|].
  destruct (EnvGuardValidator.determineValidationMode cfg) as [mode cfg'].
  match goal with
  | |- context [match mode with ModeSchema => ?a | ModeExample => ?b | ModeBoth => ?c end ?t0] =>
      destruct (match mode with ModeSchema => a | ModeExample => b | ModeBoth => c end t0)
        as [[r0|msg] t1]
  end; [|eexists _, _; split; reflexivity].
  unfold EnvGuardValidator.performSecurityAnalysis.
  pose proof (Hsec (orElseList (cfg_securityRules cfg'))) as Hin.
  destruct (SecurityAnalyzer.analyze _ _) as [[se sw] si].
  eexists _, _. split; [reflexivity|]. cbn [isValid].
  apply length_eqb_0_In with (x := e). apply in_or_app. now right.
Qed.

End Orchestrator.

(** X4.  A variable whose key holds one of the sensitive words (in any
    letter case) and whose value has fewer than eight characters, the empty
    value included, is reported by the analysis as a weak or default secret,
    an error.  A run of the orchestrator on a file with such a variable
    ends in a result that is not valid, in every mode. *)
Theorem short_secret_fails_the_run `{Host} :
  (forall rules vars v,
      In v vars -> hasSensitiveKey v = true -> length (value v) < 8 ->
      In (SecurityAnalyzer.weakSecretError v) (errorsOf (SecurityAnalyzer.analyze rules vars)))
  /\ (forall cfg content v t,
         readFileSync (envFileOf cfg) = Ok content ->
         In v (variables (EnvParser.parseContent content)) ->
         hasSensitiveKey v = true -> length (value v) < 8 ->
         exists r t', EnvGuardValidator.validate cfg t = (Ok r, t') /\ isValid r = false).
Proof.
  split; [intros; now apply short_secret_reported|].
  intros cfg content v t Hread Hv Hk Hl.
  apply security_error_invalid with (content := content)
                                    (e := SecurityAnalyzer.weakSecretError v);
    [exact Hread|].
  intro rules. now apply short_secret_reported.
Qed.

(** The sample file [good.env] holds [API_KEY=admin]. *)
Lemma short_secret_fails_the_run_witness :
  exists r t',
    EnvGuardValidator.validate (H:=Sample.host) Sample.goodConfig 0 = (Ok r, t')
    /\ isValid r = false.
Proof.
  apply (proj2 (@short_secret_fails_the_run Sample.host) Sample.goodConfig Sample.goodText
           (Sample.var "API_KEY" "admin" 2) 0 eq_refl).
  - vm_compute. right. left. reflexivity.
  - vm_compute. reflexivity.
  - vm_compute. lia.
Defined.

(** X5.  When the file of variables cannot be read, the run does not throw:
    it returns a result that is not valid and holds one error, of type
    invalid_format, with no variable, line 0 and the message of the failed
    read after two prefixes; the clock has been read twice. *)
Theorem unreadable_file_is_one_error `{Host} cfg message t :
  readFileSync (envFileOf cfg) = Throw message ->
  EnvGuardValidator.validate cfg t
  = (Ok (failureResult ("Validation failed: Failed to read file " ++ envFileOf cfg ++ ": "
                          ++ message)
                       (Date_now (S t) - Date_now t)), S (S t)).
Proof.
  intro Hread.
  unfold EnvGuardValidator.validate, EnvGuardValidator.validateBody, EnvParser.parseFile.
  unfold envFileOf in *. run_m. rewrite Hread. reflexivity.
Qed.

Lemma unreadable_file_is_one_error_witness :
  EnvGuardValidator.validate (H:=Sample.host)
    (mkConfig None None (Some ("prod.env" : str)) None None None None None None None) 0
  = (Ok (failureResult
           "Validation failed: Failed to read file prod.env: ENOENT: no such file or directory"
           1), 2).
Proof.
  exact (@unreadable_file_is_one_error Sample.host
           (mkConfig None None (Some ("prod.env" : str)) None None None None None None None)
           "ENOENT: no such file or directory" 0 eq_refl).
Defined.

Section Modes.
Context `{Host}.
Import JS.

(** The run from the point where the file has been read and holds no parse
    error. *)
Lemma validate_clean cfg content t :
  readFileSync (envFileOf cfg) = Ok content ->
  parseErrors (EnvParser.parseContent content) = [] ->
  EnvGuardValidator.validate cfg t
  = try_catch
      (let '(mode, config) := EnvGuardValidator.determineValidationMode cfg in
       result <- match mode with
                 | ModeSchema =>
                     EnvGuardValidator.validateWithSchema config
                       (variables (EnvParser.parseContent content))
                 | ModeExample =>
                     EnvGuardValidator.validateWithExample config
                       (variables (EnvParser.parseContent content))
                 | ModeBoth =>
                     EnvGuardValidator.validateWithBoth config
                       (variables (EnvParser.parseContent content))
                 end ;;
       let '(securityErrors, securityWarnings, securityInfo) :=
         EnvGuardValidator.performSecurityAnalysis config
           (variables (EnvParser.parseContent content)) in
       endTime <- now ;;
       ret (mkResult (length (errors result ++ securityErrors) =? 0)
              (errors result ++ securityErrors) (warnings result ++ securityWarnings)
              (info result ++ securityInfo)
              (mkSummary (totalVariables (summary result)) (requiredVariables (summary result))
                 (missingVariables (summary result)) (unusedVariables (summary result))
                 (length securityErrors) (endTime - Date_now t)%Z)))
      (fun message =>
         EnvGuardValidator.createErrorResult
           [mkParseError 0 ("Validation failed: " ++ message) []] (Date_now t))
      (S t).
Proof.
  intros Hread Hclean.
  unfold EnvGuardValidator.validate, EnvGuardValidator.validateBody, EnvParser.parseFile.
  unfold envFileOf in Hread. run_m. rewrite Hread, Hclean. reflexivity.
Qed.

Lemma default_mode cfg :
  truthyOpt (cfg_schemaFile cfg) = false -> truthyOpt (cfg_exampleFile cfg) = false ->
  EnvGuardValidator.determineValidationMode cfg = (ModeExample, withExampleFile cfg ".env.example")
  /\ EnvGuardValidator.determineValidationMode (withExampleFile cfg ".env.example")
     = (ModeExample, withExampleFile cfg ".env.example").
Proof.
  intros Hs He. unfold EnvGuardValidator.determineValidationMode.
  cbn [withExampleFile cfg_schemaFile cfg_exampleFile]. rewrite Hs, He. now split.
Qed.

End Modes.

(** X6.  A configuration that names neither a schema file nor an example
    file (each absent or the empty string) is run as if its example file
    were [.env.example]: the two runs give the same result. *)
Theorem no_file_means_env_example `{Host} cfg t :
  JS.truthyOpt (cfg_schemaFile cfg) = false ->
  JS.truthyOpt (cfg_exampleFile cfg) = false ->
  EnvGuardValidator.validate cfg t
  = EnvGuardValidator.validate (withExampleFile cfg ".env.example") t.
Proof.
  intros Hs He. destruct (default_mode cfg Hs He) as [E1 E2].
  unfold EnvGuardValidator.validate, EnvGuardValidator.validateBody.
  rewrite E1, E2. reflexivity.
Qed.

Lemma no_file_means_env_example_witness :
  EnvGuardValidator.validate (H:=Sample.host) Sample.goodConfig 0
  = EnvGuardValidator.validate (H:=Sample.host)
      (withExampleFile Sample.goodConfig ".env.example") 0.
Proof.
  exact (@no_file_means_env_example Sample.host Sample.goodConfig 0 eq_refl eq_refl).
Defined.

Section Dedup.
Import JS.
Context {A : Type} (keyOf : A -> str).

Lemma dedup_In seen items x :
  In x (EnvGuardValidator.dedup keyOf seen items) <->
  exists pre post,
    items = pre ++ x :: post /\ ~ In (keyOf x) seen
    /\ forall y, In y pre -> keyOf y <> keyOf x.
Proof.
  revert seen. induction items as [|a items IH]; intro seen; cbn [EnvGuardValidator.dedup].
  - split; [intros []|]. intros (pre & post & E & _). now destruct pre.
  - destruct (set_has seen (keyOf a)) eqn:Es.
    + apply set_has_In in Es. rewrite IH. split.
      * intros (pre & post & -> & Hs & Hp). exists (a :: pre), post.
        split; [reflexivity|]. split; [exact Hs|].
        intros y [<-|Hy]; [congruence|now apply Hp].
      * intros (pre & post & E & Hs & Hp). destruct pre as [|b pre]; simpl in E.
        -- injection E as -> ->. contradiction.
        -- injection E as <- ->. exists pre, post. split; [reflexivity|].
           split; [exact Hs|]. intros y Hy. apply Hp. now right.
    + assert (Hn : ~ In (keyOf a) seen).
      { intro Hin. apply set_has_In in Hin. congruence. }
      cbn [In]. rewrite IH. split.
      * intros [<-|(pre & post & -> & Hs & Hp)].
        -- exists [], items. split; [reflexivity|]. split; [exact Hn|]. intros y [].
        -- exists (a :: pre), post. split; [reflexivity|].
           split; [intro Hin; apply Hs; now right|].
           intros y [<-|Hy]; [|now apply Hp]. intro E. apply Hs. left. exact E.
      * intros (pre & post & E & Hs & Hp). destruct pre as [|b pre]; simpl in E.
        -- injection E as -> ->. now left.
        -- injection E as <- ->. right. exists pre, post. split; [reflexivity|].
           split.
           ++ intros [E|Hin]; [|contradiction]. apply (Hp a (or_introl eq_refl)). exact E.
           ++ intros y Hy. apply Hp. now right.
Qed.

Lemma dedup_NoDup seen items : NoDup (map keyOf (EnvGuardValidator.dedup keyOf seen items)).
Proof.
  revert seen. induction items as [|a items IH]; intro seen; cbn [EnvGuardValidator.dedup].
  - constructor.
  - destruct (set_has seen (keyOf a)); [apply IH|].
    cbn [map]. constructor; [|apply IH].
    intro Hin. apply in_map_iff in Hin. destruct Hin as (y & Ey & Hy).
    apply dedup_In in Hy. destruct Hy as (_ & _ & _ & Hs & _). apply Hs. left. now symmetry.
Qed.

Lemma dedup_fixed seen items :
  NoDup (map keyOf items) -> (forall x, In x items -> ~ In (keyOf x) seen) ->
  EnvGuardValidator.dedup keyOf seen items = items.
Proof.
  revert seen. induction items as [|a items IH]; intros seen Hnd Hs; cbn [EnvGuardValidator.dedup];
    [reflexivity|].
  destruct (set_has seen (keyOf a)) eqn:Es.
  - apply set_has_In in Es. exfalso. apply (Hs a (or_introl eq_refl)). exact Es.
  - cbn [map] in Hnd. inversion Hnd as [|k ks Hk Hks]; subst. f_equal. apply IH; [exact Hks|].
    intros x Hx [E|Hin].
    + apply Hk. rewrite E. now apply in_map.
    + apply (Hs x (or_intror Hx)). exact Hin.
Qed.

Lemma dedup_keeps_keys items x :
  In x items -> exists y, In y (EnvGuardValidator.dedup keyOf [] items) /\ keyOf y = keyOf x.
Proof.
  revert x. induction items as [|a items IH] using rev_ind; intro x; [intros []|].
  intro Hx. apply in_app_or in Hx.
  assert (Hmono : forall y, In y (EnvGuardValidator.dedup keyOf [] items) ->
                            In y (EnvGuardValidator.dedup keyOf [] (items ++ [a]))).
  { intros y Hy. apply dedup_In in Hy. destruct Hy as (pre & post & -> & Hs & Hp).
    apply dedup_In. exists pre, (post ++ [a]). rewrite <- app_assoc. now repeat split. }
  destruct Hx as [Hx|[<-|[]]].
  - destruct (IH x Hx) as (y & Hy & Ey). exists y. split; [now apply Hmono|exact Ey].
  - destruct (in_dec (list_eq_dec ascii_dec) (keyOf a) (map keyOf items)) as [Hin|Hnot].
    + apply in_map_iff in Hin. destruct Hin as (z & Ez & Hz).
      destruct (IH z Hz) as (y & Hy & Ey). exists y. split; [now apply Hmono|congruence].
    + exists a. split; [|reflexivity]. apply dedup_In. exists items, [].
      split; [reflexivity|]. split; [intros []|].
      intros y Hy E. apply Hnot. rewrite <- E. now apply in_map.
Qed.

End Dedup.

Section Keys.
Import JS.

Lemma first_split (c : ascii) a : forall a' b b',
  ~ In c a -> ~ In c a' -> a ++ c :: b = a' ++ c :: b' -> a = a' /\ b = b'.
Proof.
  induction a as [|x a IH]; intros [|x' a'] b b' Ha Ha' E; simpl in E.
  - injection E as ->. now split.
  - injection E as <- _. exfalso. apply Ha'. now left.
  - injection E as -> _. exfalso. apply Ha. now left.
  - injection E as -> E. destruct (IH a' b b') as [-> ->]; [| |exact E|now split].
    + intro Hin. apply Ha. now right.
    + intro Hin. apply Ha'. now right.
Qed.

Lemma ErrorType_text_noHyphen t : noHyphen (ErrorType_text t).
Proof. destruct t; vm_compute; intuition discriminate. Qed.

Lemma WarningType_text_noHyphen t : noHyphen (WarningType_text t).
Proof. destruct t; vm_compute; intuition discriminate. Qed.

Lemma ErrorType_text_inj t1 t2 : ErrorType_text t1 = ErrorType_text t2 -> t1 = t2.
Proof. destruct t1, t2; vm_compute; intro E; try reflexivity; discriminate. Qed.

Lemma WarningType_text_inj t1 t2 : WarningType_text t1 = WarningType_text t2 -> t1 = t2.
Proof. destruct t1, t2; vm_compute; intro E; try reflexivity; discriminate. Qed.

Lemma errorKey_inj e1 e2 :
  noHyphen (e_variable e1) -> noHyphen (e_variable e2) ->
  errorKey e1 = errorKey e2 ->
  e_type e1 = e_type e2 /\ e_variable e1 = e_variable e2 /\ e_message e1 = e_message e2.
Proof.
  intros H1 H2 E. unfold errorKey in E.
  change (ErrorType_text (e_type e1) ++ "-"%char :: (e_variable e1 ++ "-"%char :: e_message e1)
          = ErrorType_text (e_type e2) ++ "-"%char :: (e_variable e2 ++ "-"%char :: e_message e2))
    in E.
  apply first_split in E; try apply ErrorType_text_noHyphen. destruct E as [Et E].
  apply first_split in E; try assumption. destruct E as [Ev Em].
  split; [now apply ErrorType_text_inj|now split].
Qed.

Lemma warningKey_inj w1 w2 :
  noHyphen (w_variable w1) -> noHyphen (w_variable w2) ->
  warningKey w1 = warningKey w2 ->
  w_type w1 = w_type w2 /\ w_variable w1 = w_variable w2 /\ w_message w1 = w_message w2.
Proof.
  intros H1 H2 E. unfold warningKey in E.
  change (WarningType_text (w_type w1) ++ "-"%char :: (w_variable w1 ++ "-"%char :: w_message w1)
          = WarningType_text (w_type w2) ++ "-"%char :: (w_variable w2 ++ "-"%char :: w_message w2))
    in E.
  apply first_split in E; try apply WarningType_text_noHyphen. destruct E as [Et E].
  apply first_split in E; try assumption. destruct E as [Ev Em].
  split; [now apply WarningType_text_inj|now split].
Qed.

End Keys.

(** X7.  The duplicate filter of the merged mode keeps the first error of
    each key (type, variable and message joined by hyphens) and drops the
    later ones, whatever their line or suggestion: the kept errors have
    distinct keys, every error of the input has its key kept, an error is
    kept exactly when no earlier one has its key, and a list without
    repeated keys comes back unchanged.  For variables without a hyphen,
    as the parser's keys are, two errors have one key exactly when they
    agree on type, variable and message. *)
Theorem deduplicateErrors_keeps_first (errors : list ValidationError) :
  NoDup (map errorKey (EnvGuardValidator.deduplicateErrors errors))
  /\ (forall e, In e errors ->
        exists e', In e' (EnvGuardValidator.deduplicateErrors errors)
                   /\ errorKey e' = errorKey e)
  /\ (forall e, In e (EnvGuardValidator.deduplicateErrors errors) <->
        exists pre post, errors = pre ++ e :: post
                         /\ forall e', In e' pre -> errorKey e' <> errorKey e)
  /\ (NoDup (map errorKey errors) -> EnvGuardValidator.deduplicateErrors errors = errors)
  /\ (forall e1 e2,
        noHyphen (e_variable e1) -> noHyphen (e_variable e2) ->
        (errorKey e1 = errorKey e2 <->
         e_type e1 = e_type e2 /\ e_variable e1 = e_variable e2
         /\ e_message e1 = e_message e2)).
Proof.
  unfold EnvGuardValidator.deduplicateErrors. fold errorKey.
  change (fun error => errorKey error) with errorKey.
  split; [apply dedup_NoDup|]. split; [apply dedup_keeps_keys|].
  split; [|split].
  - intro e. rewrite dedup_In. split.
    + intros (pre & post & E & _ & Hp). now exists pre, post.
    + intros (pre & post & E & Hp). exists pre, post. split; [exact E|].
      split; [intros []|exact Hp].
  - intro Hnd. apply dedup_fixed; [exact Hnd|]. intros x _ [].
  - intros e1 e2 H1 H2. split; [now apply errorKey_inj|].
    intros (Et & Ev & Em). unfold errorKey. now rewrite Et, Ev, Em.
Qed.

(** Two reports of one missing variable, the second with a line. *)
Lemma deduplicateErrors_keeps_first_witness :
  EnvGuardValidator.deduplicateErrors
    [mkError E_missing_required "PORT" "missing" None None;
     mkError E_invalid_format "PORT" "not a number" (Some 3) None]
  = [mkError E_missing_required "PORT" "missing" None None;
     mkError E_invalid_format "PORT" "not a number" (Some 3) None].
Proof.
  apply (proj1 (proj2 (proj2 (proj2 (deduplicateErrors_keeps_first
           [mkError E_missing_required "PORT" "missing" None None;
            mkError E_invalid_format "PORT" "not a number" (Some 3) None]))))).
  vm_compute. repeat constructor; simpl; intuition discriminate.
Defined.

Section ExampleMode.
Context `{Host}.
Import JS.

Lemma parseLine_errors acc n line :
  Forall (fun e => pe_message e = ("Invalid variable assignment format" : str)) (parseErrors acc) ->
  Forall (fun e => pe_message e = ("Invalid variable assignment format" : str))
         (parseErrors (EnvParser.parseLine acc n line)).
Proof.
  intro Hacc. unfold EnvParser.parseLine.
  destruct (str_eqb (trim line) ""); [exact Hacc|].
  destruct (startsWith (trim line) [HASH]); [exact Hacc|].
  destruct (parseVariableLine_cases line n) as [(v & -> & _)| ->]; cbn; [exact Hacc|].
  apply Forall_app. split; [exact Hacc|]. now repeat constructor.
Qed.

Lemma parseLines_errors lines : forall i acc,
  Forall (fun e => pe_message e = ("Invalid variable assignment format" : str)) (parseErrors acc) ->
  Forall (fun e => pe_message e = ("Invalid variable assignment format" : str))
         (parseErrors (EnvParser.parseLines lines i acc)).
Proof.
  induction lines as [|line lines IH]; intros i acc Hacc; simpl; [exact Hacc|].
  apply IH. now apply parseLine_errors.
Qed.

Lemma parseContent_errors content :
  Forall (fun e => pe_message e = ("Invalid variable assignment format" : str))
         (parseErrors (EnvParser.parseContent content)).
Proof. apply parseLines_errors. constructor. Qed.

Lemma example_mode cfg :
  truthyOpt (cfg_schemaFile cfg) = false ->
  exists cfg',
    EnvGuardValidator.determineValidationMode cfg = (ModeExample, cfg')
    /\ truthyOpt (cfg_exampleFile cfg') = true
    /\ tpl (cfg_exampleFile cfg') = exampleFileOf cfg
    /\ cfg_ignorePatterns cfg' = cfg_ignorePatterns cfg
    /\ cfg_securityRules cfg' = cfg_securityRules cfg.
Proof.
  intro Hs. unfold EnvGuardValidator.determineValidationMode, exampleFileOf. rewrite Hs.
  cbn [andb]. destruct (truthyOpt (cfg_exampleFile cfg)) eqn:He.
  - exists cfg. now repeat split.
  - eexists. split; [reflexivity|]. now repeat split.
Qed.

Lemma example_unreadable cfg content message t :
  truthyOpt (cfg_schemaFile cfg) = false ->
  readFileSync (envFileOf cfg) = Ok content ->
  parseErrors (EnvParser.parseContent content) = [] ->
  readFileSync (exampleFileOf cfg) = Throw message ->
  EnvGuardValidator.validate cfg t
  = (Ok (failureResult ("Validation failed: Failed to read file " ++ exampleFileOf cfg ++ ": "
                          ++ message)
                       (Date_now (S t) - Date_now t)), S (S t)).
Proof.
  intros Hs Hread Hclean Hex. rewrite (validate_clean cfg t Hread Hclean).
  destruct (example_mode cfg Hs) as (cfg' & -> & Ht & Ef & _).
  unfold EnvGuardValidator.validateWithExample, EnvParser.parseFile. rewrite Ht, Ef, Hex.
  reflexivity.
Qed.

Lemma example_malformed cfg content ex t :
  truthyOpt (cfg_schemaFile cfg) = false ->
  readFileSync (envFileOf cfg) = Ok content ->
  parseErrors (EnvParser.parseContent content) = [] ->
  readFileSync (exampleFileOf cfg) = Ok ex ->
  parseErrors (EnvParser.parseContent ex) <> [] ->
  EnvGuardValidator.validate cfg t
  = (Ok (failureResult
           "Validation failed: Failed to parse example file: Invalid variable assignment format"
           (Date_now (S t) - Date_now t)), S (S t)).
Proof.
  intros Hs Hread Hclean Hex Hbad. rewrite (validate_clean cfg t Hread Hclean).
  destruct (example_mode cfg Hs) as (cfg' & -> & Ht & Ef & _).
  unfold EnvGuardValidator.validateWithExample, EnvParser.parseFile. rewrite Ht, Ef, Hex.
  pose proof (parseContent_errors ex) as Hm.
  run_m. cbn [negb]. destruct (parseErrors (EnvParser.parseContent ex)) as [|first rest];
    [congruence|].
  inversion Hm as [|? ? Hfirst _]; subst. rewrite Hfirst. reflexivity.
Qed.

Lemma example_mode_run cfg content ex t :
  truthyOpt (cfg_schemaFile cfg) = false ->
  readFileSync (envFileOf cfg) = Ok content ->
  parseErrors (EnvParser.parseContent content) = [] ->
  readFileSync (exampleFileOf cfg) = Ok ex ->
  parseErrors (EnvParser.parseContent ex) = [] ->
  Forall compiles (orElseList (cfg_ignorePatterns cfg)) ->
  let vars := variables (EnvParser.parseContent content) in
  let found := SecurityAnalyzer.analyze (orElseList (cfg_securityRules cfg)) vars in
  exists r0,
    ExampleValidator.validate (variables (EnvParser.parseContent ex))
      (orElseList (cfg_ignorePatterns cfg)) vars (S t) = (Ok r0, S (S (S t)))
    /\ EnvGuardValidator.validate cfg t
       = (Ok (mkResult (length (errors r0 ++ errorsOf found) =? 0)
                (errors r0 ++ errorsOf found) (warnings r0 ++ warningsOf found)
                (info r0 ++ infoOf found)
                (mkSummary (totalVariables (summary r0)) (requiredVariables (summary r0))
                   (missingVariables (summary r0)) (unusedVariables (summary r0))
                   (length (errorsOf found)) (Date_now (S (S (S t))) - Date_now t)%Z)),
          S (S (S (S t)))).
Proof.
  intros Hs Hread Hclean Hex Hexclean Hc vars found.
  rewrite (validate_clean cfg t Hread Hclean).
  destruct (example_mode cfg Hs) as (cfg' & -> & Ht & Ef & Ei & Er).
  destruct (example_validate_returns (variables (EnvParser.parseContent ex)) vars (S t) Hc)
    as (r0 & E0).
  exists r0. split; [exact E0|].
  unfold EnvGuardValidator.validateWithExample, EnvParser.parseFile,
    EnvGuardValidator.performSecurityAnalysis, EnvGuardValidator.variablesOf.
  rewrite Ht, Ef, Hex, Ei, Er. run_m. cbn [negb]. rewrite Hexclean.
  fold vars. rewrite E0. fold found. destruct found as [[se sw] si]. reflexivity.
Qed.

End ExampleMode.

(** X8.  In example mode (no schema file), when the file of variables is
    read and parses cleanly but the example file cannot be read or holds a
    line that is not an assignment, the run returns one error and no
    other finding.  For a malformed example the message is always the same:
    it names neither the line nor the text of the offending line. *)
Theorem example_file_failure_is_one_error `{Host} cfg content t :
  JS.truthyOpt (cfg_schemaFile cfg) = false ->
  readFileSync (envFileOf cfg) = Ok content ->
  parseErrors (EnvParser.parseContent content) = [] ->
  (forall message,
      readFileSync (exampleFileOf cfg) = Throw message ->
      EnvGuardValidator.validate cfg t
      = (Ok (failureResult ("Validation failed: Failed to read file " ++ exampleFileOf cfg
                              ++ ": " ++ message)
                           (Date_now (S t) - Date_now t)), S (S t)))
  /\ (forall ex,
         readFileSync (exampleFileOf cfg) = Ok ex ->
         parseErrors (EnvParser.parseContent ex) <> [] ->
         EnvGuardValidator.validate cfg t
         = (Ok (failureResult
                  "Validation failed: Failed to parse example file: Invalid variable assignment format"
                  (Date_now (S t) - Date_now t)), S (S t))).
Proof.
  intros Hs Hread Hclean. split.
  - intros message Hex. now apply example_unreadable with (content := content).
  - intros ex Hex Hbad. now apply example_malformed with (content := content) (ex := ex).
Qed.

(** The sample file [good.env] checked against the sample file [.env],
    whose second line is not an assignment. *)
Lemma example_file_failure_is_one_error_witness :
  EnvGuardValidator.validate (H:=Sample.host)
    (mkConfig None (Some (".env" : str)) (Some ("good.env" : str))
              None None None None None None None) 0
  = (Ok (failureResult
           "Validation failed: Failed to parse example file: Invalid variable assignment format"
           1), 2).
Proof.
  refine (proj2 (@example_file_failure_is_one_error Sample.host
                   (mkConfig None (Some (".env" : str)) (Some ("good.env" : str))
                             None None None None None None None)
                   Sample.goodText 0 eq_refl eq_refl _) Sample.envText eq_refl _).
  - vm_compute. reflexivity.
  - vm_compute. discriminate.
Defined.

(** X9.  A run in example mode on two files that are read and parse
    cleanly, with ignore patterns that compile, returns the result of the
    example validator with the findings of the security analysis appended
    to its three lists.  The summary keeps the validator's counts, counts
    the errors of the analysis as security issues and times the whole run;
    the result is valid exactly when neither the validator nor the analysis
    reports an error.  The clock is read four times. *)
Theorem example_mode_end_to_end `{Host} cfg content ex t :
  JS.truthyOpt (cfg_schemaFile cfg) = false ->
  readFileSync (envFileOf cfg) = Ok content ->
  parseErrors (EnvParser.parseContent content) = [] ->
  readFileSync (exampleFileOf cfg) = Ok ex ->
  parseErrors (EnvParser.parseContent ex) = [] ->
  Forall compiles (orElseList (cfg_ignorePatterns cfg)) ->
  let vars := variables (EnvParser.parseContent content) in
  let found := SecurityAnalyzer.analyze (orElseList (cfg_securityRules cfg)) vars in
  exists r0 r,
    ExampleValidator.validate (variables (EnvParser.parseContent ex))
      (orElseList (cfg_ignorePatterns cfg)) vars (S t) = (Ok r0, S (S (S t)))
    /\ EnvGuardValidator.validate cfg t = (Ok r, S (S (S (S t))))
    /\ errors r = errors r0 ++ errorsOf found
    /\ warnings r = warnings r0 ++ warningsOf found
    /\ info r = info r0 ++ infoOf found
    /\ summary r
       = mkSummary (length vars) (length (variables (EnvParser.parseContent ex)))
           (missingVariables (summary r0)) (unusedVariables (summary r0))
           (length (errorsOf found)) (Date_now (S (S (S t))) - Date_now t)%Z
    /\ (isValid r = true <-> errors r0 = [] /\ errorsOf found = []).
Proof.
  intros Hs Hread Hclean Hex Hexclean Hc vars found.
  destruct (example_mode_run cfg t Hs Hread Hclean Hex Hexclean Hc) as (r0 & E0 & E).
  fold vars in E0, E. fold found in E.
  eexists r0, _. split; [exact E0|]. split; [exact E|]. cbn [errors warnings info summary isValid].
  split; [reflexivity|]. split; [reflexivity|]. split; [reflexivity|]. split; [|split].
  - destruct (example_validate_parts _ _ _ _ E0) as (es & us & _ & _ & _ & _ & _ & Es & _).
    rewrite Es. reflexivity.
  - intro Hv. apply length_eqb_0 in Hv. now apply app_eq_nil in Hv.
  - intros [-> ->]. reflexivity.
Qed.

(** The sample file [good.env] against the sample file [.env.example]. *)
Lemma example_mode_end_to_end_witness :
  exists r,
    EnvGuardValidator.validate (H:=Sample.host) Sample.goodConfig 0 = (Ok r, 4)
    /\ securityIssues (summary r) = 1 /\ totalVariables (summary r) = 3.
Proof.
  destruct (@example_mode_end_to_end Sample.host Sample.goodConfig Sample.goodText
              Sample.exampleText 0 eq_refl eq_refl) as (r0 & r & E0 & E & _ & _ & _ & Es & _).
  - vm_compute. reflexivity.
  - reflexivity.
  - vm_compute. reflexivity.
  - constructor.
  - exists r. split; [exact E|]. rewrite Es. split; vm_compute; reflexivity.
Defined.

(* ================================================================== *)
(** ** The example validator: validity and a file checked against itself *)
(* ================================================================== *)

Section ExampleValidity.
Context `{Host}.
Import JS.

Lemma validateMissingVariables_turns ign exampleKeys variableMap exampleMap es es' :
  ExampleValidator.validateMissingVariables ign exampleKeys variableMap exampleMap es = Ok es' ->
  exists news, es' = es ++ concat news
               /\ Forall2 (missingTurn ign variableMap exampleMap) exampleKeys news.
Proof.
  apply for_each_push. intros acc k acc' E. unfold missingTurn, isIgnored.
  destruct (map_has variableMap k) eqn:Eh.
  - injection E as <-. exists []. split; [now rewrite app_nil_r|]. left. split; auto.
  - unfold rbind in E.
    destruct (ExampleValidator.shouldIgnoreVariable ign k) as [[|]|e]; try discriminate.
    + injection E as <-. exists []. split; [now rewrite app_nil_r|]. left. split; auto.
    + destruct (map_get exampleMap k) as [ev|] eqn:Eg; [|discriminate].
      injection E as <-. eexists. split; [reflexivity|]. right. exists ev. now repeat split.
Qed.

Lemma Forall2_in_r {A B} (P : A -> B -> Prop) l l' y :
  Forall2 P l l' -> In y l' -> exists x, In x l /\ P x y.
Proof.
  induction 1 as [|x y' l l' Hx _ IH]; [intros []|].
  intros [<-|Hy]; [exists x; split; [now left|exact Hx]|].
  destruct (IH Hy) as (x' & Hx' & Hp). exists x'. split; [now right|exact Hp].
Qed.

Lemma filter_all {A} (f : A -> bool) (l : list A) :
  (forall x, In x l -> f x = true) -> filter f l = l.
Proof.
  induction l as [|x l IH]; intro Hf; simpl; [reflexivity|].
  rewrite (Hf x (or_introl eq_refl)). f_equal. apply IH. intros y Hy. apply Hf. now right.
Qed.

Lemma concat_nil_Forall2 {A B} (P : A -> list B -> Prop) l news :
  Forall2 P l news -> concat news = [] -> Forall (fun x => P x []) l.
Proof.
  induction 1 as [|x new l news Hx _ IH]; intro E; [constructor|].
  simpl in E. apply app_eq_nil in E. destruct E as [-> E]. constructor; [exact Hx|now apply IH].
Qed.

Lemma mapOfVariables_keys vars k : In k (map_keys (mapOfVariables vars)) <-> In k (map key vars).
Proof.
  rewrite <- map_has_keys. unfold mapOfVariables. rewrite map_of_has, map_map. reflexivity.
Qed.

Lemma mapOfVariables_get_In vars k v :
  map_get (mapOfVariables vars) k = Some v -> In v vars /\ key v = k.
Proof.
  unfold mapOfVariables, map_of.
  assert (G : forall l (m : Map EnvVariable),
             (forall k v, map_get m k = Some v -> In v vars /\ key v = k) ->
             (forall x, In x l -> In x vars) ->
             forall k v,
               map_get (fold_left (fun m kv => map_set (fst kv) (snd kv) m)
                                  (map (fun v => (key v, v)) l) m) k = Some v ->
               In v vars /\ key v = k).
  { induction l as [|x l IH]; intros m Hm Hl k0 v0; simpl; [apply Hm|].
    apply IH.
    - intros k1 v1. rewrite map_get_set. destruct (str_eqb (key x) k1) eqn:Ek.
      + intros [= <-]. apply str_eqb_eq in Ek. split; [apply Hl; now left|exact Ek].
      + apply Hm.
    - intros y Hy. apply Hl. now right. }
  apply (G vars []); [intros k1 v1; discriminate|auto].
Qed.

Lemma example_errors ex ign vars t r t' :
  ExampleValidator.validate ex ign vars t = (Ok r, t') ->
  exists news,
    errors r = concat news
    /\ Forall2 (missingTurn ign (mapOfVariables vars) (mapOfVariables ex))
               (map_keys (mapOfVariables ex)) news.
Proof.
  intro E. destruct (example_validate_parts _ _ _ _ E) as (es & us & Em & _ & He & _).
  destruct (validateMissingVariables_turns _ _ _ _ _ Em) as (news & -> & F).
  exists news. split; [exact He|exact F].
Qed.

End ExampleValidity.

(** X10.  The example validator's only errors are missing variables.  Each
    error has the type missing_required and no line, and names a key of the
    example that is neither observed nor ignored; the summary's count of
    missing variables is the number of errors.  So the result is valid
    exactly when every key of the example is observed or ignored: no value
    makes a run of this validator fail. *)
Theorem example_valid_iff_keys_present `{Host} ex ign vars t r t' :
  ExampleValidator.validate ex ign vars t = (Ok r, t') ->
  (forall e, In e (errors r) ->
     e_type e = E_missing_required /\ e_lineNumber e = None
     /\ exists ev, In ev ex /\ e_variable e = key ev
                   /\ ~ In (key ev) (map key vars) /\ isIgnored ign (key ev) = false)
  /\ missingVariables (summary r) = length (errors r)
  /\ (isValid r = true <->
      forall ev, In ev ex -> In (key ev) (map key vars) \/ isIgnored ign (key ev) = true).
Proof.
  intro E. destruct (example_errors _ _ _ _ E) as (news & He & F).
  assert (Herr : forall e, In e (errors r) ->
            e_type e = E_missing_required /\ e_lineNumber e = None
            /\ exists ev, In ev ex /\ e_variable e = key ev
                          /\ ~ In (key ev) (map key vars) /\ isIgnored ign (key ev) = false).
  { intros e He'. rewrite He in He'. apply in_concat in He'. destruct He' as (new & Hnew & Hin).
    destruct (Forall2_in_r new F Hnew) as (k & Hk & [[-> _]|(ev & Eg & -> & Eh & Ei)]);
      [destruct Hin|].
    destruct Hin as [<-|[]]. split; [reflexivity|]. split; [reflexivity|].
    apply mapOfVariables_get_In in Eg. destruct Eg as [Hev Ek].
    exists ev. cbn [ExampleValidator.missingFromEnv e_variable]. rewrite Ek.
    split; [exact Hev|]. split; [reflexivity|]. split; [|exact Ei].
    intro Hin. apply mapOfVariables_keys, map_has_keys in Hin. congruence. }
  split; [exact Herr|]. split.
  - destruct (example_validate_parts _ _ _ _ E) as (es & us & _ & _ & _ & _ & _ & Es & _).
    rewrite Es. cbn [ExampleValidator.createSummary missingVariables]. f_equal.
    apply filter_all. intros e He'. destruct (Herr e He') as (Et & _).
    unfold ExampleValidator.isMissingRequired. now rewrite Et.
  - rewrite (example_validate_valid _ _ _ _ E), length_eqb_0. split.
    + intros Hnil ev Hev. rewrite He in Hnil.
      pose proof (concat_nil_Forall2 F Hnil) as Fk. rewrite Forall_forall in Fk.
      assert (Hk : In (key ev) (JS.map_keys (mapOfVariables ex)))
        by (apply mapOfVariables_keys; now apply in_map).
      destruct (Fk _ Hk) as [[_ [Hh|Hi]]|(ev' & _ & Hx & _)]; [| |discriminate].
      * left. now apply mapOfVariables_keys, map_has_keys.
      * now right.
    + intro Hall. destruct (errors r) as [|e es] eqn:Ees; [reflexivity|]. exfalso.
      destruct (Herr e) as (_ & _ & ev & Hev & _ & Hnot & Hi); [now left|].
      destruct (Hall ev Hev) as [Hin|Hig]; [contradiction|congruence].
Qed.

(** The sample example holds [API_KEY]; the observed file does not. *)
Lemma example_valid_iff_keys_present_witness :
  exists r,
    ExampleValidator.validate (H:=Sample.host) [Sample.var "API_KEY" "x" 1] []
      [Sample.var "PORT" "80" 1] 0 = (Ok r, 2)
    /\ missingVariables (summary r) = length (errors r).
Proof.
  eexists. split; [vm_compute; reflexivity|].
  apply (proj1 (proj2 (@example_valid_iff_keys_present Sample.host
           [Sample.var "API_KEY" "x" 1] [] [Sample.var "PORT" "80" 1] 0 _ 2
           ltac:(vm_compute; reflexivity)))).
Defined.

Section SelfCheck.
Context `{Host}.
Import JS.

Lemma for_each_skip {A S} (body : S -> A -> Result S) l s :
  (forall x, In x l -> body s x = Ok s) -> for_each body l s = Ok s.
Proof.
  induction l as [|x l IH]; intro Hb; simpl; [reflexivity|].
  rewrite (Hb x (or_introl eq_refl)). simpl. apply IH. intros y Hy. apply Hb. now right.
Qed.

Lemma mapOfVariables_get_NoDup vars v :
  NoDup (map key vars) -> In v vars -> map_get (mapOfVariables vars) (key v) = Some v.
Proof.
  intros Hnd Hv. apply in_split in Hv. destruct Hv as (pre & post & ->).
  apply mapOfVariables_last. intros v' Hv' E.
  rewrite map_app in Hnd. apply NoDup_remove_2 in Hnd. apply Hnd.
  apply in_or_app. right. rewrite <- E. now apply in_map.
Qed.

Lemma self_has_no_warning ex v :
  map_get (mapOfVariables ex) (key v) = Some v ->
  emptyValueWarnings (mapOfVariables ex) v = []
  /\ formatWarnings (mapOfVariables ex) v = [].
Proof.
  intro Eg. unfold emptyValueWarnings, formatWarnings, ExampleValidator.validateEmptyValues,
    ExampleValidator.validateValueFormats, ExampleValidator.validateValueFormat.
  cbn [fold_left]. rewrite Eg. split.
  - destruct (str_eqb (trim (value v)) ""); reflexivity.
  - destruct (str_eqb (trim (value v)) ""); [reflexivity|].
    unfold ExampleValidator.detectFormatMismatch.
    destruct (ExampleValidator.isPlaceholderValue (value v));
      [destruct (ExampleValidator.getFormatInfo v v); reflexivity|].
    rewrite !andb_negb_r.
    destruct (ExampleValidator.getFormatInfo v v); reflexivity.
Qed.

Lemma flat_map_nil {A B} (f : A -> list B) l :
  (forall x, In x l -> f x = []) -> flat_map f l = [].
Proof.
  induction l as [|x l IH]; intro Hf; simpl; [reflexivity|].
  rewrite (Hf x (or_introl eq_refl)). apply IH. intros y Hy. apply Hf. now right.
Qed.

End SelfCheck.

(** X11.  An example file checked against itself passes cleanly: when its
    keys are distinct, [validate] on its own variables returns, whatever
    the ignore patterns (none is compiled), a valid result with no error
    and no warning, whose only notes are the placeholder notes. *)
Theorem example_checked_against_itself `{Host} ex ign t :
  NoDup (map key ex) ->
  exists r,
    ExampleValidator.validate ex ign ex t = (Ok r, S (S t))
    /\ isValid r = true /\ errors r = [] /\ warnings r = []
    /\ info r = flat_map (formatInfos (mapOfVariables ex)) ex
    /\ summary r = mkSummary (length ex) (length ex) 0 0 0 (Date_now (S t) - Date_now t)%Z.
Proof.
  intro Hnd.
  assert (Em : ExampleValidator.validateMissingVariables ign (JS.map_keys (mapOfVariables ex))
                 (mapOfVariables ex) (mapOfVariables ex) [] = Ok []).
  { apply for_each_skip. intros k Hk. apply map_has_keys in Hk. now rewrite Hk. }
  assert (Eu : ExampleValidator.validateUnusedVariables ign (JS.map_keys (mapOfVariables ex))
                 (JS.map_keys (mapOfVariables ex)) (mapOfVariables ex) [] = Ok []).
  { apply for_each_skip. intros k Hk. apply set_has_In in Hk. now rewrite Hk. }
  assert (Hw : forall v, In v ex ->
            emptyValueWarnings (mapOfVariables ex) v = []
            /\ formatWarnings (mapOfVariables ex) v = []).
  { intros v Hv. apply self_has_no_warning. now apply mapOfVariables_get_NoDup. }
  unfold ExampleValidator.validate. run_m. fold (mapOfVariables ex). rewrite Em, Eu.
  rewrite validateEmptyValues_push, validateValueFormats_push.
  rewrite (flat_map_nil (emptyValueWarnings (mapOfVariables ex)) ex)
    by (intros v Hv; apply (Hw v Hv)).
  rewrite (flat_map_nil (formatWarnings (mapOfVariables ex)) ex)
    by (intros v Hv; apply (Hw v Hv)).
  eexists. split; [reflexivity|]. now repeat split.
Qed.

Lemma example_checked_against_itself_witness :
  exists r,
    ExampleValidator.validate (H:=Sample.host)
      [Sample.var "PORT" "3000" 1; Sample.var "API_KEY" "<your-api-key>" 2] [("[" : str)]
      [Sample.var "PORT" "3000" 1; Sample.var "API_KEY" "<your-api-key>" 2] 0 = (Ok r, 2)
    /\ isValid r = true /\ warnings r = [].
Proof.
  destruct (@example_checked_against_itself Sample.host
              [Sample.var "PORT" "3000" 1; Sample.var "API_KEY" "<your-api-key>" 2]
              [("[" : str)] 0) as (r & E & Hv & _ & Hw & _).
  - repeat constructor; simpl; intuition discriminate.
  - exists r. now repeat split.
Defined.

(* ================================================================== *)
(** ** The schema validator, list by list *)
(* ================================================================== *)

Section SchemaLists.
Context `{Host}.
Variable schema : EnvSchema.
Import JS.

Lemma pushCustom_push rule v acc :
  SchemaValidator.pushCustom rule v acc
  = app3 acc (SchemaValidator.pushCustom rule v ([], [], [])).
Proof.
  destruct acc as [[e w] i]. unfold SchemaValidator.pushCustom, app3, errorsOf, warningsOf, infoOf.
  destruct (vr_severity rule); cbn [fst snd app]; now rewrite ?app_nil_r.
Qed.

Lemma applyCustomRule_push rule acc v :
  SchemaValidator.applyCustomRule rule acc v
  = app3 acc (SchemaValidator.applyCustomRule rule ([], [], []) v).
Proof.
  unfold SchemaValidator.applyCustomRule.
  destruct (vr_pattern rule) as [pattern|], (vr_customValidator rule) as [cv|];
    repeat match goal with |- context [if ?b then _ else _] => destruct b end;
    rewrite ?app3_nil_r; try reflexivity;
    repeat (rewrite (pushCustom_push rule v (SchemaValidator.pushCustom rule v _))
            || rewrite (pushCustom_push rule v acc));
    rewrite ?app3_assoc, ?app3_nil_l; reflexivity.
Qed.

Lemma applyCustomRules_push vars acc :
  SchemaValidator.applyCustomRules schema vars acc
  = app3 acc (SchemaValidator.applyCustomRules schema vars ([], [], [])).
Proof.
  unfold SchemaValidator.applyCustomRules. destruct (es_rules schema) as [rules|];
    [|now rewrite app3_nil_r].
  apply fold_left_app3. intros a rule _. apply fold_left_app3. intros a' v _.
  apply applyCustomRule_push.
Qed.

Lemma customTyped_app a b : customTyped a -> customTyped b -> customTyped (app3 a b).
Proof.
  intros (Ea & Wa & Ia) (Eb & Wb & Ib). unfold customTyped, app3, errorsOf, warningsOf, infoOf in *.
  cbn [fst snd]. repeat split; apply Forall_app; now split.
Qed.

Lemma customTyped_nil : customTyped ([], [], []).
Proof. repeat split; constructor. Qed.

Lemma pushCustom_typed rule v : customTyped (SchemaValidator.pushCustom rule v ([], [], [])).
Proof.
  unfold SchemaValidator.pushCustom, customTyped, errorsOf, warningsOf, infoOf.
  destruct (vr_severity rule); cbn [fst snd app]; repeat split; repeat constructor.
Qed.

Lemma applyCustomRule_typed rule acc v :
  customTyped acc -> customTyped (SchemaValidator.applyCustomRule rule acc v).
Proof.
  intro Hacc. unfold SchemaValidator.applyCustomRule.
  assert (Hp : forall a, customTyped a -> customTyped (SchemaValidator.pushCustom rule v a)).
  { intros a Ha. rewrite pushCustom_push.
    apply customTyped_app; [exact Ha|apply pushCustom_typed]. }
  destruct (vr_pattern rule) as [pattern|], (vr_customValidator rule) as [cv|];
    repeat match goal with |- context [if ?b then _ else _] => destruct b end;
    auto.
Qed.

Lemma applyCustomRules_typed vars :
  customTyped (SchemaValidator.applyCustomRules schema vars ([], [], [])).
Proof.
  unfold SchemaValidator.applyCustomRules. destruct (es_rules schema) as [rules|];
    [|apply customTyped_nil].
  apply fold_left_invariant; [|apply customTyped_nil].
  intros a rule Ha. apply fold_left_invariant; [|exact Ha].
  intros a' v Ha'. now apply applyCustomRule_typed.
Qed.

Lemma validateVariableValue_warnings es ws v es' ws' :
  SchemaValidator.validateVariableValue schema (es, ws) v = Ok (es', ws') ->
  exists w, ws' = ws ++ w /\ Forall (fun x => w_type x = W_deprecated) w.
Proof.
  unfold SchemaValidator.validateVariableValue, rbind.
  destruct (SchemaValidator.schemaOf schema (key v)) as [sch|].
  2:{ intros [= <- <-]. exists []. now rewrite !app_nil_r. }
  destruct (negb (isTrue (vs_allowEmpty sch)) && str_eqb (trim (value v)) "").
  - intros [= <- <-]. destruct (isTrue (vs_deprecated sch)).
    + eexists. split; [reflexivity|repeat constructor].
    + exists []. split; [now rewrite app_nil_r|constructor].
  - destruct (SchemaValidator.validateVariablePattern _ _ _) as [es1|e]; [|discriminate].
    intros [= <- <-]. destruct (isTrue (vs_deprecated sch)).
    + eexists. split; [reflexivity|repeat constructor].
    + exists []. split; [now rewrite app_nil_r|constructor].
Qed.

Lemma validateVariableValues_lists vars : forall es ws es' ws',
  for_each (SchemaValidator.validateVariableValue schema) vars (es, ws) = Ok (es', ws') ->
  exists e w, es' = es ++ e /\ ws' = ws ++ w
              /\ Forall (fun x => exists v, In v vars /\ pushedFor v x) e
              /\ Forall (fun x => w_type x = W_deprecated) w.
Proof.
  induction vars as [|v vars IH]; intros es ws es' ws' E; cbn [for_each] in E.
  - inversion E; subst. exists [], []. rewrite !app_nil_r. repeat split; constructor.
  - unfold rbind in E.
    destruct (SchemaValidator.validateVariableValue schema (es, ws) v) as [[es1 ws1]|e] eqn:E1;
      [|discriminate].
    destruct (validateVariableValue_origin _ _ _ _ E1) as (e1 & -> & F1).
    destruct (validateVariableValue_warnings _ _ _ E1) as (w1 & -> & G1).
    apply IH in E as (e2 & w2 & -> & -> & F2 & G2).
    exists (e1 ++ e2), (w1 ++ w2). rewrite !app_assoc. repeat split.
    + apply Forall_app. split.
      * eapply Forall_impl; [|exact F1]. intros x Hx. exists v. split; [now left|exact Hx].
      * eapply Forall_impl; [|exact F2]. intros x (v' & Hin & Hx). exists v'.
        split; [now right|exact Hx].
    + apply Forall_app. now split.
Qed.

Lemma validateUnusedVariables_turns envKeys variableMap ws ws' :
  SchemaValidator.validateUnusedVariables schema envKeys (map fst (es_variables schema))
    variableMap ws = Ok ws' ->
  exists news, ws' = ws ++ concat news /\ Forall2 (unusedTurn schema variableMap) envKeys news.
Proof.
  apply for_each_push. intros acc k acc' E. unfold unusedTurn, schemaIgnores.
  destruct (set_has (map fst (es_variables schema)) k) eqn:Es.
  - injection E as <-. exists []. split; [now rewrite app_nil_r|]. left. split; [reflexivity|].
    left. now apply set_has_In.
  - assert (Hn : ~ In k (map fst (es_variables schema))).
    { intro Hin. apply set_has_In in Hin. congruence. }
    unfold rbind in E.
    destruct (SchemaValidator.shouldIgnoreVariable k _) as [[|]|e]; try discriminate.
    + injection E as <-. exists []. split; [now rewrite app_nil_r|]. left. split; auto.
    + destruct (map_get variableMap k) as [v|] eqn:Eg; [|discriminate].
      injection E as <-. eexists. split; [reflexivity|]. right. exists v. now repeat split.
Qed.

(** A run of [validate], list by list. *)
Lemma schema_validate_lists vars t r t' :
  SchemaValidator.validate schema vars t = (Ok r, t') ->
  let required :=
    SchemaValidator.validateRequiredVariables schema (map fst (es_variables schema))
      (mapOfVariables vars) [] in
  let custom := SchemaValidator.applyCustomRules schema vars ([], [], []) in
  exists unused valueErrors deprecated,
    SchemaValidator.validateUnusedVariables schema (map_keys (mapOfVariables vars))
      (map fst (es_variables schema)) (mapOfVariables vars) [] = Ok unused
    /\ errors r = required ++ valueErrors ++ errorsOf custom
    /\ warnings r = unused ++ deprecated ++ warningsOf custom
    /\ info r = infoOf custom
    /\ Forall (fun x => exists v, In v vars /\ pushedFor v x) valueErrors
    /\ Forall (fun x => w_type x = W_deprecated) deprecated
    /\ summary r = SchemaValidator.createSummary schema vars (errors r) (warnings r)
                     (Date_now (S t) - Date_now t)%Z
    /\ t' = S (S t).
Proof.
  unfold SchemaValidator.validate, SchemaValidator.validateVariableValues. run_m.
  fold (mapOfVariables vars). intro E.
  destruct (SchemaValidator.validateUnusedVariables _ _ _ _ _) as [us|e] eqn:Eu;
    [|discriminate].
  destruct (for_each _ vars _) as [[es ws]|e] eqn:Ev; [|discriminate].
  destruct (validateVariableValues_lists _ _ _ Ev) as (e1 & w1 & -> & -> & F & G).
  rewrite applyCustomRules_push in E.
  destruct (SchemaValidator.applyCustomRules schema vars ([], [], [])) as [[ce cw] ci].
  unfold app3, errorsOf, warningsOf, infoOf in E. cbn [fst snd] in E.
  injection E as <- <-. exists us, e1, w1. cbn [errors warnings info summary].
  unfold errorsOf, warningsOf, infoOf. cbn [fst snd app]. rewrite <- !app_assoc.
  now repeat split.
Qed.

End SchemaLists.

Section SchemaRequired.
Context `{Host}.
Variable schema : EnvSchema.
Import JS.

Lemma map_get_NoDup {V} (m : Map V) k v :
  NoDup (map fst m) -> In (k, v) m -> map_get m k = Some v.
Proof.
  induction m as [|[k0 v0] m IH]; intros Hnd Hin; [destruct Hin|].
  cbn [map fst] in Hnd. inversion Hnd as [|? ? Hk Hm]; subst. cbn [map_get].
  destruct Hin as [[= -> ->]|Hin]; [now rewrite str_eqb_refl|].
  destruct (str_eqb k0 k) eqn:E; [|now apply IH].
  apply str_eqb_eq in E. subst. exfalso. apply Hk.
  change k with (fst (k, v)). now apply in_map.
Qed.

Lemma mapOfVariables_has_existsb vars k :
  map_has (mapOfVariables vars) k = existsb (fun v => str_eqb (key v) k) vars.
Proof.
  apply eq_true_iff_eq. unfold mapOfVariables. rewrite map_of_has, map_map, existsb_exists.
  cbn [fst]. rewrite in_map_iff. split.
  - intros (v & E & Hv). exists v. split; [exact Hv|]. now apply str_eqb_eq.
  - intros (v & Hv & E). exists v. split; [now apply str_eqb_eq|exact Hv].
Qed.

Lemma validateRequiredVariables_list vars :
  NoDup (map fst (es_variables schema)) ->
  SchemaValidator.validateRequiredVariables schema (map fst (es_variables schema))
    (mapOfVariables vars) []
  = map (fun kv => SchemaValidator.missingRequired (fst kv) (snd kv)) (missingKeys schema vars).
Proof.
  intro Hnd. unfold SchemaValidator.validateRequiredVariables.
  rewrite (fold_left_push
             (fun k => match SchemaValidator.schemaOf schema k with
                       | Some sch =>
                           if vs_required sch && negb (map_has (mapOfVariables vars) k)
                           then [SchemaValidator.missingRequired k sch] else []
                       | None => []
                       end)).
  2:{ intros acc k. destruct (SchemaValidator.schemaOf schema k) as [sch|];
        [|now rewrite app_nil_r]. destruct (_ && _); [reflexivity|now rewrite app_nil_r]. }
  cbn [app]. unfold missingKeys, SchemaValidator.schemaOf.
  assert (G : forall m,
             (forall k sch, In (k, sch) m -> map_get (es_variables schema) k = Some sch) ->
             flat_map (fun k => match map_get (es_variables schema) k with
                                | Some sch =>
                                    if vs_required sch && negb (map_has (mapOfVariables vars) k)
                                    then [SchemaValidator.missingRequired k sch] else []
                                | None => []
                                end) (map fst m)
             = map (fun kv => SchemaValidator.missingRequired (fst kv) (snd kv))
                   (filter (fun kv => vs_required (snd kv)
                                      && negb (existsb (fun v => str_eqb (key v) (fst kv)) vars))
                           m)).
  { induction m as [|[k sch] m IH]; intro Hm; [reflexivity|].
    cbn [map fst flat_map filter snd]. rewrite (Hm k sch (or_introl eq_refl)).
    rewrite mapOfVariables_has_existsb, IH by (intros; apply Hm; now right).
    now destruct (_ && _). }
  apply G. intros k sch Hin. now apply map_get_NoDup.
Qed.

End SchemaRequired.

(** X12.  In a result of the schema validator the errors of type
    missing_required are, in the order of the schema, one for each entry
    that is required and whose key no observed variable has; the summary
    counts them as missing variables.  (The keys of the schema are
    distinct, as the keys of an object are.) *)
Theorem schema_missing_required `{Host} schema vars t r t' :
  NoDup (map fst (es_variables schema)) ->
  SchemaValidator.validate schema vars t = (Ok r, t') ->
  filter (fun e => ErrorType_eqb (e_type e) E_missing_required) (errors r)
  = map (fun kv => SchemaValidator.missingRequired (fst kv) (snd kv)) (missingKeys schema vars)
  /\ missingVariables (summary r) = length (missingKeys schema vars).
Proof.
  intros Hnd E.
  destruct (schema_validate_lists _ _ _ E) as (us & ve & dw & _ & He & _ & _ & Fv & _ & Hs & _).
  pose proof (applyCustomRules_typed schema vars) as (Fc & _).
  assert (Hf : filter (fun e => ErrorType_eqb (e_type e) E_missing_required) (errors r)
               = map (fun kv => SchemaValidator.missingRequired (fst kv) (snd kv))
                     (missingKeys schema vars)).
  { rewrite He, (validateRequiredVariables_list schema vars Hnd), !filter_app.
    rewrite (filter_none _ ve), (filter_none _ (errorsOf _)), !app_nil_r.
    - apply filter_all. intros e He'. apply in_map_iff in He'. now destruct He' as (kv & <- & _).
    - intros e He'. rewrite Forall_forall in Fc. now rewrite (Fc e He').
    - intros e He'. rewrite Forall_forall in Fv. destruct (Fv e He') as (v & _ & -> & _).
      reflexivity. }
  split; [exact Hf|]. rewrite Hs. cbn [SchemaValidator.createSummary missingVariables].
  unfold SchemaValidator.isMissingRequired. rewrite Hf. apply length_map.
Qed.

(** The sample schema requires [PORT]; the observed file has [HOST] only. *)
Lemma schema_missing_required_witness :
  exists r,
    SchemaValidator.validate (H:=Sample.host) Sample.portSchema [Sample.var "HOST" "x" 1] 0
    = (Ok r, 2)
    /\ missingVariables (summary r) = 1.
Proof.
  eexists. split; [vm_compute; reflexivity|].
  apply (proj2 (@schema_missing_required Sample.host Sample.portSchema
                  [Sample.var "HOST" "x" 1] 0 _ 2
                  ltac:(repeat constructor; simpl; intuition)
                  ltac:(vm_compute; reflexivity))).
Defined.

Section SchemaUnused.
Context `{Host}.
Variable schema : EnvSchema.
Import JS.

Lemma Forall2_in_l {A B} (P : A -> B -> Prop) l l' x :
  Forall2 P l l' -> In x l -> exists y, In y l' /\ P x y.
Proof.
  induction 1 as [|x' y l l' Hx _ IH]; [intros []|].
  intros [<-|Hx']; [exists y; split; [now left|exact Hx]|].
  destruct (IH Hx') as (y' & Hy' & Hp). exists y'. split; [now right|exact Hp].
Qed.

Lemma turns_NoDup {A} (P : str -> list A -> Prop) (name : A -> str) keys news :
  (forall k new, P k new -> forall w, In w new -> new = [w] /\ name w = k) ->
  Forall2 P keys news -> NoDup keys -> NoDup (map name (concat news)).
Proof.
  intros HP F. induction F as [|k new keys news Hk F IH]; intro Hnd; [constructor|].
  inversion Hnd as [|? ? Hnot Hnd']; subst. cbn [concat]. rewrite map_app.
  assert (Hrest : forall w, In w (concat news) -> In (name w) keys).
  { intros w Hw. apply in_concat in Hw. destruct Hw as (new' & Hnew' & Hw).
    destruct (Forall2_in_r new' F Hnew') as (k' & Hk' & Hp).
    destruct (HP k' new' Hp w Hw) as (_ & <-). exact Hk'. }
  destruct new as [|w new].
  - now apply IH.
  - destruct (HP k _ Hk w (or_introl eq_refl)) as ([= ->] & <-). cbn [map app].
    constructor; [|now apply IH]. intro Hin. apply in_map_iff in Hin.
    destruct Hin as (w' & E & Hw'). apply Hnot. rewrite <- E. now apply Hrest.
Qed.

Lemma schema_unused_list vars t r t' :
  SchemaValidator.validate schema vars t = (Ok r, t') ->
  exists news,
    filter (fun w => WarningType_eqb (w_type w) W_unused_variable) (warnings r) = concat news
    /\ Forall2 (unusedTurn schema (mapOfVariables vars)) (map_keys (mapOfVariables vars)) news.
Proof.
  intro E.
  destruct (schema_validate_lists _ _ _ E) as (us & ve & dw & Eu & _ & Hw & _ & _ & Fd & _).
  pose proof (applyCustomRules_typed schema vars) as (_ & Fc & _).
  destruct (validateUnusedVariables_turns _ _ _ _ Eu) as (news & -> & F).
  exists news. split; [|exact F]. rewrite Hw, !filter_app. cbn [app].
  rewrite (filter_none _ dw), (filter_none _ (warningsOf _)), !app_nil_r.
  - apply filter_all. intros w Hw'. apply in_concat in Hw'. destruct Hw' as (new & Hnew & Hin).
    destruct (Forall2_in_r new F Hnew) as (k & _ & [[-> _]|(v & _ & -> & _)]); [destruct Hin|].
    destruct Hin as [<-|[]]. reflexivity.
  - intros w Hw'. rewrite Forall_forall in Fc. now rewrite (Fc w Hw').
  - intros w Hw'. rewrite Forall_forall in Fd. now rewrite (Fd w Hw').
Qed.

End SchemaUnused.

(** X13.  In a result of the schema validator, a key has a warning of type
    unused_variable exactly when an observed variable has the key, the
    schema has no entry for it and no ignore pattern of the schema matches
    it.  There is one such warning per key, however many lines define the
    key, and the summary counts these warnings as unused variables. *)
Theorem schema_unused_warnings `{Host} schema vars t r t' :
  SchemaValidator.validate schema vars t = (Ok r, t') ->
  let unused := filter (fun w => WarningType_eqb (w_type w) W_unused_variable) (warnings r) in
  (forall k,
      (exists w, In w unused /\ w_variable w = k) <->
      In k (map key vars) /\ ~ In k (map fst (es_variables schema))
      /\ schemaIgnores schema k = false)
  /\ NoDup (map w_variable unused)
  /\ unusedVariables (summary r) = length unused.
Proof.
  intros E unused. destruct (schema_unused_list _ _ _ E) as (news & Hu & F).
  fold unused in Hu. split; [|split].
  - intro k. rewrite Hu. split.
    + intros (w & Hw & Ek). apply in_concat in Hw. destruct Hw as (new & Hnew & Hin).
      destruct (Forall2_in_r new F Hnew) as (k' & Hk' & [[-> _]|(v & _ & -> & Hs & Hi)]);
        [destruct Hin|].
      destruct Hin as [<-|[]]. cbn in Ek. subst k'.
      split; [now apply mapOfVariables_keys|now split].
    + intros (Hk & Hs & Hi). apply mapOfVariables_keys in Hk.
      destruct (Forall2_in_l k F Hk) as (new & Hnew & [[_ [Hin|Hig]]|(v & _ & -> & _)]);
        [contradiction|congruence|].
      exists (SchemaValidator.notInSchema k v). split; [|reflexivity].
      apply in_concat. exists [SchemaValidator.notInSchema k v]. split; [exact Hnew|now left].
  - rewrite Hu. apply (turns_NoDup (P := unusedTurn schema (mapOfVariables vars)) w_variable) 
      with (keys := JS.map_keys (mapOfVariables vars)); [|exact F|apply map_of_NoDup].
    intros k new [[-> _]|(v & _ & -> & _)] w Hw; [destruct Hw|].
    destruct Hw as [<-|[]]. now split.
  - destruct (schema_validate_lists _ _ _ E) as (_ & _ & _ & _ & _ & _ & _ & _ & _ & Hs & _).
    rewrite Hs. reflexivity.
Qed.

(** [HOST] on two lines and no entry for it in the sample schema. *)
Lemma schema_unused_warnings_witness :
  exists r,
    SchemaValidator.validate (H:=Sample.host) Sample.portSchema
      [Sample.var "HOST" "a" 1; Sample.var "PORT" "80" 2; Sample.var "HOST" "b" 3] 0 = (Ok r, 2)
    /\ unusedVariables (summary r) = 1.
Proof.
  eexists. split; [vm_compute; reflexivity|].
  rewrite (proj2 (proj2 (@schema_unused_warnings Sample.host Sample.portSchema
                  [Sample.var "HOST" "a" 1; Sample.var "PORT" "80" 2; Sample.var "HOST" "b" 3]
                  0 _ 2 ltac:(vm_compute; reflexivity)))).
  vm_compute. reflexivity.
Defined.

Section SchemaEmpty.
Context `{Host}.
Variable schema : EnvSchema.
Import JS.

Lemma validateVariableValue_allowed_empty es ws v sch :
  SchemaValidator.schemaOf schema (key v) = Some sch ->
  isTrue (vs_allowEmpty sch) = true ->
  trim (value v) = [] ->
  SchemaValidator.validateVariableValue schema (es, ws) v
  = Ok (es, if isTrue (vs_deprecated sch)
            then ws ++ [SchemaValidator.deprecatedWarning v sch] else ws).
Proof.
  intros Es Ea Ev. unfold SchemaValidator.validateVariableValue,
    SchemaValidator.validateVariablePattern, SchemaValidator.validateVariableType.
  rewrite Es, Ea, Ev. cbn [negb andb str_eqb list_ascii_of_string].
  rewrite orb_true_r. destruct (vs_type sch); reflexivity.
Qed.

End SchemaEmpty.

(** X14.  A value that trims to the empty string is never checked against
    the type or the pattern of its schema entry.  When the entry allows
    empty, the turn of the variable pushes no error at all (a deprecation
    warning at most): [PORT=] passes a schema that types [PORT] as a number.
    When no other record has both the key and the line of the variable, the
    result holds no invalid_format error about it. *)
Theorem allowed_empty_value_is_not_checked `{Host} schema pre v post sch t :
  SchemaValidator.schemaOf schema (key v) = Some sch ->
  isTrue (vs_allowEmpty sch) = true ->
  JS.trim (value v) = [] ->
  (forall es ws,
      SchemaValidator.validateVariableValue schema (es, ws) v
      = Ok (es, if isTrue (vs_deprecated sch)
                then ws ++ [SchemaValidator.deprecatedWarning v sch] else ws))
  /\ forall r t',
       SchemaValidator.validate schema (pre ++ v :: post) t = (Ok r, t') ->
       (forall v', In v' (pre ++ post) -> key v' = key v -> lineNumber v' <> lineNumber v) ->
       formatErrorsAbout v (errors r) = [].
Proof.
  intros Es Ea Ev. split; [intros; now apply validateVariableValue_allowed_empty|].
  intros r t' Hrun Huniq.
  destruct (schema_validate_parts _ _ _ Hrun) as (us & es & ws & custom & Eu & Evals & Eerr & Fc).
  rewrite for_each_app in Evals. unfold rbind in Evals.
  destruct (for_each _ pre _) as [[before wbefore]|e] eqn:Epre; [|discriminate].
  cbn [for_each] in Evals.
  rewrite (validateVariableValue_allowed_empty _ _ _ _ Es Ea Ev) in Evals.
  cbn [rbind] in Evals.
  destruct (validateVariableValues_origin _ _ _ _ Evals) as (epost & -> & Fpost).
  destruct (validateVariableValues_origin _ _ _ _ Epre) as (epre & -> & Fpre).
  rewrite Eerr. unfold formatErrorsAbout. rewrite !filter_app.
  rewrite (filter_none _ (SchemaValidator.validateRequiredVariables _ _ _ _)).
  2:{ intros x Hx.
      pose proof (validateRequiredVariables_type schema (map fst (es_variables schema))
                    (mapOfVariables (pre ++ v :: post)) (Forall_nil _)) as Freq.
      rewrite Forall_forall in Freq. now rewrite (Freq x Hx). }
  assert (Hother : forall l e,
             Forall (fun x => exists v', In v' l /\ pushedFor v' x) e ->
             (forall v', In v' l -> In v' (pre ++ post)) ->
             filter (fun e0 => ErrorType_eqb (e_type e0) E_invalid_format
                               && JS.str_eqb (e_variable e0) (key v)
                               && match e_lineNumber e0 with
                                  | Some n => n =? lineNumber v
                                  | None => false
                                  end) e = []).
  { intros l e F Hsub. apply filter_none. intros x Hx.
    rewrite Forall_forall in F. destruct (F x Hx) as (v' & Hin & _ & Hk & Hl).
    rewrite Hk, Hl.
    destruct (JS.str_eqb (key v') (key v)) eqn:Ek; [|now rewrite andb_false_r].
    apply str_eqb_eq in Ek.
    replace (lineNumber v' =? lineNumber v) with false; [now rewrite andb_false_r|].
    symmetry. apply Nat.eqb_neq. apply Huniq; [now apply Hsub|exact Ek]. }
  rewrite (Hother pre epre Fpre) by (intros; apply in_or_app; now left).
  rewrite (Hother post epost Fpost) by (intros; apply in_or_app; now right).
  rewrite (filter_none _ custom); [reflexivity|].
  intros x Hx. rewrite Forall_forall in Fc. now rewrite (Fc x Hx).
Qed.

(** A schema that types [PORT] as a number and allows it to be empty. *)
Lemma allowed_empty_value_is_not_checked_witness :
  exists r,
    SchemaValidator.validate (H:=Sample.host)
      (mkEnvSchema [("PORT" : str,
                     mkVariableSchema true (Some T_number) None None None (Some true) None None)]
                   None None None)
      [Sample.var "PORT" "" 1] 0 = (Ok r, 2)
    /\ formatErrorsAbout (Sample.var "PORT" "" 1) (errors r) = [].
Proof.
  eexists. split; [vm_compute; reflexivity|].
  apply (proj2 (@allowed_empty_value_is_not_checked Sample.host
           (mkEnvSchema [("PORT" : str,
                          mkVariableSchema true (Some T_number) None None None (Some true) None None)]
                        None None None)
           [] (Sample.var "PORT" "" 1) []
           (mkVariableSchema true (Some T_number) None None None (Some true) None None)
           0 eq_refl eq_refl eq_refl) _ 2 ltac:(vm_compute; reflexivity)).
  intros v' [].
Defined.

(** X15.  The schema validator reports no security risk: its errors have
    the types missing_required, invalid_format and custom only, its
    warnings the types unused_variable, deprecated and custom, and the
    security issues of its summary are always 0.  Its notes come from the
    custom rules alone: a schema without rules gives none.  The summary's
    total is the number of records, repeated keys included. *)
Theorem schema_result_types `{Host} schema vars t r t' :
  SchemaValidator.validate schema vars t = (Ok r, t') ->
  (forall e, In e (errors r) ->
     e_type e = E_missing_required \/ e_type e = E_invalid_format \/ e_type e = E_custom)
  /\ (forall w, In w (warnings r) ->
        w_type w = W_unused_variable \/ w_type w = W_deprecated \/ w_type w = W_custom)
  /\ (forall i, In i (info r) -> i_type i = I_info)
  /\ securityIssues (summary r) = 0
  /\ totalVariables (summary r) = length vars
  /\ (es_rules schema = None -> info r = []).
Proof.
  intro E.
  destruct (schema_validate_lists _ _ _ E)
    as (us & ve & dw & Eu & He & Hw & Hi & Fv & Fd & Hs & _).
  pose proof (applyCustomRules_typed schema vars) as (Fce & Fcw & Fci).
  destruct (validateUnusedVariables_turns _ _ _ _ Eu) as (news & Hus & F).
  pose proof (validateRequiredVariables_type schema (map fst (es_variables schema))
                (mapOfVariables vars) (Forall_nil _)) as Freq.
  rewrite Forall_forall in Fv, Fd, Fce, Fcw, Fci, Freq.
  assert (Herr : forall e, In e (errors r) ->
            e_type e = E_missing_required \/ e_type e = E_invalid_format
            \/ e_type e = E_custom).
  { intros e Hin. rewrite He in Hin.
    apply in_app_or in Hin. destruct Hin as [Hin|Hin]; [left; now apply Freq|].
    apply in_app_or in Hin. destruct Hin as [Hin|Hin]; [|right; right; now apply Fce].
    destruct (Fv e Hin) as (v & _ & Et & _). now (right; left). }
  split; [exact Herr|]. split; [|split; [|split; [|split]]].
  - intros w Hin. rewrite Hw, Hus in Hin. cbn [app] in Hin.
    apply in_app_or in Hin. destruct Hin as [Hin|Hin].
    + apply in_concat in Hin. destruct Hin as (new & Hnew & Hin).
      destruct (Forall2_in_r new F Hnew) as (k & _ & [[-> _]|(v & _ & -> & _)]);
        [destruct Hin|].
      destruct Hin as [<-|[]]. now left.
    + apply in_app_or in Hin. destruct Hin as [Hin|Hin];
        [right; left; now apply Fd|right; right; now apply Fcw].
  - intros i Hin. rewrite Hi in Hin. now apply Fci.
  - rewrite Hs. cbn [SchemaValidator.createSummary securityIssues]. rewrite filter_none;
      [reflexivity|].
    intros e Hin. unfold SchemaValidator.isSecurityRisk.
    destruct (Herr e Hin) as [-> |[-> | ->]]; reflexivity.
  - rewrite Hs. reflexivity.
  - intro Hr. rewrite Hi. unfold SchemaValidator.applyCustomRules. now rewrite Hr.
Qed.

Lemma schema_result_types_witness :
  exists r,
    SchemaValidator.validate (H:=Sample.host) Sample.portSchema
      [Sample.var "HOST" "x" 1; Sample.var "PORT" "abc" 2] 0 = (Ok r, 2)
    /\ securityIssues (summary r) = 0 /\ info r = [].
Proof.
  eexists. split; [vm_compute; reflexivity|].
  destruct (@schema_result_types Sample.host Sample.portSchema
              [Sample.var "HOST" "x" 1; Sample.var "PORT" "abc" 2] 0 _ 2
              ltac:(vm_compute; reflexivity)) as (_ & _ & _ & Hs & _ & Hi).
  split; [exact Hs|now apply Hi].
Defined.

(* ================================================================== *)
(** ** What a match of the assignment pattern has read *)
(* ================================================================== *)

Section Soundness.
Import JS RegExp.

Lemma forallb_eq {A} (f g : A -> bool) l :
  (forall x, f x = g x) -> forallb f l = forallb g l.
Proof. intro E. induction l as [|x l IH]; simpl; [reflexivity|]. now rewrite E, IH. Qed.

Lemma took_nil s : took [] s s.
Proof. now repeat split. Qed.

Lemma took_app p q s s1 s2 : took p s s1 -> took q s1 s2 -> took (p ++ q) s s2.
Proof.
  intros (A1 & B1 & C1) (A2 & B2 & C2). unfold took.
  rewrite A1, A2, B2, B1, C2, C1, rev_app_distr, !app_assoc. now repeat split.
Qed.

Lemma took_consumed p s s' : took p s s' -> consumed s s' = p.
Proof.
  intros (A & _). unfold consumed. rewrite A, length_app.
  replace (length p + length (ahead s') - length (ahead s')) with (length p) by lia.
  now rewrite firstn_app, firstn_all, Nat.sub_diag, app_nil_r.
Qed.

Lemma passes_single ic r P :
  single ic r P -> passes (fun s s' => exists x, took [x] s s' /\ P x = true) (rmatch ic r).
Proof.
  intros Hr k s m E. rewrite Hr in E. destruct (ahead s) as [|x t] eqn:Ea; [discriminate|].
  destruct (P x) eqn:Ep; [|discriminate].
  exists (step s x t). split; [|exact E]. exists x. split; [|exact Ep].
  unfold took, step. cbn. now rewrite Ea.
Qed.

Lemma passes_Seq ic r1 r2 R1 R2 :
  passes R1 (rmatch ic r1) -> passes R2 (rmatch ic r2) ->
  passes (fun s s2 => exists s1, R1 s s1 /\ R2 s1 s2) (rmatch ic (Seq r1 r2)).
Proof.
  intros H1 H2 k s m E. cbn [rmatch] in E.
  apply H1 in E as (s1 & Hs1 & E). apply H2 in E as (s2 & Hs2 & E).
  exists s2. split; [now exists s1|exact E].
Qed.

Lemma passes_Group ic n r R :
  passes R (rmatch ic r) ->
  passes (fun s s' => exists s0, R s s0 /\ s' = captured n s s0) (rmatch ic (Group n r)).
Proof.
  intros Hr k s m E. cbn [rmatch] in E. apply Hr in E as (s0 & Hs0 & E).
  exists (captured n s s0). split; [now exists s0|exact E].
Qed.

Lemma passes_Bol ic : passes (fun s s' => s' = s /\ behind s = []) (rmatch ic Bol).
Proof.
  intros k s m E. cbn [rmatch] in E. destruct (behind s) eqn:Eb; [|discriminate].
  exists s. now repeat split.
Qed.

Lemma passes_Eol ic : passes (fun s s' => s' = s /\ ahead s = []) (rmatch ic Eol).
Proof.
  intros k s m E. cbn [rmatch] in E. destruct (ahead s) eqn:Ea; [|discriminate].
  exists s. now repeat split.
Qed.

(** A quantifier around a pattern of one character reads a run of such
    characters. *)
Lemma passes_loop_single ic r P mn mx greedy k : single ic r P ->
  forall fuel i s m,
    repeat_loop (rmatch ic r) mn mx greedy k fuel i s = Some m ->
    exists s', (exists p, took p s s' /\ forallb P p = true) /\ k s' = Some m.
Proof.
  intros Hr fuel. induction fuel as [|fuel IH]; intros i s m E; simpl in E; [discriminate|].
  assert (Hagain :
    (if below i mx
     then rmatch ic r
            (fun s' => if (mn <=? i) && (length (ahead s') =? length (ahead s)) then None
                       else repeat_loop (rmatch ic r) mn mx greedy k fuel (S i) s') s
     else None) = Some m ->
    exists s', (exists p, took p s s' /\ forallb P p = true) /\ k s' = Some m).
  { destruct (below i mx); [|discriminate]. intro Eb.
    apply (passes_single Hr) in Eb as (s1 & (x & T1 & Px) & E1).
    destruct ((mn <=? i) && _); [discriminate|].
    apply IH in E1 as (s' & (p & T & Pp) & Ek). exists s'. split; [|exact Ek].
    exists ([x] ++ p). split; [now apply took_app with (s1 := s1)|].
    cbn. now rewrite Px, Pp. }
  assert (Hstop :
    (if mn <=? i then k s else None) = Some m ->
    exists s', (exists p, took p s s' /\ forallb P p = true) /\ k s' = Some m).
  { destruct (mn <=? i); [|discriminate]. intro Ek. exists s. split; [|exact Ek].
    exists []. split; [apply took_nil|reflexivity]. }
  destruct greedy.
  - destruct (if below i mx then _ else None) eqn:Ea.
    + injection E as <-. now apply Hagain.
    + now apply Hstop.
  - destruct (if mn <=? i then k s else None) eqn:Es.
    + injection E as <-. now apply Hstop.
    + now apply Hagain.
Qed.

Lemma passes_Repeat_single ic r P mn mx greedy : single ic r P ->
  passes (fun s s' => exists p, took p s s' /\ forallb P p = true)
         (rmatch ic (Repeat r mn mx greedy)).
Proof.
  intros Hr k s m E. cbn [rmatch] in E.
  now apply (@passes_loop_single ic r P mn mx greedy k Hr) in E.
Qed.

(** A match of the assignment pattern: the line is a key, white space, [=],
    white space and a text on one line; the captures are the key and that
    text. *)
Lemma exec_assignment_sound line cs :
  exec EnvParser.assignmentRe line = Some cs ->
  exists k ws1 ws2 val,
    line = k ++ ws1 ++ "=" ++ ws2 ++ val
    /\ isIdentifier k = true
    /\ forallb isWhiteSpace ws1 = true /\ forallb isWhiteSpace ws2 = true
    /\ oneLine val = true
    /\ cs = [(2, val); (1, k)].
Proof.
  unfold exec, EnvParser.assignmentRe. cbn [source ignoreCase re seq].
  rewrite search_bol_0. intro E.
  destruct (rmatch _ _ _ _) as [m|] eqn:Em; [|discriminate]. injection E as <-.
  eassert (Hp : passes _ _);
    [|apply Hp in Em; clear Hp].
  { unfold star.
    repeat first
      [ apply passes_Seq | apply passes_Group | apply passes_Eol
      | eapply passes_Repeat_single; first [apply single_Class | apply single_Any | apply single_Char]
      | eapply passes_single; first [apply single_Class | apply single_Char] ]. }
  destruct Em as (m' & (s2 & (s1 & (s0 & T0 & T1) & ->) & s3 & (ws1 & T3 & W1)
                        & s4 & (c & T4 & Ec) & s5 & (ws2 & T5 & W2)
                        & s6' & (s6 & (val & T6 & V) & ->) & -> & Eend) & [= <-]).
  destruct T0 as (x & Tx & Px). destruct T1 as (kt & Tk & Pk).
  pose proof (took_app Tx Tk) as Tkey.
  assert (Ec' : c = "="%char).
  { unfold char_matches, canon in Ec. now apply chr_eqb_eq in Ec. }
  subst c. unfold captured in *. cbn [ahead caps behind set_cap] in *.
  rewrite (took_consumed Tkey) in *.
  assert (E6 : consumed s5 s6 = val) by now apply took_consumed.
  rewrite E6 in *.
  destruct Tkey as (A0 & _ & C0). destruct T3 as (A3 & _ & C3). destruct T4 as (A4 & _ & C4).
  destruct T5 as (A5 & _ & C5). destruct T6 as (A6 & _ & C6).
  cbn [ahead caps behind] in *.
  exists (x :: kt), ws1, ws2, val.
  rewrite Eend, app_nil_r in A6. rewrite A6 in A5. rewrite A5 in A4. rewrite A4 in A3.
  rewrite A3 in A0. cbn [app] in A0. split; [exact A0|].
  split; [cbn [isIdentifier]; now rewrite Px, Pk|].
  split; [rewrite <- W1; apply forallb_eq; intro; symmetry; apply whiteSpace_class|].
  split; [rewrite <- W2; apply forallb_eq; intro; symmetry; apply whiteSpace_class|].
  split; [exact V|].
  rewrite C6, C5, C4, C3. cbn [caps]. rewrite C0. reflexivity.
Qed.

End Soundness.

Section TrimFacts.
Import JS.

Lemma trimStart_split s :
  exists ws, s = ws ++ trimStart s /\ forallb isWhiteSpace ws = true
             /\ stops isWhiteSpace (trimStart s).
Proof.
  induction s as [|x s (ws & E & W & S)]; [exists []; now repeat split|].
  cbn [trimStart]. destruct (isWhiteSpace x) eqn:Ex.
  - exists (x :: ws). cbn. rewrite Ex, W. repeat split; [now f_equal|exact S].
  - exists []. repeat split. exact Ex.
Qed.

Lemma trimStart_fixed s : stops isWhiteSpace s -> trimStart s = s.
Proof. destruct s as [|x s]; [reflexivity|]. simpl. now intros ->. Qed.

Lemma trimStart_ws ws s : forallb isWhiteSpace ws = true -> trimStart (ws ++ s) = trimStart s.
Proof.
  induction ws as [|x ws IH]; [reflexivity|]. simpl. intro H.
  apply andb_true_iff in H as [-> H]. now apply IH.
Qed.

Lemma trimEnd_ws s ws : forallb isWhiteSpace ws = true -> trimEnd (s ++ ws) = trimEnd s.
Proof.
  intro H. unfold trimEnd. rewrite rev_app_distr, trimStart_ws; [reflexivity|].
  rewrite forallb_forall in *. intros x Hx. apply H. now apply in_rev.
Qed.

Lemma trimEnd_fixed s x : isWhiteSpace x = false -> trimEnd (s ++ [x]) = s ++ [x].
Proof.
  intro Hx. unfold trimEnd. rewrite rev_app_distr. cbn. rewrite Hx. cbn.
  now rewrite rev_involutive.
Qed.

Lemma trimEnd_split s :
  exists ws, s = trimEnd s ++ ws /\ forallb isWhiteSpace ws = true.
Proof.
  unfold trimEnd. destruct (trimStart_split (rev s)) as (ws & E & W & _).
  exists (rev ws). split.
  - rewrite <- rev_app_distr, <- E. now rewrite rev_involutive.
  - rewrite forallb_forall in *. intros x Hx. apply W. now apply in_rev.
Qed.

(** What [trim] leaves has no white space at either end. *)
Lemma trim_tight s d :
  trim s <> [] ->
  isWhiteSpace (hd d (trim s)) = false /\ isWhiteSpace (last (trim s) d) = false.
Proof.
  unfold trim. intro Hne.
  destruct (trimStart_split s) as (_ & _ & _ & S).
  set (u := trimStart s) in *.
  assert (Hl : isWhiteSpace (last (trimEnd u) d) = false).
  { unfold trimEnd in *. destruct (trimStart_split (rev u)) as (_ & _ & _ & S').
    destruct (trimStart (rev u)) as [|y t]; [now destruct Hne|].
    cbn [rev]. rewrite last_last. exact S'. }
  split; [|exact Hl].
  destruct (trimEnd_split u) as (ws & E & W).
  destruct (trimEnd u) as [|y t]; [now destruct Hne|].
  rewrite E in S. exact S.
Qed.

Lemma trim_idem s : trim (trim s) = trim s.
Proof.
  destruct (trim s) as [|x t] eqn:E; [reflexivity|]. rewrite <- E.
  destruct (@trim_tight s x) as [Hh Hl]; [congruence|].
  apply trim_ends with (d := x); [congruence|exact Hh|exact Hl].
Qed.

Lemma forallb_trimStart f s : forallb f s = true -> forallb f (trimStart s) = true.
Proof.
  destruct (trimStart_split s) as (ws & E & _). intro H. rewrite E, forallb_app in H.
  now apply andb_true_iff in H.
Qed.

Lemma forallb_trim f s : forallb f s = true -> forallb f (trim s) = true.
Proof.
  intro H. apply forallb_trimStart in H. unfold trim.
  destruct (trimEnd_split (trimStart s)) as (ws & E & _). rewrite E, forallb_app in H.
  now apply andb_true_iff in H.
Qed.

(** A text between two characters that are not white space, then white
    space: [trim] removes the white space. *)
Lemma trim_app_ws s ws d :
  s <> [] -> isWhiteSpace (hd d s) = false -> isWhiteSpace (last s d) = false ->
  forallb isWhiteSpace ws = true -> trim (s ++ ws) = s.
Proof.
  intros Hne Hh Hl W. unfold trim.
  assert (Es : trimStart (s ++ ws) = s ++ ws).
  { destruct s as [|x t]; [congruence|]. cbn in *. now rewrite Hh. }
  rewrite Es, trimEnd_ws by exact W.
  destruct (exists_last Hne) as (s' & c & ->). rewrite last_last in Hl. now apply trimEnd_fixed.
Qed.

End TrimFacts.

Section AssignmentLines.
Import JS RegExp.

Lemma whiteSpace_not_identChar x :
  isWhiteSpace x = true -> class_matches false false EnvParser.identChar x = false.
Proof. all_chars x. Qed.

Lemma equals_char :
  class_matches false false EnvParser.identChar "=" = false /\ isWhiteSpace "=" = false.
Proof. split; reflexivity. Qed.

Lemma stops_app P ws rest :
  (forall x, In x ws -> P x = false) -> stops P rest -> stops P (ws ++ rest).
Proof.
  destruct ws as [|x ws]; [auto|]. intros H _. cbn. apply H. now left.
Qed.

(** The assignment pattern on a key, white space, [=], white space and a
    text on one line that does not start with white space. *)
Lemma exec_assignment_ws k ws1 ws2 val :
  isIdentifier k = true ->
  forallb isWhiteSpace ws1 = true -> forallb isWhiteSpace ws2 = true ->
  oneLine val = true -> stops isWhiteSpace val ->
  exec EnvParser.assignmentRe (k ++ ws1 ++ "=" ++ ws2 ++ val) = Some [(2, val); (1, k)].
Proof.
  intros Hk W1 W2 Hv Hs. destruct k as [|x kt]; [discriminate|].
  unfold isIdentifier in Hk. apply andb_true_iff in Hk as [Hx Hkt].
  unfold exec, EnvParser.assignmentRe. cbn [source ignoreCase re seq].
  rewrite search_bol_0.
  cbn [rmatch ahead app list_ascii_of_string]. rewrite Hx.
  unfold step. cbn [behind ahead caps].
  assert (W1' : forallb (class_matches false false [CSpace]) ws1 = true)
    by (rewrite <- W1; apply forallb_eq; intro; apply whiteSpace_class).
  assert (W2' : forallb (class_matches false false [CSpace]) ws2 = true)
    by (rewrite <- W2; apply forallb_eq; intro; apply whiteSpace_class).
  eapply exec_caps.
  - eapply greedy_star; [apply single_Class|exact Hkt| |].
    { apply stops_app; [|reflexivity]. intros y Hy. apply whiteSpace_not_identChar.
      rewrite forallb_forall in W1. now apply W1. }
    cbn [behind ahead caps].
    eapply greedy_star; [apply single_Class|exact W1'|reflexivity|].
    cbn [rmatch ahead app].
    change (char_matches false "=" "=") with true. cbn iota.
    unfold step. cbn [behind ahead caps].
    eapply greedy_star; [apply single_Class|exact W2'|now apply stops_whiteSpace_class|].
    cbn [rmatch].
    eapply greedy_star_all; [apply single_Any|exact Hv|].
    cbn [rmatch ahead]. reflexivity.
  - cbn [caps]. unfold set_cap. rewrite consumed_all.
    change (x :: kt ++ ws1 ++ "="%char :: ws2 ++ val)
      with ((x :: kt) ++ ws1 ++ "="%char :: ws2 ++ val).
    rewrite consumed_prefix. reflexivity.
Qed.

(** A line is taken for an assignment exactly when, trimmed, it is a key,
    white space, [=], white space and a text on one line. *)
Lemma assignment_shape line :
  (exists cs, exec EnvParser.assignmentRe line = Some cs) <->
  exists k ws1 ws2 val,
    line = k ++ ws1 ++ "=" ++ ws2 ++ val
    /\ isIdentifier k = true
    /\ forallb isWhiteSpace ws1 = true /\ forallb isWhiteSpace ws2 = true
    /\ oneLine val = true.
Proof.
  split.
  - intros (cs & E). destruct (exec_assignment_sound _ E) as (k & ws1 & ws2 & val & H).
    exists k, ws1, ws2, val. tauto.
  - intros (k & ws1 & ws2 & val & -> & Hk & W1 & W2 & Hv).
    destruct (trimStart_split val) as (ws & Ev & W & S).
    exists [(2, trimStart val); (1, k)].
    rewrite Ev at 1. rewrite (app_assoc ws2 ws).
    apply exec_assignment_ws; try assumption.
    + rewrite forallb_app, W2, W. reflexivity.
    + now apply forallb_trimStart.
Qed.

Lemma parseVariableLine_variable line n :
  (exists v, EnvParser.parseVariableLine line n = EnvParser.mkLineResult (Some v) None) <->
  exists cs, exec EnvParser.assignmentRe (trim line) = Some cs.
Proof.
  unfold EnvParser.parseVariableLine. split.
  - intros (v & E). destruct (exec EnvParser.assignmentRe (trim line)) as [cs|]; [now exists cs|].
    discriminate.
  - intros (cs & E). rewrite E.
    destruct (exec_assignment_sound _ E) as (k & ws1 & ws2 & val & _ & Hk & _ & _ & _ & ->).
    cbn [get_cap Nat.eqb]. destruct k as [|c k]; [discriminate|].
    destruct (EnvParser.extractValueAndComment val) as [value comment].
    destruct (EnvParser.processQuotes value) as [cleanValue isQuoted]. eauto.
Qed.

End AssignmentLines.

Section Captures.
Import JS RegExp.

Lemma eat_caps ic p : forall s s', eat ic p s = Some s' -> caps s' = caps s.
Proof.
  induction p as [|c p IH]; intros s s' E; simpl in E; [now injection E as <-|].
  destruct (ahead s) as [|x t]; [discriminate|].
  destruct (char_matches ic c x); [|discriminate]. now apply IH in E.
Qed.

(** A quantifier around a matcher goes through states that a reflexive and
    transitive relation of the matcher relates. *)
Lemma passes_loop R body mn mx greedy k :
  (forall s, R s s) -> (forall a b c, R a b -> R b c -> R a c) -> passes R body ->
  forall fuel i s m,
    repeat_loop body mn mx greedy k fuel i s = Some m ->
    exists s', R s s' /\ k s' = Some m.
Proof.
  intros Hrefl Htrans Hbody fuel. induction fuel as [|fuel IH]; intros i s m E; simpl in E;
    [discriminate|].
  assert (Hagain :
    (if below i mx
     then body (fun s' => if (mn <=? i) && (length (ahead s') =? length (ahead s)) then None
                          else repeat_loop body mn mx greedy k fuel (S i) s') s
     else None) = Some m ->
    exists s', R s s' /\ k s' = Some m).
  { destruct (below i mx); [|discriminate]. intro Eb.
    apply Hbody in Eb as (s1 & R1 & E1).
    destruct ((mn <=? i) && _); [discriminate|].
    apply IH in E1 as (s' & R' & Ek). exists s'. split; [now apply Htrans with s1|exact Ek]. }
  assert (Hstop :
    (if mn <=? i then k s else None) = Some m -> exists s', R s s' /\ k s' = Some m).
  { destruct (mn <=? i); [|discriminate]. intro Ek. exists s. split; [apply Hrefl|exact Ek]. }
  destruct greedy.
  - destruct (if below i mx then _ else None) eqn:Ea.
    + injection E as <-. now apply Hagain.
    + now apply Hstop.
  - destruct (if mn <=? i then k s else None) eqn:Es.
    + injection E as <-. now apply Hstop.
    + now apply Hagain.
Qed.

(** A pattern without the group [n] leaves the capture [n] as it is. *)
Lemma passes_keeps ic n r : setsGroup n r = false -> passes (keeps n) (rmatch ic r).
Proof.
  induction r as [|c| |neg items| | | |r1 IH1 r2 IH2|r1 IH1 r2 IH2|r1 IH1 mn mx g|m r1 IH1|m];
    intros Hn k s m0 E; cbn [rmatch setsGroup] in *.
  - exists s. now split.
  - destruct (ahead s) as [|x t]; [discriminate|]. destruct (char_matches ic c x); [|discriminate].
    eexists. split; [|exact E]. reflexivity.
  - destruct (ahead s) as [|x t]; [discriminate|]. destruct (isLineTerminator x); [discriminate|].
    eexists. split; [|exact E]. reflexivity.
  - destruct (ahead s) as [|x t]; [discriminate|].
    destruct (class_matches ic neg items x); [|discriminate].
    eexists. split; [|exact E]. reflexivity.
  - destruct (behind s); [|discriminate]. exists s. now split.
  - destruct (ahead s); [|discriminate]. exists s. now split.
  - destruct (at_word_boundary s); [|discriminate]. exists s. now split.
  - apply orb_false_iff in Hn as [H1 H2].
    apply (IH1 H1) in E as (s1 & K1 & E). apply (IH2 H2) in E as (s2 & K2 & E).
    exists s2. split; [|exact E]. unfold keeps in *. congruence.
  - apply orb_false_iff in Hn as [H1 H2].
    destruct (rmatch ic r1 k s) as [m1|] eqn:E1.
    + injection E as <-. now apply (IH1 H1) in E1.
    + now apply (IH2 H2) in E.
  - apply (@passes_loop (keeps n) (rmatch ic r1) mn mx g k) in E; [exact E| | |now apply IH1].
    + reflexivity.
    + unfold keeps. intros a b c Hab Hbc. congruence.
  - apply orb_false_iff in Hn as [Hm H1].
    apply (IH1 H1) in E as (s0 & K0 & E). eexists. split; [|exact E].
    unfold keeps in *. cbn [caps set_cap get_cap]. now rewrite Hm.
  - destruct (get_cap m (caps s)) as [v|]; [|exists s; now split].
    destruct (eat ic v s) as [s'|] eqn:Ee; [|discriminate].
    exists s'. split; [|exact E]. unfold keeps. now rewrite (eat_caps _ _ _ Ee).
Qed.

Lemma quote_class q :
  class_matches false false [CChar SQ; CChar DQ] q = true -> q = SQ \/ q = DQ.
Proof. all_chars q. Qed.

(** A match of the quoted pattern: the text starts with a quote, which is
    the first capture. *)
Lemma exec_quoted_sound s cs :
  exec EnvParser.quotedRe s = Some cs ->
  exists q, get_cap 1 cs = Some [q] /\ (q = SQ \/ q = DQ).
Proof.
  unfold exec, EnvParser.quotedRe. cbn [source ignoreCase re seq].
  rewrite search_bol_0. intro E.
  destruct (rmatch _ _ _ _) as [m|] eqn:Em; [|discriminate]. injection E as <-.
  eassert (Hp : passes _ _); [|apply Hp in Em; clear Hp].
  { apply passes_Seq.
    - apply passes_Group. eapply passes_single. apply single_Class.
    - apply (passes_keeps false 1). reflexivity. }
  destruct Em as (m' & (s1' & (s1 & (q & T & Hq) & ->) & K) & [= <-]).
  exists q. split.
  - rewrite K. unfold captured. cbn [caps set_cap get_cap Nat.eqb].
    now rewrite (took_consumed T).
  - now apply quote_class.
Qed.

End Captures.

Section WellFormed.
Import JS RegExp.

Lemma indexOf_Some s c : forall i,
  indexOf s c = Some i ->
  forallb (fun x => negb (chr_eqb x c)) (firstn i s) = true.
Proof.
  induction s as [|x s IH]; intros i E; simpl in E; [discriminate|].
  destruct (chr_eqb x c) eqn:Ex; [now injection E as <-|].
  destruct (indexOf s c) as [j|]; [|discriminate]. injection E as <-.
  cbn. rewrite Ex. now apply IH.
Qed.

Lemma indexOf_None s c :
  indexOf s c = None -> forallb (fun x => negb (chr_eqb x c)) s = true.
Proof.
  induction s as [|x s IH]; intro E; simpl in E; [reflexivity|].
  destruct (chr_eqb x c) eqn:Ex; [discriminate|].
  destruct (indexOf s c) as [j|]; [discriminate|]. cbn. rewrite Ex. now apply IH.
Qed.

Lemma forallb_firstn {A} (f : A -> bool) n l : forallb f l = true -> forallb f (firstn n l) = true.
Proof.
  intro H. rewrite <- (firstn_skipn n l), forallb_app in H. now apply andb_true_iff in H.
Qed.

Lemma quote_facts q :
  q = SQ \/ q = DQ ->
  isWhiteSpace q = false
  /\ ((chr_eqb SQ q = true) \/ (chr_eqb SQ q = false /\ chr_eqb DQ q = true)).
Proof. intros [-> | ->]; split; auto. Qed.

(** A text between two quotes of one kind is taken as quoted. *)
Lemma processQuotes_between q body :
  q = SQ \/ q = DQ -> snd (EnvParser.processQuotes ([q] ++ body ++ [q])) = true.
Proof.
  intro Hq. destruct (quote_facts Hq) as (Hw & Hc). unfold EnvParser.processQuotes.
  assert (Et : trim ([q] ++ body ++ [q]) = [q] ++ body ++ [q]).
  { apply trim_ends with (d := q); [discriminate|exact Hw|].
    change ([q] ++ body ++ [q]) with ((q :: body) ++ [q]). now rewrite last_last. }
  rewrite Et.
  assert (El : (2 <=? length ([q] ++ body ++ [q])) = true).
  { apply Nat.leb_le. cbn. rewrite length_app. cbn. lia. }
  rewrite El.
  assert (Es : forall c, startsWith ([q] ++ body ++ [q]) [c] = chr_eqb c q).
  { intro c. cbn [startsWith app]. destruct (body ++ [q]); cbn [startsWith];
      now rewrite andb_true_r. }
  assert (Ee : forall c, endsWith ([q] ++ body ++ [q]) [c] = chr_eqb c q).
  { intro c. unfold endsWith. change ([q] ++ body ++ [q]) with ((q :: body) ++ [q]).
    rewrite rev_app_distr. cbn [rev app startsWith]. destruct (rev body ++ [q]);
      cbn [startsWith]; now rewrite andb_true_r. }
  rewrite !Es, !Ee.
  destruct Hc as [-> |[-> ->]]; reflexivity.
Qed.

Lemma parseVariableLine_wellFormed line n v :
  EnvParser.parseVariableLine line n = EnvParser.mkLineResult (Some v) None -> wellFormed n v.
Proof.
  unfold EnvParser.parseVariableLine.
  destruct (exec EnvParser.assignmentRe (trim line)) as [cs|] eqn:E; [|discriminate].
  destruct (exec_assignment_sound _ E) as (k & ws1 & ws2 & val & _ & Hk & _ & _ & Hv & ->).
  cbn [get_cap Nat.eqb]. destruct k as [|c k]; [discriminate|].
  unfold EnvParser.extractValueAndComment.
  destruct (exec EnvParser.quotedRe val) as [qs|] eqn:Eq.
  - destruct (exec_quoted_sound _ Eq) as (q & E1 & Hq). rewrite E1. cbn [tpl].
    pose proof (processQuotes_between (tpl (get_cap 2 qs)) Hq) as Hp.
    destruct (EnvParser.processQuotes _) as [cleanValue isQ]. cbn [snd] in Hp. subst isQ.
    intros [= <-]. unfold wellFormed. cbn [key lineNumber hasComment isQuoted value].
    repeat split; try assumption; try discriminate.
    intros c0. destruct (get_cap 3 qs); [|discriminate]. intros [= <-]. apply trim_idem.
  - assert (Hplain : forall X comment,
               noHash X = true -> oneLine X = true ->
               (forall c0, comment = Some c0 -> trim c0 = c0) ->
               forall cleanValue isQ,
                 EnvParser.processQuotes (trim X) = (cleanValue, isQ) ->
                 wellFormed n (mkEnvVariable (c :: k) cleanValue n isQ comment)).
    { intros X comment HX HL HC cleanValue isQ Ep. unfold wellFormed.
      cbn [key lineNumber hasComment isQuoted value].
      split; [exact Hk|]. split; [reflexivity|]. split; [exact HC|].
      intros ->. unfold EnvParser.processQuotes in Ep. rewrite trim_idem in Ep.
      repeat match type of Ep with
             | (if ?b then _ else _) = _ => destruct b; [discriminate|]
             end.
      injection Ep as <-. split; [apply trim_idem|].
      split; now apply forallb_trim. }
    destruct (indexOf val HASH) as [i|] eqn:Ei.
    + destruct (EnvParser.processQuotes _) as [cleanValue isQ] eqn:Ep. intros [= <-].
      eapply Hplain; [| | |exact Ep].
      * now apply indexOf_Some.
      * now apply forallb_firstn.
      * intros c0 [= <-]. apply trim_idem.
    + destruct (EnvParser.processQuotes _) as [cleanValue isQ] eqn:Ep. intros [= <-].
      eapply Hplain; [| | |exact Ep].
      * now apply indexOf_None.
      * exact Hv.
      * discriminate.
Qed.

Lemma parseLine_wellFormed acc n line :
  exists new,
    variables (EnvParser.parseLine acc n line) = variables acc ++ new
    /\ Forall (wellFormed n) new.
Proof.
  unfold EnvParser.parseLine.
  destruct (str_eqb (trim line) ""); [exists []; now rewrite app_nil_r|].
  destruct (startsWith (trim line) [HASH]); [exists []; now rewrite app_nil_r|].
  destruct (parseVariableLine_cases line n) as [(v & E & _)|E]; rewrite E; cbn.
  - exists [v]. split; [reflexivity|]. constructor; [|constructor].
    now apply parseVariableLine_wellFormed with (line := line).
  - exists []. now rewrite app_nil_r.
Qed.

(** The variable records of a parse, line by line: those of the lines
    before, then what the line gives. *)
Lemma parseLines_wellFormed lines : forall i acc,
  exists new,
    variables (EnvParser.parseLines lines i acc) = variables acc ++ new
    /\ Forall (fun v => wellFormed (lineNumber v) v
                        /\ i < lineNumber v <= i + length lines) new
    /\ forall pre v1 mid v2 post,
         new = pre ++ v1 :: mid ++ v2 :: post -> lineNumber v1 < lineNumber v2.
Proof.
  induction lines as [|line lines IH]; intros i acc; cbn [EnvParser.parseLines].
  - exists []. rewrite app_nil_r. split; [reflexivity|]. split; [constructor|].
    intros pre v1 mid v2 post E. now destruct pre.
  - destruct (parseLine_wellFormed acc (i + 1) line) as (new1 & E1 & F1).
    destruct (IH (S i) (EnvParser.parseLine acc (i + 1) line)) as (new2 & E2 & F2 & S2).
    exists (new1 ++ new2). rewrite E2, E1, app_assoc. split; [reflexivity|].
    assert (F1' : Forall (fun v => wellFormed (lineNumber v) v /\ lineNumber v = i + 1) new1).
    { eapply Forall_impl; [|exact F1]. intros v Hv. pose proof Hv as (_ & En & _).
      rewrite En. now split. }
    assert (Hone : new1 = [] \/ exists v, new1 = [v]).
    { unfold EnvParser.parseLine in E1.
      destruct (str_eqb (trim line) "");
        [left; apply (app_inv_head (variables acc)); now rewrite app_nil_r|].
      destruct (startsWith (trim line) [HASH]);
        [left; apply (app_inv_head (variables acc)); now rewrite app_nil_r|].
      destruct (parseVariableLine_cases line (i + 1)) as [(v & E & _)|E]; rewrite E in E1;
        cbn in E1.
      - right. exists v. now apply (app_inv_head (variables acc)).
      - left. apply (app_inv_head (variables acc)). now rewrite app_nil_r. }
    split.
    + apply Forall_app. split.
      * eapply Forall_impl; [|exact F1']. intros v [Hw En]. split; [exact Hw|].
        cbn [length]. lia.
      * eapply Forall_impl; [|exact F2]. intros v [Hw Hn]. split; [exact Hw|].
        cbn [length]. lia.
    + intros pre v1 mid v2 post E.
      destruct Hone as [-> |(v & ->)].
      * cbn [app] in E. now apply (S2 pre v1 mid v2 post).
      * inversion F1' as [|? ? [_ Ev] _]; subst.
        destruct pre as [|p pre]; cbn in E.
        -- injection E as <- E. rewrite Forall_forall in F2.
           destruct (F2 v2) as [_ Hn]; [rewrite E; apply in_or_app; right; now left|]. lia.
        -- injection E as <- E. now apply (S2 pre v1 mid v2 post).
Qed.

End WellFormed.

(** X16.  What the parser makes is well formed.  Every variable record of
    a parse has a key of the identifier grammar and the number of one of
    the lines, the records come in the order of their lines, and an inline
    comment has no white space at either end.  The value of a record that
    is not quoted has no white space at either end, holds no [#] and no
    line terminator. *)
Theorem parsed_variables_are_well_formed (content : str) :
  let parsed := EnvParser.parseContent content in
  Forall (fun v => wellFormed (lineNumber v) v
                   /\ 1 <= lineNumber v <= length (JS.split_lines content))
         (variables parsed)
  /\ forall pre v1 mid v2 post,
       variables parsed = pre ++ v1 :: mid ++ v2 :: post -> lineNumber v1 < lineNumber v2.
Proof.
  unfold EnvParser.parseContent.
  destruct (parseLines_wellFormed (JS.split_lines content) 0 (mkParsedEnvFile [] [] [] []))
    as (new & E & F & S).
  cbn [variables app] in E. cbv zeta. rewrite E. split; [|exact S].
  eapply Forall_impl; [|exact F]. intros v [Hw Hn]. split; [exact Hw|lia].
Qed.

Section Spaces.
Import JS RegExp.

Lemma identifier_ends k d :
  isIdentifier k = true -> k <> [] /\ isWhiteSpace (hd d k) = false.
Proof.
  destruct k as [|x t]; [discriminate|]. cbn [isIdentifier hd]. intro H.
  apply andb_true_iff in H as [Hx _]. split; [discriminate|]. now apply identStart_char in Hx.
Qed.

(** The trimmed text of a line made of a key, white space, [=], white space
    and a trimmed text. *)
Lemma trim_assignment k ws1 ws2 val :
  isIdentifier k = true ->
  forallb isWhiteSpace ws1 = true -> forallb isWhiteSpace ws2 = true ->
  trim val = val ->
  trim (k ++ ws1 ++ "=" ++ ws2 ++ val)
  = k ++ ws1 ++ "=" ++ (if str_eqb val "" then "" else ws2 ++ val).
Proof.
  intros Hk W1 W2 Hv. destruct (@identifier_ends k " "%char Hk) as [Hne Hh].
  destruct val as [|y val].
  - change (str_eqb [] "") with true. cbv iota. rewrite !app_nil_r.
    replace (k ++ ws1 ++ "=" ++ ws2) with ((k ++ ws1 ++ "=") ++ ws2)
      by now rewrite <- !app_assoc.
    apply trim_app_ws with (d := " "%char); [now destruct k| | |exact W2].
    + now destruct k.
    + cbn [list_ascii_of_string]. rewrite app_assoc, last_last. reflexivity.
  - change (str_eqb (y :: val) "") with false. cbv iota.
    destruct (@trim_fixed (y :: val) " "%char) as [_ Hl]; [discriminate|exact Hv|].
    apply trim_ends with (d := " "%char).
    + now destruct k.
    + now destruct k.
    + rewrite !app_assoc, last_app_cons. exact Hl.
Qed.

Lemma parseVariableLine_spaces k ws1 ws2 val n :
  isIdentifier k = true ->
  forallb isWhiteSpace ws1 = true -> forallb isWhiteSpace ws2 = true ->
  oneLine val = true -> trim val = val ->
  EnvParser.parseVariableLine (k ++ ws1 ++ "=" ++ ws2 ++ val) n
  = EnvParser.parseVariableLine (k ++ "=" ++ val) n.
Proof.
  intros Hk W1 W2 Hl Hv.
  assert (Hs : stops isWhiteSpace val).
  { destruct val as [|y val]; [exact I|].
    destruct (@trim_fixed (y :: val) " "%char) as [Hh _]; [discriminate|exact Hv|exact Hh]. }
  assert (E1 : exec EnvParser.assignmentRe (trim (k ++ ws1 ++ "=" ++ ws2 ++ val))
               = Some [(2, val); (1, k)]).
  { rewrite trim_assignment by assumption. destruct val as [|y val].
    - exact (@exec_assignment_ws k ws1 [] [] Hk W1 eq_refl eq_refl I).
    - now apply exec_assignment_ws. }
  assert (E2 : exec EnvParser.assignmentRe (trim (k ++ "=" ++ val)) = Some [(2, val); (1, k)]).
  { pose proof (@trim_assignment k [] [] val Hk eq_refl eq_refl Hv) as Et.
    cbn [app] in Et. rewrite Et. destruct val as [|y val].
    - exact (@exec_assignment_ws k [] [] [] Hk eq_refl eq_refl eq_refl I).
    - exact (@exec_assignment_ws k [] [] (y :: val) Hk eq_refl eq_refl Hl Hs). }
  unfold EnvParser.parseVariableLine. rewrite E1, E2. cbn [get_cap Nat.eqb].
  destruct k as [|c k]; [discriminate|reflexivity].
Qed.

End Spaces.

(** X17.  Which lines the parser takes for assignments.  A line gives a
    variable record exactly when its trimmed text is a key of the
    identifier grammar, white space, [=], white space and a text without
    line terminator; every other line that is neither blank nor a comment
    gives the parse error with the trimmed text.  White space around [=]
    changes nothing: the line gives what the line without it gives. *)
Theorem assignment_lines_accepted :
  (forall line n,
      (exists v, EnvParser.parseVariableLine line n = EnvParser.mkLineResult (Some v) None)
      <-> exists k ws1 ws2 val,
            JS.trim line = k ++ ws1 ++ "=" ++ ws2 ++ val
            /\ isIdentifier k = true
            /\ forallb JS.isWhiteSpace ws1 = true /\ forallb JS.isWhiteSpace ws2 = true
            /\ oneLine val = true)
  /\ (forall line n,
         (forall v, EnvParser.parseVariableLine line n <> EnvParser.mkLineResult (Some v) None) ->
         EnvParser.parseVariableLine line n = EnvParser.invalidAssignment n (JS.trim line))
  /\ (forall k ws1 ws2 val n,
         isIdentifier k = true ->
         forallb JS.isWhiteSpace ws1 = true -> forallb JS.isWhiteSpace ws2 = true ->
         oneLine val = true -> JS.trim val = val ->
         EnvParser.parseVariableLine (k ++ ws1 ++ "=" ++ ws2 ++ val) n
         = EnvParser.parseVariableLine (k ++ "=" ++ val) n).
Proof.
  split; [|split].
  - intros line n. rewrite parseVariableLine_variable. apply assignment_shape.
  - intros line n Hno. destruct (parseVariableLine_cases line n) as [(v & E & _)|E];
      [now destruct (Hno v)|exact E].
  - intros. now apply parseVariableLine_spaces.
Qed.

(** [PORT = 3000] reads as [PORT=3000]. *)
Lemma assignment_lines_accepted_witness :
  EnvParser.parseVariableLine "PORT = 3000" 1 = EnvParser.parseVariableLine "PORT=3000" 1.
Proof.
  exact (proj2 (proj2 assignment_lines_accepted) "PORT" " " " " "3000" 1
           eq_refl eq_refl eq_refl eq_refl eq_refl).
Defined.

Section MoreTrim.
Import JS.

Lemma trimStart_app_nonws s x r :
  isWhiteSpace x = false -> trimStart (s ++ x :: r) = trimStart s ++ x :: r.
Proof.
  intro Hx. induction s as [|y s IH]; cbn [app trimStart]; [now rewrite Hx|].
  destruct (isWhiteSpace y); [exact IH|reflexivity].
Qed.

Lemma trimEnd_app_nonws a x c :
  isWhiteSpace x = false -> trimEnd (a ++ x :: c) = a ++ x :: trimEnd c.
Proof.
  intro Hx. unfold trimEnd. rewrite rev_app_distr. cbn [rev]. rewrite <- app_assoc. cbn [app].
  rewrite trimStart_app_nonws by exact Hx.
  rewrite rev_app_distr. cbn [rev]. rewrite rev_involutive, <- app_assoc. reflexivity.
Qed.

Lemma trimStart_all_ws s : forallb isWhiteSpace s = true -> trimStart s = [].
Proof.
  induction s as [|x s IH]; [reflexivity|]. cbn. intro H. apply andb_true_iff in H as [-> H].
  now apply IH.
Qed.

Lemma trim_trimStart s : trim (trimStart s) = trim s.
Proof.
  unfold trim. f_equal. apply trimStart_fixed. now destruct (trimStart_split s) as (_ & _ & _ & S).
Qed.

Lemma trimStart_trimEnd s : trimStart (trimEnd s) = trimEnd (trimStart s).
Proof.
  destruct (trimStart_split s) as (ws & E & W & S).
  destruct (trimStart s) as [|x t] eqn:Et.
  - rewrite app_nil_r in E. subst ws.
    unfold trimEnd at 1. rewrite trimStart_all_ws; [reflexivity|].
    clear S. fold (trimEnd s). destruct (trimEnd_split s) as (ws' & E' & _).
    rewrite E', forallb_app in W. now apply andb_true_iff in W.
  - cbn in S. rewrite E at 1. rewrite trimEnd_app_nonws by exact S.
    rewrite trimStart_app_nonws by exact S. rewrite (trimStart_all_ws _ W).
    cbn [app]. symmetry. apply (trimEnd_app_nonws []). exact S.
Qed.

Lemma trim_trimEnd s : trim (trimEnd s) = trim s.
Proof.
  unfold trim. rewrite trimStart_trimEnd. unfold trimEnd. rewrite rev_involutive. f_equal.
  apply trimStart_fixed. now destruct (trimStart_split (rev (trimStart s))) as (_ & _ & _ & S).
Qed.

Lemma trimStart_is_trim_ws s :
  exists ws, trimStart s = trim s ++ ws /\ forallb isWhiteSpace ws = true.
Proof. unfold trim. apply trimEnd_split. Qed.

Lemma indexOf_app a c b :
  without c a = true -> indexOf (a ++ c :: b) c = Some (length a).
Proof.
  induction a as [|x a IH]; cbn [app indexOf length without forallb]; intro H.
  - now rewrite (proj2 (chr_eqb_eq c c) eq_refl).
  - apply andb_true_iff in H as [Hx H]. apply negb_true_iff in Hx. rewrite Hx.
    now rewrite (IH H).
Qed.

End MoreTrim.

Section InlineComments.
Import JS RegExp.

Lemma hash_char : isWhiteSpace HASH = false /\ isLineTerminator HASH = false.
Proof. split; reflexivity. Qed.

Lemma exec_quoted_noquote s :
  match s with
  | x :: _ => class_matches false false [CChar SQ; CChar DQ] x = false
  | [] => True
  end ->
  exec EnvParser.quotedRe s = None.
Proof.
  intro H. unfold exec, EnvParser.quotedRe. cbn [source ignoreCase re seq].
  rewrite search_bol_0. cbn [rmatch ahead]. destruct s as [|x t]; [reflexivity|].
  now rewrite H.
Qed.

Lemma not_quote_class x :
  negb (chr_eqb x SQ || chr_eqb x DQ) = true ->
  class_matches false false [CChar SQ; CChar DQ] x = false
  /\ chr_eqb SQ x = false /\ chr_eqb DQ x = false.
Proof. all_chars x. Qed.

(** A text that starts with no quote is taken as it is, trimmed. *)
Lemma processQuotes_unquoted s :
  match s with
  | x :: _ => negb (chr_eqb x SQ || chr_eqb x DQ) = true
  | [] => True
  end ->
  trim s = s -> EnvParser.processQuotes s = (s, false).
Proof.
  intros H Et. unfold EnvParser.processQuotes. rewrite Et.
  destruct s as [|x t]; [reflexivity|].
  apply not_quote_class in H as (_ & H1 & H2).
  cbn [startsWith]. now rewrite H1, H2.
Qed.

Lemma startsPlain_trim s :
  startsPlain s = true ->
  match trim s with
  | x :: _ => negb (chr_eqb x SQ || chr_eqb x DQ) = true
  | [] => True
  end.
Proof.
  unfold startsPlain. destruct (trimStart_is_trim_ws s) as (ws & E & _). rewrite E.
  destruct (trim s) as [|x t]; [trivial|]. cbn [app]. auto.
Qed.

(** An assignment with an inline comment after a value that is not
    quoted. *)
Lemma parse_inline_comment k val c n :
  isIdentifier k = true ->
  without HASH val = true -> oneLine val = true -> startsPlain val = true ->
  oneLine c = true ->
  EnvParser.parseVariableLine (k ++ "=" ++ val ++ "#" ++ c) n
  = EnvParser.mkLineResult (Some (mkEnvVariable k (trim val) n false (Some (trim c)))) None.
Proof.
  intros Hk Hh Hl Hp Hc. destruct (@identifier_ends k " "%char Hk) as [Hne Hhd].
  destruct (trimStart_split val) as (ws & Ev & W & S).
  assert (Et : trim (k ++ "=" ++ val ++ "#" ++ c)
               = k ++ [] ++ "=" ++ ws ++ (trimStart val ++ HASH :: trimEnd c)).
  { unfold trim.
    assert (E1 : trimStart (k ++ "=" ++ val ++ "#" ++ c) = k ++ "=" ++ val ++ "#" ++ c).
    { apply trimStart_fixed. destruct k; [congruence|exact Hhd]. }
    rewrite E1. cbn [list_ascii_of_string app].
    rewrite (@trimEnd_app_nonws k "="%char) by reflexivity.
    rewrite (@trimEnd_app_nonws val HASH) by reflexivity.
    rewrite Ev at 1. now rewrite <- app_assoc. }
  assert (Hone : oneLine (trimStart val ++ HASH :: trimEnd c) = true).
  { unfold oneLine in *. rewrite forallb_app. cbn [forallb].
    rewrite (forallb_trimStart _ _ Hl). cbn.
    destruct (trimEnd_split c) as (ws' & Ec & _). rewrite Ec, forallb_app in Hc.
    now apply andb_true_iff in Hc. }
  assert (Hstop : stops isWhiteSpace (trimStart val ++ HASH :: trimEnd c)).
  { destruct (trimStart val) as [|x t]; [reflexivity|exact S]. }
  unfold EnvParser.parseVariableLine. rewrite Et.
  rewrite (@exec_assignment_ws k [] ws _ Hk eq_refl W Hone Hstop).
  cbn [get_cap Nat.eqb]. destruct k as [|c0 k]; [discriminate|].
  unfold EnvParser.extractValueAndComment.
  rewrite exec_quoted_noquote.
  2:{ unfold startsPlain in Hp. destruct (trimStart val) as [|x t]; [reflexivity|].
      now apply not_quote_class in Hp. }
  assert (Hh' : without HASH (trimStart val) = true) by now apply forallb_trimStart.
  rewrite (indexOf_app _ _ _ Hh'). unfold substringTo, substringFrom.
  rewrite firstn_app, firstn_all, Nat.sub_diag. cbn [firstn]. rewrite app_nil_r.
  replace (length (trimStart val) + 1) with (length (trimStart val ++ [HASH]))
    by (rewrite length_app; reflexivity).
  replace (trimStart val ++ HASH :: trimEnd c) with ((trimStart val ++ [HASH]) ++ trimEnd c)
    by (rewrite <- app_assoc; reflexivity).
  rewrite skipn_app, skipn_all, Nat.sub_diag. cbn [skipn app].
  rewrite trim_trimStart, trim_trimEnd.
  rewrite processQuotes_unquoted; [reflexivity| |apply trim_idem].
  now apply startsPlain_trim.
Qed.


Lemma trimEnd_is_ws_trim s :
  exists ws, trimEnd s = ws ++ trim s /\ forallb isWhiteSpace ws = true.
Proof.
  destruct (trimStart_split (trimEnd s)) as (ws & E & W & _). exists ws.
  rewrite trimStart_trimEnd in E. now split.
Qed.

(** An assignment without [#] whose value is not quoted. *)
Lemma parse_no_comment k val n :
  isIdentifier k = true ->
  without HASH val = true -> oneLine val = true -> startsPlain val = true ->
  EnvParser.parseVariableLine (k ++ "=" ++ val) n
  = EnvParser.mkLineResult (Some (mkEnvVariable k (trim val) n false None)) None.
Proof.
  intros Hk Hh Hl Hp. destruct (@identifier_ends k " "%char Hk) as [Hne Hhd].
  destruct (trimEnd_is_ws_trim val) as (ws & Ev & W).
  assert (Et : trim (k ++ "=" ++ val) = k ++ [] ++ "=" ++ ws ++ trim val).
  { unfold trim at 1.
    assert (E1 : trimStart (k ++ "=" ++ val) = k ++ "=" ++ val).
    { apply trimStart_fixed. destruct k; [congruence|exact Hhd]. }
    rewrite E1. cbn [list_ascii_of_string app].
    rewrite (@trimEnd_app_nonws k "="%char) by reflexivity. now rewrite Ev. }
  assert (Hstop : stops isWhiteSpace (trim val)).
  { destruct (trim val) as [|x t] eqn:E; [exact I|].
    destruct (@trim_tight val x) as [Hx _]; [congruence|]. now rewrite E in Hx. }
  pose proof (startsPlain_trim _ Hp) as Hq.
  unfold EnvParser.parseVariableLine. rewrite Et.
  rewrite (@exec_assignment_ws k [] ws _ Hk eq_refl W (forallb_trim _ _ Hl) Hstop).
  cbn [get_cap Nat.eqb]. destruct k as [|c0 k]; [discriminate|].
  unfold EnvParser.extractValueAndComment.
  rewrite exec_quoted_noquote.
  2:{ destruct (trim val) as [|x t]; [exact I|]. now apply not_quote_class in Hq. }
  rewrite indexOf_none by (apply forallb_trim; exact Hh).
  rewrite trim_idem, processQuotes_unquoted; [reflexivity|exact Hq|apply trim_idem].
Qed.

End InlineComments.

Section QuotedValues.
Import JS RegExp.

(** One round of an optional part that reads something. *)
Lemma opt_once ic r k s m :
  ahead s <> [] ->
  rmatch ic r (fun s' => if length (ahead s') =? length (ahead s) then None else k s') s = Some m ->
  rmatch ic (opt r) k s = Some m.
Proof.
  intros Hne H. unfold opt. cbn [rmatch]. destruct (ahead s) as [|x t] eqn:Ea; [congruence|].
  cbn [length Nat.add]. rewrite Nat.add_1_r. cbn [repeat_loop below Nat.ltb Nat.leb andb].
  match goal with
  | |- match ?X with _ => _ end = _ =>
      replace X with (Some m); [reflexivity|symmetry; rewrite <- Ea in H; exact H]
  end.
Qed.

Lemma not_this_quote q x :
  q = SQ \/ q = DQ -> negb (chr_eqb x q) = true -> char_matches false q x = false.
Proof. intros [-> | ->]; all_chars x. Qed.

Lemma middle_not_nil {A} (l l' : list A) x : l ++ x :: l' <> [].
Proof. now destruct l. Qed.

(** The quoted pattern on a text between two quotes of one kind, with no
    such quote inside. *)
Lemma exec_quoted_pair q body :
  q = SQ \/ q = DQ -> without q body = true -> oneLine body = true ->
  exec EnvParser.quotedRe (q :: body ++ [q]) = Some [(2, body); (1, [q])].
Proof.
  intros Hq Hb Hl. unfold exec, EnvParser.quotedRe. cbn [source ignoreCase re seq].
  rewrite search_bol_0. cbn [rmatch ahead].
  replace (class_matches false false [CChar SQ; CChar DQ] q) with true
    by (now destruct Hq as [-> | ->]).
  unfold step. cbn [behind ahead caps].
  replace (consumed (mkState [] (q :: body ++ [q]) []) (mkState [q] (body ++ [q]) []))
    with [q] by (symmetry; apply (consumed_prefix [q])).
  assert (Hplain : forall x, In x body -> char_matches false q x = false).
  { intros x Hx. apply not_this_quote; [exact Hq|].
    unfold without in Hb. rewrite forallb_forall in Hb. now apply Hb. }
  eapply exec_caps.
  - eapply lazy_star_until; [apply single_Any|exact Hl| |].
    + intros b' x t Hx. unfold set_cap. cbn [caps behind ahead get_cap Nat.eqb eat].
      now rewrite (Hplain x Hx).
    + unfold set_cap. cbn [caps behind ahead get_cap Nat.eqb eat].
      replace (char_matches false q q) with true by (now destruct Hq as [-> | ->]).
      unfold step, opt. cbn [behind ahead caps].
      cbn. reflexivity.
  - cbn [caps]. unfold set_cap.
    rewrite length_app. cbn [length]. rewrite Nat.add_sub, firstn_app, Nat.sub_diag, firstn_all.
    cbn [firstn]. rewrite app_nil_r. reflexivity.
Qed.

(** The same with white space, [#] and a comment after the closing
    quote. *)
Lemma exec_quoted_comment q body ws c :
  q = SQ \/ q = DQ -> without q body = true -> oneLine body = true ->
  forallb isWhiteSpace ws = true -> oneLine c = true ->
  exec EnvParser.quotedRe (q :: body ++ q :: ws ++ HASH :: c)
  = Some [(3, ws ++ HASH :: c); (2, body); (1, [q])].
Proof.
  intros Hq Hb Hl W Hc. unfold exec, EnvParser.quotedRe. cbn [source ignoreCase re seq].
  rewrite search_bol_0. cbn [rmatch ahead].
  replace (class_matches false false [CChar SQ; CChar DQ] q) with true
    by (now destruct Hq as [-> | ->]).
  unfold step. cbn [behind ahead caps].
  replace (consumed (mkState [] (q :: body ++ q :: ws ++ HASH :: c) [])
                    (mkState [q] (body ++ q :: ws ++ HASH :: c) []))
    with [q] by (symmetry; apply (consumed_prefix [q])).
  assert (Hplain : forall x, In x body -> char_matches false q x = false).
  { intros x Hx. apply not_this_quote; [exact Hq|].
    unfold without in Hb. rewrite forallb_forall in Hb. now apply Hb. }
  eapply exec_caps.
  - eapply lazy_star_until; [apply single_Any|exact Hl| |].
    + intros b' x t Hx. unfold set_cap. cbn [caps behind ahead get_cap Nat.eqb eat].
      now rewrite (Hplain x Hx).
    + unfold set_cap. cbn [caps behind ahead get_cap Nat.eqb eat].
      replace (char_matches false q q) with true by (now destruct Hq as [-> | ->]).
      unfold step. cbn [behind ahead caps].
      apply opt_once; [apply middle_not_nil|].
      cbn [rmatch seq ahead behind caps].
      eapply greedy_star; [apply single_Class| | |].
      * rewrite forallb_forall in *. intros x Hx. cbn. rewrite (W x Hx). reflexivity.
      * reflexivity.
      * cbn [rmatch ahead]. change (char_matches false "#" HASH) with true. cbn iota.
        unfold step. cbn [behind ahead caps].
        eapply greedy_star_all; [apply single_Any|exact Hc|].
        cbn [ahead behind caps length]. rewrite length_app. cbn [length].
        rewrite Nat.add_succ_r. cbn [Nat.eqb]. reflexivity.
  - cbn [caps]. unfold set_cap. rewrite consumed_all.
    now rewrite (consumed_prefix body).
Qed.

(** A text between two quotes of one kind, as [processQuotes] reads it:
    single quotes keep the text, double quotes replace its escapes. *)
Lemma processQuotes_pair q body :
  q = SQ \/ q = DQ ->
  EnvParser.processQuotes ([q] ++ body ++ [q])
  = (if chr_eqb q SQ then body else unescape body, true).
Proof.
  intro Hq. destruct (quote_facts Hq) as (Hw & Hc). unfold EnvParser.processQuotes.
  assert (Et : trim ([q] ++ body ++ [q]) = [q] ++ body ++ [q]).
  { apply trim_ends with (d := q); [discriminate|exact Hw|].
    change ([q] ++ body ++ [q]) with ((q :: body) ++ [q]). now rewrite last_last. }
  rewrite Et.
  assert (El : (2 <=? length ([q] ++ body ++ [q])) = true).
  { apply Nat.leb_le. cbn. rewrite length_app. cbn. lia. }
  rewrite El.
  assert (Es : forall c, startsWith ([q] ++ body ++ [q]) [c] = chr_eqb c q).
  { intro c. cbn [startsWith app]. destruct (body ++ [q]); cbn [startsWith];
      now rewrite andb_true_r. }
  assert (Ee : forall c, endsWith ([q] ++ body ++ [q]) [c] = chr_eqb c q).
  { intro c. unfold endsWith. change ([q] ++ body ++ [q]) with ((q :: body) ++ [q]).
    rewrite rev_app_distr. cbn [rev app startsWith]. destruct (rev body ++ [q]);
      cbn [startsWith]; now rewrite andb_true_r. }
  assert (Hs : slice_1_m1 ([q] ++ body ++ [q]) = body).
  { unfold slice_1_m1. cbn [app skipn length]. rewrite length_app. cbn [length].
    replace (S (length body + 1) - 2) with (length body) by lia.
    now rewrite firstn_app, Nat.sub_diag, firstn_all, app_nil_r. }
  rewrite !Es, !Ee, Hs. destruct Hq as [-> | ->]; reflexivity.
Qed.

Lemma oneLine_app a b : oneLine (a ++ b) = oneLine a && oneLine b.
Proof. apply forallb_app. Qed.

Lemma quote_oneLine q : q = SQ \/ q = DQ -> isLineTerminator q = false.
Proof. now intros [-> | ->]. Qed.

(** A quoted value on an assignment line. *)
Lemma parse_quoted k q body n :
  isIdentifier k = true -> q = SQ \/ q = DQ ->
  without q body = true -> oneLine body = true ->
  EnvParser.parseVariableLine (k ++ "=" ++ [q] ++ body ++ [q]) n
  = EnvParser.mkLineResult
      (Some (mkEnvVariable k (if chr_eqb q SQ then body else unescape body) n true None)) None.
Proof.
  intros Hk Hq Hb Hl. destruct (@identifier_ends k " "%char Hk) as [Hne Hhd].
  destruct (quote_facts Hq) as (Hw & _). pose proof (quote_oneLine Hq) as Hql.
  assert (Et : trim (k ++ "=" ++ [q] ++ body ++ [q]) = k ++ [] ++ "=" ++ [] ++ (q :: body ++ [q])).
  { apply trim_ends with (d := " "%char).
    - now destruct k.
    - destruct k; [congruence|exact Hhd].
    - cbn [list_ascii_of_string app]. rewrite last_app_cons.
      change ("="%char :: q :: body ++ [q]) with (("="%char :: q :: body) ++ [q]).
      now rewrite last_last. }
  unfold EnvParser.parseVariableLine. rewrite Et.
  rewrite (@exec_assignment_ws k [] [] _ Hk eq_refl eq_refl).
  2:{ unfold oneLine in *. cbn [forallb]. rewrite forallb_app, Hl. cbn [forallb].
      now rewrite Hql. }
  2:{ exact Hw. }
  cbn [get_cap Nat.eqb]. destruct k as [|c0 k]; [discriminate|].
  unfold EnvParser.extractValueAndComment.
  rewrite (@exec_quoted_pair q body Hq Hb Hl). cbn [get_cap Nat.eqb tpl].
  now rewrite (@processQuotes_pair q body Hq).
Qed.

Lemma trimEnd_idem s : trimEnd (trimEnd s) = trimEnd s.
Proof.
  unfold trimEnd. rewrite rev_involutive. f_equal.
  apply trimStart_fixed. now destruct (trimStart_split (rev s)) as (_ & _ & _ & S).
Qed.

(** A quoted value followed by a comment. *)
Lemma parse_quoted_comment k q body ws c n :
  isIdentifier k = true -> q = SQ \/ q = DQ ->
  without q body = true -> oneLine body = true ->
  forallb isWhiteSpace ws = true -> oneLine ws = true -> oneLine c = true ->
  EnvParser.parseVariableLine (k ++ "=" ++ [q] ++ body ++ [q] ++ ws ++ "#" ++ c) n
  = EnvParser.mkLineResult
      (Some (mkEnvVariable k (if chr_eqb q SQ then body else unescape body) n true
               (Some (trim c)))) None.
Proof.
  intros Hk Hq Hb Hl W Wl Hc. destruct (@identifier_ends k " "%char Hk) as [Hne Hhd].
  destruct (quote_facts Hq) as (Hw & _). pose proof (quote_oneLine Hq) as Hql.
  assert (Et : trim (k ++ "=" ++ [q] ++ body ++ [q] ++ ws ++ "#" ++ c)
               = k ++ [] ++ "=" ++ [] ++ (q :: body ++ q :: ws ++ HASH :: trimEnd c)).
  { unfold trim.
    assert (E1 : trimStart (k ++ "=" ++ [q] ++ body ++ [q] ++ ws ++ "#" ++ c)
                 = k ++ "=" ++ [q] ++ body ++ [q] ++ ws ++ "#" ++ c).
    { apply trimStart_fixed. destruct k; [congruence|exact Hhd]. }
    rewrite E1. cbn [list_ascii_of_string app].
    rewrite (@trimEnd_app_nonws k "="%char) by reflexivity.
    change (q :: body ++ q :: ws ++ "#"%char :: c)
      with ([] ++ q :: body ++ q :: ws ++ HASH :: c).
    rewrite (@trimEnd_app_nonws [] q) by exact Hw. cbn [app].
    rewrite (@trimEnd_app_nonws body q) by exact Hw.
    now rewrite (@trimEnd_app_nonws ws HASH) by reflexivity. }
  assert (Htc : oneLine (trimEnd c) = true).
  { destruct (trimEnd_split c) as (ws' & Ec & _). rewrite Ec, oneLine_app in Hc.
    now apply andb_true_iff in Hc. }
  unfold EnvParser.parseVariableLine. rewrite Et.
  rewrite (@exec_assignment_ws k [] [] _ Hk eq_refl eq_refl).
  2:{ change (q :: body ++ q :: ws ++ HASH :: trimEnd c)
        with ([q] ++ body ++ [q] ++ ws ++ [HASH] ++ trimEnd c).
      rewrite !oneLine_app, Hl, Wl, Htc. unfold oneLine. cbn [forallb]. now rewrite Hql. }
  2:{ exact Hw. }
  cbn [get_cap Nat.eqb]. destruct k as [|c0 k]; [discriminate|].
  unfold EnvParser.extractValueAndComment.
  rewrite (@exec_quoted_comment q body ws (trimEnd c) Hq Hb Hl W Htc). cbn [get_cap Nat.eqb tpl].
  rewrite (@processQuotes_pair q body Hq).
  assert (Ec : trim (substringFrom (trim (ws ++ HASH :: trimEnd c)) 1) = trim c).
  { unfold trim at 2. rewrite (trimStart_ws _ _ W).
    rewrite (@trimStart_fixed (HASH :: trimEnd c)) by reflexivity.
    change (HASH :: trimEnd c) with ([] ++ HASH :: trimEnd c).
    rewrite (@trimEnd_app_nonws [] HASH) by reflexivity. rewrite trimEnd_idem.
    cbn [app substringFrom skipn]. apply trim_trimEnd. }
  now rewrite Ec.
Qed.

End QuotedValues.
Section WrittenLines.
Import JS RegExp.



Lemma unescape_plain s : without BACKSLASH s = true -> unescape s = s.
Proof.
  intro Hb. unfold unescape.
  rewrite (@replaceAll2_none BACKSLASH "n" [LF] s Hb).
  rewrite (@replaceAll2_none BACKSLASH "r" [CR] s Hb).
  rewrite (@replaceAll2_none BACKSLASH "t" [TAB] s Hb).
  rewrite (@replaceAll2_none BACKSLASH BACKSLASH [BACKSLASH] s Hb).
  now rewrite (@replaceAll2_none BACKSLASH DQ [DQ] s Hb).
Qed.

Lemma identifier_oneLine k : isIdentifier k = true -> oneLine k = true.
Proof.
  destruct k as [|x t]; [discriminate|]. cbn [isIdentifier oneLine forallb]. intro H.
  apply andb_true_iff in H as [Hx Ht]. apply identStart_char in Hx as (_ & _ & ->).
  cbn [negb andb]. rewrite forallb_forall in *. intros y Hy.
  apply negb_true_iff. now apply identChar_char, Ht.
Qed.

Lemma trim_space_before s : trim (" " ++ s) = trim s.
Proof. reflexivity. Qed.

Lemma trim_space_after s : trim s = s -> trim (s ++ " ") = s.
Proof.
  intro Et. destruct s as [|x t] eqn:Es; [reflexivity|]. rewrite <- Es in *.
  destruct (@trim_tight s x) as [Hh Hl]; [rewrite Et, Es; discriminate|].
  rewrite Et in Hh, Hl.
  apply trim_app_ws with (d := x); [rewrite Es; discriminate|exact Hh|exact Hl|reflexivity].
Qed.

Lemma startsPlain_space_after s :
  trim s = s -> startsPlain s = true -> startsPlain (s ++ " ") = true.
Proof.
  intros Et Hp. destruct s as [|x t] eqn:Es; [reflexivity|]. rewrite <- Es in *.
  destruct (@trim_tight s x) as [Hh _]; [rewrite Et, Es; discriminate|].
  rewrite Et, Es in Hh. cbn [hd] in Hh. unfold startsPlain in *. rewrite Es in *.
  cbn [app trimStart] in *. now rewrite Hh in *.
Qed.

(** The line that [stringify] writes for a record parses back to it. *)
Lemma parse_written v n :
  writable v ->
  EnvParser.parseVariableLine (EnvParser.stringifyVariable v) n
  = EnvParser.mkLineResult
      (Some (mkEnvVariable (key v) (value v) n (isQuoted v) (keptComment v))) None.
Proof.
  destruct v as [k val ln q hc]. unfold writable, keptComment, EnvParser.stringifyVariable.
  cbn [key value isQuoted hasComment]. intros (Hk & Hl & Hv & Hc).
  assert (Hno : EnvParser.parseVariableLine (k ++ "=" ++ (if q then [DQ] ++ val ++ [DQ] else val)) n
                = EnvParser.mkLineResult (Some (mkEnvVariable k val n q None)) None).
  { destruct q.
    - destruct Hv as [Hd Hb].
      rewrite (@parse_quoted k DQ val n Hk (or_intror eq_refl) Hd Hl).
      change (chr_eqb DQ SQ) with false. cbv iota. now rewrite (@unescape_plain val Hb).
    - destruct Hv as (Et & Hh & Hp). rewrite (@parse_no_comment k val n Hk Hh Hl Hp).
      now rewrite Et. }
  destruct hc as [[|x c]|]; cbn [truthyOpt truthy tpl];
    [rewrite !app_nil_r; exact Hno| |rewrite !app_nil_r; exact Hno].
  destruct Hc as [Ect Hcl]. destruct q.
  - destruct Hv as [Hd Hb].
    change (k ++ "=" ++ ([DQ] ++ val ++ [DQ]) ++ " # " ++ x :: c)
      with (k ++ "=" ++ ([DQ] ++ val ++ [DQ]) ++ " " ++ "#" ++ (" " ++ x :: c)).
    replace (k ++ "=" ++ ([DQ] ++ val ++ [DQ]) ++ " " ++ "#" ++ (" " ++ x :: c))
      with (k ++ "=" ++ [DQ] ++ val ++ [DQ] ++ " " ++ "#" ++ (" " ++ x :: c))
      by (now rewrite <- !app_assoc).
    rewrite (@parse_quoted_comment k DQ val " " (" " ++ x :: c) n Hk (or_intror eq_refl)
               Hd Hl eq_refl eq_refl Hcl).
    change (chr_eqb DQ SQ) with false. cbv iota.
    now rewrite (@unescape_plain val Hb), trim_space_before, Ect.
  - destruct Hv as (Et & Hh & Hp).
    change (k ++ "=" ++ val ++ " # " ++ x :: c)
      with (k ++ "=" ++ val ++ " " ++ "#" ++ (" " ++ x :: c)).
    replace (k ++ "=" ++ val ++ " " ++ "#" ++ (" " ++ x :: c))
      with (k ++ "=" ++ (val ++ " ") ++ "#" ++ (" " ++ x :: c))
      by (now rewrite <- !app_assoc).
    rewrite (@parse_inline_comment k (val ++ " ") (" " ++ x :: c) n Hk).
    + now rewrite (@trim_space_after val Et), trim_space_before, Ect.
    + unfold without in *. rewrite forallb_app, Hh. reflexivity.
    + rewrite oneLine_app, Hl. reflexivity.
    + now apply startsPlain_space_after.
    + exact Hcl.
Qed.

Lemma written_oneLine v : writable v -> oneLine (EnvParser.stringifyVariable v) = true.
Proof.
  destruct v as [k val ln q hc]. unfold writable, EnvParser.stringifyVariable.
  cbn [key value isQuoted hasComment]. intros (Hk & Hl & _ & Hc).
  cbv zeta.
  destruct q; destruct hc as [[|x c]|]; cbn [truthyOpt truthy tpl];
    rewrite !oneLine_app, (@identifier_oneLine k Hk), Hl; try reflexivity;
    destruct Hc as [_ Hc]; now rewrite Hc.
Qed.

Lemma parseLines_written vs : forall i acc,
  Forall writable vs ->
  EnvParser.parseLines (map EnvParser.stringifyVariable vs) i acc
  = mkParsedEnvFile (variables acc ++ numbered i vs) (comments acc) (emptyLines acc)
                    (parseErrors acc).
Proof.
  induction vs as [|v vs IH]; intros i acc F; cbn [map EnvParser.parseLines numbered].
  - rewrite app_nil_r. now destruct acc.
  - inversion F as [|? ? Hv F']; subst.
    rewrite (@parseLine_variable acc (i + 1) (EnvParser.stringifyVariable v)
               (mkEnvVariable (key v) (value v) (i + 1) (isQuoted v) (keptComment v))).
    2:{ now rewrite (@parse_written v (i + 1) Hv). }
    rewrite (IH (S i) _ F'). cbn [addLine variables comments emptyLines parseErrors].
    now rewrite <- app_assoc.
Qed.

Lemma stringify_numbered vs : forall i,
  map EnvParser.stringifyVariable (numbered i vs) = map EnvParser.stringifyVariable vs.
Proof.
  induction vs as [|v vs IH]; intro i; [reflexivity|].
  cbn [numbered map]. rewrite IH. f_equal.
  unfold EnvParser.stringifyVariable, keptComment. cbn [key value isQuoted hasComment].
  now destruct (hasComment v) as [[|x c]|].
Qed.

End WrittenLines.



(** X19.  Quotes protect a [#].  On a line [KEY='text'] or [KEY="text"],
    with no quote of that kind inside the one-line text, the value is the
    text between the quotes, marked quoted, whatever [#] and white space
    it holds: as it stands for single quotes, with its escape sequences
    replaced for double quotes, which changes nothing when the text holds
    no backslash.  White space, [#] and a comment after the closing quote
    give the same value and the comment, trimmed. *)
Theorem quoted_value_keeps_hash (k : str) (q : ascii) (text ws c : str) (n : nat) :
  isIdentifier k = true -> q = JS.SQ \/ q = JS.DQ ->
  without q text = true -> oneLine text = true ->
  forallb JS.isWhiteSpace ws = true -> oneLine ws = true -> oneLine c = true ->
  let value := if JS.chr_eqb q JS.SQ then text else unescape text in
  EnvParser.parseVariableLine (k ++ "=" ++ [q] ++ text ++ [q]) n
  = EnvParser.mkLineResult (Some (mkEnvVariable k value n true None)) None
  /\ EnvParser.parseVariableLine (k ++ "=" ++ [q] ++ text ++ [q] ++ ws ++ "#" ++ c) n
     = EnvParser.mkLineResult (Some (mkEnvVariable k value n true (Some (JS.trim c)))) None
  /\ (without JS.BACKSLASH text = true -> value = text).
Proof.
  intros Hk Hq Hb Hl W Wl Hc value. subst value. split; [|split].
  - now apply parse_quoted.
  - now apply parse_quoted_comment.
  - intro Hs. rewrite (@unescape_plain text Hs). now destruct (JS.chr_eqb q JS.SQ).
Qed.

Lemma quoted_value_keeps_hash_witness :
  EnvParser.parseVariableLine ("COLOR='#fff' # white" : str) 2
  = EnvParser.mkLineResult
      (Some (mkEnvVariable "COLOR" "#fff" 2 true (Some ("white" : str)))) None.
Proof.
  exact (proj1 (proj2 (@quoted_value_keeps_hash "COLOR" JS.SQ "#fff" " " " white" 2
                         eq_refl (or_introl eq_refl) eq_refl eq_refl eq_refl eq_refl eq_refl))).
Defined.

(** X20.  The round trip with comments and quoted values.  For records
    that a line can hold (identifier keys; quoted values of one line
    without double quote and backslash; other values of one line,
    trimmed, without [#] and not starting with a quote; comments of one
    line, trimmed), parsing what [stringify] writes gives the records
    back in order, numbered by their line, with no parse error, and
    [stringify] of them is the same text.  A comment comes back as it
    was, but for the empty comment, which is not written and comes back
    as no comment. *)
Theorem written_records_parse_back (vs : list EnvVariable) :
  Forall writable vs ->
  let parsed := EnvParser.parseContent (EnvParser.stringify vs) in
  variables parsed = numbered 0 vs
  /\ parseErrors parsed = []
  /\ EnvParser.stringify (variables parsed) = EnvParser.stringify vs
  /\ map hasComment (variables parsed) = map keptComment vs.
Proof.
  intros F parsed.
  assert (E : variables parsed = numbered 0 vs /\ parseErrors parsed = []).
  { subst parsed. unfold EnvParser.parseContent, EnvParser.stringify.
    destruct vs as [|v vs]; [split; reflexivity|].
    rewrite split_join.
    - rewrite (@parseLines_written (v :: vs) 0 _ F). split; reflexivity.
    - discriminate.
    - rewrite Forall_forall in *. intros l Hl. apply in_map_iff in Hl as (v' & <- & Hv').
      apply written_oneLine. now apply F. }
  destruct E as [Ev Ee]. rewrite Ev, Ee. repeat split.
  - unfold EnvParser.stringify. now rewrite stringify_numbered.
  - clear. generalize 0. induction vs as [|v vs IH]; intro i; [reflexivity|].
    cbn [numbered map hasComment]. now rewrite IH.
Qed.

Lemma written_records_parse_back_witness :
  variables (EnvParser.parseContent
               (EnvParser.stringify
                  [mkEnvVariable "PORT" "3000" 9 false (Some ("the port" : str));
                   mkEnvVariable "COLOR" "#fff" 9 true (Some ("" : str))]))
  = [mkEnvVariable "PORT" "3000" 1 false (Some ("the port" : str));
     mkEnvVariable "COLOR" "#fff" 2 true None].
Proof.
  refine (proj1 (@written_records_parse_back
                   [mkEnvVariable "PORT" "3000" 9 false (Some ("the port" : str));
                    mkEnvVariable "COLOR" "#fff" 9 true (Some ("" : str))] _)).
  repeat constructor.
Defined.

Section LineEnds.
Import JS.

Lemma trim_ws_after s ws : forallb isWhiteSpace ws = true -> trim (s ++ ws) = trim s.
Proof.
  intro W. unfold trim. destruct (trimStart_split s) as (w1 & E & W1 & S).
  destruct (trimStart s) as [|x t] eqn:Et.
  - rewrite app_nil_r in E. subst w1. rewrite trimStart_all_ws; [reflexivity|].
    now rewrite forallb_app, W1, W.
  - cbn in S. rewrite E at 1. rewrite <- app_assoc. cbn [app].
    rewrite trimStart_app_nonws by exact S. rewrite (trimStart_all_ws _ W1). cbn [app].
    change (x :: t ++ ws) with ((x :: t) ++ ws). now apply trimEnd_ws.
Qed.

Lemma sameLine_trim a b : sameLine a b -> trim a = trim b.
Proof. intros [-> | ->]; [reflexivity|]. now apply trim_ws_after. Qed.

Lemma sameLine_cons c a b : sameLine a b -> sameLine (c :: a) (c :: b).
Proof. intros [-> | ->]; [now left|now right]. Qed.

Lemma withCRLF_start s :
  match withCRLF s with d :: _ => chr_eqb d LF | [] => false end = false.
Proof.
  destruct s as [|c t]; [reflexivity|]. cbn [withCRLF].
  destruct (chr_eqb c LF) eqn:E; [reflexivity|exact E].
Qed.

(** The lines of a text with Windows line ends are those of the text, up
    to a carriage return at their end. *)
Lemma split_lines_withCRLF s : Forall2 sameLine (split_lines (withCRLF s)) (split_lines s).
Proof.
  induction s as [|c t IH]; [repeat constructor|].
  cbn [withCRLF]. destruct (chr_eqb c LF) eqn:Ec.
  - cbn [split_lines]. rewrite Ec.
    change (chr_eqb CR LF) with false. change (chr_eqb CR CR) with true.
    change (chr_eqb LF LF) with true. cbn [andb]. constructor; [now left|exact IH].
  - cbn [split_lines]. rewrite Ec, withCRLF_start, andb_false_r.
    destruct (chr_eqb c CR) eqn:Er; cbn [andb].
    + destruct t as [|d t']; [|destruct (chr_eqb d LF) eqn:Ed].
      * cbn in *. inversion IH; subst. constructor; [now left|constructor].
      * cbn [withCRLF split_lines] in IH |- *. rewrite Ed in IH |- *.
        cbn [split_lines] in IH |- *.
        change (chr_eqb CR LF) with false in *. change (chr_eqb CR CR) with true in *.
        change (chr_eqb LF LF) with true in *. cbn [andb] in *.
        inversion IH; subst. constructor; [|assumption].
        apply chr_eqb_eq in Er as ->. now right.
      * destruct (split_lines (withCRLF (d :: t'))) as [|l' ls'];
          destruct (split_lines (d :: t')) as [|l ls]; inversion IH; subst.
        -- constructor; [now left|constructor].
        -- constructor; [now apply sameLine_cons|assumption].
    + destruct (split_lines (withCRLF t)) as [|l' ls'];
        destruct (split_lines t) as [|l ls]; inversion IH; subst.
      * constructor; [now left|constructor].
      * constructor; [now apply sameLine_cons|assumption].
Qed.

(** A line counts by its trimmed text only. *)
Lemma parseLine_trim acc n a b :
  trim a = trim b -> EnvParser.parseLine acc n a = EnvParser.parseLine acc n b.
Proof.
  intro E. unfold EnvParser.parseLine, EnvParser.parseVariableLine. now rewrite E.
Qed.

Lemma parseLines_sameLine ls' ls : Forall2 sameLine ls' ls -> forall i acc,
  EnvParser.parseLines ls' i acc = EnvParser.parseLines ls i acc.
Proof.
  induction 1 as [|a b ls' ls Hab _ IH]; intros i acc; [reflexivity|].
  cbn [EnvParser.parseLines]. rewrite (@parseLine_trim acc (i + 1) a b (sameLine_trim Hab)).
  apply IH.
Qed.

End LineEnds.

(** X21.  Windows line ends.  A text in which every line feed has a
    carriage return put before it parses to the same result as the text
    itself: the same variables with the same values and line numbers,
    the same comments, empty lines and parse errors. *)
Theorem windows_line_ends_parse_alike (content : str) :
  EnvParser.parseContent (withCRLF content) = EnvParser.parseContent content.
Proof.
  unfold EnvParser.parseContent. apply parseLines_sameLine, split_lines_withCRLF.
Qed.

Section Escaping.
Import JS OutputFormatter.

Lemma replaceAll1_flat_map c rep s :
  replaceAll1 c rep s = flat_map (fun x => if chr_eqb x c then rep else [x]) s.
Proof.
  induction s as [|x s IH]; [reflexivity|]. cbn [replaceAll1 flat_map]. rewrite IH.
  now destruct (chr_eqb x c).
Qed.

Lemma flat_map_flat_map {A B C} (f : A -> list B) (g : B -> list C) l :
  flat_map g (flat_map f l) = flat_map (fun x => flat_map g (f x)) l.
Proof.
  induction l as [|x l IH]; [reflexivity|]. cbn [flat_map]. now rewrite flat_map_app, IH.
Qed.

Lemma entity_char x :
  replaceAll1 SQ "&apos;"
    (replaceAll1 DQ "&quot;"
       (replaceAll1 ">" "&gt;"
          (replaceAll1 "<" "&lt;"
             (replaceAll1 "&" "&amp;" [x])))) = entity x.
Proof. destruct x as [[] [] [] [] [] [] [] []]; vm_compute; reflexivity. Qed.

(** The five replacements, one after the other, are one substitution
    character by character. *)
Lemma escapeXml_flat_map text : escapeXml text = flat_map entity text.
Proof.
  unfold escapeXml. rewrite (replaceAll1_flat_map "&" "&amp;" text).
  rewrite (replaceAll1_flat_map "<"), flat_map_flat_map.
  rewrite (replaceAll1_flat_map ">"), flat_map_flat_map.
  rewrite (replaceAll1_flat_map DQ), flat_map_flat_map.
  rewrite (replaceAll1_flat_map SQ), flat_map_flat_map.
  apply flat_map_ext. intro x. rewrite <- entity_char.
  now rewrite <- !replaceAll1_flat_map.
Qed.

Lemma entity_markup x : forallb (fun y => negb (markup y)) (entity x) = true.
Proof. destruct x as [[] [] [] [] [] [] [] []]; vm_compute; reflexivity. Qed.

Lemma entity_cases x :
  (entity x = [x] /\ x <> "&"%char /\ markup x = false)
  \/ exists name, In name entityNames /\ entity x = "&"%char :: name
                  /\ forallb (fun y => negb (chr_eqb y "&")) name = true.
Proof.
  destruct x as [[] [] [] [] [] [] [] []];
    first [ left; vm_compute; repeat split; congruence
          | right; vm_compute; eexists; split; [|split; reflexivity]; tauto ].
Qed.

Lemma entity_names_differ n1 n2 r1 r2 :
  In n1 entityNames -> In n2 entityNames -> n1 ++ r1 = n2 ++ r2 -> n1 = n2 /\ r1 = r2.
Proof.
  unfold entityNames. cbn [In].
  intros [<-|[<-|[<-|[<-|[<-|[]]]]]] [<-|[<-|[<-|[<-|[<-|[]]]]]] E;
    cbn in E; try discriminate; split; congruence.
Qed.

Lemma entity_name_of x y name :
  In name entityNames -> entity x = "&"%char :: name -> entity y = "&"%char :: name -> x = y.
Proof.
  intros Hn Ex Ey.
  assert (H : forall z, entity z = "&"%char :: name ->
            (name = "amp;" /\ z = "&"%char) \/ (name = "lt;" /\ z = "<"%char)
            \/ (name = "gt;" /\ z = ">"%char) \/ (name = "quot;" /\ z = DQ)
            \/ (name = "apos;" /\ z = SQ)).
  { clear. intros z E. unfold entity in E.
    destruct (chr_eqb z "&") eqn:E1; [apply chr_eqb_eq in E1; left; cbn in *; split; congruence|].
    destruct (chr_eqb z "<") eqn:E2;
      [apply chr_eqb_eq in E2; right; left; cbn in *; split; congruence|].
    destruct (chr_eqb z ">") eqn:E3;
      [apply chr_eqb_eq in E3; right; right; left; cbn in *; split; congruence|].
    destruct (chr_eqb z DQ) eqn:E4;
      [apply chr_eqb_eq in E4; right; right; right; left; cbn in *; split; congruence|].
    destruct (chr_eqb z SQ) eqn:E5;
      [apply chr_eqb_eq in E5; right; right; right; right; cbn in *; split; congruence|].
    injection E as -> _. discriminate. }
  destruct (H x Ex) as [[N ->]|[[N ->]|[[N ->]|[[N ->]|[N ->]]]]];
    destruct (H y Ey) as [[N' ->]|[[N' ->]|[[N' ->]|[[N' ->]|[N' ->]]]]];
    try reflexivity; rewrite N in N'; discriminate.
Qed.

Lemma escape_injective a : forall b, flat_map entity a = flat_map entity b -> a = b.
Proof.
  induction a as [|x a IH]; intros [|y b] E; cbn [flat_map] in E.
  - reflexivity.
  - destruct (entity_cases y) as [(Ey & _)|(n & _ & Ey & _)]; rewrite Ey in E; discriminate.
  - destruct (entity_cases x) as [(Ex & _)|(n & _ & Ex & _)]; rewrite Ex in E; discriminate.
  - destruct (entity_cases x) as [(Ex & Hx & _)|(n & Hn & Ex & _)];
      destruct (entity_cases y) as [(Ey & Hy & _)|(m & Hm & Ey & _)];
      rewrite Ex, Ey in E; cbn [app] in E.
    + injection E as -> E. f_equal. now apply IH.
    + injection E as -> _. congruence.
    + injection E as <- _. congruence.
    + injection E as E. destruct (entity_names_differ _ _ Hn Hm E) as [-> E'].
      f_equal; [now apply (entity_name_of x y Hm)|now apply IH].
Qed.

Lemma split_at_amp name : forall pre rest post,
  forallb (fun y => negb (chr_eqb y "&")) name = true ->
  name ++ rest = pre ++ "&"%char :: post ->
  exists pre', pre = name ++ pre' /\ rest = pre' ++ "&"%char :: post.
Proof.
  induction name as [|c name IH]; intros pre rest post Hn E.
  - exists pre. now split.
  - cbn [forallb] in Hn. apply andb_true_iff in Hn as [Hc Hn].
    destruct pre as [|p pre]; cbn [app] in E.
    + injection E as -> _. discriminate.
    + injection E as <- E. destruct (IH _ _ _ Hn E) as (pre' & -> & ->).
      now exists pre'.
Qed.

(** Every [&] of an escaped text begins an entity. *)
Lemma amp_begins_entity text : forall pre post,
  flat_map entity text = pre ++ "&"%char :: post ->
  exists name, In name entityNames /\ startsWith post name = true.
Proof.
  induction text as [|x text IH]; intros pre post E; cbn [flat_map] in E.
  - now destruct pre.
  - destruct (entity_cases x) as [(Ex & Hx & _)|(n & Hn & Ex & Ha)]; rewrite Ex in E.
    + destruct pre as [|p pre]; cbn [app] in E; injection E as E1 E; [congruence|].
      now apply (IH pre post).
    + destruct pre as [|p pre]; cbn [app] in E.
      * injection E as E. exists n. split; [exact Hn|]. subst post. clear.
        induction n as [|c n IHn]; [now destruct ([] ++ flat_map entity text)|].
        cbn [app startsWith].
        now rewrite (proj2 (chr_eqb_eq c c) eq_refl).
      * injection E as _ E.
        destruct (split_at_amp _ _ _ _ Ha E) as (pre' & _ & E'). now apply (IH pre' post).
Qed.

End Escaping.

Section Extensions.
Import JS ConfigLoader.

Lemma lastIndexOf_none s c : without c s = true -> lastIndexOf s c = None.
Proof.
  induction s as [|x s IH]; [reflexivity|]. cbn [without forallb lastIndexOf]. intro H.
  apply andb_true_iff in H as [Hx H]. apply negb_true_iff in Hx.
  now rewrite (IH H), Hx.
Qed.

Lemma lastIndexOf_app stem c e :
  without c e = true -> lastIndexOf (stem ++ c :: e) c = Some (length stem).
Proof.
  intro He. induction stem as [|x stem IH]; cbn [app lastIndexOf length].
  - now rewrite (lastIndexOf_none _ _ He), (proj2 (chr_eqb_eq c c) eq_refl).
  - now rewrite IH.
Qed.

Lemma lastIndexOf_split s c : forall i,
  lastIndexOf s c = Some i ->
  s = firstn i s ++ c :: skipn (S i) s /\ without c (skipn (S i) s) = true.
Proof.
  induction s as [|x s IH]; intros i E; cbn [lastIndexOf] in E; [discriminate|].
  destruct (lastIndexOf s c) as [j|] eqn:Ej.
  - injection E as <-. destruct (IH j eq_refl) as [Es Hw]. cbn [firstn skipn app].
    split; [now f_equal|exact Hw].
  - destruct (chr_eqb x c) eqn:Ex; [|discriminate]. injection E as <-.
    apply chr_eqb_eq in Ex as ->. cbn [firstn skipn app]. split; [reflexivity|].
    clear IH. induction s as [|y s IHs]; [reflexivity|]. cbn [lastIndexOf] in Ej.
    destruct (lastIndexOf s c); [discriminate|]. destruct (chr_eqb y c) eqn:Ey; [discriminate|].
    cbn [without forallb]. rewrite Ey. now apply IHs.
Qed.

End Extensions.

(** X22.  Escaped text holds no markup.  The five replacements of
    [escapeXml], in their order, are one substitution character by
    character (an [&] written by a later replacement is not escaped
    again); the result holds none of the characters [<], [>], double and
    single quote, each of its [&] begins one of the five entities, and a
    text without the five special characters is returned as it is. *)
Theorem escaped_text_has_no_markup (text : str) :
  OutputFormatter.escapeXml text = flat_map entity text
  /\ forallb (fun x => negb (markup x)) (OutputFormatter.escapeXml text) = true
  /\ (forall pre post,
        OutputFormatter.escapeXml text = pre ++ "&"%char :: post ->
        exists name, In name entityNames /\ JS.startsWith post name = true)
  /\ (forallb (fun x => negb (markup x || JS.chr_eqb x "&")) text = true ->
      OutputFormatter.escapeXml text = text).
Proof.
  rewrite escapeXml_flat_map. split; [reflexivity|]. split; [|split].
  - induction text as [|x text IH]; [reflexivity|]. cbn [flat_map].
    now rewrite forallb_app, entity_markup, IH.
  - apply amp_begins_entity.
  - induction text as [|x text IH]; [reflexivity|]. cbn [forallb flat_map]. intro H.
    apply andb_true_iff in H as [Hx H]. rewrite (IH H).
    destruct (entity_cases x) as [(-> & _)|(n & Hn & Ex & _)]; [reflexivity|].
    exfalso. revert Hx Ex. clear. destruct x as [[] [] [] [] [] [] [] []]; vm_compute;
      congruence.
Qed.

Lemma escaped_text_has_no_markup_witness :
  OutputFormatter.escapeXml "PORT" = ("PORT" : str).
Proof.
  exact (proj2 (proj2 (proj2 (escaped_text_has_no_markup "PORT"))) eq_refl).
Defined.

(** X23.  Escaping loses nothing.  Two texts with the same escaped form are
    the same text, and the escaped form of two texts put end to end is
    the escaped forms put end to end, so a message can be escaped piece
    by piece. *)
Theorem escaping_loses_nothing :
  (forall a b, OutputFormatter.escapeXml a = OutputFormatter.escapeXml b -> a = b)
  /\ (forall a b,
        OutputFormatter.escapeXml (a ++ b)
        = OutputFormatter.escapeXml a ++ OutputFormatter.escapeXml b).
Proof.
  split.
  - intros a b. rewrite !escapeXml_flat_map. apply escape_injective.
  - intros a b. rewrite !escapeXml_flat_map. apply flat_map_app.
Qed.

Lemma escaping_loses_nothing_witness :
  OutputFormatter.escapeXml ("a<b" ++ "&c" : str)
  = OutputFormatter.escapeXml "a<b" ++ OutputFormatter.escapeXml "&c".
Proof. exact (proj2 escaping_loses_nothing "a<b" "&c"). Defined.

(** X24.  The extension of a configuration file is the text from its last
    dot on: for a path [stem.ext] whose [ext] has no dot it is [.ext],
    for a path without dot it is empty; it is always the end of the
    path, holds exactly one dot when it is not empty, and may hold a
    directory separator, since the dot is searched in the whole path. *)
Theorem extension_is_text_from_last_dot :
  (forall stem ext,
      without "." ext = true ->
      ConfigLoader.getFileExtension (stem ++ "." ++ ext) = "." ++ ext)
  /\ (forall path, without "." path = true -> ConfigLoader.getFileExtension path = [])
  /\ (forall path,
        ConfigLoader.getFileExtension path = []
        \/ exists stem ext,
             path = stem ++ "." ++ ext /\ without "." ext = true
             /\ ConfigLoader.getFileExtension path = "." ++ ext).
Proof.
  split; [|split].
  - intros stem ext He. unfold ConfigLoader.getFileExtension. cbn [list_ascii_of_string app].
    rewrite (lastIndexOf_app stem _ _ He). unfold JS.substringFrom.
    now rewrite skipn_app, skipn_all, Nat.sub_diag.
  - intros path Hp. unfold ConfigLoader.getFileExtension.
    now rewrite (lastIndexOf_none _ _ Hp).
  - intro path. unfold ConfigLoader.getFileExtension.
    destruct (ConfigLoader.lastIndexOf path ".") as [i|] eqn:Ei; [right|now left].
    destruct (lastIndexOf_split _ _ Ei) as [Es Hw].
    exists (firstn i path), (skipn (S i) path). split; [exact Es|]. split; [exact Hw|].
    unfold JS.substringFrom. rewrite Es at 1.
    assert (Hl : length (firstn i path) = i).
    { apply firstn_length_le. apply (f_equal (@length _)) in Es.
      rewrite length_app in Es. cbn [length] in Es.
      assert (length (firstn i path) <= i) by apply firstn_le_length.
      rewrite length_firstn in *. lia. }
    rewrite <- Hl at 1. now rewrite skipn_app, skipn_all, Nat.sub_diag.
Qed.

(** A dot in a directory name: the extension runs over the separator. *)
Lemma extension_is_text_from_last_dot_witness :
  ConfigLoader.getFileExtension ("conf.d/envguardrc" : str) = (".d/envguardrc" : str).
Proof.
  exact (proj1 extension_is_text_from_last_dot "conf" "d/envguardrc" eq_refl).
Defined.

Section SchemaMode.
Context `{Host}.
Import JS.

(** With a schema file the schema is loaded first, in schema mode and in
    the mode of both. *)
Lemma schema_first cfg :
  truthyOpt (cfg_schemaFile cfg) = true ->
  exists mode,
    EnvGuardValidator.determineValidationMode cfg = (mode, cfg)
    /\ (mode = ModeSchema \/ mode = ModeBoth).
Proof.
  intro Hs. unfold EnvGuardValidator.determineValidationMode. rewrite Hs. cbn [andb].
  destruct (truthyOpt (cfg_exampleFile cfg)); eexists; split; try reflexivity; auto.
Qed.

Lemma schema_load_fails cfg content message t :
  truthyOpt (cfg_schemaFile cfg) = true ->
  readFileSync (envFileOf cfg) = Ok content ->
  parseErrors (EnvParser.parseContent content) = [] ->
  EnvGuardValidator.loadSchema (tpl (cfg_schemaFile cfg)) = Throw message ->
  EnvGuardValidator.validate cfg t
  = (Ok (failureResult ("Validation failed: " ++ message) (Date_now (S t) - Date_now t)),
     S (S t)).
Proof.
  intros Hs Hread Hclean Hload. rewrite (validate_clean cfg t Hread Hclean).
  destruct (schema_first cfg Hs) as (mode & -> & [-> | ->]);
    unfold EnvGuardValidator.validateWithBoth, EnvGuardValidator.validateWithSchema;
    rewrite Hs; cbn [negb]; run_m; rewrite Hload; reflexivity.
Qed.

End SchemaMode.

(** X25.  A schema file that cannot be loaded ends the run with one
    error.  With a schema file configured (schema mode, or the mode of
    both, where the example file is then not looked at) and a file of
    variables that parses cleanly, the run returns one error and no other
    finding when the schema file cannot be read, when its extension, in
    lower case, is none of [.json], [.yaml], [.yml] (the file is read
    before its extension is looked at), or when its text does not
    parse; the security analysis is not run. *)
Theorem schema_file_failure_is_one_error `{Host} cfg content t :
  JS.truthyOpt (cfg_schemaFile cfg) = true ->
  readFileSync (envFileOf cfg) = Ok content ->
  parseErrors (EnvParser.parseContent content) = [] ->
  let file := tpl (cfg_schemaFile cfg) in
  let ext := JS.toLowerCase (extname file) in
  let fails message :=
    EnvGuardValidator.validate cfg t
    = (Ok (failureResult ("Validation failed: Failed to load schema file: " ++ message)
                         (Date_now (S t) - Date_now t)), S (S t)) in
  (forall message, readFileSync file = Throw message -> fails message)
  /\ (forall text,
         readFileSync file = Ok text ->
         ext <> ".json" -> ext <> ".yaml" -> ext <> ".yml" ->
         fails ("Unsupported schema file format: " ++ ext))
  /\ (forall text message,
         readFileSync file = Ok text -> ext = ".json" ->
         JSON_parse_schema text = Throw message -> fails message)
  /\ (forall text message,
         readFileSync file = Ok text -> ext = ".yaml" \/ ext = ".yml" ->
         yaml_parse_schema text = Throw message -> fails message).
Proof.
  intros Hs Hread Hclean file ext fails. subst fails. cbv beta.
  assert (Hf : forall m,
            EnvGuardValidator.loadSchema file = Throw ("Failed to load schema file: " ++ m) ->
            EnvGuardValidator.validate cfg t
            = (Ok (failureResult ("Validation failed: Failed to load schema file: " ++ m)
                                 (Date_now (S t) - Date_now t)), S (S t))).
  { intros m Hm. now apply schema_load_fails with (content := content). }
  split; [|split; [|split]].
  - intros message Hr. apply Hf. unfold EnvGuardValidator.loadSchema. now rewrite Hr.
  - intros text Hr H1 H2 H3. apply Hf. unfold EnvGuardValidator.loadSchema. rewrite Hr.
    cbn [rbind]. fold ext.
    apply str_eqb_neq in H1, H2, H3. rewrite H1, H2, H3. reflexivity.
  - intros text message Hr He Hp. apply Hf. unfold EnvGuardValidator.loadSchema. rewrite Hr.
    cbn [rbind]. fold ext. rewrite He, Hp. reflexivity.
  - intros text message Hr He Hp. apply Hf. unfold EnvGuardValidator.loadSchema. rewrite Hr.
    cbn [rbind]. fold ext. destruct He as [-> | ->]; now rewrite Hp.
Qed.

(** The sample platform parses no schema. *)
Lemma schema_file_failure_is_one_error_witness :
  EnvGuardValidator.validate (H:=Sample.host)
    (mkConfig (Some ("good.env" : str)) None (Some ("good.env" : str))
              None None None None None None None) 0
  = (Ok (failureResult
           "Validation failed: Failed to load schema file: Unexpected end of JSON input" 1), 2).
Proof.
  refine (proj1 (proj2 (proj2 (@schema_file_failure_is_one_error Sample.host
                   (mkConfig (Some ("good.env" : str)) None (Some ("good.env" : str))
                             None None None None None None None)
                   Sample.goodText 0 eq_refl eq_refl _)))
            Sample.goodText "Unexpected end of JSON input" eq_refl eq_refl eq_refl).
  vm_compute. reflexivity.
Defined.

Section BothMode.
Context `{Host}.
Import JS.


End BothMode.



Section Backtracking.
Import JS RegExp.

(** A greedy quantifier around a pattern of one character accepts when
    what follows accepts after some run of such characters that is long
    enough: the quantifier comes back to it if longer runs fail. *)
Lemma greedy_finds ic r P k mn : single ic r P ->
  forall p rest b cs fuel i,
    forallb P p = true -> length p < fuel -> mn <= i + length p ->
    k (mkState (rev p ++ b) rest cs) <> None ->
    repeat_loop (rmatch ic r) mn None true k fuel i (mkState b (p ++ rest) cs) <> None.
Proof.
  intros Hr p. induction p as [|x p IH]; intros rest b cs fuel i Hp Hfuel Hmn Hk;
    (destruct fuel as [|fuel]; [simpl in Hfuel; lia|]); cbn [repeat_loop below].
  - cbn [app rev length] in *. rewrite Nat.add_0_r in Hmn. apply Nat.leb_le in Hmn.
    rewrite Hmn. destruct (rmatch ic r _ _); [discriminate|exact Hk].
  - rewrite Hr. cbn [ahead app]. cbn [forallb] in Hp. apply andb_true_iff in Hp as [Hx Hp].
    rewrite Hx. unfold step. cbn [ahead behind caps length].
    rewrite length_cons_neq, andb_false_r.
    assert (Hn : repeat_loop (rmatch ic r) mn None true k fuel (S i)
                   (mkState (x :: b) (p ++ rest) cs) <> None).
    { apply IH; [exact Hp|simpl in Hfuel; lia|simpl in Hmn; lia|].
      cbn [rev] in Hk. now rewrite <- app_assoc in Hk. }
    destruct (repeat_loop _ _ _ _ _ _ _ _); [discriminate|congruence].
Qed.

Lemma plus_finds ic r P k p rest b cs : single ic r P ->
  forallb P p = true -> p <> [] ->
  k (mkState (rev p ++ b) rest cs) <> None ->
  rmatch ic (plus r) k (mkState b (p ++ rest) cs) <> None.
Proof.
  intros Hr Hp Hne Hk. unfold plus. cbn [rmatch ahead].
  apply (greedy_finds (P := P)); auto.
  - rewrite length_app. lia.
  - destruct p; [congruence|]. cbn. lia.
Qed.

(** What a quantifier around a pattern of one character has read holds
    the least number of characters. *)
Lemma passes_loop_count ic r P mn mx greedy k : single ic r P ->
  forall fuel i s m,
    repeat_loop (rmatch ic r) mn mx greedy k fuel i s = Some m ->
    exists s', (exists p, took p s s' /\ forallb P p = true /\ mn <= i + length p)
               /\ k s' = Some m.
Proof.
  intros Hr fuel. induction fuel as [|fuel IH]; intros i s m E; simpl in E; [discriminate|].
  assert (Hagain :
    (if below i mx
     then rmatch ic r
            (fun s' => if (mn <=? i) && (length (ahead s') =? length (ahead s)) then None
                       else repeat_loop (rmatch ic r) mn mx greedy k fuel (S i) s') s
     else None) = Some m ->
    exists s', (exists p, took p s s' /\ forallb P p = true /\ mn <= i + length p)
               /\ k s' = Some m).
  { destruct (below i mx); [|discriminate]. intro Eb.
    apply (passes_single Hr) in Eb as (s1 & (x & T1 & Px) & E1).
    destruct ((mn <=? i) && _); [discriminate|].
    apply IH in E1 as (s' & (p & T & Pp & Hc) & Ek). exists s'. split; [|exact Ek].
    exists ([x] ++ p). split; [now apply took_app with (s1 := s1)|].
    cbn. rewrite Px, Pp. split; [reflexivity|lia]. }
  assert (Hstop :
    (if mn <=? i then k s else None) = Some m ->
    exists s', (exists p, took p s s' /\ forallb P p = true /\ mn <= i + length p)
               /\ k s' = Some m).
  { destruct (mn <=? i) eqn:Ei; [|discriminate]. intro Ek. exists s. split; [|exact Ek].
    exists []. split; [apply took_nil|]. split; [reflexivity|].
    apply Nat.leb_le in Ei. cbn. lia. }
  destruct greedy.
  - destruct (if below i mx then _ else None) eqn:Ea.
    + injection E as <-. now apply Hagain.
    + now apply Hstop.
  - destruct (if mn <=? i then k s else None) eqn:Es.
    + injection E as <-. now apply Hstop.
    + now apply Hagain.
Qed.

Lemma passes_plus ic r P : single ic r P ->
  passes (fun s s' => exists p, took p s s' /\ forallb P p = true /\ p <> [])
         (rmatch ic (plus r)).
Proof.
  intros Hr k s m E. unfold plus in E. cbn [rmatch] in E.
  apply (@passes_loop_count ic r P 1 None true k Hr) in E as (s' & (p & T & Hp & Hc) & Ek).
  exists s'. split; [|exact Ek]. exists p. split; [exact T|]. split; [exact Hp|].
  destruct p; [cbn in Hc; lia|discriminate].
Qed.

End Backtracking.

Section Email.
Import JS RegExp.

Lemma emailChar_class x : class_matches false true [CSpace; ch "@"] x = emailChar x.
Proof. all_chars x. Qed.

Lemma email_part : single false (Class true [CSpace; ch "@"]) emailChar.
Proof.
  intros k s. rewrite (single_Class false true [CSpace; ch "@"]).
  destruct (ahead s) as [|x t]; [reflexivity|]. now rewrite emailChar_class.
Qed.

Lemma email_complete value : emailShaped value -> test emailRe value = true.
Proof.
  intros (a & b & c & -> & Ha & Hb & Hc & Pa & Pb & Pc).
  unfold test, emailRe. cbn [source ignoreCase re seq]. rewrite search_bol_0.
  cbn [list_ascii_of_string app].
  assert (Hm : rmatch false
                 (Seq (plus (Class true [CSpace; ch "@"]))
                    (Seq (Char "@")
                       (Seq (plus (Class true [CSpace; ch "@"]))
                          (Seq (Char ".") (Seq (plus (Class true [CSpace; ch "@"])) Eol)))))
                 (fun s => Some s) (mkState [] (a ++ "@"%char :: b ++ "."%char :: c) []) <> None).
  { cbn [rmatch]. eapply plus_finds; [apply email_part|exact Pa|exact Ha|].
    cbn [rmatch ahead]. change (char_matches false "@" "@") with true. cbv iota.
    unfold step. cbn [ahead behind caps].
    eapply plus_finds; [apply email_part|exact Pb|exact Hb|].
    cbn [rmatch ahead]. change (char_matches false "." ".") with true. cbv iota.
    unfold step. cbn [ahead behind caps].
    rewrite <- (app_nil_r c) at 1.
    eapply plus_finds; [apply email_part|exact Pc|exact Hc|].
    cbn [rmatch ahead]. discriminate. }
  destruct (rmatch _ _ _ _); [reflexivity|congruence].
Qed.

Lemma email_sound value : test emailRe value = true -> emailShaped value.
Proof.
  unfold test, emailRe. cbn [source ignoreCase re seq]. rewrite search_bol_0. intro E.
  destruct (rmatch _ _ _ _) as [m|] eqn:Em; [clear E|discriminate].
  eassert (Hp : passes _ _); [|apply Hp in Em; clear Hp].
  { repeat first [ apply passes_Seq | apply passes_Eol
                 | apply (@passes_plus false _ emailChar email_part)
                 | eapply passes_single; apply single_Char ]. }
  destruct Em as (s6 & (s1 & (a & Ta & Pa & Ha) & s2 & (x & Tx & Px) & s3
                         & (b & Tb & Pb & Hb) & s4 & (y & Ty & Py) & s5
                         & (c & Tc & Pc & Hc) & -> & Ee) & _).
  destruct Ta as (Aa & _), Tx as (Ax & _), Tb as (Ab & _), Ty as (Ay & _), Tc as (Ac & _).
  cbn [ahead] in Aa. rewrite Ee, app_nil_r in Ac.
  assert (Ex : x = "@"%char) by (symmetry; now apply chr_eqb_eq).
  assert (Ey : y = "."%char) by (symmetry; now apply chr_eqb_eq).
  exists a, b, c. split.
  - rewrite Aa, Ax, Ab, Ay, Ac, Ex, Ey. reflexivity.
  - now repeat split.
Qed.

End Email.

(** X27.  Which values count as an email address.  The pattern that the
    schema validator (type [email]) and the example validator
    ([looksLikeEmail]) both test accepts a value exactly when it is
    [local@domain.rest] with three non-empty parts free of white space
    and [@]: one [@] only, and a dot after it that is neither the first
    nor the last character of what follows.  The value is tested as it
    is, not trimmed.  A variable of type [email] with a value that is
    not blank gets no type error exactly in that case. *)
Theorem email_values `{Host} :
  (forall text, RegExp.test emailRe text = true <-> emailShaped text)
  /\ forall variable sch errors,
       vs_type sch = Some T_email -> JS.trim (value variable) <> [] ->
       (SchemaValidator.validateVariableType variable sch errors = errors
        <-> emailShaped (value variable)).
Proof.
  assert (Hiff : forall text, RegExp.test emailRe text = true <-> emailShaped text).
  { intro text. split; [apply email_sound|apply email_complete]. }
  split; [exact Hiff|].
  intros variable sch errors Ht Hv. unfold SchemaValidator.validateVariableType.
  rewrite Ht. apply str_eqb_neq in Hv.
  change (JS.str_eqb (JS.trim (value variable)) "") with (JS.str_eqb (JS.trim (value variable)) []).
  rewrite Hv. cbn [SchemaValidator.checkType]. rewrite <- Hiff.
  destruct (RegExp.test emailRe (value variable)); split; try reflexivity; try discriminate.
  intro E. apply (f_equal (@length _)) in E. rewrite length_app in E. cbn in E. lia.
Qed.

Lemma email_values_witness :
  RegExp.test emailRe "ops@example.com" = true.
Proof.
  apply (proj1 (@email_values Sample.host)). exists "ops", "example", "com".
  repeat split; discriminate.
Defined.

Section BadPattern.
Context `{Host}.
Import JS.

(** A loop whose turns either do nothing or throw one message throws it
    as soon as one turn does. *)
Lemma for_each_throws {A S} (body : S -> A -> Result S) l s message :
  (forall x, In x l -> body s x = Ok s \/ body s x = Throw message) ->
  (exists x, In x l /\ body s x = Throw message) ->
  for_each body l s = Throw message.
Proof.
  induction l as [|x l IH]; intros Hb (y & Hy & Ey); [destruct Hy|].
  cbn [for_each]. destruct (Hb x (or_introl eq_refl)) as [E|E]; rewrite E; [|reflexivity].
  cbn [rbind]. apply IH; [intros z Hz; apply Hb; now right|].
  destruct Hy as [->|Hy]; [congruence|now exists y].
Qed.

Lemma forallb_false {A} (f : A -> bool) l :
  forallb f l = false -> exists x, In x l /\ f x = false.
Proof.
  induction l as [|x l IH]; [discriminate|]. cbn [forallb]. destruct (f x) eqn:E.
  - intro Hl. destruct (IH Hl) as (y & Hy & Ey). exists y. split; [now right|exact Ey].
  - intros _. exists x. split; [now left|exact E].
Qed.

Lemma shouldIgnoreVariable_throws bad rest k message :
  RegExp_new bad = Throw message ->
  ExampleValidator.shouldIgnoreVariable (bad :: rest) k = Throw message.
Proof.
  intro Hbad. unfold ExampleValidator.shouldIgnoreVariable. cbn [some_r]. now rewrite Hbad.
Qed.

Lemma bad_pattern_run ex bad rest vars message t :
  RegExp_new bad = Throw message ->
  ExampleValidator.validate ex (bad :: rest) vars t
  = if sameKeys ex vars then ExampleValidator.validate ex [] vars t
    else (Throw message, S t).
Proof.
  intro Hbad. unfold ExampleValidator.validate, sameKeys. run_m.
  fold (mapOfVariables vars). fold (mapOfVariables ex).
  destruct (forallb (map_has (mapOfVariables vars)) (map_keys (mapOfVariables ex))) eqn:Em.
  - assert (Emiss : forall ign,
              ExampleValidator.validateMissingVariables ign (map_keys (mapOfVariables ex))
                (mapOfVariables vars) (mapOfVariables ex) [] = Ok []).
    { intro ign. apply for_each_skip. intros k Hk.
      rewrite forallb_forall in Em. now rewrite (Em k Hk). }
    rewrite !Emiss. cbn [andb].
    destruct (forallb (set_has (map_keys (mapOfVariables ex)))
                      (map_keys (mapOfVariables vars))) eqn:Eu.
    + assert (Eun : forall ign,
                ExampleValidator.validateUnusedVariables ign (map_keys (mapOfVariables vars))
                  (map_keys (mapOfVariables ex)) (mapOfVariables vars) [] = Ok []).
      { intro ign. apply for_each_skip. intros k Hk.
        rewrite forallb_forall in Eu. now rewrite (Eu k Hk). }
      now rewrite !Eun.
    + unfold ExampleValidator.validateUnusedVariables.
      rewrite (@for_each_throws _ _ _ _ _ message); [reflexivity| |].
      * intros k _. destruct (set_has _ k); [now left|right].
        now rewrite (@shouldIgnoreVariable_throws bad rest k message Hbad).
      * apply forallb_false in Eu as (k & Hk & Ek). exists k. split; [exact Hk|].
        now rewrite Ek, (@shouldIgnoreVariable_throws bad rest k message Hbad).
  - cbn [andb]. unfold ExampleValidator.validateMissingVariables.
    rewrite (@for_each_throws _ _ _ _ _ message); [reflexivity| |].
    + intros k _. destruct (map_has _ k); [now left|right].
      now rewrite (@shouldIgnoreVariable_throws bad rest k message Hbad).
    + apply forallb_false in Em as (k & Hk & Ek). exists k. split; [exact Hk|].
      now rewrite Ek, (@shouldIgnoreVariable_throws bad rest k message Hbad).
Qed.

End BadPattern.

(** X28.  An ignore pattern that does not compile.  The patterns are
    compiled anew for each key that is missing or unused, the first
    pattern first, and for no other key.  So when the first pattern does
    not compile, the example validator throws as soon as the two files
    differ in their keys, and returns what it returns without any pattern
    when they do not; a run of the orchestrator in example mode then ends
    with one error that carries the message of the compiler. *)
Theorem bad_ignore_pattern `{Host} bad rest message :
  RegExp_new bad = Throw message ->
  (forall ex vars t,
      ExampleValidator.validate ex (bad :: rest) vars t
      = if sameKeys ex vars then ExampleValidator.validate ex [] vars t
        else (Throw message, S t))
  /\ (forall cfg content ex t,
         JS.truthyOpt (cfg_schemaFile cfg) = false ->
         readFileSync (envFileOf cfg) = Ok content ->
         parseErrors (EnvParser.parseContent content) = [] ->
         readFileSync (exampleFileOf cfg) = Ok ex ->
         parseErrors (EnvParser.parseContent ex) = [] ->
         cfg_ignorePatterns cfg = Some (bad :: rest) ->
         sameKeys (variables (EnvParser.parseContent ex))
                  (variables (EnvParser.parseContent content)) = false ->
         EnvGuardValidator.validate cfg t
         = (Ok (failureResult ("Validation failed: " ++ message)
                              (Date_now (S (S t)) - Date_now t)), S (S (S t)))).
Proof.
  intro Hbad. split.
  - intros ex vars t. now apply bad_pattern_run.
  - intros cfg content ex t Hs Hread Hclean Hex Hexclean Hi Hk.
    rewrite (validate_clean cfg t Hread Hclean).
    destruct (example_mode cfg Hs) as (cfg' & -> & Ht & Ef & Ei & _).
    unfold EnvGuardValidator.validateWithExample, EnvParser.parseFile,
      EnvGuardValidator.variablesOf.
    rewrite Ht, Ef, Hex, Ei, Hi. unfold bind, lift, try_catch. cbn [negb]. rewrite Hexclean.
    cbn [orElseList]. rewrite (@bad_pattern_run _ _ bad rest _ message (S t) Hbad), Hk. reflexivity.
Qed.

(** The sample file [good.env] has a key that the sample example has
    not, and the sample platform compiles no pattern. *)
Lemma bad_ignore_pattern_witness :
  EnvGuardValidator.validate (H:=Sample.host)
    (mkConfig None None (Some ("good.env" : str)) None None (Some [("(" : str)])
              None None None None) 0
  = (Ok (failureResult "Validation failed: Invalid regular expression" 2), 3).
Proof.
  refine (proj2 (@bad_ignore_pattern Sample.host "(" [] "Invalid regular expression" eq_refl)
            (mkConfig None None (Some ("good.env" : str)) None None (Some [("(" : str)])
                      None None None None)
            Sample.goodText Sample.exampleText 0 eq_refl eq_refl _ eq_refl _ eq_refl _);
    vm_compute; reflexivity.
Defined.
